(** * RISC-V64 code-generation layer: stubs, adapters and calling conventions

    The C++ sources are code generators: every [__ insn(...)] appends one
    instruction to the code buffer of a [MacroAssembler].  They are embedded
    here as functions in a generator monad [Gen] that appends to a list of
    instructions and hands out fresh labels, one Rocq line per C++ line.  The
    properties of the generated code are then stated over an executable
    machine model ([exec], [run]) of the emitted instructions. *)

From Stdlib Require Import ZArith List Bool Lia String.
From stdpp Require Import base list.
Import ListNotations.
Local Open Scope Z_scope.

(** ** Registers (register_riscv64.hpp: integer registers x0..x31 and their
    ABI/VM aliases; the header itself is not part of the excerpt). *)

Definition Register := nat.
Definition x0 : Register := 0%nat.
Definition x1 : Register := 1%nat.
Definition x2 : Register := 2%nat.
Definition x3 : Register := 3%nat.
Definition x4 : Register := 4%nat.
Definition x5 : Register := 5%nat.
Definition x6 : Register := 6%nat.
Definition x7 : Register := 7%nat.
Definition x8 : Register := 8%nat.
Definition x9 : Register := 9%nat.
Definition x10 : Register := 10%nat.
Definition x11 : Register := 11%nat.
Definition x12 : Register := 12%nat.
Definition x13 : Register := 13%nat.
Definition x14 : Register := 14%nat.
Definition x15 : Register := 15%nat.
Definition x16 : Register := 16%nat.
Definition x17 : Register := 17%nat.
Definition x18 : Register := 18%nat.
Definition x19 : Register := 19%nat.
Definition x20 : Register := 20%nat.
Definition x21 : Register := 21%nat.
Definition x22 : Register := 22%nat.
Definition x23 : Register := 23%nat.
Definition x24 : Register := 24%nat.
Definition x25 : Register := 25%nat.
Definition x26 : Register := 26%nat.
Definition x27 : Register := 27%nat.
Definition x28 : Register := 28%nat.
Definition x29 : Register := 29%nat.
Definition x30 : Register := 30%nat.
Definition x31 : Register := 31%nat.

Definition zr : Register := x0.
Definition lr : Register := x1.
Definition sp : Register := x2.
Definition t0 : Register := x5.
Definition t1 : Register := x6.
Definition t2 : Register := x7.
Definition fp : Register := x8.
Definition c_rarg0 : Register := x10.
Definition c_rarg1 : Register := x11.
Definition c_rarg2 : Register := x12.
Definition c_rarg3 : Register := x13.
Definition c_rarg4 : Register := x14.
Definition c_rarg5 : Register := x15.
Definition c_rarg6 : Register := x16.
Definition c_rarg7 : Register := x17.
(* "The Java calling convention is a shifted version of the C ABI." *)
Definition j_rarg0 : Register := c_rarg1.
Definition j_rarg1 : Register := c_rarg2.
Definition j_rarg2 : Register := c_rarg3.
Definition j_rarg3 : Register := c_rarg4.
Definition j_rarg4 : Register := c_rarg5.
Definition j_rarg5 : Register := c_rarg6.
Definition j_rarg6 : Register := c_rarg7.
Definition j_rarg7 : Register := c_rarg0.
Definition esp : Register := x20.
Definition xdispatch : Register := x21.
Definition xbcp : Register := x22.
Definition xthread : Register := x23.
Definition xlocals : Register := x24.
Definition xcpool : Register := x26.
Definition xheapbase : Register := x27.
Definition xmethod : Register := x31.

Definition wordSize : Z := 8.

(** ** The instruction-encoding primitive

    The assembler is an external primitive of the generators ("emit
    instruction X with operands Y"); an emitted instruction is a value of
    [instr].  [Ibind] marks the place where a label is bound. *)

Definition Label := nat.

Inductive target :=
| TLabel (l : Label)          (* a Label of the generator *)
| TAddr (a : nat)             (* an address inside the code buffer *)
| TRuntime (name : string).   (* RuntimeAddress outside of the buffer *)

Record Address := mkAddress { base : Register; offset : Z }.

Inductive width := W1 | W2 | W4 | W8.

Definition bytes_of (w : width) : Z :=
  match w with W1 => 1 | W2 => 2 | W4 => 4 | W8 => 8 end.

Inductive operand := OReg (r : Register) | OImm (i : Z).

Inductive alu := Add | Sub | Xor | And | Or | Sll | Srl | Addw.

Inductive cmp := Ceq | Cne | Clt | Cge | Cgt | Cle | Cltu | Cgeu | Cgtu | Cleu.

(** DecoratorSet (accessDecorators.hpp): a set of named access flags. *)
Inductive Decorator :=
| IN_HEAP | IS_ARRAY | ARRAYCOPY_DISJOINT | ARRAYCOPY_ALIGNED | ARRAYCOPY_CHECKCAST
| IS_DEST_UNINITIALIZED | AS_RAW.
Definition DecoratorSet := list Decorator.

(** Macro instructions of MacroAssembler, InterpreterMacroAssembler and
    BarrierSetAssembler whose expansion is outside of the excerpt. *)
Inductive macro :=
| Menter | Mleave | Mret
| Mpush_reg (rs : list Register) | Mpop_reg (rs : list Register)
| Mstop (msg : string)
| Malign
| Mmembar (kind : string)
| Mfar_jump (name : string)
| Mcall_VM (entry : string) (args : list Register)
| Mcall_VM_leaf (entry : string) (args : list Register)
| Marraycopy_prologue (decorators : DecoratorSet) (is_oop : bool) (src dst count : Register)
| Marraycopy_epilogue (decorators : DecoratorSet) (is_oop : bool) (start count : Register)
| Mload_heap_oop (rd : Register) (a : Address)
| Mstore_heap_oop (a : Address) (rs : Register)
| Mload_klass (rd rs : Register)
| Mcheck_klass_subtype_fast_path (sub super : Register) (success miss : Label)
| Mcheck_klass_subtype_slow_path (sub super : Register) (success : Label)
| Mverify_oop (r : Register)
| Mdecode_heap_oop (r : Register)
| Mload_byte_map_base (rd : Register)
| Mload_mirror (rd method : Register)
| Mlock_object (r : Register)
| Mother (name : string) (defs : list Register) (exits : list Label) (falls : bool).

Inductive instr :=
| Ibind (l : Label)
| Ialu (op : alu) (rd rs1 : Register) (o : operand)
| Ibranch (c : cmp) (rs1 rs2 : Register) (t : target)
| Ijump (t : target)
| Iload (w : width) (sgn : bool) (rd : Register) (a : Address)
| Istore (w : width) (rs : Register) (a : Address)
| Imacro (m : macro).

Definition program := list instr.

(** ** Machine state *)

Inductive event :=
| EvLoad (w : width) (addr : Z)
| EvStore (w : width) (addr : Z) (v : Z)
| EvCall (name : string) (args : list Z).

Inductive status :=
| Running
| Returned                    (* ret *)
| Exited (name : string)      (* jump to a runtime address, no return *)
| Stopped (msg : string)      (* stop(msg) *)
| Fault.                      (* ran off the code or unbound label *)

Record state := mkState {
  pc : nat;
  regs : Register -> Z;
  mem : Z -> Z;                           (* byte memory *)
  saved : list (list (Register * Z));     (* enter / push_reg save area *)
  trace : list event;                     (* newest event first *)
  stat : status }.

(** What the machine takes from the running VM. *)
Record env := mkEnv {
  heap_oop_width : width;                 (* UseCompressedOops ? 4 : 8 *)
  klass_of : Z -> Z;                      (* load_klass *)
  subtype_fast : Z -> Z -> option bool;   (* fast path: hit, miss or undecided *)
  subtype_slow : Z -> Z -> bool;          (* slow path: hit or not *)
  byte_map_base : Z;
  mirror_of : Z -> Z;
  havoc : string -> Register -> Z -> Z;   (* value an opaque macro leaves in a register *)
  choice : string -> (Register -> Z) -> option nat }. (* which exit label it takes *)

Definition two64 : Z := 2 ^ 64.
Definition wrap (x : Z) : Z := x mod two64.
Definition signed (x : Z) : Z := if x <? 2 ^ 63 then x else x - two64.
Definition sext32 (x : Z) : Z :=
  let y := x mod 2 ^ 32 in if y <? 2 ^ 31 then y else wrap (y - 2 ^ 32).

Definition getr (rf : Register -> Z) (r : Register) : Z :=
  if Nat.eqb r 0 then 0 else rf r.
Definition setr (r : Register) (v : Z) (rf : Register -> Z) : Register -> Z :=
  fun r' => if Nat.eqb r' r then v else rf r'.

(** Little-endian loads and stores on the byte memory. *)
Fixpoint load_bytes (n : nat) (a : Z) (m : Z -> Z) : Z :=
  match n with
  | O => 0
  | S k => m (wrap a) mod 256 + 256 * load_bytes k (a + 1) m
  end.

Fixpoint store_bytes (n : nat) (a : Z) (v : Z) (m : Z -> Z) : Z -> Z :=
  match n with
  | O => m
  | S k => store_bytes k (a + 1) (v / 256)
             (fun x => if x =? wrap a then v mod 256 else m x)
  end.

Definition nbytes (w : width) : nat :=
  match w with W1 => 1 | W2 => 2 | W4 => 4 | W8 => 8 end%nat.

Definition load (w : width) (a : Z) (m : Z -> Z) : Z := load_bytes (nbytes w) a m.
Definition store (w : width) (a : Z) (v : Z) (m : Z -> Z) : Z -> Z :=
  store_bytes (nbytes w) a v m.

Definition sext (w : width) (v : Z) : Z :=
  let half := 2 ^ (8 * bytes_of w - 1) in
  if v <? half then v else wrap (v - 2 * half).

Definition eval_operand (rf : Register -> Z) (o : operand) : Z :=
  match o with OReg r => getr rf r | OImm i => wrap i end.

Definition eval_alu (op : alu) (a b : Z) : Z :=
  match op with
  | Add => wrap (a + b)
  | Sub => wrap (a - b)
  | Xor => Z.lxor a b
  | And => Z.land a b
  | Or => Z.lor a b
  | Sll => wrap (Z.shiftl a (b mod 64))
  | Srl => Z.shiftr a (b mod 64)
  | Addw => sext32 (a + b)
  end.

Definition eval_cmp (c : cmp) (a b : Z) : bool :=
  match c with
  | Ceq => a =? b
  | Cne => negb (a =? b)
  | Clt => signed a <? signed b
  | Cge => signed b <=? signed a
  | Cgt => signed b <? signed a
  | Cle => signed a <=? signed b
  | Cltu => a <? b
  | Cgeu => b <=? a
  | Cgtu => b <? a
  | Cleu => a <=? b
  end.

Fixpoint label_pos (p : program) (l : Label) : option nat :=
  match p with
  | [] => None
  | Ibind l' :: q => if Nat.eqb l' l then Some O else option_map S (label_pos q l)
  | _ :: q => option_map S (label_pos q l)
  end.

Definition next (st : state) : state :=
  mkState (S (pc st)) (regs st) (mem st) (saved st) (trace st) (stat st).
Definition halt (s : status) (st : state) : state :=
  mkState (pc st) (regs st) (mem st) (saved st) (trace st) s.
Definition goto (p : program) (t : target) (st : state) : state :=
  match t with
  | TLabel l =>
      match label_pos p l with
      | Some n => mkState n (regs st) (mem st) (saved st) (trace st) (stat st)
      | None => halt Fault st
      end
  | TAddr a => mkState a (regs st) (mem st) (saved st) (trace st) (stat st)
  | TRuntime name => halt (Exited name) st
  end.
Definition write (r : Register) (v : Z) (st : state) : state :=
  mkState (pc st) (setr r v (regs st)) (mem st) (saved st) (trace st) (stat st).
Definition log (e : event) (st : state) : state :=
  mkState (pc st) (regs st) (mem st) (saved st) (e :: trace st) (stat st).
Definition poke (w : width) (a v : Z) (st : state) : state :=
  mkState (pc st) (regs st) (store w a v (mem st)) (saved st)
          (EvStore w a v :: trace st) (stat st).
Definition addr_of (a : Address) (st : state) : Z :=
  wrap (getr (regs st) (base a) + offset a).
#[global] Arguments addr_of _ _ /.

Definition save_regs (rs : list Register) (st : state) : state :=
  mkState (pc st) (regs st) (mem st)
          (map (fun r => (r, getr (regs st) r)) rs :: saved st) (trace st) (stat st).
Definition restore_regs (st : state) : state :=
  match saved st with
  | [] => halt Fault st
  | fr :: rest =>
      mkState (pc st) (fold_right (fun rv rf => setr (fst rv) (snd rv) rf) (regs st) fr)
              (mem st) rest (trace st) (stat st)
  end.

Definition exec_macro (e : env) (p : program) (m : macro) (st : state) : state :=
  match m with
  | Menter => next (save_regs [lr; fp] st)
  | Mleave => next (restore_regs st)
  | Mret => halt Returned st
  | Mpush_reg rs => next (save_regs rs st)
  | Mpop_reg _ => next (restore_regs st)
  | Mstop msg => halt (Stopped msg) st
  | Malign => next st
  | Mmembar kind => next (log (EvCall kind []) st)
  | Mfar_jump name => halt (Exited name) st
  | Mcall_VM entry args =>
      next (log (EvCall entry (map (getr (regs st)) args)) st)
  | Mcall_VM_leaf entry args =>
      next (log (EvCall entry (map (getr (regs st)) args)) st)
  | Marraycopy_prologue dec is_oop s d c =>
      next (log (EvCall "arraycopy_prologue"
                   [getr (regs st) s; getr (regs st) d; getr (regs st) c]) st)
  | Marraycopy_epilogue dec is_oop s c =>
      next (log (EvCall "arraycopy_epilogue"
                   [getr (regs st) s; getr (regs st) c]) st)
  | Mload_heap_oop rd a =>
      let w := heap_oop_width e in
      let ad := addr_of a st in
      next (write rd (load w ad (mem st)) (log (EvLoad w ad) st))
  | Mstore_heap_oop a rs =>
      next (poke (heap_oop_width e) (addr_of a st) (getr (regs st) rs) st)
  | Mload_klass rd rs => next (write rd (klass_of e (getr (regs st) rs)) st)
  | Mcheck_klass_subtype_fast_path sub super success miss =>
      match subtype_fast e (getr (regs st) sub) (getr (regs st) super) with
      | Some true => goto p (TLabel success) st
      | Some false => goto p (TLabel miss) st
      | None => next st
      end
  | Mcheck_klass_subtype_slow_path sub super success =>
      if subtype_slow e (getr (regs st) sub) (getr (regs st) super)
      then goto p (TLabel success) st else next st
  | Mverify_oop r => next st
  | Mdecode_heap_oop r => next st
  | Mload_byte_map_base rd => next (write rd (byte_map_base e) st)
  | Mload_mirror rd method => next (write rd (mirror_of e (getr (regs st) method)) st)
  | Mlock_object r => next (log (EvCall "lock_object" [getr (regs st) r]) st)
  | Mother name defs exits falls =>
      let st' := fold_right (fun r s => write r (havoc e name r (getr (regs st) r)) s)
                            (log (EvCall name []) st) defs in
      match choice e name (regs st) ≫= (exits !!.) with
      | Some l => goto p (TLabel l) st'
      | None => if falls then next st' else halt (Exited name) st'
      end
  end.

Definition exec (e : env) (p : program) (i : instr) (st : state) : state :=
  match i with
  | Ibind _ => next st
  | Ialu op rd rs1 o =>
      next (write rd (eval_alu op (getr (regs st) rs1) (eval_operand (regs st) o)) st)
  | Ibranch c rs1 rs2 t =>
      if eval_cmp c (getr (regs st) rs1) (getr (regs st) rs2) then goto p t st else next st
  | Ijump t => goto p t st
  | Iload w sgn rd a =>
      let ad := addr_of a st in
      let v := load w ad (mem st) in
      next (write rd (if sgn then sext w v else v) (log (EvLoad w ad) st))
  | Istore w rs a => next (poke w (addr_of a st) (getr (regs st) rs) st)
  | Imacro m => exec_macro e p m st
  end.

Definition step (e : env) (p : program) (st : state) : state :=
  match stat st with
  | Running =>
      match nth_error p (pc st) with
      | Some i => exec e p i st
      | None => halt Fault st
      end
  | _ => st
  end.

Fixpoint run (fuel : nat) (e : env) (p : program) (st : state) : state :=
  match fuel with
  | O => st
  | S n => run n e p (step e p st)
  end.

(** ** The generator monad: the MacroAssembler's code buffer

    [emit] appends to the buffer, [new_label] is the declaration of a C++
    [Label], [cur_pc] is [__ pc()], and a generator fails where the C++ runs
    into [ShouldNotReachHere()]. *)

Record asm := mkAsm { code : program; labels : nat }.

Definition Gen (A : Type) : Type := asm -> option (A * asm).

#[export] Instance gen_ret : MRet Gen := fun A a s => Some (a, s).
#[export] Instance gen_bind : MBind Gen := fun A B f g s =>
  match g s with
  | Some (a, s') => f a s'
  | None => None
  end.

Definition emit (i : instr) : Gen unit :=
  fun s => Some (tt, mkAsm (code s ++ [i]) (labels s)).
Definition new_label : Gen Label :=
  fun s => Some (labels s, mkAsm (code s) (S (labels s))).
Definition cur_pc : Gen nat := fun s => Some (length (code s), s).
Definition ShouldNotReachHere {A : Type} : Gen A := fun _ => None.
Definition when (b : bool) (g : Gen unit) : Gen unit := if b then g else mret tt.
Definition assemble {A : Type} (g : Gen A) : option program :=
  match g (mkAsm [] 0) with
  | Some (_, s) => Some (code s)
  | None => None
  end.
Definition assembled {A : Type} (g : Gen A) : program :=
  match assemble g with Some p => p | None => [] end.
Definition result {A : Type} (g : Gen A) : option A :=
  match g (mkAsm [] 0) with
  | Some (a, _) => Some a
  | None => None
  end.

(** MacroAssembler entry points, under their source names.  The C++
    overloads on register / immediate operands get a suffix [_imm]. *)
Definition Addr (b : Register) (off : Z) : Address := mkAddress b off.
Definition bind (l : Label) : Gen unit := emit (Ibind l).
Definition beqz (r : Register) (l : Label) := emit (Ibranch Ceq r zr (TLabel l)).
Definition bnez (r : Register) (l : Label) := emit (Ibranch Cne r zr (TLabel l)).
Definition bgez (r : Register) (l : Label) := emit (Ibranch Cge r zr (TLabel l)).
Definition bltz (r : Register) (l : Label) := emit (Ibranch Clt r zr (TLabel l)).
Definition bgtz (r : Register) (l : Label) := emit (Ibranch Cgt r zr (TLabel l)).
Definition blez (r : Register) (l : Label) := emit (Ibranch Cle r zr (TLabel l)).
Definition beq (a b : Register) (l : Label) := emit (Ibranch Ceq a b (TLabel l)).
Definition blt (a b : Register) (l : Label) := emit (Ibranch Clt a b (TLabel l)).
Definition bltu (a b : Register) (l : Label) := emit (Ibranch Cltu a b (TLabel l)).
Definition bgeu (a b : Register) (l : Label) := emit (Ibranch Cgeu a b (TLabel l)).
Definition bgeu_addr (a b : Register) (t : nat) := emit (Ibranch Cgeu a b (TAddr t)).
Definition bgtu (a b : Register) (l : Label) := emit (Ibranch Cgtu a b (TLabel l)).
Definition bleu (a b : Register) (l : Label) := emit (Ibranch Cleu a b (TLabel l)).
Definition j (l : Label) := emit (Ijump (TLabel l)).
Definition jal (l : Label) := emit (Ijump (TLabel l)).
Definition add (rd a b : Register) := emit (Ialu Add rd a (OReg b)).
Definition add_imm (rd a : Register) (i : Z) := emit (Ialu Add rd a (OImm i)).
Definition addi (rd a : Register) (i : Z) := emit (Ialu Add rd a (OImm i)).
Definition addw (rd a b : Register) := emit (Ialu Addw rd a (OReg b)).
Definition addw_imm (rd a : Register) (i : Z) := emit (Ialu Addw rd a (OImm i)).
Definition addiw (rd a : Register) (i : Z) := emit (Ialu Addw rd a (OImm i)).
Definition sub (rd a b : Register) := emit (Ialu Sub rd a (OReg b)).
Definition sub_imm (rd a : Register) (i : Z) := emit (Ialu Sub rd a (OImm i)).
Definition xorr (rd a b : Register) := emit (Ialu Xor rd a (OReg b)).
Definition xori (rd a : Register) (i : Z) := emit (Ialu Xor rd a (OImm i)).
Definition andi (rd a : Register) (i : Z) := emit (Ialu And rd a (OImm i)).
Definition slli (rd a : Register) (i : Z) := emit (Ialu Sll rd a (OImm i)).
Definition srli (rd a : Register) (i : Z) := emit (Ialu Srl rd a (OImm i)).
Definition mv (rd rs : Register) := emit (Ialu Add rd rs (OImm 0)).
Definition mv_imm (rd : Register) (i : Z) := emit (Ialu Add rd zr (OImm i)).
Definition la (rd : Register) (a : Address) := emit (Ialu Add rd (base a) (OImm (offset a))).
Definition ld (rd : Register) (a : Address) := emit (Iload W8 false rd a).
Definition lw (rd : Register) (a : Address) := emit (Iload W4 true rd a).
Definition lwu (rd : Register) (a : Address) := emit (Iload W4 false rd a).
Definition lhu (rd : Register) (a : Address) := emit (Iload W2 false rd a).
Definition lbu (rd : Register) (a : Address) := emit (Iload W1 false rd a).
Definition sd (rs : Register) (a : Address) := emit (Istore W8 rs a).
Definition sw (rs : Register) (a : Address) := emit (Istore W4 rs a).
Definition sh (rs : Register) (a : Address) := emit (Istore W2 rs a).
Definition sb (rs : Register) (a : Address) := emit (Istore W1 rs a).
(* the three-argument forms (Rd, adr, temp) used through [copy_insn] *)
Definition ld_t (rd : Register) (a : Address) (temp : Register) := ld rd a.
Definition lwu_t (rd : Register) (a : Address) (temp : Register) := lwu rd a.
Definition lhu_t (rd : Register) (a : Address) (temp : Register) := lhu rd a.
Definition lbu_t (rd : Register) (a : Address) (temp : Register) := lbu rd a.
Definition sd_t (rs : Register) (a : Address) (temp : Register) := sd rs a.
Definition sw_t (rs : Register) (a : Address) (temp : Register) := sw rs a.
Definition sh_t (rs : Register) (a : Address) (temp : Register) := sh rs a.
Definition sb_t (rs : Register) (a : Address) (temp : Register) := sb rs a.

Definition enter := emit (Imacro Menter).
Definition leave := emit (Imacro Mleave).
Definition ret := emit (Imacro Mret).
Definition push_reg (rs : list Register) (stack : Register) := emit (Imacro (Mpush_reg rs)).
Definition pop_reg (rs : list Register) (stack : Register) := emit (Imacro (Mpop_reg rs)).
Definition stop (msg : string) := emit (Imacro (Mstop msg)).
Definition align := emit (Imacro Malign).
Definition membar (kind : string) := emit (Imacro (Mmembar kind)).
Definition far_jump (name : string) := emit (Imacro (Mfar_jump name)).
Definition call_VM (entry : string) (args : list Register) :=
  emit (Imacro (Mcall_VM entry args)).
Definition call_VM_leaf (entry : string) (args : list Register) :=
  emit (Imacro (Mcall_VM_leaf entry args)).
Definition load_heap_oop (rd : Register) (a : Address) := emit (Imacro (Mload_heap_oop rd a)).
Definition store_heap_oop (a : Address) (rs : Register) := emit (Imacro (Mstore_heap_oop a rs)).
Definition load_klass (rd rs : Register) := emit (Imacro (Mload_klass rd rs)).
Definition check_klass_subtype_fast_path (sub super : Register) (success miss : Label) :=
  emit (Imacro (Mcheck_klass_subtype_fast_path sub super success miss)).
Definition check_klass_subtype_slow_path (sub super : Register) (success : Label) :=
  emit (Imacro (Mcheck_klass_subtype_slow_path sub super success)).
Definition verify_oop (r : Register) := emit (Imacro (Mverify_oop r)).
Definition decode_heap_oop (r : Register) := emit (Imacro (Mdecode_heap_oop r)).
Definition load_byte_map_base (rd : Register) := emit (Imacro (Mload_byte_map_base rd)).
Definition load_mirror (rd method : Register) := emit (Imacro (Mload_mirror rd method)).
Definition lock_object (r : Register) := emit (Imacro (Mlock_object r)).
Definition other (name : string) (defs : list Register) (exits : list Label) (falls : bool) :=
  emit (Imacro (Mother name defs exits falls)).

(** Build flags and VM options the generators branch on. *)
Record vm_flags := mkFlags {
  PRODUCT : bool;
  ASSERT : bool;
  UseCompressedOops : bool;
  VerifyOops : bool;
  TieredCompilation : bool;
  ProfileInterpreter : bool;
  UseStackBanging : bool;
  UseShenandoahGC : bool;    (* INCLUDE_SHENANDOAHGC && UseShenandoahGC *)
  inc_counter : bool }.      (* UseCompiler || CountCompiledCalls || LogTouchedMethods *)


Definition uabs (n : Z) : Z := Z.abs n.
Definition exact_log2 (n : Z) : Z := Z.log2 n.

(** Layout constants of the VM that the generators read (offsets, sizes and
    bit masks declared in headers outside of the excerpt). *)
Record vm_layout := mkLayout {
  sco_offset : Z;                      (* Klass::super_check_offset_offset() *)
  checkcast_array_copy_ctr : Z;        (* &SharedRuntime::_checkcast_array_copy_ctr *)
  page_size : Z;                       (* os::vm_page_size() *)
  n_shadow_pages : nat;                (* stack_shadow_zone_size() / vm_page_size() *)
  interpreter_frame_monitor_size : Z;  (* frame::interpreter_frame_monitor_size() *)
  interpreter_frame_initial_sp_offset : Z;
  interpreter_frame_monitor_block_top_offset : Z;
  stack_overflow_limit_offset : Z;     (* JavaThread::stack_overflow_limit_offset() *)
  do_not_unlock_if_synchronized_offset : Z;
  access_flags_offset : Z;             (* Method::access_flags_offset() *)
  const_offset : Z;                    (* Method::const_offset() *)
  method_data_offset : Z;              (* Method::method_data_offset() *)
  method_counters_offset : Z;          (* Method::method_counters_offset() *)
  size_of_parameters_offset : Z;       (* ConstMethod::size_of_parameters_offset() *)
  size_of_locals_offset : Z;           (* ConstMethod::size_of_locals_offset() *)
  codes_offset : Z;                    (* ConstMethod::codes_offset() *)
  data_offset : Z;                     (* MethodData::data_offset() *)
  local_offset_in_bytes_0 : Z;         (* Interpreter::local_offset_in_bytes(0) *)
  obj_offset_in_bytes : Z;             (* BasicObjectLock::obj_offset_in_bytes() *)
  interpreter_invocation_counter_offset : Z;
  invocation_counter_offset : Z;       (* MethodCounters:: + InvocationCounter::counter_offset()
      *)
  backedge_counter_offset : Z;
  interpreter_profile_limit_offset : Z;
  interpreter_invocation_limit_offset : Z;
  count_increment : Z;                 (* InvocationCounter::count_increment *)
  count_mask_value : Z;                (* InvocationCounter::count_mask_value *)
  JVM_ACC_SYNCHRONIZED : Z;
  JVM_ACC_STATIC : Z;
  JVM_ACC_NATIVE : Z;
  JVM_ACC_ABSTRACT : Z;
  LogOfHRGrainBytes : Z;               (* HeapRegion::LogOfHRGrainBytes *)
  card_shift : Z;                      (* CardTable::card_shift *)
  g1_young_card_val : Z;               (* G1CardTable::g1_young_card_val() *)
  dirty_card_queue_index_offset : Z;   (* G1ThreadLocalData:: *)
  dirty_card_queue_buffer_offset : Z }.

(** ** stubGenerator_riscv64.cpp: array copy stubs *)

Inductive copy_direction := copy_forwards | copy_backwards.
Definition direction_sign (d : copy_direction) : Z :=
  match d with copy_forwards => 1 | copy_backwards => -1 end.

(** [generate_copy_longs]: bulk copy of [count >= 8] words, eight per
    iteration, with a drain for 4 and 2 words; bit 0 of [count] is left to
    the caller. *)
Definition generate_copy_longs (flags : vm_flags) (start : Label)
    (s d count : Register) (direction : copy_direction) : Gen unit :=
  let unit := wordSize * direction_sign direction in
  let bias := wordSize in
  let tmp_reg0 := x13 in let tmp_reg1 := x14 in let tmp_reg2 := x15 in
  let tmp_reg3 := x16 in let tmp_reg4 := x17 in let tmp_reg5 := x7 in
  let tmp_reg6 := x28 in let tmp_reg7 := x29 in
  again ← new_label; drain ← new_label;
  align;;
  bind start;;
  when (match direction with copy_forwards => true | _ => false end)
    (sub_imm s s bias;;
     sub_imm d d bias);;
  when (ASSERT flags)
    (L ← new_label;
     mv_imm t0 8;;
     emit (Ibranch Cge count t0 (TLabel L));;
     stop "genrate_copy_longs called with < 8 words";;
     bind L);;
  ld tmp_reg0 (Addr s (1 * unit));;
  ld tmp_reg1 (Addr s (2 * unit));;
  ld tmp_reg2 (Addr s (3 * unit));;
  ld tmp_reg3 (Addr s (4 * unit));;
  ld tmp_reg4 (Addr s (5 * unit));;
  ld tmp_reg5 (Addr s (6 * unit));;
  ld tmp_reg6 (Addr s (7 * unit));;
  ld tmp_reg7 (Addr s (8 * unit));;
  addi s s (8 * unit);;

  sub_imm count count 16;;
  bltz count drain;;

  bind again;;

  sd tmp_reg0 (Addr d (1 * unit));;
  sd tmp_reg1 (Addr d (2 * unit));;
  sd tmp_reg2 (Addr d (3 * unit));;
  sd tmp_reg3 (Addr d (4 * unit));;
  sd tmp_reg4 (Addr d (5 * unit));;
  sd tmp_reg5 (Addr d (6 * unit));;
  sd tmp_reg6 (Addr d (7 * unit));;
  sd tmp_reg7 (Addr d (8 * unit));;

  ld tmp_reg0 (Addr s (1 * unit));;
  ld tmp_reg1 (Addr s (2 * unit));;
  ld tmp_reg2 (Addr s (3 * unit));;
  ld tmp_reg3 (Addr s (4 * unit));;
  ld tmp_reg4 (Addr s (5 * unit));;
  ld tmp_reg5 (Addr s (6 * unit));;
  ld tmp_reg6 (Addr s (7 * unit));;
  ld tmp_reg7 (Addr s (8 * unit));;

  addi s s (8 * unit);;
  addi d d (8 * unit);;

  sub_imm count count 8;;
  bgez count again;;

  (* Drain *)
  bind drain;;

  sd tmp_reg0 (Addr d (1 * unit));;
  sd tmp_reg1 (Addr d (2 * unit));;
  sd tmp_reg2 (Addr d (3 * unit));;
  sd tmp_reg3 (Addr d (4 * unit));;
  sd tmp_reg4 (Addr d (5 * unit));;
  sd tmp_reg5 (Addr d (6 * unit));;
  sd tmp_reg6 (Addr d (7 * unit));;
  sd tmp_reg7 (Addr d (8 * unit));;
  addi d d (8 * unit);;

  L1 ← new_label; L2 ← new_label;
  andi t0 count 4;;
  beqz t0 L1;;

  ld tmp_reg0 (Addr s (1 * unit));;
  ld tmp_reg1 (Addr s (2 * unit));;
  ld tmp_reg2 (Addr s (3 * unit));;
  ld tmp_reg3 (Addr s (4 * unit));;
  addi s s (4 * unit);;

  sd tmp_reg0 (Addr d (1 * unit));;
  sd tmp_reg1 (Addr d (2 * unit));;
  sd tmp_reg2 (Addr d (3 * unit));;
  sd tmp_reg3 (Addr d (4 * unit));;
  addi d d (4 * unit);;

  bind L1;;

  when (match direction with copy_forwards => true | _ => false end)
    (addi s s bias;;
     addi d d bias);;

  andi t0 count 2;;
  beqz t0 L2;;
  match direction with
  | copy_backwards =>
      addi s s (2 * unit);;
      ld tmp_reg0 (Addr s 0);;
      ld tmp_reg1 (Addr s wordSize);;
      addi d d (2 * unit);;
      sd tmp_reg0 (Addr d 0);;
      sd tmp_reg1 (Addr d wordSize)
  | copy_forwards =>
      ld tmp_reg0 (Addr s 0);;
      ld tmp_reg1 (Addr s wordSize);;
      addi s s (2 * unit);;
      sd tmp_reg0 (Addr d 0);;
      sd tmp_reg1 (Addr d wordSize);;
      addi d d (2 * unit)
  end;;
  bind L2;;

  ret.

Definition copy_insn := Register -> Address -> Register -> Gen unit.

(** [copy_memory]: "All-singing all-dancing memory copy."  Copies [count]
    units of [|step|] bytes from [s] to [d], backwards when [step < 0]. *)
Definition copy_memory (is_aligned : bool) (s d count tmp : Register) (step : Z)
    : Gen unit :=
  let is_backwards := step <? 0 in
  let granularity := uabs step in
  let src := x30 in let dst := x31 in let cnt := x15 in
  let tmp3 := x16 in let tmp4 := x17 in
  same_aligned ← new_label;
  copy8 ← new_label; copy_small ← new_label; done ← new_label;
  insns ← match granularity with
          | 1 => mret (lbu_t, sb_t)
          | 2 => mret (lhu_t, sh_t)
          | 4 => mret (lwu_t, sw_t)
          | 8 => mret (ld_t, sd_t)
          | _ => ShouldNotReachHere
          end;
  let ld_arr : copy_insn := fst insns in
  let st_arr : copy_insn := snd insns in

  beqz count done;;
  slli cnt count (exact_log2 granularity);;
  (if is_backwards then
     add src s cnt;;
     add dst d cnt
   else
     mv src s;;
     mv dst d);;

  when is_aligned
    (addi tmp cnt (-8);;
     bgez tmp copy8;;
     j copy_small);;

  mv_imm tmp 16;;
  blt cnt tmp copy_small;;

  xorr tmp src dst;;
  andi tmp tmp 7;;
  bnez tmp copy_small;;

  bind same_aligned;;
  andi tmp src 7;;
  beqz tmp copy8;;
  when is_backwards
    (addi src src step;;
     addi dst dst step);;
  ld_arr tmp3 (Addr src 0) t0;;
  st_arr tmp3 (Addr dst 0) t0;;
  when (negb is_backwards)
    (addi src src step;;
     addi dst dst step);;
  addi cnt cnt (- granularity);;
  beqz cnt done;;
  j same_aligned;;

  bind copy8;;
  when is_backwards
    (addi src src (- wordSize);;
     addi dst dst (- wordSize));;
  ld_t tmp3 (Addr src 0) t0;;
  sd_t tmp3 (Addr dst 0) t0;;
  when (negb is_backwards)
    (addi src src wordSize;;
     addi dst dst wordSize);;
  addi cnt cnt (- wordSize);;
  addi tmp4 cnt (-8);;
  bgez tmp4 copy8;;

  beqz cnt done;;

  bind copy_small;;
  when is_backwards
    (addi src src step;;
     addi dst dst step);;
  ld_arr tmp3 (Addr src 0) t0;;
  st_arr tmp3 (Addr dst 0) t0;;
  when (negb is_backwards)
    (addi src src step;;
     addi dst dst step);;
  addi cnt cnt (- granularity);;
  bgtz cnt copy_small;;

  bind done.

(** Scan over array at [a] for [count] oops, verifying each one. *)
Definition verify_oop_array (size : Z) (a count temp : Register) : Gen unit :=
  loop ← new_label; end_ ← new_label;
  mv t1 zr;;
  bind loop;;
  bgeu t1 count end_;;

  slli temp t1 (exact_log2 size);;
  add t0 temp a;;
  (if size =? wordSize then
     ld temp (Addr t0 0);;
     verify_oop temp
   else
     lwu temp (Addr t0 0);;
     decode_heap_oop temp);;
  add_imm t1 t1 size;;
  j loop;;
  bind end_.

Definition arraycopy_prologue (decorators : DecoratorSet) (is_oop : bool)
    (src dst count : Register) (saved_regs : list Register) : Gen unit :=
  emit (Imacro (Marraycopy_prologue decorators is_oop src dst count)).
Definition arraycopy_epilogue (decorators : DecoratorSet) (is_oop : bool)
    (start count tmp : Register) (saved_regs : list Register) : Gen unit :=
  emit (Imacro (Marraycopy_epilogue decorators is_oop start count)).

(** Returns the stub's start address and the no-overlap entry point
    ([*entry = __ pc()]). *)
Definition generate_disjoint_copy (flags : vm_flags) (size : Z) (aligned is_oop : bool)
    (dest_uninitialized : bool) : Gen (nat * nat) :=
  let s := c_rarg0 in let d := c_rarg1 in let count := c_rarg2 in
  let saved_reg := [s; d; count] in
  align;;
  start ← cur_pc;
  enter;;
  entry ← cur_pc;
  let decorators :=
    [IN_HEAP; IS_ARRAY; ARRAYCOPY_DISJOINT]
      ++ (if dest_uninitialized then [IS_DEST_UNINITIALIZED] else [])
      ++ (if aligned then [ARRAYCOPY_ALIGNED] else []) in
  arraycopy_prologue decorators is_oop s d count saved_reg;;
  when is_oop
    (push_reg [d; count] sp);;
  copy_memory aligned s d count t0 size;;
  when is_oop
    (pop_reg [d; count] sp;;
     when (VerifyOops flags)
       (verify_oop_array size d count t2));;
  arraycopy_epilogue decorators is_oop d count t0 [];;
  leave;;
  mv x10 zr;;
  ret;;
  mret (start, entry).

Definition generate_conjoint_copy (flags : vm_flags) (size : Z) (aligned is_oop : bool)
    (nooverlap_target : nat) (dest_uninitialized : bool) : Gen (nat * nat) :=
  let s := c_rarg0 in let d := c_rarg1 in let count := c_rarg2 in
  let saved_regs := [s; d; count] in
  start ← cur_pc;
  enter;;
  entry ← cur_pc;
  (* use fwd copy when (d-s) above_equal (count*size) *)
  sub t0 d s;;
  slli t1 count (exact_log2 size);;
  bgeu_addr t0 t1 nooverlap_target;;
  let decorators :=
    [IN_HEAP; IS_ARRAY]
      ++ (if dest_uninitialized then [IS_DEST_UNINITIALIZED] else [])
      ++ (if aligned then [ARRAYCOPY_ALIGNED] else []) in
  arraycopy_prologue decorators is_oop s d count saved_regs;;
  when is_oop
    (push_reg [d; count] sp);;
  copy_memory aligned s d count t0 (- size);;
  when is_oop
    (pop_reg [d; count] sp;;
     when (VerifyOops flags)
       (verify_oop_array size d count t2));;
  arraycopy_epilogue decorators is_oop d count t0 [];;
  leave;;
  mv x10 zr;;
  ret;;
  mret (start, entry).

(** The pairing of [generate_arraycopy_stubs]: the disjoint stub first, its
    entry handed to the conjoint stub as [nooverlap_target].  Returns the
    start of the conjoint stub. *)
Definition generate_copy_pair (flags : vm_flags) (size : Z) (aligned is_oop : bool)
    (dest_uninitialized : bool) : Gen nat :=
  r ← generate_disjoint_copy flags size aligned is_oop dest_uninitialized;
  let entry := snd r in
  r' ← generate_conjoint_copy flags size aligned is_oop entry dest_uninitialized;
  mret (fst r').

(** Helper for generating a dynamic type check.  Falls through on failure. *)
Definition generate_type_check (sub_klass super_check_offset super_klass : Register)
    (L_success : Label) : Gen unit :=
  L_miss ← new_label;
  check_klass_subtype_fast_path sub_klass super_klass L_success L_miss;;
  check_klass_subtype_slow_path sub_klass super_klass L_success;;
  (* Fall through on failure! *)
  bind L_miss.

Definition inc_counter_np (flags : vm_flags) (counter : Z) : Gen unit :=
  when (negb (PRODUCT flags))
    (mv_imm t1 counter;;
     lwu t0 (Addr t1 0);;
     addiw t0 t0 1;;
     sw t0 (Addr t1 0)).


(** Checkcasting array copy stub.
    Output: x10 == 0 - success; x10 == -1^K - failure, where K is the
    partial transfer count. *)
Definition generate_checkcast_copy (flags : vm_flags) (lay : vm_layout)
    (dest_uninitialized : bool) : Gen (nat * nat) :=
  L_load_element ← new_label; L_store_element ← new_label;
  L_do_card_marks ← new_label; L_done ← new_label; L_done_pop ← new_label;
  let from := c_rarg0 in let to := c_rarg1 in let count := c_rarg2 in
  let ckoff := c_rarg3 in let ckval := c_rarg4 in
  let wb_pre_saved_regs := [c_rarg0; c_rarg1; c_rarg2; c_rarg3; c_rarg4] in
  let wb_post_saved_regs := [count] in
  let count_save := x19 in let start_to := x18 in
  let copied_oop := x7 in let r9_klass := x9 in
  align;;
  start ← cur_pc;
  enter;;
  entry ← cur_pc;

  (* Empty array:  Nothing to do *)
  beqz count L_done;;

  push_reg [x7; x9; x18; x19] sp;;

  when (ASSERT flags)
    (L ← new_label;
     lwu start_to (Addr ckval (sco_offset lay));;
     beq ckoff start_to L;;
     stop "super_check_offset inconsistent";;
     bind L);;

  let decorators :=
    [IN_HEAP; IS_ARRAY; ARRAYCOPY_CHECKCAST; ARRAYCOPY_DISJOINT]
      ++ (if dest_uninitialized then [IS_DEST_UNINITIALIZED] else []) in
  let is_oop := true in
  arraycopy_prologue decorators is_oop from to count wb_pre_saved_regs;;

  (* save the original count *)
  mv count_save count;;

  (* Copy from low to high addresses *)
  mv start_to to;;
  j L_load_element;;

  (* ======== begin loop ======== *)
  align;;

  bind L_store_element;;
  store_heap_oop (Addr to 0) copied_oop;;
  add_imm to to (if UseCompressedOops flags then 4 else 8);;
  sub_imm count count 1;;
  beqz count L_do_card_marks;;

  (* ======== loop entry is here ======== *)
  bind L_load_element;;
  load_heap_oop copied_oop (Addr from 0);;
  add_imm from from (if UseCompressedOops flags then 4 else 8);;
  beqz copied_oop L_store_element;;

  load_klass r9_klass copied_oop;;
  generate_type_check r9_klass ckoff ckval L_store_element;;
  (* ======== end loop ======== *)

  sub count count_save count;;     (* K = partially copied oop count *)
  xori count count (-1);;          (* report (-1^K) to caller *)
  beqz count L_done_pop;;

  bind L_do_card_marks;;
  arraycopy_epilogue decorators is_oop start_to count_save t0 wb_post_saved_regs;;

  bind L_done_pop;;
  pop_reg [x7; x9; x18; x19] sp;;
  inc_counter_np flags (checkcast_array_copy_ctr lay);;

  bind L_done;;
  mv x10 count;;
  leave;;
  ret;;
  mret (start, entry).

(** ** sharedRuntime_riscv64.cpp: calling conventions *)

Inductive BasicType :=
| T_BOOLEAN | T_CHAR | T_FLOAT | T_DOUBLE | T_BYTE | T_SHORT | T_INT | T_LONG
| T_OBJECT | T_ARRAY | T_VOID | T_ADDRESS | T_NARROWOOP | T_METADATA
| T_NARROWKLASS | T_CONFLICT | T_ILLEGAL.

(** VMReg (vmreg.hpp, vmreg_riscv64.hpp; not part of the excerpt): an index
    over 32-bit halves.  "Values less than VMRegImpl::stack0 are registers,
    those above refer to 4-byte stack slots": two halves per integer
    register, then two per floating register, then the stack slots. *)
Definition VMReg := Z.
Definition FloatRegister := nat.
Definition max_gpr : Z := 64.
Definition max_fpr : Z := 128.
Definition stack0 : VMReg := 128.
Definition VMReg_Bad : VMReg := -1.
Definition stack_slot_size : Z := 4.
Definition slots_per_word : Z := 2.

Definition as_VMReg (r : Register) : VMReg := Z.shiftl (Z.of_nat r) 1.
Definition fas_VMReg (f : FloatRegister) : VMReg := Z.shiftl (Z.of_nat f) 1 + max_gpr.
Definition stack2reg (idx : Z) : VMReg := stack0 + idx.
Definition is_stack (v : VMReg) : bool := stack0 <=? v.
Definition is_Register (v : VMReg) : bool := (0 <=? v) && (v <? max_gpr).
Definition is_FloatRegister (v : VMReg) : bool := (max_gpr <=? v) && (v <? max_fpr).
Definition reg2stack (v : VMReg) : Z := v - stack0.
Definition as_Register (v : VMReg) : Register := Z.to_nat (Z.shiftr v 1).
Definition vmreg_next (v : VMReg) : VMReg := v + 1.

Record VMRegPair := mkPair { second : VMReg; first : VMReg }.
Definition set1 (v : VMReg) : VMRegPair := mkPair VMReg_Bad v.
Definition set2 (v : VMReg) : VMRegPair := mkPair (vmreg_next v) v.
Definition set_bad : VMRegPair := mkPair VMReg_Bad VMReg_Bad.
Definition c_farg0 : FloatRegister := 10%nat.
Definition c_farg1 : FloatRegister := 11%nat.
Definition c_farg2 : FloatRegister := 12%nat.
Definition c_farg3 : FloatRegister := 13%nat.
Definition c_farg4 : FloatRegister := 14%nat.
Definition c_farg5 : FloatRegister := 15%nat.
Definition c_farg6 : FloatRegister := 16%nat.
Definition c_farg7 : FloatRegister := 17%nat.
Definition j_farg0 : FloatRegister := c_farg0.
Definition j_farg1 : FloatRegister := c_farg1.
Definition j_farg2 : FloatRegister := c_farg2.
Definition j_farg3 : FloatRegister := c_farg3.
Definition j_farg4 : FloatRegister := c_farg4.
Definition j_farg5 : FloatRegister := c_farg5.
Definition j_farg6 : FloatRegister := c_farg6.
Definition j_farg7 : FloatRegister := c_farg7.

Definition n_int_register_parameters_j : nat := 8.
Definition n_float_register_parameters_j : nat := 8.
Definition n_int_register_parameters_c : nat := 8.
Definition n_float_register_parameters_c : nat := 8.

(** The three cursors and the output array of the convention loops. *)
Record cc_state := mkCC {
  int_args : nat;
  fp_args : nat;
  stk_args : nat;                 (* inc by 2 each time *)
  regs_out : list VMRegPair }.

Definition cc_init (regs : list VMRegPair) : cc_state := mkCC 0 0 0 regs.

(** [regs[i].setN(INT_ArgReg[int_args++]->as_VMReg())] *)
Definition take_int (tbl : list Register) (setN : VMReg -> VMRegPair) (i : nat)
    (st : cc_state) : option cc_state :=
  r ← tbl !! int_args st;
  Some (mkCC (S (int_args st)) (fp_args st) (stk_args st)
             (<[i := setN (as_VMReg r)]> (regs_out st))).
Definition take_fp (tbl : list FloatRegister) (setN : VMReg -> VMRegPair) (i : nat)
    (st : cc_state) : option cc_state :=
  f ← tbl !! fp_args st;
  Some (mkCC (int_args st) (S (fp_args st)) (stk_args st)
             (<[i := setN (fas_VMReg f)]> (regs_out st))).
(** [regs[i].setN(VMRegImpl::stack2reg(stk_args)); stk_args += 2;] *)
Definition take_stack (setN : VMReg -> VMRegPair) (i : nat) (st : cc_state)
    : option cc_state :=
  Some (mkCC (int_args st) (fp_args st) (stk_args st + 2)
             (<[i := setN (stack2reg (Z.of_nat (stk_args st)))]> (regs_out st))).
Definition take_bad (i : nat) (st : cc_state) : option cc_state :=
  Some (mkCC (int_args st) (fp_args st) (stk_args st) (<[i := set_bad]> (regs_out st))).

Definition java_INT_ArgReg : list Register :=
  [j_rarg0; j_rarg1; j_rarg2; j_rarg3; j_rarg4; j_rarg5; j_rarg6; j_rarg7].
Definition java_FP_ArgReg : list FloatRegister :=
  [j_farg0; j_farg1; j_farg2; j_farg3; j_farg4; j_farg5; j_farg6; j_farg7].

(** Body of the loop of [SharedRuntime::java_calling_convention]. *)
Definition java_cc_body (sig_bt : list BasicType) (i : nat) (st : cc_state)
    : option cc_state :=
  t ← sig_bt !! i;
  match t with
  | T_BOOLEAN | T_CHAR | T_BYTE | T_SHORT | T_INT =>
      if (int_args st <? n_int_register_parameters_j)%nat
      then take_int java_INT_ArgReg set1 i st
      else take_stack set1 i st
  | T_VOID => take_bad i st
  | T_LONG | T_OBJECT | T_ARRAY | T_ADDRESS =>
      if (int_args st <? n_int_register_parameters_j)%nat
      then take_int java_INT_ArgReg set2 i st
      else take_stack set2 i st
  | T_FLOAT =>
      if (fp_args st <? n_float_register_parameters_j)%nat
      then take_fp java_FP_ArgReg set1 i st
      else take_stack set1 i st
  | T_DOUBLE =>
      if (fp_args st <? n_float_register_parameters_j)%nat
      then take_fp java_FP_ArgReg set2 i st
      else take_stack set2 i st
  | _ => None                      (* ShouldNotReachHere() *)
  end.

(** [for (int i = from; i < from + n; i++) body] *)
Fixpoint cc_loop (body : nat -> cc_state -> option cc_state) (n : nat) (from : nat)
    (st : cc_state) : option cc_state :=
  match n with
  | O => Some st
  | S k => st' ← body from st; cc_loop body k (S from) st'
  end.

Definition align_up (n a : nat) : nat := (((n + a - 1) / a) * a)%nat.
Definition java_calling_convention (sig_bt : list BasicType) (regs : list VMRegPair)
    (total_args_passed : nat) : option (nat * list VMRegPair) :=
  st ← cc_loop (java_cc_body sig_bt) total_args_passed 0 (cc_init regs);
  Some (align_up (stk_args st) 2, regs_out st).

Definition c_INT_ArgReg : list Register :=
  [c_rarg0; c_rarg1; c_rarg2; c_rarg3; c_rarg4; c_rarg5; c_rarg6; c_rarg7].
Definition c_FP_ArgReg : list FloatRegister :=
  [c_farg0; c_farg1; c_farg2; c_farg3; c_farg4; c_farg5; c_farg6; c_farg7].

(** Body of the loop of [SharedRuntime::c_calling_convention]. *)
Definition c_cc_body (sig_bt : list BasicType) (i : nat) (st : cc_state)
    : option cc_state :=
  t ← sig_bt !! i;
  match t with
  | T_BOOLEAN | T_CHAR | T_BYTE | T_SHORT | T_INT =>
      if (int_args st <? n_int_register_parameters_c)%nat
      then take_int c_INT_ArgReg set1 i st
      else take_stack set1 i st
  | T_LONG | T_OBJECT | T_ARRAY | T_ADDRESS | T_METADATA =>
      if (int_args st <? n_int_register_parameters_c)%nat
      then take_int c_INT_ArgReg set2 i st
      else take_stack set2 i st
  | T_FLOAT =>
      if (fp_args st <? n_float_register_parameters_c)%nat
      then take_fp c_FP_ArgReg set1 i st
      else if (int_args st <? n_int_register_parameters_c)%nat
      then take_int c_INT_ArgReg set1 i st
      else take_stack set1 i st
  | T_DOUBLE =>
      if (fp_args st <? n_float_register_parameters_c)%nat
      then take_fp c_FP_ArgReg set2 i st
      else if (int_args st <? n_int_register_parameters_c)%nat
      then take_int c_INT_ArgReg set2 i st
      else take_stack set2 i st
  | T_VOID => take_bad i st
  | _ => None                      (* ShouldNotReachHere() *)
  end.

Definition c_calling_convention (sig_bt : list BasicType) (regs : list VMRegPair)
    (total_args_passed : nat) : option (nat * list VMRegPair) :=
  st ← cc_loop (c_cc_body sig_bt) total_args_passed 0 (cc_init regs);
  Some (stk_args st, regs_out st).

(** Spec-side counts over a signature prefix: floating arguments, and
    arguments of the integer family (everything that takes an integer
    register first). *)
Definition is_fp_type (t : BasicType) : bool :=
  match t with T_FLOAT | T_DOUBLE => true | _ => false end.
Definition is_int_type (t : BasicType) : bool :=
  match t with
  | T_BOOLEAN | T_CHAR | T_BYTE | T_SHORT | T_INT
  | T_LONG | T_OBJECT | T_ARRAY | T_ADDRESS | T_METADATA => true
  | _ => false
  end.
Definition count_fp (sig : list BasicType) : nat := length (filter (fun t => is_fp_type t = true)
    sig).
Definition count_int (sig : list BasicType) : nat := length (filter (fun t => is_int_type t =
    true) sig).

(** ** sharedRuntime_riscv64.cpp: argument moves of the native wrapper *)

Definition out_preserve_stack_slots : Z := 0.
Definition reg2offset_in (r : VMReg) : Z := (reg2stack r + 4) * stack_slot_size.
Definition reg2offset_out (r : VMReg) : Z :=
  (reg2stack r + out_preserve_stack_slots) * stack_slot_size.

(** "An oop arg. Must pass a handle not the oop itself".  Returns the oop-map
    entry ([map->set_oop]) and what is written to [*receiver_offset]. *)
Definition object_move (oop_handle_offset framesize_in_slots : Z)
    (src dst : VMRegPair) (is_receiver : bool) : Gen (VMReg * option Z) :=
  (* must pass a handle. First figure out the location we use as a handle *)
  let rHandle := if is_stack (first dst) then t1 else as_Register (first dst) in
  r ← (if is_stack (first src) then
         (* Oop is already on the stack as an argument *)
         let offset_in_older_frame := reg2stack (first src) + out_preserve_stack_slots in
         let set_oop := stack2reg (offset_in_older_frame + framesize_in_slots) in
         let receiver_offset :=
           if is_receiver
           then Some ((offset_in_older_frame + framesize_in_slots) * stack_slot_size)
           else None in
         ld t0 (Addr fp (reg2offset_in (first src)));;
         la rHandle (Addr fp (reg2offset_in (first src)));;
         (* conditionally move a NULL *)
         notZero1 ← new_label;
         bnez t0 notZero1;;
         mv rHandle zr;;
         bind notZero1;;
         mret (set_oop, receiver_offset)
       else
         (* Oop is in an a register we must store it to the space we reserve
            on the stack for oop_handles and pass a handle if oop is non-NULL *)
         let rOop := as_Register (first src) in
         let oop_slot :=
           if Nat.eqb rOop j_rarg0 then 0
           else if Nat.eqb rOop j_rarg1 then 1
           else if Nat.eqb rOop j_rarg2 then 2
           else if Nat.eqb rOop j_rarg3 then 3
           else if Nat.eqb rOop j_rarg4 then 4
           else if Nat.eqb rOop j_rarg5 then 5
           else if Nat.eqb rOop j_rarg6 then 6
           else 7 in
         let oop_slot := oop_slot * slots_per_word + oop_handle_offset in
         let offset := oop_slot * stack_slot_size in
         let set_oop := stack2reg oop_slot in
         (* Store oop in handle area, may be NULL *)
         sd rOop (Addr sp offset);;
         let receiver_offset := if is_receiver then Some offset else None in
         (* rOop maybe the same as rHandle *)
         (if Nat.eqb rOop rHandle then
            isZero ← new_label;
            beqz rOop isZero;;
            la rHandle (Addr sp offset);;
            bind isZero
          else
            notZero2 ← new_label;
            la rHandle (Addr sp offset);;
            bnez rOop notZero2;;
            mv rHandle zr;;
            bind notZero2);;
         mret (set_oop, receiver_offset));
  (* If arg is on the stack then place it otherwise it is already in correct reg. *)
  when (is_stack (first dst))
    (sd rHandle (Addr sp (reg2offset_out (first dst))));;
  mret r.

(** ** templateInterpreterGenerator_riscv64.cpp: method entries *)

(** increment invocation count & check for overflow *)
Definition generate_counter_incr (flags : vm_flags) (lay : vm_layout)
    (overflow : Label) (profile_method : option Label)
    (profile_method_continue : Label) : Gen unit :=
  done ← new_label;
  if TieredCompilation flags then
    no_mdo ← new_label;
    when (ProfileInterpreter flags)
      ((* Are we profiling? *)
       ld x10 (Addr xmethod (method_data_offset lay));;
       beqz x10 no_mdo;;
       (* Increment counter in the MDO *)
       other "increment_mask_and_jump" [t0; t1] [overflow] true;;
       j done);;
    bind no_mdo;;
    (* Increment counter in MethodCounters *)
    other "get_method_counters" [t1] [done] true;;
    other "increment_mask_and_jump" [t0; x11] [overflow] true;;
    bind done
  else
    other "get_method_counters" [t1] [done] true;;
    when (ProfileInterpreter flags)
      (lwu x11 (Addr t1 (interpreter_invocation_counter_offset lay));;
       addw_imm x11 x11 1;;
       sw x11 (Addr t1 (interpreter_invocation_counter_offset lay)));;
    (* Update standard invocation counters *)
    lwu x11 (Addr t1 (invocation_counter_offset lay));;
    lwu x10 (Addr t1 (backedge_counter_offset lay));;

    addw_imm x11 x11 (count_increment lay);;
    andi x10 x10 (count_mask_value lay);;

    sw x11 (Addr t1 (invocation_counter_offset lay));;
    addw x10 x10 x11;;

    match profile_method with
    | Some profile_method =>
        when (ProfileInterpreter flags)
          ((* Test to see if we should create a method data oop *)
           ld t1 (Addr xmethod (method_counters_offset lay));;
           lwu t1 (Addr t1 (interpreter_profile_limit_offset lay));;
           blt x10 t1 profile_method_continue;;
           (* if no method data exists, go to profile_method *)
           other "test_method_data_pointer" [t1] [profile_method] true)
    | None => mret tt
    end;;

    ld t1 (Addr xmethod (method_counters_offset lay));;
    lwu t1 (Addr t1 (interpreter_invocation_limit_offset lay));;
    bltu x10 t1 done;;
    j overflow;;
    bind done.

Definition generate_counter_overflow (do_continue : Label) : Gen unit :=
  mv c_rarg1 zr;;
  call_VM "InterpreterRuntime::frequency_counter_overflow" [c_rarg1];;
  j do_continue.

Definition stackElementSize : Z := wordSize.
Definition logStackElementSize : Z := 3.

(** See if we've got enough room on the stack for locals plus overhead
    below JavaThread::stack_overflow_limit().  If not, throw a
    StackOverflowError.
    Args: x13: number of additional locals this frame needs; xmethod.
    Kills: x10. *)
Definition generate_stack_overflow_check (flags : vm_flags) (lay : vm_layout) : Gen unit :=
  let entry_size := interpreter_frame_monitor_size lay * wordSize in
  let overhead_size :=
    - (interpreter_frame_initial_sp_offset lay * wordSize) + entry_size in
  let page_size := page_size lay in
  after_frame_check ← new_label;

  (* see if the frame is greater than one page in size. If so,
     then we need to verify there is enough stack space remaining
     for the additional locals. *)
  mv_imm t0 ((page_size - overhead_size) ÷ stackElementSize);;
  bleu x13 t0 after_frame_check;;

  (* compute sp as if this were going to be the last frame on
     the stack before the red zone *)

  (* locals + overhead, in bytes *)
  mv_imm x10 overhead_size;;
  slli t0 x13 logStackElementSize;;
  add x10 x10 t0;;

  ld t0 (Addr xthread (stack_overflow_limit_offset lay));;

  when (ASSERT flags)
    (limit_okay ← new_label;
     (* Verify that thread stack limit is non-zero. *)
     bnez t0 limit_okay;;
     stop "stack overflow limit is zero";;
     bind limit_okay);;

  (* Add stack limit to locals. *)
  add x10 x10 t0;;

  (* Check against the current stack bottom. *)
  bgtu sp x10 after_frame_check;;

  (* Remove the incoming args, peeling the machine SP back to where it
     was in the caller. *)
  andi sp x30 (-16);;

  (* Use the shared runtime version of the StackOverflowError. *)
  far_jump "StubRoutines::throw_StackOverflowError_entry";;

  (* all done with frame size check *)
  bind after_frame_check.

(** Allocate monitor and lock method (asm interpreter) *)
Definition lock_method (flags : vm_flags) (lay : vm_layout) : Gen unit :=
  let access_flags := Addr xmethod (access_flags_offset lay) in
  let monitor_block_top :=
    Addr fp (interpreter_frame_monitor_block_top_offset lay * wordSize) in
  let entry_size := interpreter_frame_monitor_size lay * wordSize in

  when (ASSERT flags)
    (L ← new_label;
     lwu x10 access_flags;;
     andi t0 x10 (JVM_ACC_SYNCHRONIZED lay);;
     bnez t0 L;;
     stop "method doesn't need synchronization";;
     bind L);;

  (* get synchronization object *)
  done ← new_label;
  lwu x10 access_flags;;
  andi t0 x10 (JVM_ACC_STATIC lay);;
  (* get receiver (assume this is frequent case) *)
  ld x10 (Addr xlocals (local_offset_in_bytes_0 lay));;
  beqz t0 done;;
  load_mirror x10 xmethod;;

  when (ASSERT flags)
    (L ← new_label;
     bnez x10 L;;
     stop "synchronization object is NULL";;
     bind L);;

  bind done;;

  (* add space for monitor & lock *)
  add_imm sp sp (- entry_size);;
  add_imm esp esp (- entry_size);;
  mv t0 esp;;
  sd t0 monitor_block_top;;
  (* store object *)
  sd x10 (Addr esp (obj_offset_in_bytes lay));;
  mv c_rarg1 esp;;
  lock_object c_rarg1.

(** Generate a fixed interpreter frame. *)
Definition generate_fixed_frame (flags : vm_flags) (lay : vm_layout) (native_call : bool)
    : Gen unit :=
  (if native_call then
     add_imm esp sp (- 14 * wordSize);;
     mv xbcp zr;;
     add_imm sp sp (- 14 * wordSize);;
     (* add 2 zero-initialized slots for native calls *)
     sd zr (Addr sp (13 * wordSize));;
     sd zr (Addr sp (12 * wordSize))
   else
     add_imm esp sp (- 12 * wordSize);;
     ld t0 (Addr xmethod (const_offset lay));;
     add_imm xbcp t0 (codes_offset lay);;
     add_imm sp sp (- 12 * wordSize));;
  sd xbcp (Addr sp wordSize);;
  sd esp (Addr sp 0);;

  when (ProfileInterpreter flags)
    (method_data_continue ← new_label;
     ld t0 (Addr xmethod (method_data_offset lay));;
     beqz t0 method_data_continue;;
     la t0 (Addr t0 (data_offset lay));;
     bind method_data_continue);;

  sd xmethod (Addr sp (7 * wordSize));;
  sd (if ProfileInterpreter flags then t0 else zr) (Addr sp (6 * wordSize));;

  (* Get mirror and store it in the frame as GC root for this Method* *)
  (if UseShenandoahGC flags then
     load_mirror x28 xmethod;;
     sd x28 (Addr sp (4 * wordSize))
   else
     load_mirror t0 xmethod;;
     sd t0 (Addr sp (4 * wordSize)));;
  sd zr (Addr sp (5 * wordSize));;

  other "load_constant_pool_cache" [xcpool] [] true;;
  sd xcpool (Addr sp (3 * wordSize));;
  sd xlocals (Addr sp (2 * wordSize));;

  sd lr (Addr sp (11 * wordSize));;
  sd fp (Addr sp (10 * wordSize));;
  la fp (Addr sp (10 * wordSize));;

  (* set sender sp; leave last_sp as null *)
  sd x30 (Addr sp (9 * wordSize));;
  sd zr (Addr sp (8 * wordSize));;

  (* Move SP out of the way *)
  when (negb native_call)
    (other "load_max_stack" [t0] [] true;;
     add_imm t0 t0 (interpreter_frame_monitor_size lay + 2);;
     slli t0 t0 3;;
     sub t0 sp t0;;
     andi sp t0 (-16)).

(** [for (int pages = from; pages <= n_shadow_pages; pages++)], unrolled at
    generation time; [n] is the number of iterations left. *)
Fixpoint bang_pages (lay : vm_layout) (n : nat) (pages : Z) : Gen unit :=
  match n with
  | O => mret tt
  | S k =>
      sub_imm t1 sp (pages * page_size lay);;
      sd zr (Addr t1 0);;
      bang_pages lay k (pages + 1)
  end.

Definition bang_stack_shadow_pages (flags : vm_flags) (lay : vm_layout)
    (native_call : bool) : Gen unit :=
  when (UseStackBanging flags)
    (let start_page := if native_call then n_shadow_pages lay else 1%nat in
     bang_pages lay (S (n_shadow_pages lay) - start_page) (Z.of_nat start_page)).

(** Generic interpreted method entry to (asm) interpreter *)
Definition generate_normal_entry (flags : vm_flags) (lay : vm_layout)
    (synchronized : bool) : Gen nat :=
  entry_point ← cur_pc;

  let constMethod := Addr xmethod (const_offset lay) in
  let access_flags := Addr xmethod (access_flags_offset lay) in
  let size_of_parameters := Addr x13 (size_of_parameters_offset lay) in
  let size_of_locals := Addr x13 (size_of_locals_offset lay) in

  (* get parameter size (always needed) *)
  ld x13 constMethod;;
  lhu x12 size_of_parameters;;

  lhu x13 size_of_locals;;          (* get size of locals in words *)
  sub x13 x13 x12;;                 (* x13 = no. of additional locals *)

  (* see if we've got enough room on the stack for locals plus overhead. *)
  generate_stack_overflow_check flags lay;;

  (* compute beginning of parameters (xlocals) *)
  slli t1 x12 3;;
  add xlocals esp t1;;
  add_imm xlocals xlocals (- wordSize);;

  (* Make room for additional locals *)
  slli t1 x13 3;;
  sub t0 esp t1;;

  (* Padding between locals and fixed part of activation frame to ensure
     SP is always 16-byte aligned. *)
  andi sp t0 (-16);;

  (* allocate space for locals; explicitly initialize locals *)
  exit ← new_label; loop ← new_label;
  blez x13 exit;;
  bind loop;;
  sd zr (Addr t0 0);;
  add_imm t0 t0 wordSize;;
  add_imm x13 x13 (-1);;
  bnez x13 loop;;
  bind exit;;

  (* And the base dispatch table *)
  other "get_dispatch" [xdispatch] [] true;;

  (* initialize fixed part of activation frame *)
  generate_fixed_frame flags lay false;;

  (* make sure method is not native & not abstract *)
  when (ASSERT flags)
    (lwu x10 access_flags;;
     L ← new_label;
     andi t0 x10 (JVM_ACC_NATIVE lay);;
     beqz t0 L;;
     stop "tried to execute native method as non-native";;
     bind L;;
     L ← new_label;
     andi t0 x10 (JVM_ACC_ABSTRACT lay);;
     beqz t0 L;;
     stop "tried to execute abstract method in interpreter";;
     bind L);;

  (* we set the thread local variable _do_not_unlock_if_synchronized to
     true. The remove_activation will check this flag. *)
  let do_not_unlock_if_synchronized :=
    Addr xthread (do_not_unlock_if_synchronized_offset lay) in
  mv_imm t1 1;;
  sb t1 do_not_unlock_if_synchronized;;

  no_mdp ← new_label;
  let mdp := x13 in
  ld mdp (Addr xmethod (method_data_offset lay));;
  beqz mdp no_mdp;;
  add_imm mdp mdp (data_offset lay);;
  other "profile_parameters_type" [x11; x12; x14] [] true;;
  bind no_mdp;;

  (* increment invocation count & check for overflow *)
  invocation_counter_overflow ← new_label;
  profile_method ← new_label;
  profile_method_continue ← new_label;
  when (inc_counter flags)
    (generate_counter_incr flags lay invocation_counter_overflow
                           (Some profile_method) profile_method_continue;;
     when (ProfileInterpreter flags)
       (bind profile_method_continue));;

  continue_after_compile ← new_label;
  bind continue_after_compile;;

  bang_stack_shadow_pages flags lay false;;

  (* reset the _do_not_unlock_if_synchronized flag *)
  sb zr do_not_unlock_if_synchronized;;

  (* check for synchronized methods
     Must happen AFTER invocation_counter check and stack overflow check,
     so method is not locked if overflows. *)
  (if synchronized then
     (* Allocate monitor and lock method *)
     lock_method flags lay
   else
     (* no synchronization necessary *)
     when (ASSERT flags)
       (L ← new_label;
        lwu x10 access_flags;;
        andi t0 x10 (JVM_ACC_SYNCHRONIZED lay);;
        beqz t0 L;;
        stop "method needs synchronization";;
        bind L));;

  (* start execution *)
  when (ASSERT flags)
    (L ← new_label;
     ld t0 (Addr fp (interpreter_frame_monitor_block_top_offset lay * wordSize));;
     beq esp t0 L;;
     stop "broken stack frame setup in interpreter";;
     bind L);;

  (* jvmti support *)
  other "notify_method_entry" [] [] true;;

  other "dispatch_next" [] [] false;;

  (* invocation counter overflow *)
  when (inc_counter flags)
    (when (ProfileInterpreter flags)
       ((* We have decided to profile this method in the interpreter *)
        bind profile_method;;
        call_VM "InterpreterRuntime::profile_method" [];;
        other "set_method_data_pointer_for_bcp" [] [] true;;
        other "get_method" [x11] [] true;;
        jal profile_method_continue);;
     (* Handle overflow of counter and compile method *)
     bind invocation_counter_overflow;;
     generate_counter_overflow continue_after_compile);;

  mret entry_point.

(** ** g1BarrierSetAssembler_riscv64.cpp: the G1 post-write barrier *)

Definition g1_write_barrier_post (lay : vm_layout)
    (store_addr new_val thread tmp tmp2 : Register) : Gen unit :=
  let queue_index := Addr thread (dirty_card_queue_index_offset lay) in
  let buffer := Addr thread (dirty_card_queue_buffer_offset lay) in
  done ← new_label;
  runtime ← new_label;

  (* Does store cross heap regions? *)
  xorr tmp store_addr new_val;;
  srli tmp tmp (LogOfHRGrainBytes lay);;
  beqz tmp done;;

  (* crosses regions, storing NULL? *)
  beqz new_val done;;

  (* storing region crossing non-NULL, is card already dirty? *)
  let card_addr := tmp in

  srli card_addr store_addr (card_shift lay);;

  (* get the address of the card *)
  load_byte_map_base tmp2;;
  add card_addr card_addr tmp2;;
  lbu tmp2 (Addr card_addr 0);;
  mv_imm t0 (g1_young_card_val lay);;
  beq tmp2 t0 done;;

  membar "StoreLoad";;

  lbu tmp2 (Addr card_addr 0);;
  beqz tmp2 done;;

  (* storing a region crossing, non-NULL oop, card is clean.
     dirty card and log. *)
  sb zr (Addr card_addr 0);;

  ld t0 queue_index;;
  beqz t0 runtime;;
  sub_imm t0 t0 wordSize;;
  sd t0 queue_index;;

  ld tmp2 buffer;;
  add t0 tmp2 t0;;
  sd card_addr (Addr t0 0);;
  j done;;

  bind runtime;;
  (* save the live input values *)
  let saved := [store_addr; new_val] in
  push_reg saved sp;;
  call_VM_leaf "G1BarrierSetRuntime::write_ref_field_post_entry" [card_addr; thread];;
  pop_reg saved sp;;

  bind done.

(** * Definitions of the verification *)

(** [steps e p st st']: the machine gets from [st] to [st'] in some number
    of steps. *)
Definition steps (e : env) (p : program) (st st' : state) : Prop :=
  exists n : nat, run n e p st = st'.

(** A code fragment sits at offset [P] of the program. *)
Definition code_at (p : program) (P : nat) (frag : list instr) : Prop :=
  forall k i, nth_error frag k = Some i -> nth_error p (P + k) = Some i.

(** ** The oracle of the copy: the destination range holds the pristine
    source bytes, every other byte is untouched. *)
Definition copied (m0 : Z -> Z) (s d lo hi : Z) : Z -> Z :=
  fun x => if (lo <=? x) && (x <? hi) then m0 (s + (x - d)) else m0 x.

Definition wf_mem (m : Z -> Z) : Prop := forall a, 0 <= m a < 256.

(** What the copy loops know of a machine state. *)
Definition at_copy (st : state) (P : nat) (src dst cnt : Z) (m : Z -> Z)
    (sv : list (list (Register * Z))) (tr : list event) : Prop :=
  pc st = P /\ stat st = Running /\
  getr (regs st) x30 = src /\ getr (regs st) x31 = dst /\ getr (regs st) x15 = cnt /\
  (forall x, mem st x = m x) /\ saved st = sv /\ trace st = tr.

Definition chunk_events (w : width) (m0 : Z -> Z) (sa da : Z) : list event :=
  [EvStore w da (load w sa m0); EvLoad w sa].

(** The accesses of [k] chunks, forward from [sa]/[da] and backward below
    [sa]/[da]; newest event first. *)
Fixpoint fwd_events (w : width) (m0 : Z -> Z) (sa da : Z) (k : nat) (tr : list event)
    : list event :=
  match k with
  | O => tr
  | S k' => fwd_events w m0 (sa + bytes_of w) (da + bytes_of w) k'
              (chunk_events w m0 sa da ++ tr)
  end.

Fixpoint bwd_events (w : width) (m0 : Z -> Z) (sa da : Z) (k : nat) (tr : list event)
    : list event :=
  match k with
  | O => tr
  | S k' => bwd_events w m0 (sa - bytes_of w) (da - bytes_of w) k'
              (chunk_events w m0 (sa - bytes_of w) (da - bytes_of w) ++ tr)
  end.

Definition body_fwd (w : width) : list instr :=
  [Iload w false x16 (Addr x30 0); Istore w x16 (Addr x31 0);
   Ialu Add x30 x30 (OImm (bytes_of w)); Ialu Add x31 x31 (OImm (bytes_of w));
   Ialu Add x15 x15 (OImm (- bytes_of w))].

Definition body_bwd (w : width) : list instr :=
  [Ialu Add x30 x30 (OImm (- bytes_of w)); Ialu Add x31 x31 (OImm (- bytes_of w));
   Iload w false x16 (Addr x30 0); Istore w x16 (Addr x31 0);
   Ialu Add x15 x15 (OImm (- bytes_of w))].

(** The code a generator emits when the next free label is [l0]. *)
Definition emitted {A : Type} (g : Gen A) (l0 : nat) : list instr :=
  match g (mkAsm [] l0) with
  | Some (_, s) => code s
  | None => []
  end.

(** Where a run of [copy_memory] ends up. *)
Definition copy_done (st : state) (P : nat) (m : Z -> Z)
    (sv : list (list (Register * Z))) (tr : list event) : Prop :=
  pc st = P /\ stat st = Running /\ (forall x, mem st x = m x) /\
  saved st = sv /\ trace st = tr.

(** The code from [copy8] to the end of [copy_memory]. *)
Definition tail_fwd (w : width) (L8 Lsm Ldn : Label) : list instr :=
  (Ibind L8 :: body_fwd W8
     ++ [Ialu Add x17 x15 (OImm (-8)); Ibranch Cge x17 zr (TLabel L8)])
  ++ [Ibranch Ceq x15 zr (TLabel Ldn)]
  ++ (Ibind Lsm :: body_fwd w ++ [Ibranch Cgt x15 zr (TLabel Lsm)])
  ++ [Ibind Ldn].

Definition tail_bwd (w : width) (L8 Lsm Ldn : Label) : list instr :=
  (Ibind L8 :: body_bwd W8
     ++ [Ialu Add x17 x15 (OImm (-8)); Ibranch Cge x17 zr (TLabel L8)])
  ++ [Ibranch Ceq x15 zr (TLabel Ldn)]
  ++ (Ibind Lsm :: body_bwd w ++ [Ibranch Cgt x15 zr (TLabel Lsm)])
  ++ [Ibind Ldn].

(** The accesses of a whole [copy_memory] walk: [j] elements to reach
    alignment, [q] words, [k] elements at the end. *)
Definition fwd_walk (w : width) (m0 : Z -> Z) (s d : Z) (j q k : nat) (tr : list event)
    : list event :=
  fwd_events w m0 (s + Z.of_nat j * bytes_of w + 8 * Z.of_nat q)
             (d + Z.of_nat j * bytes_of w + 8 * Z.of_nat q) k
    (fwd_events W8 m0 (s + Z.of_nat j * bytes_of w) (d + Z.of_nat j * bytes_of w) q
       (fwd_events w m0 s d j tr)).

Definition bwd_walk (w : width) (m0 : Z -> Z) (s d : Z) (j q k : nat) (tr : list event)
    : list event :=
  bwd_events w m0 (s - Z.of_nat j * bytes_of w - 8 * Z.of_nat q)
             (d - Z.of_nat j * bytes_of w - 8 * Z.of_nat q) k
    (bwd_events W8 m0 (s - Z.of_nat j * bytes_of w) (d - Z.of_nat j * bytes_of w) q
       (bwd_events w m0 s d j tr)).

Definition walked (walk : nat -> nat -> nat -> list event -> list event) (w : width)
    (aligned : bool) (len : Z) (tr tr' : list event) : Prop :=
  exists j q k : nat,
    Z.of_nat j * bytes_of w + 8 * Z.of_nat q + Z.of_nat k * bytes_of w = len /\
    tr' = walk j q k tr /\
    (aligned = true -> j = O /\ Z.of_nat k * bytes_of w < 8).

(** The oracle of the specification: a naive copy, one element after the
    other, reading the pristine source [m0]. *)
Fixpoint naive_copy (w : width) (m0 : Z -> Z) (s d : Z) (n : nat) (m : Z -> Z) : Z -> Z :=
  match n with
  | O => m
  | S k => store w (d + Z.of_nat k * bytes_of w) (load w (s + Z.of_nat k * bytes_of w) m0)
                 (naive_copy w m0 s d k m)
  end.

(** The two stubs of one element type, laid out as [generate_arraycopy_stubs]
    does, and their entry points. *)
Definition copy_stubs (flags : vm_flags) (w : width) (aligned is_oop dest_uninitialized : bool)
    : program :=
  assembled (generate_copy_pair flags (bytes_of w) aligned is_oop dest_uninitialized).

Definition conjoint_start (flags : vm_flags) (w : width)
    (aligned is_oop dest_uninitialized : bool) : nat :=
  match result (generate_copy_pair flags (bytes_of w) aligned is_oop dest_uninitialized) with
  | Some a => a
  | None => O
  end.

Definition disjoint_entry (flags : vm_flags) (w : width)
    (aligned is_oop dest_uninitialized : bool) : nat :=
  match result (generate_disjoint_copy flags (bytes_of w) aligned is_oop dest_uninitialized) with
  | Some r => snd r
  | None => O
  end.

(** The alignment promise puts three more instructions in front of the
    loops of [copy_memory]. *)
Definition al (aligned : bool) : nat := if aligned then 3%nat else 0%nat.

(** What the stubs add around [copy_memory] for arrays of oops. *)
Definition oop_push (is_oop : bool) : list instr :=
  if is_oop then [Imacro (Mpush_reg [x11; x12])] else [].

Definition oop_pop (is_oop : bool) : list instr :=
  if is_oop then [Imacro (Mpop_reg [x11; x12])] else [].

Definition oo (is_oop : bool) : nat := if is_oop then 1%nat else 0%nat.

Definition stub_exit (decs : DecoratorSet) (is_oop : bool) : list instr :=
  [Imacro (Marraycopy_epilogue decs is_oop x11 x12); Imacro Mleave;
   Ialu Add x10 zr (OImm 0); Imacro Mret].

(** The layout of the part the two stubs share -- prologue hook,
    [copy_memory], epilogue hook, [leave], result 0, [ret] -- at address [E]
    of the program, with [l0] the first label of [copy_memory]. *)
Definition stub_body_at (p : program) (w : width) (aligned is_oop fwd : bool)
    (decs : DecoratorSet) (E l0 : nat) : Prop :=
  code_at p E [Imacro (Marraycopy_prologue decs is_oop x10 x11 x12)] /\
  code_at p (E + 1) (oop_push is_oop) /\
  code_at p (E + 1 + oo is_oop)
          (emitted (copy_memory aligned x10 x11 x12 t0
                      (if fwd then bytes_of w else - bytes_of w)) l0) /\
  label_pos p l0 = Some (E + 1 + oo is_oop + 9 + al aligned)%nat /\
  label_pos p (S l0) = Some (E + 1 + oo is_oop + 19 + al aligned)%nat /\
  label_pos p (S (S l0)) = Some (E + 1 + oo is_oop + 28 + al aligned)%nat /\
  label_pos p (S (S (S l0))) = Some (E + 1 + oo is_oop + 35 + al aligned)%nat /\
  code_at p (E + 1 + oo is_oop + 36 + al aligned) (oop_pop is_oop) /\
  code_at p (E + 1 + oo is_oop + 36 + al aligned + oo is_oop) (stub_exit decs is_oop).

(** The head of the conjoint stub: frame, then the direction test. *)
Definition conjoint_head (w : width) (E : nat) : list instr :=
  [Imacro Menter; Ialu Sub t0 x11 (OReg x10);
   Ialu Sll t1 x12 (OImm (exact_log2 (bytes_of w))); Ibranch Cgeu t0 t1 (TAddr E)].

(** What a run of a copy stub leaves behind. *)
Definition stub_returns (st st' : state) (m : Z -> Z) (sv : list (list (Register * Z)))
    (tr' : list event) : Prop :=
  stat st' = Returned /\ getr (regs st') x10 = 0 /\
  (forall x, mem st' x = m x) /\ saved st' = sv /\
  exists a b, trace st' = EvCall "arraycopy_epilogue" [a; b] :: tr'.

Definition disjoint_decorators (aligned dest_uninitialized : bool) : DecoratorSet :=
  [IN_HEAP; IS_ARRAY; ARRAYCOPY_DISJOINT]
    ++ (if dest_uninitialized then [IS_DEST_UNINITIALIZED] else [])
    ++ (if aligned then [ARRAYCOPY_ALIGNED] else []).

Definition conjoint_decorators (aligned dest_uninitialized : bool) : DecoratorSet :=
  [IN_HEAP; IS_ARRAY]
    ++ (if dest_uninitialized then [IS_DEST_UNINITIALIZED] else [])
    ++ (if aligned then [ARRAYCOPY_ALIGNED] else []).

(** A machine to run examples on. *)
Definition example_env : env :=
  mkEnv W4 (fun o => o) (fun _ _ => None) (fun _ _ => true) 0 (fun o => o)
        (fun _ _ v => v) (fun _ _ => None).

Definition product_flags : vm_flags :=
  mkFlags true false true false true true true false true.

Definition example_regs (a0 a1 a2 : Z) : Register -> Z :=
  fun r => if Nat.eqb r x10 then a0 else if Nat.eqb r x11 then a1
           else if Nat.eqb r x12 then a2 else 0.

(** Memory holding the bytes 1, 2, 3, ... from address 16 up to 32. *)
Definition example_mem : Z -> Z :=
  fun a => if (16 <=? a) && (a <? 32) then a - 15 else 0.

Definition example_call (start : nat) (a0 a1 a2 : Z) : state :=
  mkState start (example_regs a0 a1 a2) example_mem [] [] Running.

(** What a call of the conjoint stub achieves. *)
Definition conjoint_copy_post (e : env) (flags : vm_flags) (w : width)
    (aligned is_oop dest_uninitialized : bool) (st : state) (s d : Z) (n : nat) : Prop :=
  let p := copy_stubs flags w aligned is_oop dest_uninitialized in
  let len := Z.of_nat n * bytes_of w in
  let tr0 := EvCall "arraycopy_prologue" [s; d; Z.of_nat n] :: trace st in
  exists st' tr',
    steps e p st st' /\ stat st' = Returned /\ getr (regs st') x10 = 0 /\
    (forall x, mem st' x = naive_copy w (mem st) s d n (mem st) x) /\
    (exists a b, trace st' = EvCall "arraycopy_epilogue" [a; b] :: tr') /\
    if len <=? wrap (d - s)
    then (exists st1, steps e p st st1 /\
                      pc st1 = disjoint_entry flags w aligned is_oop dest_uninitialized /\
                      stat st1 = Running /\ steps e p st1 st') /\
         walked (fwd_walk w (mem st) s d) w aligned len tr0 tr'
    else walked (bwd_walk w (mem st) (s + len) (d + len)) w aligned len tr0 tr'.

Definition disjoint_start (flags : vm_flags) (w : width)
    (aligned is_oop dest_uninitialized : bool) : nat :=
  match result (generate_disjoint_copy flags (bytes_of w) aligned is_oop dest_uninitialized) with
  | Some r => fst r
  | None => O
  end.

(** The loop at a label: the code from its [bind] to the last branch back
    to it. *)
Definition targets (l : Label) (i : instr) : bool :=
  match i with
  | Ibranch _ _ _ (TLabel l') => Nat.eqb l l'
  | Ijump (TLabel l') => Nat.eqb l l'
  | _ => false
  end.

Fixpoint from_label (l : Label) (c : program) : program :=
  match c with
  | [] => []
  | Ibind l' :: q => if Nat.eqb l l' then q else from_label l q
  | _ :: q => from_label l q
  end.

Fixpoint upto_last (f : instr -> bool) (c : program) : program :=
  match c with
  | [] => []
  | i :: q => match upto_last f q with
              | [] => if f i then [i] else []
              | r => i :: r
              end
  end.

Definition loop_body (p : program) (l : Label) : program :=
  upto_last (targets l) (from_label l p).

Definition is_word_store (i : instr) : bool :=
  match i with Istore W8 _ _ => true | _ => false end.

Definition is_word_load (i : instr) : bool :=
  match i with Iload W8 _ _ _ => true | _ => false end.

Definition words_per_iteration (p : program) (l : Label) : nat :=
  length (filter is_word_store (loop_body p l)).

(** How often a run comes by address [P]. *)
Definition is_running (s : status) : bool :=
  match s with Running => true | _ => false end.

Fixpoint passes (fuel : nat) (e : env) (p : program) (st : state) (P : nat) : nat :=
  match fuel with
  | O => O
  | S k => ((if is_running (stat st) && Nat.eqb (pc st) P then 1 else 0)
            + passes k e p (step e p st) P)%nat
  end.

(** The reading of the specification: the aligned bulk loop moves a block of
    eight words per iteration. *)
Definition block_of_eight (p : program) (copy8 : Label) : Prop :=
  words_per_iteration p copy8 = 8%nat.

(** The labels of the disjoint stub's [copy_memory], the first labels of the
    generated pair. *)
Definition disjoint_copy8 : Label := 1%nat.

Definition disjoint_copy_small : Label := 2%nat.

(** [generate_copy_longs] as the stub generator emits it, and the label of
    its loop. *)
Definition copy_longs_code (flags : vm_flags) (direction : copy_direction) : program :=
  assembled (start ← new_label;
             generate_copy_longs flags start c_rarg0 c_rarg1 t1 direction).

Definition copy_longs_again : Label := 1%nat.

(** A jump or branch that stays in the code [p]. *)
Definition target_inside (p : program) (t : target) : bool :=
  match t with
  | TLabel l => match label_pos p l with Some _ => true | None => false end
  | TAddr a => (a <? length p)%nat
  | TRuntime _ => false
  end.

Definition jumps_inside (p : program) (i : instr) : bool :=
  match i with
  | Ibranch _ _ _ t => target_inside p t
  | Ijump t => target_inside p t
  | Imacro (Mfar_jump _) => false
  | _ => true
  end.

(** What a call of the disjoint stub with the alignment promise achieves:
    [q] words, one load and one store each, then [k] elements. *)
Definition disjoint_aligned_post (e : env) (flags : vm_flags) (w : width)
    (is_oop dest_uninitialized : bool) (st : state) (s d : Z) (n : nat) : Prop :=
  let p := copy_stubs flags w true is_oop dest_uninitialized in
  let len := Z.of_nat n * bytes_of w in
  let tr0 := EvCall "arraycopy_prologue" [s; d; Z.of_nat n] :: trace st in
  words_per_iteration p disjoint_copy8 = 1%nat /\
  loop_body p disjoint_copy_small
  = body_fwd w ++ [Ibranch Cgt x15 zr (TLabel disjoint_copy_small)] /\
  exists st' (q k : nat),
    steps e p st st' /\ stat st' = Returned /\ getr (regs st') x10 = 0 /\
    (forall x, mem st' x = naive_copy w (mem st) s d n (mem st) x) /\
    len = 8 * Z.of_nat q + Z.of_nat k * bytes_of w /\
    Z.of_nat k * bytes_of w < 8 /\
    exists a b,
      trace st' = EvCall "arraycopy_epilogue" [a; b]
                    :: fwd_events w (mem st) (s + 8 * Z.of_nat q) (d + 8 * Z.of_nat q) k
                         (fwd_events W8 (mem st) s d q tr0).

Definition checkcast_stub (flags : vm_flags) (lay : vm_layout) (dest_uninitialized : bool)
    : program :=
  assembled (generate_checkcast_copy flags lay dest_uninitialized).

Definition checkcast_start (flags : vm_flags) (lay : vm_layout) (dest_uninitialized : bool)
    : nat :=
  match result (generate_checkcast_copy flags lay dest_uninitialized) with
  | Some r => fst r
  | None => O
  end.

(** The labels of [generate_checkcast_copy], in the order of their
    declaration. *)
Definition L_load_element : Label := 0%nat.

Definition L_store_element : Label := 1%nat.

Definition L_do_card_marks : Label := 2%nat.

Definition L_done : Label := 3%nat.

Definition L_done_pop : Label := 4%nat.

(** Where [L_done] is bound: the assertion of debug builds and the counter
    of non-product builds take four instructions each. *)
Definition done_pos (flags : vm_flags) : nat :=
  (29 + (if ASSERT flags then 4 else 0) + (if PRODUCT flags then 0 else 4))%nat.

(** [copy_memory] on its own, as a program. *)
Definition copy_memory_code (aligned : bool) (step : Z) : program :=
  emitted (copy_memory aligned c_rarg0 c_rarg1 c_rarg2 t0 step) 0.

(** What a call with count zero does: nothing to memory, nothing logged. *)
Definition zero_count_post (e : env) (flags : vm_flags) (lay : vm_layout)
    (dest_uninitialized aligned : bool) (step : Z) (st0 st1 : state) : Prop :=
  (let st' := run 6 e (checkcast_stub flags lay dest_uninitialized) st0 in
   stat st' = Returned /\ getr (regs st') x10 = 0 /\
   trace st' = trace st0 /\ mem st' = mem st0 /\ saved st' = saved st0) /\
  (let p := copy_memory_code aligned step in
   let st' := run 2 e p st1 in
   stat st' = Running /\ pc st' = length p /\
   trace st' = trace st1 /\ mem st' = mem st1 /\ saved st' = saved st1).

(** ** The checkcast loop *)
(** The element type check of the stub: a null passes, otherwise the fast
    path decides or hands over to the slow path. *)
Definition is_subtype (e : env) (sub super : Z) : bool :=
  match subtype_fast e sub super with
  | Some b => b
  | None => subtype_slow e sub super
  end.

Definition element_ok (e : env) (ckval oop : Z) : bool :=
  (oop =? 0) || is_subtype e (klass_of e oop) ckval.

Definition oop_width (flags : vm_flags) : width :=
  if UseCompressedOops flags then W4 else W8.

Definition checkcast_decorators (dest_uninitialized : bool) : DecoratorSet :=
  [IN_HEAP; IS_ARRAY; ARRAYCOPY_CHECKCAST; ARRAYCOPY_DISJOINT]
    ++ (if dest_uninitialized then [IS_DEST_UNINITIALIZED] else []).

(** The code of the stub in a product build, address by address. *)
Definition checkcast_code (osz : Z) (decs : DecoratorSet) : program :=
  [ (*  0 *) Imacro Malign;
    (*  1 *) Imacro Menter;
    (*  2 *) Ibranch Ceq x12 zr (TLabel L_done);
    (*  3 *) Imacro (Mpush_reg [x7; x9; x18; x19]);
    (*  4 *) Imacro (Marraycopy_prologue decs true x10 x11 x12);
    (*  5 *) Ialu Add x19 x12 (OImm 0);
    (*  6 *) Ialu Add x18 x11 (OImm 0);
    (*  7 *) Ijump (TLabel L_load_element);
    (*  8 *) Imacro Malign;
    (*  9 *) Ibind L_store_element;
    (* 10 *) Imacro (Mstore_heap_oop (Addr x11 0) x7);
    (* 11 *) Ialu Add x11 x11 (OImm osz);
    (* 12 *) Ialu Sub x12 x12 (OImm 1);
    (* 13 *) Ibranch Ceq x12 zr (TLabel L_do_card_marks);
    (* 14 *) Ibind L_load_element;
    (* 15 *) Imacro (Mload_heap_oop x7 (Addr x10 0));
    (* 16 *) Ialu Add x10 x10 (OImm osz);
    (* 17 *) Ibranch Ceq x7 zr (TLabel L_store_element);
    (* 18 *) Imacro (Mload_klass x9 x7);
    (* 19 *) Imacro (Mcheck_klass_subtype_fast_path x9 x14 L_store_element 5%nat);
    (* 20 *) Imacro (Mcheck_klass_subtype_slow_path x9 x14 L_store_element);
    (* 21 *) Ibind 5%nat;
    (* 22 *) Ialu Sub x12 x19 (OReg x12);
    (* 23 *) Ialu Xor x12 x12 (OImm (-1));
    (* 24 *) Ibranch Ceq x12 zr (TLabel L_done_pop);
    (* 25 *) Ibind L_do_card_marks;
    (* 26 *) Imacro (Marraycopy_epilogue decs true x18 x19);
    (* 27 *) Ibind L_done_pop;
    (* 28 *) Imacro (Mpop_reg [x7; x9; x18; x19]);
    (* 29 *) Ibind L_done;
    (* 30 *) Ialu Add x10 x12 (OImm 0);
    (* 31 *) Imacro Mleave;
    (* 32 *) Imacro Mret ].

(** The machine inside the loop of the stub. *)
Definition at_cc (st : state) (P : nat) (src dst cnt ckval d n : Z) (m : Z -> Z)
    (sv : list (list (Register * Z))) (tr : list event) : Prop :=
  pc st = P /\ stat st = Running /\
  getr (regs st) x10 = src /\ getr (regs st) x11 = dst /\ getr (regs st) x12 = cnt /\
  getr (regs st) x14 = ckval /\ getr (regs st) x18 = d /\ getr (regs st) x19 = n /\
  (forall x, mem st x = m x) /\ saved st = sv /\ trace st = tr.

(** What the stub logs: nothing for an empty array; otherwise the barrier
    prologue, a load and a store for each element copied, the load of the
    element that failed, if any, and the barrier epilogue over the whole
    destination. *)
Definition checkcast_events (ow : width) (m0 : Z -> Z) (s d : Z) (n K : nat)
    (tr : list event) : list event :=
  match n with
  | O => tr
  | _ => EvCall "arraycopy_epilogue" [d; Z.of_nat n]
           :: (if (K =? n)%nat then []
               else [EvLoad ow (s + Z.of_nat K * bytes_of ow)])
           ++ fwd_events ow m0 s d K
                (EvCall "arraycopy_prologue" [s; d; Z.of_nat n] :: tr)
  end.

(** What a call of the checkcast stub achieves when the first [K] elements
    pass the check. *)
Definition checkcast_post (e : env) (flags : vm_flags) (lay : vm_layout)
    (dest_uninitialized : bool) (st : state) (s d : Z) (n K : nat) : Prop :=
  let ow := oop_width flags in
  exists st',
    steps e (checkcast_stub flags lay dest_uninitialized) st st' /\
    stat st' = Returned /\
    (forall x, mem st' x = naive_copy ow (mem st) s d K (mem st) x) /\
    signed (getr (regs st') x10) = (if (K =? n)%nat then 0 else - (Z.of_nat K + 1)) /\
    saved st' = saved st /\
    trace st' = checkcast_events ow (mem st) s d n K (trace st).

(** A machine whose type check passes klasses up to the super klass. *)
Definition checking_env : env :=
  mkEnv W4 (fun o => o) (fun sub super => Some (sub <=? super)) (fun _ _ => false) 0
        (fun o => o) (fun _ _ v => v) (fun _ _ => None).

Definition example_layout : vm_layout :=
  mkLayout 24 4096 4096 4 2 (-3) (-3) 1000 1008 40 16 48 56 46 44 56 64 0 8 16 12 16 20 24
           8 (-8) 32 8 256 1024 20 9 2 1016 1024.

Definition example_checkcast_call (a0 a1 a2 a4 : Z) : state :=
  mkState 1 (fun r => if Nat.eqb r x14 then a4 else example_regs a0 a1 a2 r)
          example_mem [] [] Running.

(** The types each convention has a case for. *)
Definition c_type (t : BasicType) : bool :=
  is_int_type t || is_fp_type t || match t with T_VOID => true | _ => false end.

Definition java_type (t : BasicType) : bool :=
  c_type t && match t with T_METADATA => false | _ => true end.

(** Floating and integer-family arguments in front of argument [i]. *)
Definition fp_before (sig : list BasicType) (i : nat) : nat := count_fp (take i sig).

Definition int_before (sig : list BasicType) (i : nat) : nat := count_int (take i sig).

(** Where a floating argument goes, by the number of floating arguments
    [cf] and integer-family arguments [ci] in front of it. *)
Definition c_fp_place (cf ci : nat) (p : VMRegPair) : Prop :=
  ((cf < 8)%nat -> is_FloatRegister (first p) = true) /\
  ((8 <= cf)%nat -> (ci + (cf - 8) < 8)%nat ->
   exists r, c_INT_ArgReg !! (ci + (cf - 8))%nat = Some r /\
             first p = as_VMReg r /\ is_Register (first p) = true) /\
  ((8 <= cf)%nat -> (8 <= ci + (cf - 8))%nat -> is_stack (first p) = true).

Definition java_fp_place (cf : nat) (p : VMRegPair) : Prop :=
  is_Register (first p) = false /\
  ((cf < 8)%nat -> is_FloatRegister (first p) = true) /\
  ((8 <= cf)%nat -> is_stack (first p) = true).

(** What the two conventions do with the floating argument at index [i]. *)
Definition fp_argument_post (sig : list BasicType) (regs : list VMRegPair) (i : nat) : Prop :=
  (Forall (fun t => c_type t = true) sig ->
   exists stk out p,
     c_calling_convention sig regs (length sig) = Some (stk, out) /\
     out !! i = Some p /\ c_fp_place (fp_before sig i) (int_before sig i) p) /\
  (Forall (fun t => java_type t = true) sig ->
   exists stk out p,
     java_calling_convention sig regs (length sig) = Some (stk, out) /\
     out !! i = Some p /\ java_fp_place (fp_before sig i) p).

Definition c_inv (sig : list BasicType) (j : nat) (st : cc_state) : Prop :=
  fp_args st = Nat.min 8 (fp_before sig j) /\
  int_args st = Nat.min 8 (int_before sig j + (fp_before sig j - 8)) /\
  length (regs_out st) = length sig.

Definition java_inv (sig : list BasicType) (j : nat) (st : cc_state) : Prop :=
  fp_args st = Nat.min 8 (fp_before sig j) /\
  length (regs_out st) = length sig.

Definition c_fp_at (sig : list BasicType) (j : nat) (p : VMRegPair) : Prop :=
  forall t, sig !! j = Some t -> is_fp_type t = true ->
            c_fp_place (fp_before sig j) (int_before sig j) p.

Definition java_fp_at (sig : list BasicType) (j : nat) (p : VMRegPair) : Prop :=
  forall t, sig !! j = Some t -> is_fp_type t = true ->
            java_fp_place (fp_before sig j) p.

(** Nine doubles: the ninth finds the floating registers used up. *)
Definition nine_doubles : list BasicType :=
  concat (replicate 9 [T_DOUBLE; T_VOID]).

(** The slot of the handle area a Java argument register is stored to. *)
Definition oop_slot_of (r : Register) : Z :=
  if Nat.eqb r j_rarg0 then 0 else if Nat.eqb r j_rarg1 then 1
  else if Nat.eqb r j_rarg2 then 2 else if Nat.eqb r j_rarg3 then 3
  else if Nat.eqb r j_rarg4 then 4 else if Nat.eqb r j_rarg5 then 5
  else if Nat.eqb r j_rarg6 then 6 else 7.

(** The reference to move, the stack slot that holds it for the collector,
    and what the callee is passed. *)
Definition oop_of (src : VMRegPair) (st : state) : Z :=
  if is_stack (first src)
  then load W8 (getr (regs st) fp + reg2offset_in (first src)) (mem st)
  else getr (regs st) (as_Register (first src)).

Definition handle_slot (oop_handle_offset : Z) (src : VMRegPair) (st : state) : Z :=
  if is_stack (first src)
  then getr (regs st) fp + reg2offset_in (first src)
  else getr (regs st) sp
       + (oop_slot_of (as_Register (first src)) * slots_per_word + oop_handle_offset)
         * stack_slot_size.

Definition passed (dst : VMRegPair) (st : state) : Z :=
  if is_stack (first dst)
  then load W8 (getr (regs st) sp + reg2offset_out (first dst)) (mem st)
  else getr (regs st) (as_Register (first dst)).

(** The registers the two conventions hand out. *)
Definition src_ok (src : VMRegPair) : Prop :=
  if is_stack (first src) then True else In (as_Register (first src)) java_INT_ArgReg.

Definition dst_ok (dst : VMRegPair) : Prop :=
  if is_stack (first dst) then True else In (as_Register (first dst)) c_INT_ArgReg.

Definition object_move_code (oop_handle_offset framesize_in_slots : Z)
    (src dst : VMRegPair) (is_receiver : bool) : program :=
  assembled (object_move oop_handle_offset framesize_in_slots src dst is_receiver).

(** What the code of [object_move] achieves, run from its first
    instruction to its end: the callee gets the address of the slot, or
    null for a null reference, and the slot holds the reference. *)
Definition object_move_post (e : env) (oop_handle_offset framesize_in_slots : Z)
    (src dst : VMRegPair) (is_receiver : bool) (st : state) : Prop :=
  let p := object_move_code oop_handle_offset framesize_in_slots src dst is_receiver in
  let oop := oop_of src st in
  let slot := handle_slot oop_handle_offset src st in
  exists st',
    steps e p st st' /\ pc st' = length p /\ stat st' = Running /\
    passed dst st' = (if oop =? 0 then 0 else slot) /\
    load W8 slot (mem st') = oop.

Definition example_move_call : state :=
  mkState 0 (fun r => if Nat.eqb r sp then 1000 else if Nat.eqb r j_rarg1 then 4242 else 0)
          example_mem [] [] Running.

Definition stack_overflow_check_code (flags : vm_flags) (lay : vm_layout) : program :=
  assembled (generate_stack_overflow_check flags lay).

(** The sizes the check works with. *)
Definition so_overhead_size (lay : vm_layout) : Z :=
  - (interpreter_frame_initial_sp_offset lay * wordSize)
  + interpreter_frame_monitor_size lay * wordSize.

Definition so_threshold (lay : vm_layout) : Z :=
  (page_size lay - so_overhead_size lay) ÷ stackElementSize.

Definition so_limit_addr (lay : vm_layout) (st : state) : Z :=
  wrap (getr (regs st) xthread + stack_overflow_limit_offset lay).

Definition so_limit (lay : vm_layout) (st : state) : Z :=
  load W8 (so_limit_addr lay st) (mem st).

(** The lowest address the frame would reach: overhead, locals and limit. *)
Definition so_needed (lay : vm_layout) (st : state) : Z :=
  wrap (so_overhead_size lay + getr (regs st) x13 * 8 + so_limit lay st).

(** What the check does with [x13] additional locals. *)
Definition stack_overflow_check_post (e : env) (flags : vm_flags) (lay : vm_layout)
    (st : state) : Prop :=
  let p := stack_overflow_check_code flags lay in
  exists st',
    steps e p st st' /\ mem st' = mem st /\
    if getr (regs st) x13 <=? wrap (so_threshold lay)
    then (* at most a page: no look at the limit *)
      stat st' = Running /\ pc st' = length p /\ trace st' = trace st /\
      getr (regs st') sp = getr (regs st) sp
    else
      trace st' = EvLoad W8 (so_limit_addr lay st) :: trace st /\
      if so_needed lay st <? getr (regs st) sp
      then stat st' = Running /\ pc st' = length p /\
           getr (regs st') sp = getr (regs st) sp
      else stat st' = Exited "StubRoutines::throw_StackOverflowError_entry" /\
           getr (regs st') sp = Z.land (getr (regs st) x30) (wrap (-16)).

Definition example_entry_call : state :=
  mkState 0 (fun r => if Nat.eqb r x13 then 600 else if Nat.eqb r sp then 100000
                      else if Nat.eqb r xthread then 2000 else 0)
          example_mem [] [] Running.

Definition g1_post_code (lay : vm_layout) (store_addr new_val thread tmp tmp2 : Register)
    : program :=
  assembled (g1_write_barrier_post lay store_addr new_val thread tmp tmp2).

(** The filter of the barrier: XOR of the two addresses, shifted right by
    the log of the region size. *)
Definition same_region (lay : vm_layout) (a v : Z) : bool :=
  Z.shiftr (Z.lxor a v) (wrap (LogOfHRGrainBytes lay) mod 64) =? 0.

Definition card_of (e : env) (lay : vm_layout) (a : Z) : Z :=
  wrap (Z.shiftr a (wrap (card_shift lay) mod 64) + byte_map_base e).

(** What the barrier does for a store of [v] to address [a]. *)
Definition g1_post_barrier_post (e : env) (lay : vm_layout)
    (store_addr new_val thread tmp tmp2 : Register) (st : state) : Prop :=
  let p := g1_post_code lay store_addr new_val thread tmp tmp2 in
  let a := getr (regs st) store_addr in
  let v := getr (regs st) new_val in
  if same_region lay a v || (v =? 0)
  then (* filtered: through to the end, nothing read, written or logged *)
    (exists k, pc (run k e p st) = length p /\ stat (run k e p st) = Running) /\
    (forall k, trace (run k e p st) = trace st /\ mem (run k e p st) = mem st)
  else (* on to the card table *)
    trace (run 8 e p st) = EvLoad W1 (card_of e lay a) :: trace st.

Definition example_store : state :=
  mkState 0 (fun r => if Nat.eqb r x13 then 1048576 else if Nat.eqb r x10 then 1048584 else 0)
          example_mem [] [] Running.

Definition normal_entry_code (flags : vm_flags) (lay : vm_layout) (synchronized : bool)
    : program :=
  assembled (generate_normal_entry flags lay synchronized).

(** The code [bang_pages] emits. *)
Fixpoint bang_code (lay : vm_layout) (n : nat) (pages : Z) : program :=
  match n with
  | O => []
  | S k => Ialu Sub t1 sp (OImm (pages * page_size lay))
             :: Istore W8 zr (Addr t1 0) :: bang_code lay k (pages + 1)
  end.

(** Calls by name. *)
Definition logs (name : string) (i : instr) : bool :=
  match i with
  | Imacro (Mlock_object _) => String.eqb name "lock_object"
  | Imacro (Mmembar n) => String.eqb name n
  | Imacro (Mcall_VM n _) => String.eqb name n
  | Imacro (Mcall_VM_leaf n _) => String.eqb name n
  | Imacro (Marraycopy_prologue _ _ _ _ _) => String.eqb name "arraycopy_prologue"
  | Imacro (Marraycopy_epilogue _ _ _ _) => String.eqb name "arraycopy_epilogue"
  | Imacro (Mother n _ _ _) => String.eqb name n
  | _ => false
  end.

Definition called (name : string) (tr : list event) : bool :=
  existsb (fun ev => match ev with EvCall n _ => String.eqb name n | _ => false end) tr.

Definition locked (tr : list event) : bool := called "lock_object" tr.

(** The two ways the entry gives a frame up for overflow: the jump to the
    StackOverflowError stub, and the call for an overflown counter. *)
Definition is_stack_overflow_exit (i : instr) : bool :=
  match i with
  | Imacro (Mfar_jump n) => String.eqb n "StubRoutines::throw_StackOverflowError_entry"
  | _ => false
  end.

Definition is_counter_overflow_call (i : instr) : bool :=
  match i with
  | Imacro (Mcall_VM n _) => String.eqb n "InterpreterRuntime::frequency_counter_overflow"
  | _ => false
  end.

Definition overflows (i : instr) : bool :=
  is_stack_overflow_exit i || is_counter_overflow_call i.

(** The labels an instruction may go to. *)
Definition target_labels (i : instr) : list Label :=
  match i with
  | Ibranch _ _ _ (TLabel l) => [l]
  | Ijump (TLabel l) => [l]
  | Imacro (Mcheck_klass_subtype_fast_path _ _ l1 l2) => [l1; l2]
  | Imacro (Mcheck_klass_subtype_slow_path _ _ l) => [l]
  | Imacro (Mother _ _ exits _) => exits
  | _ => []
  end.

Definition goes_to (l : Label) (i : instr) : bool := existsb (Nat.eqb l) (target_labels i).

(** The overflow checks: the exit of the stack check, and whatever goes to
    the label [ov] of the counter-overflow handler. *)
Definition is_overflow_check (ov : Label) (i : instr) : bool :=
  is_stack_overflow_exit i || goes_to ov i.

(** Code without labels, jumps or calls, such as [bang_code]. *)
Definition plain (i : instr) : bool :=
  match i with
  | Ialu _ _ _ _ | Iload _ _ _ _ | Istore _ _ _ => true
  | _ => false
  end.

(** Static checks on the code [P1 ++ B ++ P2] of an entry, [B] plain: the
    call of [lock_object] is at [c] in [P2], nothing else logs that name,
    and the code at [c+1 .. d] of [P2] keeps control in that range until it
    halts or leaves the entry for good. *)
Definition in_range (P1 P2 : program) (c d : nat) (l : Label) : bool :=
  match label_pos P1 l, label_pos P2 l with
  | Some _, _ => false
  | None, Some t => (c <? t)%nat && (t <=? d)%nat
  | None, None => true
  end.

Definition stays (P1 P2 : program) (c d q : nat) (i : instr) : bool :=
  match i with
  | Ibind _ | Ialu _ _ _ _ | Iload _ _ _ _ | Istore _ _ _ => (q <? d)%nat
  | Ibranch _ _ _ (TLabel l) => in_range P1 P2 c d l && (q <? d)%nat
  | Ijump (TLabel l) => in_range P1 P2 c d l
  | Imacro (Mstop _) => true
  | Imacro (Mother _ _ exits falls) =>
      forallb (in_range P1 P2 c d) exits && (negb falls || (q <? d)%nat)
  | _ => false
  end.

Fixpoint check_from (f : nat -> instr -> bool) (q : nat) (c : program) : bool :=
  match c with
  | [] => true
  | i :: r => f q i && check_from f (S q) r
  end.

Definition entry_check (P1 P2 : program) (c d : nat) : bool :=
  forallb (fun i => negb (logs "lock_object" i)) P1
  && check_from (fun q i => if Nat.eqb q c
                            then match i with
                                 | Imacro (Mlock_object _) => true
                                 | _ => false
                                 end
                            else negb (logs "lock_object" i)) 0 P2
  && (c <? d)%nat && (d <? length P2)%nat
  && check_from (fun q i => ((q <=? c)%nat || (d <? q)%nat
                             || (stays P1 P2 c d q i && negb (overflows i)))) 0 P2.

(** The overflow checks all sit in [P1]; when the counter is kept, some
    instruction of [P1] goes to the handler [ov], which is bound in [P2]
    after the lock, two instructions before the call of the runtime. *)
Definition checks_before (P1 P2 : program) (c : nat) (ov : Label) (has_counter : bool)
    : bool :=
  forallb (fun i => negb (is_overflow_check ov i)) P2
  && existsb is_stack_overflow_exit P1
  && (negb has_counter
      || (existsb (goes_to ov) P1
          && match label_pos P1 ov, label_pos P2 ov with
             | None, Some o =>
                 (c <? o)%nat
                 && match nth_error P2 (S (S o)) with
                    | Some i => is_counter_overflow_call i
                    | None => false
                    end
             | _, _ => false
             end)).

(** Where the parts of an entry are found. *)
Fixpoint find_pos (f : instr -> bool) (c : program) : nat :=
  match c with
  | [] => O
  | i :: r => if f i then O else S (find_pos f r)
  end.

Definition handler_label (c : program) : Label :=
  match nth_error c (find_pos is_counter_overflow_call c - 2) with
  | Some (Ibind l) => l
  | _ => O
  end.

Definition bang_count (flags : vm_flags) (lay : vm_layout) : nat :=
  if UseStackBanging flags then n_shadow_pages lay else O.

(** [c] is the one place of the code [p] that locks. *)
Definition lock_site (p : program) (c : nat) : Prop :=
  (exists r, nth_error p c = Some (Imacro (Mlock_object r))) /\
  forall q i, nth_error p q = Some i -> logs "lock_object" i = true -> q = c.

(** Instructions with [f] exist in [p], all of them before [c]. *)
Definition emitted_before (p : program) (f : instr -> bool) (c : nat) : Prop :=
  (exists q i, nth_error p q = Some i /\ f i = true) /\
  forall q i, nth_error p q = Some i -> f i = true -> (q < c)%nat.

(** The handler of an overflown counter: bound as [ov] at [o], it calls
    the runtime two instructions on. *)
Definition counter_overflow_handler (p : program) (ov : Label) (o : nat) : Prop :=
  label_pos p ov = Some o /\
  exists i, nth_error p (S (S o)) = Some i /\ is_counter_overflow_call i = true.

(** What the entry of a synchronized method guarantees: one lock, emitted
    after the exit of the stack check and after every jump to the handler
    of an overflown counter, and never taken by a run that is about to give
    the frame up for overflow. *)
Definition lock_after_checks_post (e : env) (flags : vm_flags) (lay : vm_layout)
    (st : state) : Prop :=
  let p := normal_entry_code flags lay true in
  exists c,
    lock_site p c /\
    emitted_before p is_stack_overflow_exit c /\
    (inc_counter flags = true ->
     exists ov o, counter_overflow_handler p ov o /\ (c < o)%nat /\
                  emitted_before p (goes_to ov) c) /\
    forall k i,
      stat (run k e p st) = Running ->
      nth_error p (pc (run k e p st)) = Some i -> overflows i = true ->
      locked (trace (run k e p st)) = false.

(** The code after the lock, [lo] and [hi] its bounds in the whole entry. *)
Definition in_region (lo hi : nat) (st : state) : Prop := (lo < pc st <= hi)%nat.

(** Locked means: in the code after the lock. *)
Definition entry_inv (lo hi : nat) (st : state) : Prop :=
  stat st = Running -> in_region lo hi st \/ locked (trace st) = false.

(** A call of a synchronized method with two parameters and five locals. *)
Definition example_method_call : state :=
  mkState 0 (fun r => if Nat.eqb r xmethod then 16 else if Nat.eqb r sp then 100000
                      else if Nat.eqb r esp then 100000
                      else if Nat.eqb r xthread then 2000 else 0)
          example_mem [] [] Running.

(** An environment in which the counter overflows. *)
Definition overflowing_env : env :=
  mkEnv W4 (fun o => o) (fun _ _ => None) (fun _ _ => true) 0 (fun o => o)
        (fun _ _ v => v)
        (fun name _ => if String.eqb name "increment_mask_and_jump" then Some O else None).





(** What the post-write barrier does with a store that its filter lets
    through, by the card of the address stored to: a young card is left
    alone; so is a dirty one, after a StoreLoad fence; a clean card is
    dirtied and its address put into the thread's dirty-card queue, below
    the entries already there, or handed to the runtime when the queue is
    full (index 0). *)
Definition g1_post_marking_post (e : env) (lay : vm_layout)
    (store_addr new_val thread tmp tmp2 : Register) (st : state) : Prop :=
  let p := g1_post_code lay store_addr new_val thread tmp tmp2 in
  let a := getr (regs st) store_addr in
  let t := getr (regs st) thread in
  let card := card_of e lay a in
  let m := mem st in
  let c := load W1 card m in
  let m1 := store W1 card 0 m in
  let qi := wrap (t + dirty_card_queue_index_offset lay) in
  let qb := wrap (t + dirty_card_queue_buffer_offset lay) in
  let idx := load W8 qi m1 in
  let idx' := wrap (idx - wordSize) in
  let m2 := store W8 qi idx' m1 in
  let slot := wrap (load W8 qb m2 + idx') in
  let fence := EvCall "StoreLoad" [] in
  exists st',
    steps e p st st' /\ pc st' = length p /\ stat st' = Running /\
    saved st' = saved st /\
    getr (regs st') store_addr = a /\
    getr (regs st') new_val = getr (regs st) new_val /\
    if c =? wrap (g1_young_card_val lay)
    then mem st' = m /\ trace st' = EvLoad W1 card :: trace st
    else if c =? 0
    then mem st' = m /\
         trace st' = EvLoad W1 card :: fence :: EvLoad W1 card :: trace st
    else if idx =? 0
    then mem st' = m1 /\
         trace st' = EvCall "G1BarrierSetRuntime::write_ref_field_post_entry" [card; t]
                       :: EvLoad W8 qi :: EvStore W1 card 0
                       :: EvLoad W1 card :: fence :: EvLoad W1 card :: trace st
    else mem st' = store W8 slot card m2 /\
         trace st' = EvStore W8 slot card :: EvLoad W8 qb
                       :: EvStore W8 qi idx' :: EvLoad W8 qi :: EvStore W1 card 0
                       :: EvLoad W1 card :: fence :: EvLoad W1 card :: trace st.

Definition example_card_store (index : Z) : state :=
  mkState 0 (fun r => if Nat.eqb r x13 then 5000 else if Nat.eqb r x10 then 2000000
                      else if Nat.eqb r xthread then 3000 else 0)
          (fun a => if a =? 9 then 1 else if a =? 4016 then index else
                    if a =? 4024 then 32 else 0) [] [] Running.

(** ** g1BarrierSetAssembler_riscv64.cpp: the G1 pre-write (SATB) barrier *)
(** G1ThreadLocalData::satb_mark_queue_*_offset() and
    SATBMarkQueue::byte_width_of_active(). *)
Record satb_layout := mkSatb {
  satb_mark_queue_active_offset : Z;
  satb_mark_queue_index_offset : Z;
  satb_mark_queue_buffer_offset : Z;
  byte_width_of_active : Z }.

(** [RegSet::of(..)] of an optional register ([noreg] is [None]). *)
Definition reg_opt (r : option Register) : list Register :=
  match r with Some x => [x] | None => [] end.

Definition g1_write_barrier_pre (sl : satb_layout) (obj : option Register)
    (pre_val thread tmp : Register) (tosca_live expand_call : bool) : Gen unit :=
  done ← new_label;
  runtime ← new_label;

  let in_progress := Addr thread (satb_mark_queue_active_offset sl) in
  let index := Addr thread (satb_mark_queue_index_offset sl) in
  let buffer := Addr thread (satb_mark_queue_buffer_offset sl) in

  (* Is marking active? *)
  (if byte_width_of_active sl =? 4 then  (* 4-byte width *)
     lwu tmp in_progress
   else
     lbu tmp in_progress);;
  beqz tmp done;;

  (* Do we need to load the previous value? *)
  match obj with
  | Some obj => load_heap_oop pre_val (Addr obj 0)
  | None => mret tt
  end;;

  (* Is the previous value null? *)
  beqz pre_val done;;

  (* Can we store original value in the thread's buffer?
     Is index == 0? *)
  ld tmp index;;                       (* tmp := *index_adr *)
  beqz tmp runtime;;                   (* tmp == 0? If yes, goto runtime *)

  sub_imm tmp tmp wordSize;;           (* tmp := tmp - wordSize *)
  sd tmp index;;                       (* *index_adr := tmp *)
  ld t0 buffer;;
  add tmp tmp t0;;                     (* tmp := tmp + *buffer_adr *)

  (* Record the previous value *)
  sd pre_val (Addr tmp 0);;
  j done;;

  bind runtime;;
  (* save the live input values *)
  let saved := [pre_val] ++ (if tosca_live then [x10] else []) ++ reg_opt obj in
  push_reg saved sp;;

  (* both branches of [expand_call] call the same entry; [super_call_VM_leaf]
     only skips the check of [_last_sp] *)
  (if expand_call then
     call_VM_leaf "G1BarrierSetRuntime::write_ref_field_pre_entry" [pre_val; thread]
   else
     call_VM_leaf "G1BarrierSetRuntime::write_ref_field_pre_entry" [pre_val; thread]);;

  pop_reg saved sp;;

  bind done.

Definition g1_pre_code (sl : satb_layout) (obj : option Register)
    (pre_val thread tmp : Register) (tosca_live expand_call : bool) : program :=
  assembled (g1_write_barrier_pre sl obj pre_val thread tmp tosca_live expand_call).


Definition example_satb : satb_layout := mkSatb 1100 1104 1112 1.

Definition example_field_store (active index : Z) : state :=
  mkState 0 (fun r => if Nat.eqb r x13 then 5000 else if Nat.eqb r xthread then 3000 else 0)
          (fun a => if a =? 4100 then active else if a =? 4104 then index else
                    if a =? 4112 then 32 else if a =? 5000 then 77 else 0)
          [] [] Running.







(** ** lock_method *)
Definition lock_method_code (flags : vm_flags) (lay : vm_layout) : program :=
  assembled (lock_method flags lay).

Definition is_load (ev : event) : bool :=
  match ev with EvLoad _ _ => true | _ => false end.

(** The access flags of the method in [xmethod], and the object a
    synchronized method locks: the mirror of its class when it is static,
    the receiver in local 0 otherwise. *)
Definition method_flags (lay : vm_layout) (st : state) : Z :=
  load W4 (wrap (getr (regs st) xmethod + access_flags_offset lay)) (mem st).

Definition is_static_method (lay : vm_layout) (st : state) : bool :=
  negb (Z.land (method_flags lay st) (wrap (JVM_ACC_STATIC lay)) =? 0).

Definition synchronization_object (e : env) (lay : vm_layout) (st : state) : Z :=
  if is_static_method lay st
  then mirror_of e (getr (regs st) xmethod)
  else load W8 (wrap (getr (regs st) xlocals + local_offset_in_bytes_0 lay)) (mem st).

(** What [lock_method] does: a monitor entry is pushed below the expression
    stack ([sp] and [esp] go down by the size of an entry), the frame's
    monitor block top is set to it, the synchronization object is stored in
    the entry, and [lock_object] is called on the entry. *)
Definition lock_method_post (e : env) (flags : vm_flags) (lay : vm_layout) (st : state)
    : Prop :=
  let p := lock_method_code flags lay in
  let obj := synchronization_object e lay st in
  let entry_size := interpreter_frame_monitor_size lay * wordSize in
  let esp' := wrap (getr (regs st) esp + wrap (- entry_size)) in
  let top := wrap (getr (regs st) fp
                   + interpreter_frame_monitor_block_top_offset lay * wordSize) in
  let slot := wrap (esp' + obj_offset_in_bytes lay) in
  exists st' loads,
    steps e p st st' /\ pc st' = length p /\ stat st' = Running /\
    getr (regs st') sp = wrap (getr (regs st) sp + wrap (- entry_size)) /\
    getr (regs st') esp = esp' /\
    getr (regs st') x10 = obj /\
    mem st' = store W8 slot obj (store W8 top esp' (mem st)) /\
    trace st' = EvCall "lock_object" [esp'] :: EvStore W8 slot obj :: EvStore W8 top esp'
                  :: loads ++ trace st /\
    forallb is_load loads = true.

(** A call of a static synchronized method (flag bits 8 and 32 set). *)
Definition example_lock_call (flag_byte : Z) : state :=
  mkState 0 (fun r => if Nat.eqb r xmethod then 3000 else if Nat.eqb r sp then 100000
                      else if Nat.eqb r esp then 100000 else if Nat.eqb r fp then 100200
                      else if Nat.eqb r xlocals then 100400 else 0)
          (fun a => if a =? 3040 then flag_byte else if a =? 100400 then 77 else 0)
          [] [] Running.

(** ** The calling conventions in closed form *)
(** The types whose pair is set with [set2]. *)
Definition two_halves (t : BasicType) : bool :=
  match t with
  | T_LONG | T_OBJECT | T_ARRAY | T_ADDRESS | T_METADATA | T_DOUBLE => true
  | _ => false
  end.

Definition pair_for (t : BasicType) (v : VMReg) : VMRegPair :=
  if two_halves t then set2 v else set1 v.

(** Java: the stack slots taken by the arguments in front of argument [j],
    two for every integer-family argument past the eighth and every
    floating argument past the eighth. *)
Definition java_stack_before (sig : list BasicType) (j : nat) : nat :=
  (2 * ((int_before sig j - 8) + (fp_before sig j - 8)))%nat.

(** Java: where argument [j], of type [t], goes. *)
Definition java_place (sig : list BasicType) (j : nat) (t : BasicType) : VMRegPair :=
  let slot := stack2reg (Z.of_nat (java_stack_before sig j)) in
  if is_int_type t then
    match java_INT_ArgReg !! int_before sig j with
    | Some r => pair_for t (as_VMReg r)
    | None => pair_for t slot
    end
  else if is_fp_type t then
    match java_FP_ArgReg !! fp_before sig j with
    | Some f => pair_for t (fas_VMReg f)
    | None => pair_for t slot
    end
  else set_bad.

(** C: the arguments in front of argument [j] that took an integer register
    or a stack slot: the integer-family ones and the floating ones past the
    eighth. *)
Definition c_rank (sig : list BasicType) (j : nat) : nat :=
  (int_before sig j + (fp_before sig j - 8))%nat.

Definition c_stack_before (sig : list BasicType) (j : nat) : nat :=
  (2 * (c_rank sig j - 8))%nat.

(** C: where argument [j], of type [t], goes. *)
Definition c_place (sig : list BasicType) (j : nat) (t : BasicType) : VMRegPair :=
  let by_rank :=
    match c_INT_ArgReg !! c_rank sig j with
    | Some r => pair_for t (as_VMReg r)
    | None => pair_for t (stack2reg (Z.of_nat (c_stack_before sig j)))
    end in
  if is_int_type t then by_rank
  else if is_fp_type t then
    match c_FP_ArgReg !! fp_before sig j with
    | Some f => pair_for t (fas_VMReg f)
    | None => by_rank
    end
  else set_bad.

(** What a convention returns for a signature it has a case for. *)
Definition convention_result (r : option (nat * list VMRegPair)) (sig : list BasicType)
    (stack : nat) (place : nat -> BasicType -> VMRegPair) : Prop :=
  exists out,
    r = Some (stack, out) /\ length out = length sig /\
    forall j t, sig !! j = Some t -> out !! j = Some (place j t).

(** Two arguments that are not halves ([T_VOID]) are in different places,
    and an argument on the stack has its two slots below the size
    returned. *)
Definition places_apart (r : option (nat * list VMRegPair)) (sig : list BasicType) : Prop :=
  exists stk out,
    r = Some (stk, out) /\
    (forall i j ti tj p q,
       i <> j -> sig !! i = Some ti -> sig !! j = Some tj ->
       ti <> T_VOID -> tj <> T_VOID ->
       out !! i = Some p -> out !! j = Some q -> first p <> first q) /\
    (forall j t p,
       sig !! j = Some t -> out !! j = Some p -> is_stack (first p) = true ->
       0 <= reg2stack (first p) /\ reg2stack (first p) + 2 <= Z.of_nat stk).

Definition java_inv' (sig : list BasicType) (j : nat) (st : cc_state) : Prop :=
  int_args st = Nat.min 8 (int_before sig j) /\
  fp_args st = Nat.min 8 (fp_before sig j) /\
  stk_args st = java_stack_before sig j /\
  length (regs_out st) = length sig.

Definition c_inv' (sig : list BasicType) (j : nat) (st : cc_state) : Prop :=
  int_args st = Nat.min 8 (c_rank sig j) /\
  fp_args st = Nat.min 8 (fp_before sig j) /\
  stk_args st = c_stack_before sig j /\
  length (regs_out st) = length sig.

Definition placed (place : nat -> BasicType -> VMRegPair) (sig : list BasicType)
    (j : nat) (p : VMRegPair) : Prop :=
  forall t, sig !! j = Some t -> p = place j t.

(** A signature with ten integer-family and ten floating arguments. *)
Definition example_signature : list BasicType :=
  concat (replicate 5 [T_INT; T_DOUBLE; T_VOID; T_OBJECT; T_FLOAT; T_LONG; T_VOID]).

(** Both conventions at once. *)
Definition conventions_apart (sig : list BasicType) (regs : list VMRegPair) : Prop :=
  (Forall (fun t => java_type t = true) sig ->
   places_apart (java_calling_convention sig regs (length sig)) sig) /\
  (Forall (fun t => c_type t = true) sig ->
   places_apart (c_calling_convention sig regs (length sig)) sig).


(** ** sharedRuntime_riscv64.cpp: the integer moves of the native wrapper *)
(** "On 64 bit we will store integer like items to the stack as 64 bits
    items (sparc abi) even though java would only store 32bits for a
    parameter." *)
Definition move32_64 (src dst : VMRegPair) : Gen unit :=
  if is_stack (first src) then
    if is_stack (first dst) then
      (* stack to stack *)
      ld t0 (Addr fp (reg2offset_in (first src)));;
      sd t0 (Addr sp (reg2offset_out (first dst)))
    else
      (* stack to reg *)
      lw (as_Register (first dst)) (Addr fp (reg2offset_in (first src)))
  else if is_stack (first dst) then
    (* reg to stack *)
    sd (as_Register (first src)) (Addr sp (reg2offset_out (first dst)))
  else
    when (negb (first dst =? first src))
      ((* 32bits extend sign *)
       addw (as_Register (first dst)) (as_Register (first src)) zr).

(** A long move *)
Definition long_move (src dst : VMRegPair) : Gen unit :=
  if is_stack (first src) then
    if is_stack (first dst) then
      (* stack to stack *)
      ld t0 (Addr fp (reg2offset_in (first src)));;
      sd t0 (Addr sp (reg2offset_out (first dst)))
    else
      (* stack to reg *)
      ld (as_Register (first dst)) (Addr fp (reg2offset_in (first src)))
  else if is_stack (first dst) then
    (* reg to stack *)
    sd (as_Register (first src)) (Addr sp (reg2offset_out (first dst)))
  else
    when (negb (first dst =? first src))
      (mv (as_Register (first dst)) (as_Register (first src))).

(** "We always ignore the frame_slots arg and just use the space just below
    frame pointer which by this time is free to use".  The two floating
    stores and loads are outside of the instruction set embedded here. *)
Definition save_native_result (ret_type : BasicType) (frame_slots : Z) : Gen unit :=
  match ret_type with
  | T_FLOAT => other "fsw" [] [] true
  | T_DOUBLE => other "fsd" [] [] true
  | T_VOID => mret tt
  | _ => sd x10 (Addr fp (- wordSize))
  end.

Definition restore_native_result (ret_type : BasicType) (frame_slots : Z) : Gen unit :=
  match ret_type with
  | T_FLOAT => other "flw" [] [] true
  | T_DOUBLE => other "fld" [] [] true
  | T_VOID => mret tt
  | _ => ld x10 (Addr fp (- wordSize))
  end.

(** The low [w] bytes of an argument in its incoming place (a slot of the
    caller's frame, addressed from [fp], or a register) and in its outgoing
    place (a slot of the outgoing area, addressed from [sp], or a
    register). *)
Definition arg_in (w : width) (src : VMRegPair) (st : state) : Z :=
  if is_stack (first src)
  then load w (getr (regs st) fp + reg2offset_in (first src)) (mem st)
  else getr (regs st) (as_Register (first src)) mod 256 ^ bytes_of w.

Definition arg_out (w : width) (dst : VMRegPair) (st : state) : Z :=
  if is_stack (first dst)
  then load w (getr (regs st) sp + reg2offset_out (first dst)) (mem st)
  else getr (regs st) (as_Register (first dst)) mod 256 ^ bytes_of w.

(** The places are inside the address space, and a destination register
    is not the zero register. *)
Definition move_ok (src dst : VMRegPair) (st : state) : Prop :=
  (is_stack (first src) = true ->
   let a := getr (regs st) fp + reg2offset_in (first src) in 0 <= a /\ a + 8 <= two64) /\
  (if is_stack (first dst)
   then let a := getr (regs st) sp + reg2offset_out (first dst) in 0 <= a /\ a + 8 <= two64
   else as_Register (first dst) <> zr).

(** What the memory and the registers outside of the destination keep. *)
Definition move_frame (dst : VMRegPair) (st st' : state) : Prop :=
  (forall r, r <> t0 -> (is_stack (first dst) = false -> r <> as_Register (first dst)) ->
     getr (regs st') r = getr (regs st) r) /\
  (forall x, (is_stack (first dst) = true ->
              let a := getr (regs st) sp + reg2offset_out (first dst) in
              x < a \/ a + 8 <= x) ->
     mem st' x = mem st x) /\
  saved st' = saved st.

(** What the code of a move of [w] bytes achieves, run from its first
    instruction to its end. *)
Definition move_post (e : env) (p : program) (w : width) (src dst : VMRegPair)
    (st : state) : Prop :=
  exists st',
    steps e p st st' /\ pc st' = length p /\ stat st' = Running /\
    arg_out w dst st' = arg_in w src st /\
    (is_stack (first dst) = false -> first dst <> first src ->
     getr (regs st') (as_Register (first dst))
     = if Z.eqb (bytes_of w) 4 then sext32 (arg_in w src st) else arg_in w src st) /\
    move_frame dst st st'.

(** The result register after a save, anything in between that leaves the
    frame pointer and the word below it alone, and a restore. *)
Definition native_result_post (e : env) (ret_type : BasicType) (frame_slots : Z)
    (st : state) : Prop :=
  let ps := assembled (save_native_result ret_type frame_slots) in
  let pr := assembled (restore_native_result ret_type frame_slots) in
  exists st1,
    steps e ps st st1 /\ pc st1 = length ps /\ stat st1 = Running /\
    (forall r, getr (regs st1) r = getr (regs st) r) /\
    forall st2,
      pc st2 = 0%nat -> stat st2 = Running ->
      getr (regs st2) fp = getr (regs st1) fp ->
      (forall x, getr (regs st) fp - 8 <= x < getr (regs st) fp -> mem st2 x = mem st1 x) ->
      exists st3,
        steps e pr st2 st3 /\ pc st3 = length pr /\ stat st3 = Running /\
        getr (regs st3) x10
        = match ret_type with
          | T_VOID => getr (regs st2) x10
          | _ => wrap (getr (regs st) x10)
          end /\
        (forall r, r <> x10 -> getr (regs st3) r = getr (regs st2) r) /\
        mem st3 = mem st2.

Definition move32_64_code (src dst : VMRegPair) : program := assembled (move32_64 src dst).

Definition long_move_code (src dst : VMRegPair) : program := assembled (long_move src dst).

(** An int with its sign bit set in slot 0 of the caller's frame. *)
Definition example_arg_call : state :=
  mkState 0 (fun r => if Nat.eqb r fp then 0 else if Nat.eqb r sp then 1000
                      else if Nat.eqb r j_rarg1 then 4242 else 0)
          (fun a => if (16 <=? a) && (a <? 20) then 255 else 0) [] [] Running.

(** A native call back with a reference in [x10]. *)
Definition example_result_call : state :=
  mkState 0 (fun r => if Nat.eqb r fp then 2000 else if Nat.eqb r x10 then 4242 else 0)
          example_mem [] [] Running.

(** ** stubGenerator_riscv64.cpp: the unsafe copy stub and the range checks *)
Definition orr (rd a b : Register) := emit (Ialu Or rd a (OReg b)).

(** [j(RuntimeAddress(entry))] *)
Definition j_entry (entry : string) := emit (Ijump (TRuntime entry)).

Definition BytesPerInt : Z := 4.

Definition BytesPerLong : Z := 8.

Definition LogBytesPerShort : Z := 1.

Definition LogBytesPerInt : Z := 2.

Definition LogBytesPerLong : Z := 3.

(** Generate 'unsafe' array copy stub.  "Though just as safe as the other
    stubs, it takes an unscaled size_t argument instead of an element
    count."  Examines the alignment of the operands and dispatches to a
    long, int, short, or byte copy loop. *)
Definition generate_unsafe_copy (flags : vm_flags) (unsafe_array_copy_ctr : Z)
    (byte_copy_entry short_copy_entry int_copy_entry long_copy_entry : string) : Gen nat :=
  L_long_aligned ← new_label; L_int_aligned ← new_label; L_short_aligned ← new_label;
  let s := c_rarg0 in let d := c_rarg1 in let count := c_rarg2 in
  align;;
  start ← cur_pc;
  enter;; (* required for proper stackwalking of RuntimeStub frame *)

  (* bump this on entry, not on exit: *)
  inc_counter_np flags unsafe_array_copy_ctr;;

  orr t0 s d;;
  orr t0 t0 count;;

  andi t0 t0 (BytesPerLong - 1);;
  beqz t0 L_long_aligned;;
  andi t0 t0 (BytesPerInt - 1);;
  beqz t0 L_int_aligned;;
  andi t0 t0 1;;
  beqz t0 L_short_aligned;;
  j_entry byte_copy_entry;;

  bind L_short_aligned;;
  srli count count LogBytesPerShort;;  (* size => short_count *)
  j_entry short_copy_entry;;
  bind L_int_aligned;;
  srli count count LogBytesPerInt;;    (* size => int_count *)
  j_entry int_copy_entry;;
  bind L_long_aligned;;
  srli count count LogBytesPerLong;;   (* size => long_count *)
  j_entry long_copy_entry;;

  mret start.

(** Perform range checks on the proposed arraycopy.  Kills temp, but
    nothing else.  Also, clean the sign bits of src_pos and dst_pos.
    [clear_upper_bits] is a macro of the assembler outside of the
    excerpt. *)
Definition arraycopy_range_checks (length_offset_in_bytes : Z)
    (src src_pos dst dst_pos length temp : Register) (L_failed : Label) : Gen unit :=
  (* if [src_pos + length > arrayOop(src)->length()] then FAIL *)
  lwu t0 (Addr src length_offset_in_bytes);;
  addw temp length src_pos;;
  bgtu temp t0 L_failed;;

  (* if [dst_pos + length > arrayOop(dst)->length()] then FAIL *)
  lwu t0 (Addr dst length_offset_in_bytes);;
  addw temp length dst_pos;;
  bgtu temp t0 L_failed;;

  (* Have to clean up high 32 bits of 'src_pos' and 'dst_pos'. *)
  other "clear_upper_bits" [src_pos] [] true;;
  other "clear_upper_bits" [dst_pos] [] true.

Definition unsafe_copy_stub (flags : vm_flags) (ctr : Z) (b s i l : string) : program :=
  assembled (generate_unsafe_copy flags ctr b s i l).




Definition range_checks_code (off : Z) (src src_pos dst dst_pos length temp : Register)
    (L_failed : Label) : program :=
  assembled (arraycopy_range_checks off src src_pos dst dst_pos length temp L_failed).

(** A range [pos, pos + len) of an array of [alen] elements, as the checks
    see it: the 32-bit sum is not negative and not beyond the length. *)
Definition in_bounds (pos len alen : Z) : bool :=
  ((len + pos) mod 2 ^ 32 <? 2 ^ 31) && ((len + pos) mod 2 ^ 32 <=? alen).

(** What the range checks do, placed at [P] in a program that binds
    [L_failed] at [F]: they fall through when both ranges are in bounds and
    go to [L_failed] otherwise, without a store. *)
Definition range_checks_post (e : env) (p : program) (P F : nat) (off : Z)
    (src src_pos dst dst_pos length temp : Register) (st : state) : Prop :=
  let alen r := load W4 (getr (regs st) r + off) (mem st) in
  let len := getr (regs st) length in
  let ok := in_bounds (getr (regs st) src_pos) len (alen src)
            && in_bounds (getr (regs st) dst_pos) len (alen dst) in
  exists st',
    steps e p st st' /\ stat st' = Running /\
    pc st' = (if ok then (P + 8)%nat else F) /\
    mem st' = mem st /\ saved st' = saved st /\
    (forall r, ~ In r [t0; temp; src_pos; dst_pos] ->
       getr (regs st') r = getr (regs st) r) /\
    (ok = false ->
     getr (regs st') src_pos = getr (regs st) src_pos /\
     getr (regs st') dst_pos = getr (regs st) dst_pos).

(** The checks of the generic copy, with a place to fail at, and a call
    copying 3 elements from position 2 of one array to position 2^31 - 2 of
    another: the second sum overflows. *)
Definition example_checks : program :=
  range_checks_code 12 c_rarg0 c_rarg1 c_rarg2 c_rarg3 x28 t1 0%nat
    ++ [Imacro Mret; Ibind 0%nat; Imacro Mret].

Definition example_checks_call : state :=
  mkState 0 (fun r => if Nat.eqb r c_rarg0 then 4 else if Nat.eqb r c_rarg1 then 2
                      else if Nat.eqb r c_rarg2 then 8
                      else if Nat.eqb r c_rarg3 then 2147483646
                      else if Nat.eqb r x28 then 3 else 0)
          example_mem [] [] Running.

(** ** g1BarrierSetAssembler_riscv64.cpp: the barriers of a reference array copy *)
(** [(decorators & IS_DEST_UNINITIALIZED) != 0] *)
Definition is_dest_uninitialized (decorators : DecoratorSet) : bool :=
  existsb (fun d => match d with IS_DEST_UNINITIALIZED => true | _ => false end) decorators.

Definition gen_write_ref_array_pre_barrier (flags : vm_flags) (decorators : DecoratorSet)
    (addr count : Register) (saved_regs : list Register) : Gen unit :=
  let dest_uninitialized := is_dest_uninitialized decorators in
  when (negb dest_uninitialized)
    (push_reg saved_regs sp;;
     (if Nat.eqb count c_rarg0 then
        if Nat.eqb addr c_rarg1 then
          (* exactly backwards!! *)
          mv t0 c_rarg0;;
          mv c_rarg0 c_rarg1;;
          mv c_rarg1 t0
        else
          mv c_rarg1 count;;
          mv c_rarg0 addr
      else
        mv c_rarg0 addr;;
        mv c_rarg1 count);;
     (if UseCompressedOops flags then
        call_VM_leaf "G1BarrierSetRuntime::write_ref_array_pre_narrow_oop_entry"
                     [c_rarg0; c_rarg1]
      else
        call_VM_leaf "G1BarrierSetRuntime::write_ref_array_pre_oop_entry"
                     [c_rarg0; c_rarg1]);;
     pop_reg saved_regs sp).


Definition array_pre_barrier_code (flags : vm_flags) (decorators : DecoratorSet)
    (addr count : Register) (saved_regs : list Register) : program :=
  assembled (gen_write_ref_array_pre_barrier flags decorators addr count saved_regs).





(** ** generate_fixed_frame *)
Definition fixed_frame_code (flags : vm_flags) (lay : vm_layout) (native_call : bool)
    : program :=
  assembled (generate_fixed_frame flags lay native_call).

(** Words of the fixed part of the frame: 12, and 2 more for a native
    method. *)
Definition fixed_frame_words (native_call : bool) : Z := if native_call then 14 else 12.

(** The [n] words from address [b] up. *)
Definition words_at (m : Z -> Z) (b : Z) (n : nat) : list Z :=
  map (fun k => load W8 (b + 8 * Z.of_nat k) m) (seq 0 n).

(** The method data pointer the frame gets: with ProfileInterpreter the
    data of the MethodData, if the method has one. *)
Definition frame_mdp (flags : vm_flags) (lay : vm_layout) (st : state) : Z :=
  let md := load W8 (getr (regs st) xmethod + method_data_offset lay) (mem st) in
  if ProfileInterpreter flags
  then if md =? 0 then 0 else wrap (md + data_offset lay)
  else 0.

(** The bytecode pointer: the code base of the method, none for a native
    method. *)
Definition frame_bcp (lay : vm_layout) (native_call : bool) (st : state) : Z :=
  if native_call then 0
  else wrap (load W8 (getr (regs st) xmethod + const_offset lay) (mem st) + codes_offset lay).

(** What the code of [generate_fixed_frame] builds below the stack pointer
    [s] it is entered with.  From the lowest address [b]: the expression
    stack pointer (the address [b] of the word itself), the bytecode
    pointer, the locals, the constant pool cache, the mirror, a zero, the
    method data pointer, the method, a zero for the last sp, the sender's
    sp, the caller's [fp] and the return address; for a native method two
    zero words on top.  [fp] points at the saved [fp], and nothing outside
    of the frame is written. *)
Definition fixed_frame_post (e : env) (flags : vm_flags) (lay : vm_layout)
    (native_call : bool) (st : state) : Prop :=
  let p := fixed_frame_code flags lay native_call in
  let s := getr (regs st) sp in
  let b := s - fixed_frame_words native_call * wordSize in
  let r x := wrap (getr (regs st) x) in
  exists st',
    steps e p st st' /\ pc st' = length p /\ stat st' = Running /\
    words_at (mem st') b 12
    = [b; frame_bcp lay native_call st; r xlocals; wrap (getr (regs st') xcpool);
       wrap (mirror_of e (getr (regs st) xmethod)); 0; frame_mdp flags lay st; r xmethod;
       0; r x30; r fp; r lr] /\
    (native_call = true -> words_at (mem st') (b + 96) 2 = [0; 0]) /\
    getr (regs st') fp = b + 10 * wordSize /\
    getr (regs st') esp = b /\
    getr (regs st') xbcp = frame_bcp lay native_call st /\
    (if native_call then getr (regs st') sp = b else getr (regs st') sp mod 16 = 0) /\
    (forall x, x < b \/ s <= x -> mem st' x = mem st x) /\
    saved st' = saved st.

(** The stack has room for the frame, the words of the method that are read
    lie in the address space, and the one read while the frame is being
    written lies outside of it. *)
Definition fixed_frame_ok (flags : vm_flags) (lay : vm_layout) (native_call : bool)
    (st : state) : Prop :=
  let s := getr (regs st) sp in
  let b := s - fixed_frame_words native_call * wordSize in
  let outside a := 0 <= a /\ a + 8 <= two64 /\ (a + 8 <= b \/ s <= a) in
  0 <= b /\ s < two64 /\
  (native_call = false ->
   let a := getr (regs st) xmethod + const_offset lay in 0 <= a /\ a + 8 <= two64) /\
  (ProfileInterpreter flags = true ->
   outside (getr (regs st) xmethod + method_data_offset lay)).

(** A method at 16 with its frame to go below 100000. *)
Definition example_frame_call : state :=
  mkState 0 (fun r => if Nat.eqb r sp then 100000 else if Nat.eqb r xmethod then 16
                      else if Nat.eqb r lr then 4242 else if Nat.eqb r fp then 100016
                      else 0)
          example_mem [] [] Running.

(** ** stubGenerator_riscv64.cpp: zero_blocks *)
(** [for (int i = 0; i < MacroAssembler::zero_words_block_size; i++)],
    unrolled at generation time; [n] is the number of iterations left. *)
Fixpoint zero_block (n : nat) (base : Register) : Gen unit :=
  match n with
  | O => mret tt
  | S k =>
      sd zr (Addr base 0);;
      add_imm base base 8;;
      zero_block k base
  end.

(** "The inner part of zero_words().  This is the bulk operation, zeroing
    words in blocks ...  The caller is responsible for zeroing the last few
    words."  Inputs: x28, the base address of an array to zero; x29, the
    count in HeapWords.  Returns x28 and x29, adjusted for the caller to
    clear.  [zero_words_block_size] is a constant of MacroAssembler outside
    of the excerpt. *)
Definition generate_zero_blocks (zero_words_block_size : nat) : Gen nat :=
  store_pair ← new_label; loop_store_pair ← new_label; done ← new_label;
  base_aligned ← new_label;
  let base := x28 in let cnt := x29 in
  align;;
  start ← cur_pc;
  (* Clear the remaining blocks. *)
  loop ← new_label;
  sub_imm cnt cnt (Z.of_nat zero_words_block_size);;
  bltz cnt done;;
  bind loop;;
  zero_block zero_words_block_size base;;
  sub_imm cnt cnt (Z.of_nat zero_words_block_size);;
  bgez cnt loop;;
  bind done;;
  add_imm cnt cnt (Z.of_nat zero_words_block_size);;
  ret;;
  mret start.

Definition zero_blocks_stub (bs : nat) : program := assembled (generate_zero_blocks bs).

(** The unrolled block, as code. *)
Fixpoint zero_block_code (n : nat) : list instr :=
  match n with
  | O => []
  | S k => Istore W8 zr (Addr x28 0) :: Ialu Add x28 x28 (OImm 8) :: zero_block_code k
  end.

(** What a call of the stub does with [c] words at [b] and blocks of [bs]
    words: the whole blocks are zero, nothing else is written, and it
    returns the address behind the last whole block in [x28] and the count
    of the words left, fewer than a block, in [x29]. *)
Definition zero_blocks_post (e : env) (bs : nat) (st : state) (b c : Z) : Prop :=
  let whole := 8 * (Z.of_nat bs * (c / Z.of_nat bs)) in
  exists st',
    steps e (zero_blocks_stub bs) st st' /\ stat st' = Returned /\
    getr (regs st') x28 = b + whole /\
    getr (regs st') x29 = c mod Z.of_nat bs /\
    (forall x, b <= x < b + whole -> mem st' x = 0) /\
    (forall x, x < b \/ b + whole <= x -> mem st' x = mem st x) /\
    saved st' = saved st /\
    (forall r, r <> x28 -> r <> x29 -> getr (regs st') r = getr (regs st) r).

(** Nineteen words at 16, in blocks of 8. *)
Definition example_zero_call : state :=
  mkState 1 (fun r => if Nat.eqb r x28 then 16 else if Nat.eqb r x29 then 19 else 0)
          example_mem [] [] Running.

(** * Proofs *)
(** ** The machine: running, stepping, fetching *)
Lemma run_add (a b : nat) e p st : run (a + b) e p st = run b e p (run a e p st).
Proof. revert st; induction a as [|a IH]; intros st; simpl; [reflexivity | apply IH]. Qed.

Lemma step_halted e p st : stat st <> Running -> step e p st = st.
Proof. unfold step; destruct (stat st); congruence. Qed.

Lemma run_halted n e p st : stat st <> Running -> run n e p st = st.
Proof.
  induction n as [|n IH]; intros H; simpl; [reflexivity|].
  rewrite step_halted by exact H. apply IH, H.
Qed.

Lemma steps_refl e p st : steps e p st st.
Proof. exists O; reflexivity. Qed.

Lemma steps_trans e p st1 st2 st3 :
  steps e p st1 st2 -> steps e p st2 st3 -> steps e p st1 st3.
Proof.
  intros [a Ha] [b Hb]. exists (a + b)%nat. rewrite run_add, Ha. exact Hb.
Qed.

Lemma steps_step e p st st' i :
  stat st = Running -> nth_error p (pc st) = Some i ->
  steps e p (exec e p i st) st' -> steps e p st st'.
Proof.
  intros Hs Hf [n Hn]. exists (S n). simpl. unfold step. rewrite Hs, Hf. exact Hn.
Qed.

Lemma code_at_intro p P frag :
  firstn (length frag) (skipn P p) = frag -> code_at p P frag.
Proof.
  intros H k i Hk. rewrite <- H in Hk.
  assert (Hlt : (k < length frag)%nat).
  { apply nth_error_Some. rewrite <- H. rewrite H in Hk |- *.
    rewrite <- H in Hk. congruence. }
  rewrite nth_error_firstn in Hk.
  destruct (Nat.ltb_spec k (length frag)); [| lia].
  rewrite nth_error_skipn in Hk. exact Hk.
Qed.

(** ** Byte memory *)
Lemma wrap_small x : 0 <= x < two64 -> wrap x = x.
Proof. intros H. unfold wrap. apply Z.mod_small, H. Qed.

Lemma two64_eq : two64 = 18446744073709551616.
Proof. reflexivity. Qed.

Lemma store_bytes_out n : forall a v m x,
  0 <= a -> a + Z.of_nat n <= two64 ->
  x < a \/ a + Z.of_nat n <= x ->
  store_bytes n a v m x = m x.
Proof.
  induction n as [|n IH]; intros a v m x Ha Hb Hx; simpl; [reflexivity|].
  rewrite IH by lia.
  rewrite wrap_small by lia.
  destruct (Z.eqb_spec x a); [lia | reflexivity].
Qed.

Lemma store_bytes_in n : forall a v m x,
  0 <= a -> a + Z.of_nat n <= two64 ->
  a <= x < a + Z.of_nat n ->
  store_bytes n a v m x = (v / 256 ^ (x - a)) mod 256.
Proof.
  induction n as [|n IH]; intros a v m x Ha Hb Hx; simpl; [lia|].
  destruct (Z.eq_dec x a) as [->|Hne].
  - rewrite store_bytes_out by lia.
    rewrite wrap_small by lia. rewrite Z.eqb_refl.
    rewrite Z.sub_diag. simpl. rewrite Z.div_1_r. reflexivity.
  - rewrite IH by lia.
    rewrite Z.div_div by lia.
    replace (256 * 256 ^ (x - (a + 1))) with (256 ^ (x - a)); [reflexivity|].
    replace (x - a) with (Z.succ (x - (a + 1))) by lia.
    rewrite Z.pow_succ_r by lia. reflexivity.
Qed.

Lemma load_bytes_digit n : forall a m i,
  0 <= a -> a + Z.of_nat n <= two64 ->
  0 <= i < Z.of_nat n ->
  (load_bytes n a m / 256 ^ i) mod 256 = m (a + i) mod 256.
Proof.
  induction n as [|n IH]; intros a m i Ha Hb Hi; [simpl in Hi; lia|].
  cbn [load_bytes]. rewrite wrap_small by lia.
  destruct (Z.eq_dec i 0) as [->|Hne].
  - rewrite Z.pow_0_r, Z.div_1_r, Z.add_0_r.
    rewrite (Z.mul_comm 256), Z.mod_add by lia.
    apply Z.mod_mod. lia.
  - replace i with (Z.succ (i - 1)) at 1 by lia.
    rewrite Z.pow_succ_r by lia.
    rewrite <- Z.div_div by lia.
    rewrite (Z.mul_comm 256), Z.div_add by lia.
    rewrite (Z.div_small (m a mod 256) 256) by (apply Z.mod_pos_bound; lia).
    rewrite Z.add_0_l, IH by lia.
    f_equal. f_equal. lia.
Qed.

Lemma load_bytes_ext n : forall a m m',
  (forall x, m x = m' x) -> load_bytes n a m = load_bytes n a m'.
Proof.
  induction n as [|n IH]; intros a m m' H; simpl; [reflexivity|].
  rewrite H, (IH _ m m' H). reflexivity.
Qed.

Lemma load_bytes_bound n : forall a m, 0 <= load_bytes n a m < 256 ^ Z.of_nat n.
Proof.
  induction n as [|n IH]; intros a m.
  - simpl. lia.
  - cbn [load_bytes]. rewrite Nat2Z.inj_succ, Z.pow_succ_r by lia.
    specialize (IH (a + 1) m).
    pose proof (Z.mod_pos_bound (m (wrap a)) 256 ltac:(lia)). nia.
Qed.

(** Copying a chunk: a load of [n] bytes at [sa] stored at [da]. *)
Lemma copy_chunk n sa da m x :
  0 <= sa -> sa + Z.of_nat n <= two64 ->
  0 <= da -> da + Z.of_nat n <= two64 ->
  store_bytes n da (load_bytes n sa m) m x =
  if (da <=? x) && (x <? da + Z.of_nat n) then m (sa + (x - da)) mod 256 else m x.
Proof.
  intros Hs1 Hs2 Hd1 Hd2.
  destruct (Z.leb_spec da x); destruct (Z.ltb_spec x (da + Z.of_nat n)); cbn [andb].
  - rewrite store_bytes_in by lia. apply load_bytes_digit; lia.
  - apply store_bytes_out; lia.
  - apply store_bytes_out; lia.
  - apply store_bytes_out; lia.
Qed.

Lemma nbytes_of w : Z.of_nat (nbytes w) = bytes_of w.
Proof. destruct w; reflexivity. Qed.

Lemma bytes_of_cases w : bytes_of w = 1 \/ bytes_of w = 2 \/ bytes_of w = 4 \/ bytes_of w = 8.
Proof. destruct w; simpl; lia. Qed.

Lemma load_bound w a m : 0 <= load w a m < two64.
Proof.
  unfold load. pose proof (load_bytes_bound (nbytes w) a m) as H.
  assert (256 ^ Z.of_nat (nbytes w) <= two64) by (destruct w; vm_compute; congruence).
  lia.
Qed.

Lemma copied_empty m0 s d lo x : copied m0 s d lo lo x = m0 x.
Proof.
  unfold copied. destruct (Z.leb_spec lo x); destruct (Z.ltb_spec x lo); simpl; try reflexivity;
      lia.
Qed.

(** One chunk more at the high end (forward copy). *)
Lemma copied_extend_hi m0 m s d lo hi w x :
  wf_mem m0 -> (forall y, m y = copied m0 s d lo hi y) ->
  d <= lo -> lo <= hi -> 0 <= s -> 0 <= d ->
  hi + bytes_of w <= two64 -> hi - d + s + bytes_of w <= two64 ->
  (d <= s \/ hi - d + s + bytes_of w <= lo) ->
  store w hi (load w (hi - d + s) m) m x = copied m0 s d lo (hi + bytes_of w) x.
Proof.
  intros Hwf Hm H1 H2 H3 H4 H5 H6 H7. unfold store, load.
  pose proof (nbytes_of w) as Hn. pose proof (bytes_of_cases w) as Hc.
  rewrite copy_chunk by lia. rewrite Hn.
  unfold copied.
  destruct (Z.leb_spec hi x); destruct (Z.ltb_spec x (hi + bytes_of w)); cbn [andb].
  - rewrite Hm. unfold copied.
    destruct (Z.leb_spec lo (hi - d + s + (x - hi)));
      destruct (Z.ltb_spec (hi - d + s + (x - hi)) hi); cbn [andb]; try lia.
    all: destruct (Z.leb_spec lo x); destruct (Z.ltb_spec x (hi + bytes_of w)); cbn [andb]; try
        lia.
    all: rewrite Z.mod_small by apply Hwf; f_equal; lia.
  - rewrite Hm. unfold copied.
    destruct (Z.leb_spec lo x); destruct (Z.ltb_spec x hi);
      destruct (Z.ltb_spec x (hi + bytes_of w)); cbn [andb]; try lia; reflexivity.
  - rewrite Hm. unfold copied.
    destruct (Z.leb_spec lo x); destruct (Z.ltb_spec x hi);
      destruct (Z.ltb_spec x (hi + bytes_of w)); cbn [andb]; try lia; reflexivity.
  - rewrite Hm. unfold copied.
    destruct (Z.leb_spec lo x); destruct (Z.ltb_spec x hi);
      destruct (Z.ltb_spec x (hi + bytes_of w)); cbn [andb]; try lia; reflexivity.
Qed.

(** One chunk more at the low end (backward copy). *)
Lemma copied_extend_lo m0 m s d lo hi w x :
  wf_mem m0 -> (forall y, m y = copied m0 s d lo hi y) ->
  d + bytes_of w <= lo -> lo <= hi -> 0 <= s -> 0 <= d ->
  hi <= two64 -> lo - d + s <= two64 ->
  s <= d ->
  store w (lo - bytes_of w) (load w (lo - bytes_of w - d + s) m) m x
  = copied m0 s d (lo - bytes_of w) hi x.
Proof.
  intros Hwf Hm H1 H2 H3 H4 H5 H6 H7. unfold store, load.
  pose proof (nbytes_of w) as Hn. pose proof (bytes_of_cases w) as Hc.
  rewrite copy_chunk by lia. rewrite Hn.
  unfold copied.
  destruct (Z.leb_spec (lo - bytes_of w) x);
    destruct (Z.ltb_spec x (lo - bytes_of w + bytes_of w)); cbn [andb].
  - rewrite Hm. unfold copied.
    destruct (Z.leb_spec lo (lo - bytes_of w - d + s + (x - (lo - bytes_of w))));
      destruct (Z.ltb_spec (lo - bytes_of w - d + s + (x - (lo - bytes_of w))) hi);
      cbn [andb]; try lia.
    all: destruct (Z.ltb_spec x hi); cbn [andb]; try lia.
    all: rewrite Z.mod_small by apply Hwf; f_equal; lia.
  - rewrite Hm. unfold copied.
    destruct (Z.leb_spec lo x); destruct (Z.ltb_spec x hi); cbn [andb]; try lia; reflexivity.
  - rewrite Hm. unfold copied.
    destruct (Z.leb_spec lo x); destruct (Z.ltb_spec x hi); cbn [andb]; try lia; reflexivity.
  - rewrite Hm. unfold copied.
    destruct (Z.leb_spec lo x); destruct (Z.ltb_spec x hi); cbn [andb]; try lia; reflexivity.
Qed.

Lemma code_at_nth p P frag k i :
  code_at p P frag -> nth_error frag k = Some i -> nth_error p (P + k) = Some i.
Proof. intros H. apply H. Qed.

Lemma code_at_app_r p P f1 f2 :
  code_at p P (f1 ++ f2) -> code_at p (P + length f1) f2.
Proof.
  intros H k i Hk. rewrite <- Nat.add_assoc. apply H.
  rewrite nth_error_app2 by lia.
  replace (length f1 + k - length f1)%nat with k by lia. exact Hk.
Qed.

Lemma code_at_app_l p P f1 f2 :
  code_at p P (f1 ++ f2) -> code_at p P f1.
Proof.
  intros H k i Hk. apply H. rewrite nth_error_app1; [exact Hk|].
  apply nth_error_Some. congruence.
Qed.

Lemma load_ext w a m m' : (forall x, m x = m' x) -> load w a m = load w a m'.
Proof. apply load_bytes_ext. Qed.

Lemma load_copied_outside w a m0 s d lo hi :
  0 <= a -> a + bytes_of w <= two64 ->
  a + bytes_of w <= lo \/ hi <= a ->
  load w a (copied m0 s d lo hi) = load w a m0.
Proof.
  intros H1 H2 H3. unfold load. pose proof (nbytes_of w) as Hn.
  revert Hn. generalize (nbytes w). intros n. revert a H1 H2 H3.
  generalize (bytes_of w). intros b a H1 H2 H3 Hn. subst b.
  revert a H1 H2 H3. induction n as [|n IH]; intros a H1 H2 H3; [reflexivity|].
  cbn [load_bytes]. rewrite wrap_small by lia.
  rewrite IH by lia. f_equal. f_equal. unfold copied.
  destruct (Z.leb_spec lo a); destruct (Z.ltb_spec a hi); cbn [andb]; try reflexivity; lia.
Qed.

Lemma store_bytes_ext n : forall a v m m' x,
  (forall y, m y = m' y) -> store_bytes n a v m x = store_bytes n a v m' x.
Proof.
  induction n as [|n IH]; intros a v m m' x H; simpl; [apply H|].
  apply IH. intros y. destruct (y =? wrap a); [reflexivity | apply H].
Qed.

Lemma store_ext w a v m m' x :
  (forall y, m y = m' y) -> store w a v m x = store w a v m' x.
Proof. apply store_bytes_ext. Qed.

Lemma getr_setr_eq r v rf : Nat.eqb r 0 = false -> getr (setr r v rf) r = v.
Proof. intros H. unfold getr, setr. rewrite H, Nat.eqb_refl. reflexivity. Qed.

Lemma getr_setr_ne r r' v rf : Nat.eqb r' r = false -> getr (setr r v rf) r' = getr rf r'.
Proof. intros H. unfold getr, setr. rewrite H. reflexivity. Qed.

Lemma getr_zr rf : getr rf zr = 0.
Proof. reflexivity. Qed.

Ltac regs_simpl :=
  repeat first
    [ rewrite getr_zr
    | rewrite getr_setr_eq by reflexivity
    | rewrite getr_setr_ne by reflexivity ].

Ltac msimpl :=
  cbn [exec exec_macro next halt write log poke addr_of save_regs
       pc regs mem saved trace stat base offset Addr eval_operand eval_alu eval_cmp];
  regs_simpl.

Lemma wrap_neg_bytes w : wrap (- bytes_of w) = two64 - bytes_of w.
Proof. destruct w; reflexivity. Qed.

Lemma wrap_add_neg x b : 0 < b <= two64 -> b <= x < two64 -> wrap (x + (two64 - b)) = x - b.
Proof.
  intros Hb Hx. unfold wrap.
  replace (x + (two64 - b)) with (x - b + 1 * two64) by lia.
  rewrite Z.mod_add by (rewrite two64_eq; lia). apply Z.mod_small. lia.
Qed.

Lemma signed_small x : 0 <= x < 2 ^ 63 -> signed x = x.
Proof. intros H. unfold signed. destruct (Z.ltb_spec x (2 ^ 63)); lia. Qed.

Section Chunks.

Variables (e : env) (p : program).

(** Forward chunk: load at [src], store at [dst], bump, count down. *)
Lemma chunk_fwd P w st m0 s d lo hi cnt sv tr :
  code_at p P
    [Iload w false x16 (Addr x30 0); Istore w x16 (Addr x31 0);
     Ialu Add x30 x30 (OImm (bytes_of w)); Ialu Add x31 x31 (OImm (bytes_of w));
     Ialu Add x15 x15 (OImm (- bytes_of w))] ->
  wf_mem m0 ->
  at_copy st P (hi - d + s) hi cnt (copied m0 s d lo hi) sv tr ->
  d <= lo -> lo <= hi -> 0 <= s -> 0 <= d ->
  hi + bytes_of w < two64 -> hi - d + s + bytes_of w < two64 ->
  (d <= s \/ hi - d + s + bytes_of w <= lo) ->
  bytes_of w <= cnt < two64 ->
  exists st',
    steps e p st st' /\
    at_copy st' (P + 5) (hi + bytes_of w - d + s) (hi + bytes_of w) (cnt - bytes_of w)
            (copied m0 s d lo (hi + bytes_of w)) sv
            (chunk_events w m0 (hi - d + s) hi ++ tr).
Proof.
  intros Hc Hwf (Hpc & Hst & Hsrc & Hdst & Hcnt & Hm & Hsv & Htr) H1 H2 H3 H4 H5 H6 H7 H8.
  pose proof (bytes_of_cases w) as Hw. pose proof two64_eq as H64.
  eexists. split.
  - rewrite <- (Nat.add_0_r P) in Hpc.
    eapply steps_step; [exact Hst | rewrite Hpc; eapply (code_at_nth _ _ _ 0%nat); [exact Hc |
        reflexivity] |].
    eapply steps_step; [exact Hst | cbn [exec pc next write log]; rewrite Hpc; rewrite plus_n_Sm;
        eapply (code_at_nth _ _ _ 1%nat); [exact Hc | reflexivity] |].
    eapply steps_step; [exact Hst | cbn [exec pc next write log poke]; rewrite Hpc; rewrite
        !plus_n_Sm; eapply (code_at_nth _ _ _ 2%nat); [exact Hc | reflexivity] |].
    eapply steps_step; [exact Hst | cbn [exec pc next write log poke]; rewrite Hpc; rewrite
        !plus_n_Sm; eapply (code_at_nth _ _ _ 3%nat); [exact Hc | reflexivity] |].
    eapply steps_step; [exact Hst | cbn [exec pc next write log poke]; rewrite Hpc; rewrite
        !plus_n_Sm; eapply (code_at_nth _ _ _ 4%nat); [exact Hc | reflexivity] |].
    apply steps_refl.
  - unfold at_copy. msimpl.
    rewrite Hpc, Hst, Hsrc, Hdst, Hcnt, !Z.add_0_r.
    rewrite (wrap_small (bytes_of w)) by lia.
    rewrite wrap_neg_bytes, wrap_add_neg by lia.
    rewrite !wrap_small by lia.
    split; [lia|]. split; [reflexivity|].
    split; [lia|]. split; [lia|]. split; [lia|].
    split.
    { intros x. rewrite (load_ext _ _ _ _ Hm), (store_ext _ _ _ _ _ _ Hm).
      apply (copied_extend_hi m0 (copied m0 s d lo hi)); auto; lia. }
    split; [exact Hsv|].
    unfold chunk_events. cbn [app]. rewrite Htr.
    rewrite (load_ext _ _ _ _ Hm).
    rewrite load_copied_outside by lia. reflexivity.
Qed.

(** Backward chunk: step down, load at [src], store at [dst], count down. *)
Lemma chunk_bwd P w st m0 s d lo hi cnt sv tr :
  code_at p P
    [Ialu Add x30 x30 (OImm (- bytes_of w)); Ialu Add x31 x31 (OImm (- bytes_of w));
     Iload w false x16 (Addr x30 0); Istore w x16 (Addr x31 0);
     Ialu Add x15 x15 (OImm (- bytes_of w))] ->
  wf_mem m0 ->
  at_copy st P (lo - d + s) lo cnt (copied m0 s d lo hi) sv tr ->
  d + bytes_of w <= lo -> lo <= hi -> 0 <= s -> s <= d ->
  hi < two64 ->
  bytes_of w <= cnt < two64 ->
  exists st',
    steps e p st st' /\
    at_copy st' (P + 5) (lo - bytes_of w - d + s) (lo - bytes_of w) (cnt - bytes_of w)
            (copied m0 s d (lo - bytes_of w) hi) sv
            (chunk_events w m0 (lo - bytes_of w - d + s) (lo - bytes_of w) ++ tr).
Proof.
  intros Hc Hwf (Hpc & Hst & Hsrc & Hdst & Hcnt & Hm & Hsv & Htr) H1 H2 H3 H4 H5 H8.
  pose proof (bytes_of_cases w) as Hw. pose proof two64_eq as H64.
  eexists. split.
  - rewrite <- (Nat.add_0_r P) in Hpc.
    eapply steps_step; [exact Hst | rewrite Hpc; eapply (code_at_nth _ _ _ 0%nat); [exact Hc |
        reflexivity] |].
    eapply steps_step; [exact Hst | cbn [exec pc next write log]; rewrite Hpc; rewrite plus_n_Sm;
        eapply (code_at_nth _ _ _ 1%nat); [exact Hc | reflexivity] |].
    eapply steps_step; [exact Hst | cbn [exec pc next write log poke]; rewrite Hpc; rewrite
        !plus_n_Sm; eapply (code_at_nth _ _ _ 2%nat); [exact Hc | reflexivity] |].
    eapply steps_step; [exact Hst | cbn [exec pc next write log poke]; rewrite Hpc; rewrite
        !plus_n_Sm; eapply (code_at_nth _ _ _ 3%nat); [exact Hc | reflexivity] |].
    eapply steps_step; [exact Hst | cbn [exec pc next write log poke]; rewrite Hpc; rewrite
        !plus_n_Sm; eapply (code_at_nth _ _ _ 4%nat); [exact Hc | reflexivity] |].
    apply steps_refl.
  - unfold at_copy. msimpl.
    rewrite Hpc, Hst, Hsrc, Hdst, Hcnt, !Z.add_0_r.
    rewrite wrap_neg_bytes, !wrap_add_neg by lia.
    rewrite ?wrap_small by lia.
    split; [lia|]. split; [reflexivity|].
    split; [lia|]. split; [lia|]. split; [lia|].
    split.
    { intros x. rewrite (load_ext _ _ _ _ Hm), (store_ext _ _ _ _ _ _ Hm).
      replace (lo - d + s - bytes_of w) with (lo - bytes_of w - d + s) by lia.
      apply (copied_extend_lo m0 (copied m0 s d lo hi)); auto; lia. }
    split; [exact Hsv|].
    unfold chunk_events. cbn [app]. rewrite Htr.
    rewrite (load_ext _ _ _ _ Hm).
    replace (lo - d + s - bytes_of w) with (lo - bytes_of w - d + s) by lia.
    rewrite load_copied_outside by lia. reflexivity.
Qed.

(** A bound label is a no-op. *)
Lemma at_bind P l st src dst cnt m sv tr :
  code_at p P [Ibind l] ->
  at_copy st P src dst cnt m sv tr ->
  exists st', steps e p st st' /\ at_copy st' (P + 1) src dst cnt m sv tr.
Proof.
  intros Hc (Hpc & Hst & Hsrc & Hdst & Hcnt & Hm & Hsv & Htr).
  eexists. split.
  - rewrite <- (Nat.add_0_r P) in Hpc.
    eapply steps_step; [exact Hst | rewrite Hpc; eapply (code_at_nth _ _ _ 0%nat); [exact Hc |
        reflexivity] |].
    apply steps_refl.
  - unfold at_copy. msimpl. rewrite Hpc. repeat split; auto; lia.
Qed.

(** A conditional branch on the byte count against zero. *)
Lemma at_branch_cnt P c l Q st src dst cnt m sv tr :
  code_at p P [Ibranch c x15 zr (TLabel l)] ->
  label_pos p l = Some Q ->
  at_copy st P src dst cnt m sv tr ->
  exists st', steps e p st st' /\
    at_copy st' (if eval_cmp c cnt 0 then Q else (P + 1)%nat) src dst cnt m sv tr.
Proof.
  intros Hc Hl (Hpc & Hst & Hsrc & Hdst & Hcnt & Hm & Hsv & Htr).
  eexists. split.
  - rewrite <- (Nat.add_0_r P) in Hpc.
    eapply steps_step; [exact Hst | rewrite Hpc; eapply (code_at_nth _ _ _ 0%nat); [exact Hc |
        reflexivity] |].
    apply steps_refl.
  - unfold at_copy. cbn [exec]. regs_simpl. rewrite Hcnt.
    destruct (eval_cmp c cnt 0).
    + unfold goto. rewrite Hl. cbn [pc regs mem saved trace stat]. repeat split; auto.
    + msimpl. rewrite Hpc. repeat split; auto; lia.
Qed.

(** An unconditional jump. *)
Lemma at_jump P l Q st src dst cnt m sv tr :
  code_at p P [Ijump (TLabel l)] ->
  label_pos p l = Some Q ->
  at_copy st P src dst cnt m sv tr ->
  exists st', steps e p st st' /\ at_copy st' Q src dst cnt m sv tr.
Proof.
  intros Hc Hl (Hpc & Hst & Hsrc & Hdst & Hcnt & Hm & Hsv & Htr).
  eexists. split.
  - rewrite <- (Nat.add_0_r P) in Hpc.
    eapply steps_step; [exact Hst | rewrite Hpc; eapply (code_at_nth _ _ _ 0%nat); [exact Hc |
        reflexivity] |].
    apply steps_refl.
  - unfold at_copy. cbn [exec]. unfold goto. rewrite Hl.
    cbn [pc regs mem saved trace stat]. repeat split; auto.
Qed.

Lemma chain (Q : state -> Prop) st st1 :
  steps e p st st1 -> (exists st', steps e p st1 st' /\ Q st') ->
  exists st', steps e p st st' /\ Q st'.
Proof.
  intros S1 (st' & S2 & HQ). exists st'. split; [eapply steps_trans; eassumption | exact HQ].
Qed.

(** The alignment test at the head of [same_aligned]. *)
Lemma at_aligned_test P l Q st src dst cnt m sv tr :
  code_at p P [Ialu And x5 x30 (OImm 7); Ibranch Ceq x5 zr (TLabel l)] ->
  label_pos p l = Some Q ->
  0 <= src ->
  at_copy st P src dst cnt m sv tr ->
  exists st', steps e p st st' /\
    at_copy st' (if src mod 8 =? 0 then Q else (P + 2)%nat) src dst cnt m sv tr.
Proof.
  intros Hc Hl Hsrc0 (Hpc & Hst & Hsrc & Hdst & Hcnt & Hm & Hsv & Htr).
  eexists. split.
  - rewrite <- (Nat.add_0_r P) in Hpc.
    eapply steps_step; [exact Hst | rewrite Hpc; eapply (code_at_nth _ _ _ 0%nat); [exact Hc |
        reflexivity] |].
    eapply steps_step; [exact Hst | cbn [exec pc next write log]; rewrite Hpc; rewrite plus_n_Sm;
        eapply (code_at_nth _ _ _ 1%nat); [exact Hc | reflexivity] |].
    apply steps_refl.
  - unfold at_copy. cbn [exec]. unfold next, write. cbn [pc regs mem saved trace stat
      eval_operand eval_alu eval_cmp].
    regs_simpl. rewrite Hsrc.
    change (wrap 7) with (Z.ones 3). rewrite Z.land_ones by lia.
    change (2 ^ 3) with 8.
    destruct (src mod 8 =? 0).
    + unfold goto. rewrite Hl. cbn [pc regs mem saved trace stat]. regs_simpl.
      repeat split; auto.
    + unfold next. cbn [pc regs mem saved trace stat]. regs_simpl. rewrite Hpc.
      repeat split; auto; lia.
Qed.

(** The tail of [copy8]: [tmp4 = cnt - 8; bgez tmp4, copy8]. *)
Lemma at_word_test P l Q st src dst cnt m sv tr :
  code_at p P [Ialu Add x17 x15 (OImm (-8)); Ibranch Cge x17 zr (TLabel l)] ->
  label_pos p l = Some Q ->
  0 <= cnt < 2 ^ 63 ->
  at_copy st P src dst cnt m sv tr ->
  exists st', steps e p st st' /\
    at_copy st' (if 8 <=? cnt then Q else (P + 2)%nat) src dst cnt m sv tr.
Proof.
  intros Hc Hl Hcnt0 (Hpc & Hst & Hsrc & Hdst & Hcnt & Hm & Hsv & Htr).
  eexists. split.
  - rewrite <- (Nat.add_0_r P) in Hpc.
    eapply steps_step; [exact Hst | rewrite Hpc; eapply (code_at_nth _ _ _ 0%nat); [exact Hc |
        reflexivity] |].
    eapply steps_step; [exact Hst | cbn [exec pc next write log]; rewrite Hpc; rewrite plus_n_Sm;
        eapply (code_at_nth _ _ _ 1%nat); [exact Hc | reflexivity] |].
    apply steps_refl.
  - unfold at_copy. cbn [exec]. unfold next, write. cbn [pc regs mem saved trace stat
      eval_operand eval_alu eval_cmp].
    regs_simpl. rewrite Hcnt.
    change (signed 0) with 0.
    assert (Hb : (0 <=? signed (wrap (cnt + wrap (-8)))) = (8 <=? cnt)).
    { change (wrap (-8)) with (two64 - 8).
      destruct (Z.leb_spec 8 cnt).
      - rewrite wrap_add_neg by (rewrite ?two64_eq; lia).
        rewrite signed_small by lia. apply Z.leb_le. lia.
      - rewrite wrap_small by (rewrite two64_eq; lia).
        unfold signed. destruct (Z.ltb_spec (cnt + (two64 - 8)) (2 ^ 63)).
        + rewrite two64_eq in *. lia.
        + apply Z.leb_gt. lia. }
    rewrite Hb.
    destruct (8 <=? cnt).
    + unfold goto. rewrite Hl. cbn [pc regs mem saved trace stat]. regs_simpl.
      repeat split; auto.
    + unfold next. cbn [pc regs mem saved trace stat]. regs_simpl. rewrite Hpc.
      repeat split; auto; lia.
Qed.

End Chunks.

Lemma code_at_sub p P frag k sub :
  code_at p P frag -> firstn (length sub) (skipn k frag) = sub -> code_at p (P + k) sub.
Proof.
  intros H Hs j i Hj. rewrite <- Nat.add_assoc. apply H.
  rewrite <- Hs in Hj.
  assert (Hlt : (j < length sub)%nat).
  { destruct (Nat.ltb_spec j (length sub)) as [|Hge]; [assumption|].
    rewrite nth_error_firstn in Hj.
    destruct (Nat.ltb_spec j (length sub)); [lia | discriminate]. }
  rewrite nth_error_firstn in Hj.
  destruct (Nat.ltb_spec j (length sub)); [|lia].
  rewrite nth_error_skipn in Hj. exact Hj.
Qed.

Lemma code_at_sub0 p P frag sub :
  code_at p P frag -> firstn (length sub) frag = sub -> code_at p P sub.
Proof.
  intros H Hs. pose proof (code_at_sub p P frag 0%nat sub H Hs) as H'.
  rewrite Nat.add_0_r in H'. exact H'.
Qed.

Lemma at_copy_pc st P P' src dst cnt m sv tr :
  at_copy st P src dst cnt m sv tr -> P = P' -> at_copy st P' src dst cnt m sv tr.
Proof. intros H <-. exact H. Qed.

Lemma at_copy_ext st P src dst cnt m m' sv tr :
  at_copy st P src dst cnt m sv tr -> (forall x, m x = m' x) ->
  at_copy st P src dst cnt m' sv tr.
Proof.
  intros (Hpc & Hst & Hsrc & Hdst & Hcnt & Hm & Hsv & Htr) H.
  repeat split; auto. intros x. rewrite Hm. apply H.
Qed.

Lemma at_copy_eq st P P' src src' dst dst' cnt cnt' m m' sv tr tr' :
  at_copy st P src dst cnt m sv tr ->
  P = P' -> src = src' -> dst = dst' -> cnt = cnt' -> (forall x, m x = m' x) -> tr = tr' ->
  at_copy st P' src' dst' cnt' m' sv tr'.
Proof.
  intros (Hpc & Hst & Hsrc & Hdst & Hcnt & Hm & Hsv & Htr) <- <- <- <- H <-.
  repeat split; auto. intros x. rewrite Hm. apply H.
Qed.

(** Close a goal [at_copy ..] from a known [at_copy] fact up to arithmetic. *)
Ltac at_fin A :=
  eapply at_copy_eq;
  [ exact A | lia | lia | lia | lia
  | solve [intros ?x; f_equal; lia]
  | solve [cbn [fwd_events bwd_events bytes_of]; repeat (f_equal; try lia)] ].

Section Loops.

Variables (e : env) (p : program) (m0 : Z -> Z) (s d : Z).

Hypothesis Hwf : wf_mem m0.

Hypotheses (Hs0 : 0 <= s) (Hd0 : 0 <= d).

Lemma chain2 (A : Type) (Q : state -> A -> Prop) st st1 :
  steps e p st st1 -> (exists st' j, steps e p st1 st' /\ Q st' j) ->
  exists st' j, steps e p st st' /\ Q st' j.
Proof.
  intros S1 (st' & j & S2 & HQ). exists st', j.
  split; [eapply steps_trans; eassumption | exact HQ].
Qed.

(** [copy_small], forward: one element per iteration until the count is
    used up. *)
Lemma copy_small_fwd P L w sv lo :
  code_at p P (Ibind L :: body_fwd w ++ [Ibranch Cgt x15 zr (TLabel L)]) ->
  label_pos p L = Some P ->
  forall k st hi tr,
    at_copy st P (hi - d + s) hi (Z.of_nat (S k) * bytes_of w) (copied m0 s d lo hi) sv tr ->
    d <= lo -> lo <= hi ->
    hi + Z.of_nat (S k) * bytes_of w < two64 ->
    hi - d + s + Z.of_nat (S k) * bytes_of w < two64 ->
    Z.of_nat (S k) * bytes_of w < 2 ^ 63 ->
    (d <= s \/ hi - d + s + Z.of_nat (S k) * bytes_of w <= lo) ->
    exists st',
      steps e p st st' /\
      at_copy st' (P + 7) (hi + Z.of_nat (S k) * bytes_of w - d + s)
              (hi + Z.of_nat (S k) * bytes_of w) 0
              (copied m0 s d lo (hi + Z.of_nat (S k) * bytes_of w)) sv
              (fwd_events w m0 (hi - d + s) hi (S k) tr).
Proof.
  intros Hc Hl. pose proof (bytes_of_cases w) as Hw. pose proof two64_eq as H64.
  induction k as [|k IH]; intros st hi tr Hat H1 H2 H3 H4 H5 H6.
  all: try (assert (Hk0 : 0 <= Z.of_nat k * bytes_of w) by (apply Z.mul_nonneg_nonneg; lia)).
  all: destruct (at_bind e p P L _ _ _ _ _ _ _ (code_at_sub0 _ _ _ [Ibind L] Hc eq_refl) Hat)
      as (st1 & S1 & A1); apply (chain _ _ _ _ _ S1); clear S1.
  all: destruct (chunk_fwd e p (P + 1) w st1 m0 s d lo hi _ sv tr
                (code_at_sub _ _ _ 1%nat (body_fwd w) Hc eq_refl) Hwf A1)
      as (st2 & S2 & A2); try lia; apply (chain _ _ _ _ _ S2); clear S2.
  all: apply at_copy_pc with (P' := (P + 6)%nat) in A2; [|lia].
  all: destruct (at_branch_cnt e p (P + 6) Cgt L P st2 _ _ _ _ _ _
                (code_at_sub _ _ _ 6%nat [Ibranch Cgt x15 zr (TLabel L)] Hc eq_refl) Hl A2)
      as (st3 & S3 & A3); apply (chain _ _ _ _ _ S3); clear S3.
  all: cbn [eval_cmp] in A3; change (signed 0) with 0 in A3.
  - replace (Z.of_nat 1 * bytes_of w - bytes_of w) with 0 in A3 at 1 by lia.
    change (signed 0) with 0 in A3. change (0 <? 0) with false in A3.
    exists st3. split; [apply steps_refl|]. at_fin A3.
  - rewrite signed_small in A3 by lia.
    destruct (Z.ltb_spec 0 (Z.of_nat (S (S k)) * bytes_of w - bytes_of w)); [|lia].
    destruct (IH st3 (hi + bytes_of w) (chunk_events w m0 (hi - d + s) hi ++ tr))
      as (st4 & S4 & A4); try lia.
    { at_fin A3. }
    exists st4. split; [exact S4|]. at_fin A4.
Qed.

(** [copy_small], backward. *)
Lemma copy_small_bwd P L w sv hi :
  code_at p P (Ibind L :: body_bwd w ++ [Ibranch Cgt x15 zr (TLabel L)]) ->
  label_pos p L = Some P ->
  s <= d -> hi < two64 ->
  forall k st lo tr,
    at_copy st P (lo - d + s) lo (Z.of_nat (S k) * bytes_of w) (copied m0 s d lo hi) sv tr ->
    d + Z.of_nat (S k) * bytes_of w <= lo -> lo <= hi ->
    Z.of_nat (S k) * bytes_of w < 2 ^ 63 ->
    exists st',
      steps e p st st' /\
      at_copy st' (P + 7) (lo - Z.of_nat (S k) * bytes_of w - d + s)
              (lo - Z.of_nat (S k) * bytes_of w) 0
              (copied m0 s d (lo - Z.of_nat (S k) * bytes_of w) hi) sv
              (bwd_events w m0 (lo - d + s) lo (S k) tr).
Proof.
  intros Hc Hl Hsd Hhi. pose proof (bytes_of_cases w) as Hw. pose proof two64_eq as H64.
  induction k as [|k IH]; intros st lo tr Hat H1 H2 H5.
  all: try (assert (Hk0 : 0 <= Z.of_nat k * bytes_of w) by (apply Z.mul_nonneg_nonneg; lia)).
  all: destruct (at_bind e p P L _ _ _ _ _ _ _ (code_at_sub0 _ _ _ [Ibind L] Hc eq_refl) Hat)
      as (st1 & S1 & A1); apply (chain _ _ _ _ _ S1); clear S1.
  all: destruct (chunk_bwd e p (P + 1) w st1 m0 s d lo hi _ sv tr
                (code_at_sub _ _ _ 1%nat (body_bwd w) Hc eq_refl) Hwf A1)
      as (st2 & S2 & A2); try lia; apply (chain _ _ _ _ _ S2); clear S2.
  all: apply at_copy_pc with (P' := (P + 6)%nat) in A2; [|lia].
  all: destruct (at_branch_cnt e p (P + 6) Cgt L P st2 _ _ _ _ _ _
                (code_at_sub _ _ _ 6%nat [Ibranch Cgt x15 zr (TLabel L)] Hc eq_refl) Hl A2)
      as (st3 & S3 & A3); apply (chain _ _ _ _ _ S3); clear S3.
  all: cbn [eval_cmp] in A3; change (signed 0) with 0 in A3.
  - replace (Z.of_nat 1 * bytes_of w - bytes_of w) with 0 in A3 at 1 by lia.
    change (signed 0) with 0 in A3. change (0 <? 0) with false in A3.
    exists st3. split; [apply steps_refl|]. at_fin A3.
  - rewrite signed_small in A3 by lia.
    destruct (Z.ltb_spec 0 (Z.of_nat (S (S k)) * bytes_of w - bytes_of w)); [|lia].
    destruct (IH st3 (lo - bytes_of w)
                (chunk_events w m0 (lo - bytes_of w - d + s) (lo - bytes_of w) ++ tr))
      as (st4 & S4 & A4); try lia.
    { at_fin A3. }
    exists st4. split; [exact S4|]. at_fin A4.
Qed.

(** [copy8], forward: one 8-byte word per iteration while at least eight
    bytes remain. *)
Lemma copy8_fwd P L sv lo :
  code_at p P (Ibind L :: body_fwd W8
                 ++ [Ialu Add x17 x15 (OImm (-8)); Ibranch Cge x17 zr (TLabel L)]) ->
  label_pos p L = Some P ->
  forall q st hi r tr,
    0 <= r < 8 ->
    at_copy st P (hi - d + s) hi (8 * Z.of_nat (S q) + r) (copied m0 s d lo hi) sv tr ->
    d <= lo -> lo <= hi ->
    hi + 8 * Z.of_nat (S q) + r < two64 ->
    hi - d + s + 8 * Z.of_nat (S q) + r < two64 ->
    8 * Z.of_nat (S q) + r < 2 ^ 63 ->
    (d <= s \/ hi - d + s + 8 * Z.of_nat (S q) <= lo) ->
    exists st',
      steps e p st st' /\
      at_copy st' (P + 8) (hi + 8 * Z.of_nat (S q) - d + s)
              (hi + 8 * Z.of_nat (S q)) r
              (copied m0 s d lo (hi + 8 * Z.of_nat (S q))) sv
              (fwd_events W8 m0 (hi - d + s) hi (S q) tr).
Proof.
  intros Hc Hl. pose proof two64_eq as H64.
  induction q as [|q IH]; intros st hi r tr Hr Hat H1 H2 H3 H4 H5 H6.
  all: destruct (at_bind e p P L _ _ _ _ _ _ _ (code_at_sub0 _ _ _ [Ibind L] Hc eq_refl) Hat)
      as (st1 & S1 & A1); apply (chain _ _ _ _ _ S1); clear S1.
  all: destruct (chunk_fwd e p (P + 1) W8 st1 m0 s d lo hi _ sv tr
                (code_at_sub _ _ _ 1%nat (body_fwd W8) Hc eq_refl) Hwf A1)
      as (st2 & S2 & A2); try (cbn [bytes_of]; lia); apply (chain _ _ _ _ _ S2); clear S2.
  all: cbn [bytes_of] in A2.
  all: apply at_copy_pc with (P' := (P + 6)%nat) in A2; [|lia].
  all: match type of A2 with at_copy _ _ _ _ ?c _ _ _ =>
         assert (Hc63 : 0 <= c < 2 ^ 63) by lia end.
  all: destruct (at_word_test e p (P + 6) L P st2 _ _ _ _ _ _
                (code_at_sub _ _ _ 6%nat
                   [Ialu Add x17 x15 (OImm (-8)); Ibranch Cge x17 zr (TLabel L)] Hc eq_refl)
                Hl Hc63 A2)
      as (st3 & S3 & A3); apply (chain _ _ _ _ _ S3); clear S3.
  - revert A3. destruct (Z.leb_spec 8 (8 * Z.of_nat 1 + r - 8)); [lia|]. intros A3.
    exists st3. split; [apply steps_refl|]. at_fin A3.
  - revert A3. destruct (Z.leb_spec 8 (8 * Z.of_nat (S (S q)) + r - 8)); [|lia]. intros A3.
    destruct (IH st3 (hi + 8) r (chunk_events W8 m0 (hi - d + s) hi ++ tr))
      as (st4 & S4 & A4); try lia.
    { at_fin A3. }
    exists st4. split; [exact S4|]. at_fin A4.
Qed.

(** [copy8], backward. *)
Lemma copy8_bwd P L sv hi :
  code_at p P (Ibind L :: body_bwd W8
                 ++ [Ialu Add x17 x15 (OImm (-8)); Ibranch Cge x17 zr (TLabel L)]) ->
  label_pos p L = Some P ->
  s <= d -> hi < two64 ->
  forall q st lo r tr,
    0 <= r < 8 ->
    at_copy st P (lo - d + s) lo (8 * Z.of_nat (S q) + r) (copied m0 s d lo hi) sv tr ->
    d + 8 * Z.of_nat (S q) <= lo -> lo <= hi ->
    8 * Z.of_nat (S q) + r < 2 ^ 63 ->
    exists st',
      steps e p st st' /\
      at_copy st' (P + 8) (lo - 8 * Z.of_nat (S q) - d + s)
              (lo - 8 * Z.of_nat (S q)) r
              (copied m0 s d (lo - 8 * Z.of_nat (S q)) hi) sv
              (bwd_events W8 m0 (lo - d + s) lo (S q) tr).
Proof.
  intros Hc Hl Hsd Hhi. pose proof two64_eq as H64.
  induction q as [|q IH]; intros st lo r tr Hr Hat H1 H2 H5.
  all: destruct (at_bind e p P L _ _ _ _ _ _ _ (code_at_sub0 _ _ _ [Ibind L] Hc eq_refl) Hat)
      as (st1 & S1 & A1); apply (chain _ _ _ _ _ S1); clear S1.
  all: destruct (chunk_bwd e p (P + 1) W8 st1 m0 s d lo hi _ sv tr
                (code_at_sub _ _ _ 1%nat (body_bwd W8) Hc eq_refl) Hwf A1)
      as (st2 & S2 & A2); try (cbn [bytes_of]; lia); apply (chain _ _ _ _ _ S2); clear S2.
  all: cbn [bytes_of] in A2.
  all: apply at_copy_pc with (P' := (P + 6)%nat) in A2; [|lia].
  all: match type of A2 with at_copy _ _ _ _ ?c _ _ _ =>
         assert (Hc63 : 0 <= c < 2 ^ 63) by lia end.
  all: destruct (at_word_test e p (P + 6) L P st2 _ _ _ _ _ _
                (code_at_sub _ _ _ 6%nat
                   [Ialu Add x17 x15 (OImm (-8)); Ibranch Cge x17 zr (TLabel L)] Hc eq_refl)
                Hl Hc63 A2)
      as (st3 & S3 & A3); apply (chain _ _ _ _ _ S3); clear S3.
  - revert A3. destruct (Z.leb_spec 8 (8 * Z.of_nat 1 + r - 8)); [lia|]. intros A3.
    exists st3. split; [apply steps_refl|]. at_fin A3.
  - revert A3. destruct (Z.leb_spec 8 (8 * Z.of_nat (S (S q)) + r - 8)); [|lia]. intros A3.
    destruct (IH st3 (lo - 8) r (chunk_events W8 m0 (lo - 8 - d + s) (lo - 8) ++ tr))
      as (st4 & S4 & A4); try lia.
    { at_fin A3. }
    exists st4. split; [exact S4|]. at_fin A4.
Qed.

(** [same_aligned], forward: single elements until the source is 8-byte
    aligned (on to [copy8]) or the count is used up (on to [done]). *)
Lemma same_aligned_fwd P L L8 Ld P8 Pd w sv lo :
  code_at p P ([Ibind L; Ialu And x5 x30 (OImm 7); Ibranch Ceq x5 zr (TLabel L8)]
                 ++ body_fwd w ++ [Ibranch Ceq x15 zr (TLabel Ld); Ijump (TLabel L)]) ->
  label_pos p L = Some P -> label_pos p L8 = Some P8 -> label_pos p Ld = Some Pd ->
  forall k st hi tr,
    at_copy st P (hi - d + s) hi (Z.of_nat (S k) * bytes_of w) (copied m0 s d lo hi) sv tr ->
    d <= lo -> lo <= hi ->
    hi + Z.of_nat (S k) * bytes_of w < two64 ->
    hi - d + s + Z.of_nat (S k) * bytes_of w < two64 ->
    Z.of_nat (S k) * bytes_of w < 2 ^ 63 ->
    (d <= s \/ hi - d + s + Z.of_nat (S k) * bytes_of w <= lo) ->
    exists st' (j : nat),
      steps e p st st' /\ (j <= S k)%nat /\
      at_copy st' (if (j <? S k)%nat then P8 else Pd)
              (hi + Z.of_nat j * bytes_of w - d + s) (hi + Z.of_nat j * bytes_of w)
              (Z.of_nat (S k) * bytes_of w - Z.of_nat j * bytes_of w)
              (copied m0 s d lo (hi + Z.of_nat j * bytes_of w)) sv
              (fwd_events w m0 (hi - d + s) hi j tr) /\
      ((j < S k)%nat ->
       Z.of_nat j * bytes_of w < 8 /\ (hi + Z.of_nat j * bytes_of w - d + s) mod 8 = 0).
Proof.
  intros Hc Hl Hl8 Hld. pose proof (bytes_of_cases w) as Hw. pose proof two64_eq as H64.
  induction k as [|k IH]; intros st hi tr Hat H1 H2 H3 H4 H5 H6.
  all: try (assert (Hk0 : 0 <= Z.of_nat k * bytes_of w) by (apply Z.mul_nonneg_nonneg; lia)).
  all: destruct (at_bind e p P L _ _ _ _ _ _ _ (code_at_sub0 _ _ _ [Ibind L] Hc eq_refl) Hat)
      as (st1 & S1 & A1); apply (chain2 _ _ _ _ S1); clear S1.
  all: assert (Hsrc0 : 0 <= hi - d + s) by lia.
  all: destruct (at_aligned_test e p (P + 1) L8 P8 st1 _ _ _ _ _ _
                (code_at_sub _ _ _ 1%nat
                   [Ialu And x5 x30 (OImm 7); Ibranch Ceq x5 zr (TLabel L8)] Hc eq_refl)
                Hl8 Hsrc0 A1)
      as (st2 & S2 & A2); apply (chain2 _ _ _ _ S2); clear S2.
  all: revert A2; destruct (Z.eqb_spec ((hi - d + s) mod 8) 0) as [Hal|Hal]; intros A2.
  1, 3: exists st2, O; split; [apply steps_refl|]; split; [lia|];
    split; [cbn [Nat.ltb Nat.leb]; at_fin A2
           | intros _; split; [lia | rewrite <- Hal; f_equal; lia]].
  all: apply at_copy_pc with (P' := (P + 3)%nat) in A2; [|lia].
  all: destruct (chunk_fwd e p (P + 3) w st2 m0 s d lo hi _ sv tr
                (code_at_sub _ _ _ 3%nat (body_fwd w) Hc eq_refl) Hwf A2)
      as (st3 & S3 & A3); try lia; apply (chain2 _ _ _ _ S3); clear S3.
  all: apply at_copy_pc with (P' := (P + 8)%nat) in A3; [|lia].
  all: destruct (at_branch_cnt e p (P + 8) Ceq Ld Pd st3 _ _ _ _ _ _
                (code_at_sub _ _ _ 8%nat [Ibranch Ceq x15 zr (TLabel Ld)] Hc eq_refl) Hld A3)
      as (st4 & S4 & A4); apply (chain2 _ _ _ _ S4); clear S4.
  all: cbn [eval_cmp] in A4.
  - revert A4. destruct (Z.eqb_spec (Z.of_nat 1 * bytes_of w - bytes_of w) 0); [|lia].
    intros A4. exists st4, 1%nat. split; [apply steps_refl|]. split; [lia|].
    split; [cbn [Nat.ltb Nat.leb]; at_fin A4 | lia].
  - revert A4. destruct (Z.eqb_spec (Z.of_nat (S (S k)) * bytes_of w - bytes_of w) 0); [lia|].
    intros A4.
    apply at_copy_pc with (P' := (P + 9)%nat) in A4; [|lia].
    destruct (at_jump e p (P + 9) L P st4 _ _ _ _ _ _
                (code_at_sub _ _ _ 9%nat [Ijump (TLabel L)] Hc eq_refl) Hl A4)
      as (st5 & S5 & A5); apply (chain2 _ _ _ _ S5); clear S5.
    destruct (IH st5 (hi + bytes_of w) (chunk_events w m0 (hi - d + s) hi ++ tr))
      as (st6 & j & S6 & Hj & A6 & Hal6); try lia.
    { at_fin A5. }
    exists st6, (S j). split; [exact S6|]. split; [lia|].
    change (S j <? S (S k))%nat with (j <? S k)%nat.
    split; [at_fin A6|].
    intros Hlt. destruct (Hal6 ltac:(lia)) as [Hc8 Hm8].
    assert (Hj0 : 0 <= Z.of_nat j) by lia.
    rewrite Nat2Z.inj_succ.
    revert Hal Hc8 Hm8 Hj0. generalize (Z.of_nat j). intros z Hal Hc8 Hm8 Hj0.
    destruct Hw as [Hw|[Hw|[Hw|Hw]]]; rewrite Hw in *;
      (split; [| rewrite <- Hm8; f_equal; lia]);
      Z.div_mod_to_equations; lia.
Qed.

(** [same_aligned], backward. *)
Lemma same_aligned_bwd P L L8 Ld P8 Pd w sv hi :
  code_at p P ([Ibind L; Ialu And x5 x30 (OImm 7); Ibranch Ceq x5 zr (TLabel L8)]
                 ++ body_bwd w ++ [Ibranch Ceq x15 zr (TLabel Ld); Ijump (TLabel L)]) ->
  label_pos p L = Some P -> label_pos p L8 = Some P8 -> label_pos p Ld = Some Pd ->
  s <= d -> hi < two64 ->
  forall k st lo tr,
    at_copy st P (lo - d + s) lo (Z.of_nat (S k) * bytes_of w) (copied m0 s d lo hi) sv tr ->
    d + Z.of_nat (S k) * bytes_of w <= lo -> lo <= hi ->
    Z.of_nat (S k) * bytes_of w < 2 ^ 63 ->
    exists st' (j : nat),
      steps e p st st' /\ (j <= S k)%nat /\
      at_copy st' (if (j <? S k)%nat then P8 else Pd)
              (lo - Z.of_nat j * bytes_of w - d + s) (lo - Z.of_nat j * bytes_of w)
              (Z.of_nat (S k) * bytes_of w - Z.of_nat j * bytes_of w)
              (copied m0 s d (lo - Z.of_nat j * bytes_of w) hi) sv
              (bwd_events w m0 (lo - d + s) lo j tr) /\
      ((j < S k)%nat ->
       Z.of_nat j * bytes_of w < 8 /\ (lo - Z.of_nat j * bytes_of w - d + s) mod 8 = 0).
Proof.
  intros Hc Hl Hl8 Hld Hsd Hhi.
  pose proof (bytes_of_cases w) as Hw. pose proof two64_eq as H64.
  induction k as [|k IH]; intros st lo tr Hat H1 H2 H5.
  all: try (assert (Hk0 : 0 <= Z.of_nat k * bytes_of w) by (apply Z.mul_nonneg_nonneg; lia)).
  all: destruct (at_bind e p P L _ _ _ _ _ _ _ (code_at_sub0 _ _ _ [Ibind L] Hc eq_refl) Hat)
      as (st1 & S1 & A1); apply (chain2 _ _ _ _ S1); clear S1.
  all: assert (Hsrc0 : 0 <= lo - d + s) by lia.
  all: destruct (at_aligned_test e p (P + 1) L8 P8 st1 _ _ _ _ _ _
                (code_at_sub _ _ _ 1%nat
                   [Ialu And x5 x30 (OImm 7); Ibranch Ceq x5 zr (TLabel L8)] Hc eq_refl)
                Hl8 Hsrc0 A1)
      as (st2 & S2 & A2); apply (chain2 _ _ _ _ S2); clear S2.
  all: revert A2; destruct (Z.eqb_spec ((lo - d + s) mod 8) 0) as [Hal|Hal]; intros A2.
  1, 3: exists st2, O; split; [apply steps_refl|]; split; [lia|];
    split; [cbn [Nat.ltb Nat.leb]; at_fin A2
           | intros _; split; [lia | rewrite <- Hal; f_equal; lia]].
  all: apply at_copy_pc with (P' := (P + 3)%nat) in A2; [|lia].
  all: destruct (chunk_bwd e p (P + 3) w st2 m0 s d lo hi _ sv tr
                (code_at_sub _ _ _ 3%nat (body_bwd w) Hc eq_refl) Hwf A2)
      as (st3 & S3 & A3); try lia; apply (chain2 _ _ _ _ S3); clear S3.
  all: apply at_copy_pc with (P' := (P + 8)%nat) in A3; [|lia].
  all: destruct (at_branch_cnt e p (P + 8) Ceq Ld Pd st3 _ _ _ _ _ _
                (code_at_sub _ _ _ 8%nat [Ibranch Ceq x15 zr (TLabel Ld)] Hc eq_refl) Hld A3)
      as (st4 & S4 & A4); apply (chain2 _ _ _ _ S4); clear S4.
  all: cbn [eval_cmp] in A4.
  - revert A4. destruct (Z.eqb_spec (Z.of_nat 1 * bytes_of w - bytes_of w) 0); [|lia].
    intros A4. exists st4, 1%nat. split; [apply steps_refl|]. split; [lia|].
    split; [cbn [Nat.ltb Nat.leb]; at_fin A4 | lia].
  - revert A4. destruct (Z.eqb_spec (Z.of_nat (S (S k)) * bytes_of w - bytes_of w) 0); [lia|].
    intros A4.
    apply at_copy_pc with (P' := (P + 9)%nat) in A4; [|lia].
    destruct (at_jump e p (P + 9) L P st4 _ _ _ _ _ _
                (code_at_sub _ _ _ 9%nat [Ijump (TLabel L)] Hc eq_refl) Hl A4)
      as (st5 & S5 & A5); apply (chain2 _ _ _ _ S5); clear S5.
    destruct (IH st5 (lo - bytes_of w)
                (chunk_events w m0 (lo - bytes_of w - d + s) (lo - bytes_of w) ++ tr))
      as (st6 & j & S6 & Hj & A6 & Hal6); try lia.
    { at_fin A5. }
    exists st6, (S j). split; [exact S6|]. split; [lia|].
    change (S j <? S (S k))%nat with (j <? S k)%nat.
    split; [at_fin A6|].
    intros Hlt. destruct (Hal6 ltac:(lia)) as [Hc8 Hm8].
    assert (Hj0 : 0 <= Z.of_nat j) by lia.
    rewrite Nat2Z.inj_succ.
    revert Hal Hc8 Hm8 Hj0. generalize (Z.of_nat j). intros z Hal Hc8 Hm8 Hj0.
    destruct Hw as [Hw|[Hw|[Hw|Hw]]]; rewrite Hw in *;
      (split; [| rewrite <- Hm8; f_equal; lia]);
      Z.div_mod_to_equations; lia.
Qed.

End Loops.

Lemma code_at_nth_S p P frag k i :
  code_at p P frag -> nth_error frag k = Some i -> nth_error p (k + P) = Some i.
Proof. intros H Hk. rewrite Nat.add_comm. apply H, Hk. Qed.

Ltac count_S t :=
  lazymatch t with
  | S ?t' => let k := count_S t' in constr:(S k)
  | _ => constr:(O)
  end.

Ltac msimpl2 :=
  cbn [exec exec_macro next halt goto write log poke addr_of save_regs
       pc regs mem saved trace stat base offset Addr eval_operand eval_alu eval_cmp];
  regs_simpl.

(** One step of symbolic execution from a state whose [pc] reduces to
    [S (.. (S P))], fetching from the fragment of [Hc]. *)
Ltac hstep Hc Hpc Hst :=
  eapply steps_step;
  [ msimpl2; exact Hst
  | msimpl2; rewrite ?Hpc; cbn [Nat.add];
    lazymatch goal with
    | |- nth_error _ ?n = Some _ =>
        let k := count_S n in
        eapply (code_at_nth_S _ _ _ k); [exact Hc | reflexivity]
    end
  | msimpl2 ].

(** The byte count splits into whole words and a tail of elements. *)
Lemma split_count w c n :
  c = n * bytes_of w -> 8 <= c ->
  exists (q k : nat), c = 8 * Z.of_nat (S q) + Z.of_nat k * bytes_of w /\
                      Z.of_nat k * bytes_of w < 8.
Proof.
  intros Hc H8.
  exists (Z.to_nat (c / 8 - 1)), (Z.to_nat ((c mod 8) / bytes_of w)).
  destruct w; cbn [bytes_of] in *; Z.div_mod_to_equations; lia.
Qed.

Lemma shiftl_log2 w n : 0 <= n -> n * bytes_of w < two64 ->
  wrap (Z.shiftl n (wrap (exact_log2 (uabs (bytes_of w))) mod 64)) = n * bytes_of w.
Proof.
  intros H0 H1.
  destruct w; cbn [bytes_of] in *;
    [ change (wrap (exact_log2 (uabs 1)) mod 64) with 0
    | change (wrap (exact_log2 (uabs 2)) mod 64) with 1
    | change (wrap (exact_log2 (uabs 4)) mod 64) with 2
    | change (wrap (exact_log2 (uabs 8)) mod 64) with 3 ];
    rewrite Z.shiftl_mul_pow2 by lia; apply wrap_small;
    [ change (2 ^ 0) with 1 | change (2 ^ 1) with 2 | change (2 ^ 2) with 4
    | change (2 ^ 3) with 8 ]; lia.
Qed.

Lemma at_copy_done st P src dst cnt m sv tr :
  at_copy st P src dst cnt m sv tr -> copy_done st P m sv tr.
Proof. intros (Hpc & Hst & _ & _ & _ & Hm & Hsv & Htr). repeat split; auto. Qed.

Lemma copy_done_eq st P P' m m' sv tr :
  copy_done st P m sv tr -> P = P' -> (forall x, m x = m' x) -> copy_done st P' m' sv tr.
Proof.
  intros (Hpc & Hst & Hm & Hsv & Htr) <- H. repeat split; auto.
  intros x. rewrite Hm. apply H.
Qed.

Lemma wrap_0 : wrap 0 = 0. Proof. reflexivity. Qed.

Lemma wrap_16 : wrap 16 = 16. Proof. reflexivity. Qed.

Lemma wrap_7 : wrap 7 = 7. Proof. reflexivity. Qed.

Lemma wrap_m8 : wrap (-8) = two64 - 8. Proof. reflexivity. Qed.

Lemma signed_16 : signed 16 = 16. Proof. reflexivity. Qed.

Lemma signed_0 : signed 0 = 0. Proof. reflexivity. Qed.

Lemma elems_count w n : 0 < n -> n * bytes_of w = Z.of_nat (S (Z.to_nat (n - 1))) * bytes_of w.
Proof. intros H. f_equal. lia. Qed.

Section Tails.

Variables (e : env) (p : program) (m0 : Z -> Z) (s d : Z).

Hypothesis Hwf : wf_mem m0.

Hypotheses (Hs0 : 0 <= s) (Hd0 : 0 <= d).

Variables (w : width) (L8 Lsm Ldn : Label) (P8 : nat).

Variable sv : list (list (Register * Z)).

Section Fwd.

Hypothesis Hc : code_at p P8 (tail_fwd w L8 Lsm Ldn).

Hypothesis H8 : label_pos p L8 = Some P8.

Hypothesis Hsm : label_pos p Lsm = Some (P8 + 9)%nat.

Hypothesis Hdn : label_pos p Ldn = Some (P8 + 16)%nat.

(** From [copy_small] on. *)
Lemma tail_small_fwd k st hi tr :
  at_copy st (P8 + 9) (hi - d + s) hi (Z.of_nat (S k) * bytes_of w)
          (copied m0 s d d hi) sv tr ->
  d <= hi ->
  hi + Z.of_nat (S k) * bytes_of w < two64 ->
  hi - d + s + Z.of_nat (S k) * bytes_of w < two64 ->
  Z.of_nat (S k) * bytes_of w < 2 ^ 63 ->
  (d <= s \/ hi - d + s + Z.of_nat (S k) * bytes_of w <= d) ->
  exists st',
    steps e p st st' /\
    copy_done st' (P8 + 17) (copied m0 s d d (hi + Z.of_nat (S k) * bytes_of w)) sv
              (fwd_events w m0 (hi - d + s) hi (S k) tr).
Proof.
  intros A H1 H3 H4 H5 H6.
  destruct (copy_small_fwd e p m0 s d Hwf Hs0 Hd0 (P8 + 9) Lsm w sv d
              (code_at_sub _ _ _ 9%nat _ Hc eq_refl) Hsm k st hi tr A)
    as (st1 & S1 & A1); try lia.
  apply (chain _ _ _ _ _ S1); clear S1.
  apply at_copy_pc with (P' := (P8 + 16)%nat) in A1; [|lia].
  destruct (at_bind e p (P8 + 16) Ldn _ _ _ _ _ _ _
              (code_at_sub _ _ _ 16%nat [Ibind Ldn] Hc eq_refl) A1)
    as (st2 & S2 & A2).
  exists st2. split; [exact S2|].
  eapply copy_done_eq; [eapply at_copy_done; exact A2 | lia | reflexivity].
Qed.

(** From [copy8] on: whole words first, then the elements that are left. *)
Lemma tail_word_fwd st hi tr (q k : nat) :
  at_copy st P8 (hi - d + s) hi (8 * Z.of_nat (S q) + Z.of_nat k * bytes_of w)
          (copied m0 s d d hi) sv tr ->
  Z.of_nat k * bytes_of w < 8 ->
  d <= hi ->
  hi + 8 * Z.of_nat (S q) + Z.of_nat k * bytes_of w < two64 ->
  hi - d + s + 8 * Z.of_nat (S q) + Z.of_nat k * bytes_of w < two64 ->
  8 * Z.of_nat (S q) + Z.of_nat k * bytes_of w < 2 ^ 63 ->
  (d <= s \/ hi - d + s + 8 * Z.of_nat (S q) + Z.of_nat k * bytes_of w <= d) ->
  exists st',
    steps e p st st' /\
    copy_done st' (P8 + 17)
              (copied m0 s d d (hi + 8 * Z.of_nat (S q) + Z.of_nat k * bytes_of w)) sv
              (fwd_events w m0 (hi + 8 * Z.of_nat (S q) - d + s) (hi + 8 * Z.of_nat (S q)) k
                 (fwd_events W8 m0 (hi - d + s) hi (S q) tr)).
Proof.
  intros A Hk H1 H3 H4 H5 H6.
  pose proof (bytes_of_cases w) as Hw.
  assert (Hk0 : 0 <= Z.of_nat k * bytes_of w) by (apply Z.mul_nonneg_nonneg; lia).
  destruct (copy8_fwd e p m0 s d Hwf Hs0 Hd0 P8 L8 sv d
              (code_at_sub0 _ _ _ _ Hc eq_refl) H8 q st hi
              (Z.of_nat k * bytes_of w) tr ltac:(lia) A)
    as (st1 & S1 & A1); try lia.
  apply (chain _ _ _ _ _ S1); clear S1.
  destruct (at_branch_cnt e p (P8 + 8) Ceq Ldn (P8 + 16) st1 _ _ _ _ _ _
              (code_at_sub _ _ _ 8%nat [Ibranch Ceq x15 zr (TLabel Ldn)] Hc eq_refl) Hdn A1)
    as (st2 & S2 & A2).
  apply (chain _ _ _ _ _ S2); clear S2.
  cbn [eval_cmp] in A2.
  destruct k as [|k].
  - change (Z.of_nat 0 * bytes_of w =? 0) with true in A2. cbn iota in A2.
    destruct (at_bind e p (P8 + 16) Ldn _ _ _ _ _ _ _
                (code_at_sub _ _ _ 16%nat [Ibind Ldn] Hc eq_refl) A2)
      as (st3 & S3 & A3).
    exists st3. split; [exact S3|]. cbn [fwd_events].
    eapply copy_done_eq; [eapply at_copy_done; exact A3 | lia | intros x; f_equal; lia].
  - revert A2. destruct (Z.eqb_spec (Z.of_nat (S k) * bytes_of w) 0); [lia|]. intros A2.
    assert (Hk0' : 0 <= Z.of_nat k * bytes_of w) by (apply Z.mul_nonneg_nonneg; lia).
    destruct (tail_small_fwd k st2 (hi + 8 * Z.of_nat (S q))
                (fwd_events W8 m0 (hi - d + s) hi (S q) tr))
      as (st3 & S3 & A3); try lia.
    { eapply at_copy_eq; [exact A2 | lia | lia | lia | lia | reflexivity | reflexivity]. }
    exists st3. split; [exact S3|].
    eapply copy_done_eq; [exact A3 | lia | intros x; f_equal; lia].
Qed.

End Fwd.

Section Bwd.

Hypothesis Hc : code_at p P8 (tail_bwd w L8 Lsm Ldn).

Hypothesis H8 : label_pos p L8 = Some P8.

Hypothesis Hsm : label_pos p Lsm = Some (P8 + 9)%nat.

Hypothesis Hdn : label_pos p Ldn = Some (P8 + 16)%nat.

Hypothesis Hsd : s <= d.

Variable hi : Z.

Hypothesis Hhi : hi < two64.

Lemma tail_small_bwd k st lo tr :
  at_copy st (P8 + 9) (lo - d + s) lo (Z.of_nat (S k) * bytes_of w)
          (copied m0 s d lo hi) sv tr ->
  d + Z.of_nat (S k) * bytes_of w <= lo -> lo <= hi ->
  Z.of_nat (S k) * bytes_of w < 2 ^ 63 ->
  exists st',
    steps e p st st' /\
    copy_done st' (P8 + 17) (copied m0 s d (lo - Z.of_nat (S k) * bytes_of w) hi) sv
              (bwd_events w m0 (lo - d + s) lo (S k) tr).
Proof.
  intros A H1 H2 H5.
  destruct (copy_small_bwd e p m0 s d Hwf Hs0 (P8 + 9) Lsm w sv hi
              (code_at_sub _ _ _ 9%nat _ Hc eq_refl) Hsm Hsd Hhi k st lo tr A)
    as (st1 & S1 & A1); try lia.
  apply (chain _ _ _ _ _ S1); clear S1.
  apply at_copy_pc with (P' := (P8 + 16)%nat) in A1; [|lia].
  destruct (at_bind e p (P8 + 16) Ldn _ _ _ _ _ _ _
              (code_at_sub _ _ _ 16%nat [Ibind Ldn] Hc eq_refl) A1)
    as (st2 & S2 & A2).
  exists st2. split; [exact S2|].
  eapply copy_done_eq; [eapply at_copy_done; exact A2 | lia | reflexivity].
Qed.

Lemma tail_word_bwd st lo tr (q k : nat) :
  at_copy st P8 (lo - d + s) lo (8 * Z.of_nat (S q) + Z.of_nat k * bytes_of w)
          (copied m0 s d lo hi) sv tr ->
  Z.of_nat k * bytes_of w < 8 ->
  d + 8 * Z.of_nat (S q) + Z.of_nat k * bytes_of w <= lo -> lo <= hi ->
  8 * Z.of_nat (S q) + Z.of_nat k * bytes_of w < 2 ^ 63 ->
  exists st',
    steps e p st st' /\
    copy_done st' (P8 + 17)
              (copied m0 s d (lo - 8 * Z.of_nat (S q) - Z.of_nat k * bytes_of w) hi) sv
              (bwd_events w m0 (lo - 8 * Z.of_nat (S q) - d + s) (lo - 8 * Z.of_nat (S q)) k
                 (bwd_events W8 m0 (lo - d + s) lo (S q) tr)).
Proof.
  intros A Hk H1 H2 H5.
  pose proof (bytes_of_cases w) as Hw.
  assert (Hk0 : 0 <= Z.of_nat k * bytes_of w) by (apply Z.mul_nonneg_nonneg; lia).
  destruct (copy8_bwd e p m0 s d Hwf Hs0 P8 L8 sv hi
              (code_at_sub0 _ _ _ _ Hc eq_refl) H8 Hsd Hhi q st lo
              (Z.of_nat k * bytes_of w) tr ltac:(lia) A)
    as (st1 & S1 & A1); try lia.
  apply (chain _ _ _ _ _ S1); clear S1.
  destruct (at_branch_cnt e p (P8 + 8) Ceq Ldn (P8 + 16) st1 _ _ _ _ _ _
              (code_at_sub _ _ _ 8%nat [Ibranch Ceq x15 zr (TLabel Ldn)] Hc eq_refl) Hdn A1)
    as (st2 & S2 & A2).
  apply (chain _ _ _ _ _ S2); clear S2.
  cbn [eval_cmp] in A2.
  destruct k as [|k].
  - change (Z.of_nat 0 * bytes_of w =? 0) with true in A2. cbn iota in A2.
    destruct (at_bind e p (P8 + 16) Ldn _ _ _ _ _ _ _
                (code_at_sub _ _ _ 16%nat [Ibind Ldn] Hc eq_refl) A2)
      as (st3 & S3 & A3).
    exists st3. split; [exact S3|]. cbn [bwd_events].
    eapply copy_done_eq; [eapply at_copy_done; exact A3 | lia | intros x; f_equal; lia].
  - revert A2. destruct (Z.eqb_spec (Z.of_nat (S k) * bytes_of w) 0); [lia|]. intros A2.
    assert (Hk0' : 0 <= Z.of_nat k * bytes_of w) by (apply Z.mul_nonneg_nonneg; lia).
    destruct (tail_small_bwd k st2 (lo - 8 * Z.of_nat (S q))
                (bwd_events W8 m0 (lo - d + s) lo (S q) tr))
      as (st3 & S3 & A3); try lia.
    { eapply at_copy_eq; [exact A2 | lia | lia | lia | lia | reflexivity | reflexivity]. }
    exists st3. split; [exact S3|].
    eapply copy_done_eq; [exact A3 | lia | intros x; f_equal; lia].
Qed.

End Bwd.

End Tails.

Lemma bgez_m8 c : 0 <= c < 2 ^ 63 ->
  (signed 0 <=? signed (wrap (c + wrap (-8)))) = (8 <=? c).
Proof.
  intros Hc. pose proof two64_eq as H64. rewrite signed_0, wrap_m8.
  destruct (Z.leb_spec 8 c).
  - rewrite wrap_add_neg by lia. rewrite signed_small by lia. apply Z.leb_le. lia.
  - rewrite wrap_small by lia.
    unfold signed. destruct (Z.ltb_spec (c + (two64 - 8)) (2 ^ 63)); [lia|].
    apply Z.leb_gt. lia.
Qed.

Lemma split_count0 w c n :
  c = n * bytes_of w -> 0 <= n ->
  exists (q k : nat), c = 8 * Z.of_nat q + Z.of_nat k * bytes_of w /\
                      Z.of_nat k * bytes_of w < 8.
Proof.
  intros Hc H0.
  exists (Z.to_nat (c / 8)), (Z.to_nat ((c mod 8) / bytes_of w)).
  destruct w; cbn [bytes_of] in *; Z.div_mod_to_equations; lia.
Qed.

Lemma fwd_events_eq w m0 sa sa' da da' k tr tr' :
  sa = sa' -> da = da' -> tr = tr' ->
  fwd_events w m0 sa da k tr = fwd_events w m0 sa' da' k tr'.
Proof. congruence. Qed.

Lemma bwd_events_eq w m0 sa sa' da da' k tr tr' :
  sa = sa' -> da = da' -> tr = tr' ->
  bwd_events w m0 sa da k tr = bwd_events w m0 sa' da' k tr'.
Proof. congruence. Qed.

Ltac walk_side :=
  first [ intros H; discriminate H | intros _; split; [reflexivity | lia] ].

Ltac walk_eq :=
  unfold fwd_walk, bwd_walk;
  repeat match goal with
         | |- context [fwd_events ?w ?m ?a ?b O ?t] => change (fwd_events w m a b O t) with t
         | |- context [bwd_events ?w ?m ?a ?b O ?t] => change (bwd_events w m a b O t) with t
         end;
  repeat (first [apply fwd_events_eq | apply bwd_events_eq]; [lia | lia |]);
  reflexivity.

Lemma walked_nil_fwd w a m0 s d tr tr' : walked (fwd_walk w m0 s d) w a 0 tr tr' -> tr' = tr.
Proof.
  intros (j & q & k & H & -> & _). pose proof (bytes_of_cases w) as Hw.
  assert (j = O /\ q = O /\ k = O) as (-> & -> & ->) by nia. reflexivity.
Qed.

Lemma walked_nil_bwd w a m0 s d tr tr' : walked (bwd_walk w m0 s d) w a 0 tr tr' -> tr' = tr.
Proof.
  intros (j & q & k & H & -> & _). pose proof (bytes_of_cases w) as Hw.
  assert (j = O /\ q = O /\ k = O) as (-> & -> & ->) by nia. reflexivity.
Qed.

Section CopyMemory.

Variables (e : env) (p : program) (m0 : Z -> Z) (s d n : Z).

Hypothesis Hwf : wf_mem m0.

Hypotheses (Hs0 : 0 <= s) (Hd0 : 0 <= d) (Hn0 : 0 <= n).

(** [copy_memory], forward, without the alignment promise. *)
Lemma copy_memory_fwd_unaligned (P l0 : nat) w st :
  code_at p P (emitted (copy_memory false x10 x11 x12 t0 (bytes_of w)) l0) ->
  label_pos p l0 = Some (P + 9)%nat ->
  label_pos p (S l0) = Some (P + 19)%nat ->
  label_pos p (S (S l0)) = Some (P + 28)%nat ->
  label_pos p (S (S (S l0))) = Some (P + 35)%nat ->
  pc st = P -> stat st = Running ->
  getr (regs st) x10 = s -> getr (regs st) x11 = d -> getr (regs st) x12 = n ->
  (forall x, mem st x = m0 x) ->
  s + n * bytes_of w < two64 -> d + n * bytes_of w < two64 ->
  n * bytes_of w < 2 ^ 63 ->
  (d <= s \/ s + n * bytes_of w <= d) ->
  exists st' tr',
    steps e p st st' /\
    copy_done st' (P + 36) (copied m0 s d d (d + n * bytes_of w)) (saved st) tr' /\
    walked (fwd_walk w m0 s d) w false (n * bytes_of w) (trace st) tr'.
Proof.
  intros Hc L0 L1 L2 L3 Hpc Hst Rs Rd Rn Hm B1 B2 B3 Hsafe.
  pose proof two64_eq as H64. pose proof (bytes_of_cases w) as Hw.
  assert (L2s : label_pos p (S (S l0)) = Some (28 + P)%nat) by (rewrite L2; f_equal; lia).
  assert (L3s : label_pos p (S (S (S l0))) = Some (35 + P)%nat) by (rewrite L3; f_equal; lia).
  assert (Hshift := shiftl_log2 w n Hn0 ltac:(lia)).
  assert (Htl : code_at p (P + 19) (tail_fwd w (S l0) (S (S l0)) (S (S (S l0))))).
  { destruct w; exact (code_at_sub _ _ _ 19%nat _ Hc eq_refl). }
  assert (Hca : code_at p (P + 9)
                  ([Ibind l0; Ialu And x5 x30 (OImm 7); Ibranch Ceq x5 zr (TLabel (S l0))]
                     ++ body_fwd w
                     ++ [Ibranch Ceq x15 zr (TLabel (S (S (S l0)))); Ijump (TLabel l0)])).
  { destruct w; exact (code_at_sub _ _ _ 9%nat _ Hc eq_refl). }
  assert (Hcd : code_at p (P + 35) [Ibind (S (S (S l0)))]).
  { destruct w; exact (code_at_sub _ _ _ 35%nat _ Hc eq_refl). }
  assert (Hpre : code_at p P
            [Ibranch Ceq x12 zr (TLabel (S (S (S l0))));
             Ialu Sll x15 x12 (OImm (exact_log2 (uabs (bytes_of w))));
             Ialu Add x30 x10 (OImm 0); Ialu Add x31 x11 (OImm 0);
             Ialu Add x5 zr (OImm 16); Ibranch Clt x15 x5 (TLabel (S (S l0)));
             Ialu Xor x5 x30 (OReg x31); Ialu And x5 x5 (OImm 7);
             Ibranch Cne x5 zr (TLabel (S (S l0)))]).
  { destruct w; exact (code_at_sub0 _ _ _ _ Hc eq_refl). }
  clear Hc.
  assert (L1' : label_pos p (S l0) = Some (P + 19)%nat) by exact L1.
  assert (L2' : label_pos p (S (S l0)) = Some (P + 19 + 9)%nat) by (rewrite L2; f_equal; lia).
  assert (L3' : label_pos p (S (S (S l0))) = Some (P + 19 + 16)%nat)
    by (rewrite L3; f_equal; lia).
  destruct (Z.eq_dec n 0) as [Hz|Hnz].
  { (* count == 0: straight to done *)
    eexists. exists (trace st). split.
    - hstep Hpre Hpc Hst. rewrite Rn, Hz. change (0 =? 0) with true. cbn iota.
      rewrite L3s. cbn iota.
      eapply steps_step; [cbn [stat]; exact Hst
                         | cbn [pc]; rewrite (Nat.add_comm 35 P);
                           eapply (code_at_nth _ _ _ 0%nat) in Hcd; [|reflexivity];
                           rewrite Nat.add_0_r in Hcd; exact Hcd |].
      apply steps_refl.
    - split; [|exists O, O, O; split; [try unfold len; rewrite Hz; lia | split; [reflexivity |
        walk_side]]].
      unfold copy_done. cbn [exec next pc stat mem saved trace].
      split; [lia|]. split; [exact Hst|]. split; [|split; reflexivity].
      intros x. rewrite Hm, Hz, Z.mul_0_l, Z.add_0_r.
      symmetry. apply copied_empty. }
  assert (Hn1 : 0 < n) by lia.
  assert (Hfin : forall st1 tr1,
             (exists st', steps e p st1 st' /\
                copy_done st' (P + 19 + 17) (copied m0 s d d (d + n * bytes_of w))
                          (saved st) tr1) ->
             walked (fwd_walk w m0 s d) w false (n * bytes_of w) (trace st) tr1 ->
             exists st' tr', steps e p st1 st' /\
               copy_done st' (P + 36) (copied m0 s d d (d + n * bytes_of w)) (saved st) tr' /\
               walked (fwd_walk w m0 s d) w false (n * bytes_of w) (trace st) tr').
  { intros st1 tr1 (st' & S' & D') Hw1. exists st', tr1. split; [exact S'|].
    split; [|exact Hw1].
    eapply copy_done_eq; [exact D' | lia | reflexivity]. }
  (* the element loop over the whole range *)
  assert (Hall : forall st1,
             at_copy st1 (P + 19 + 9) s d (n * bytes_of w) m0 (saved st) (trace st) ->
             exists st' tr', steps e p st1 st' /\
               copy_done st' (P + 36) (copied m0 s d d (d + n * bytes_of w)) (saved st) tr' /\
               walked (fwd_walk w m0 s d) w false (n * bytes_of w) (trace st) tr').
  { intros st1 A. eapply Hfin.
    { destruct (tail_small_fwd e p m0 s d Hwf Hs0 Hd0 w (S l0) (S (S l0)) (S (S (S l0)))
                  (P + 19) (saved st) Htl L2' (Z.to_nat (n - 1)) st1 d (trace st))
        as (st2 & S2 & D2).
      - eapply at_copy_eq; [exact A | lia | lia | lia | apply elems_count; lia
                           | intros x; symmetry; apply copied_empty | reflexivity].
      - lia.
      - rewrite <- elems_count by lia. lia.
      - rewrite <- elems_count by lia. lia.
      - rewrite <- elems_count by lia. lia.
      - rewrite <- elems_count by lia. lia.
      - exists st2. split; [exact S2|].
        eapply copy_done_eq; [exact D2 | lia |].
        intros x. rewrite <- elems_count by lia. reflexivity. }
    exists (S (Z.to_nat (n - 1))), O, O.
    split; [rewrite <- elems_count by lia; lia | split; [walk_eq | walk_side]]. }
  eapply (chain2 e p _).
  { hstep Hpre Hpc Hst. rewrite Rn. destruct (Z.eqb_spec n 0); [lia|].
    hstep Hpre Hpc Hst. hstep Hpre Hpc Hst. hstep Hpre Hpc Hst. hstep Hpre Hpc Hst.
    hstep Hpre Hpc Hst.
    rewrite Rn, Hshift, wrap_16, Z.add_0_l, wrap_16, signed_16, signed_small by lia.
    apply steps_refl. }
  destruct (Z.ltb_spec (n * bytes_of w) 16) as [Hlt|Hge].
  { (* fewer than 16 bytes: copy_small *)
    rewrite L2s. cbn iota. apply Hall.
    unfold at_copy. cbn [pc stat regs mem saved trace]. regs_simpl.
    rewrite ?Rs, ?Rd, ?Rn, ?Hshift, ?wrap_0, ?Z.add_0_r, ?wrap_small by lia.
    repeat split; auto; lia. }
  eapply (chain2 e p _).
  { hstep Hpre Hpc Hst. hstep Hpre Hpc Hst. hstep Hpre Hpc Hst.
    rewrite ?Rs, ?Rd, ?wrap_0, ?Z.add_0_r, ?wrap_7, ?wrap_small by lia.
    apply steps_refl. }
  destruct (Z.eqb_spec (Z.land (Z.lxor s d) 7) 0) as [Heq|Hne]; cbn [negb].
  2: { (* different residues: copy_small *)
    rewrite L2s. cbn iota. apply Hall.
    unfold at_copy. cbn [pc stat regs mem saved trace]. regs_simpl.
    rewrite ?Rs, ?Rd, ?Rn, ?Hshift, ?wrap_0, ?Z.add_0_r, ?wrap_small by lia.
    repeat split; auto; lia. }
  (* same residue: align with single elements, then words *)
  lazymatch goal with
  | |- exists st' tr', steps _ _ ?X st' /\ _ =>
      destruct (same_aligned_fwd e p m0 s d Hwf Hs0 Hd0 (P + 9) l0 (S l0) (S (S (S l0)))
                  (P + 19) (P + 35) w (saved st) d Hca L0 L1 L3 (Z.to_nat (n - 1))
                  X d (trace st))
        as (st1 & j & S1 & Hj & A1 & Hal)
  end.
  - unfold at_copy. cbn [next write pc stat regs mem saved trace]. regs_simpl.
    rewrite Hpc, <- elems_count by lia.
    split; [lia|]. split; [exact Hst|]. split; [lia|]. split; [reflexivity|].
    split; [reflexivity|]. split; [|split; reflexivity].
    intros x. rewrite Hm. symmetry. apply copied_empty.
  - lia.
  - lia.
  - rewrite <- elems_count by lia. lia.
  - rewrite <- elems_count by lia. lia.
  - rewrite <- elems_count by lia. lia.
  - rewrite <- elems_count by lia. lia.
  - apply (chain2 e p _ _ _ _ S1). clear S1.
    rewrite <- elems_count in A1 by lia.
    assert (Hj0 : 0 <= Z.of_nat j * bytes_of w) by (apply Z.mul_nonneg_nonneg; lia).
    destruct (Nat.ltb_spec j (S (Z.to_nat (n - 1)))) as [Hlt|Hge'].
    + (* aligned with bytes to spare: whole words *)
      destruct (Hal Hlt) as [Hj8 Hmod].
      destruct (split_count w (n * bytes_of w - Z.of_nat j * bytes_of w) (n - Z.of_nat j))
        as (q & k & Hqk & Hk8); [lia | lia |].
      assert (Hk0 : 0 <= Z.of_nat k * bytes_of w) by (apply Z.mul_nonneg_nonneg; lia).
      eapply Hfin.
      { destruct (tail_word_fwd e p m0 s d Hwf Hs0 Hd0 w (S l0) (S (S l0)) (S (S (S l0)))
                    (P + 19) (saved st) Htl L1' L2' L3' st1 (d + Z.of_nat j * bytes_of w)
                    (fwd_events w m0 (d - d + s) d j (trace st)) q k)
          as (st2 & S2 & D2); try lia.
        { eapply at_copy_eq; [exact A1 | lia | lia | lia | lia | reflexivity | reflexivity]. }
        exists st2. split; [exact S2|].
        eapply copy_done_eq; [exact D2 | lia | intros x; f_equal; lia]. }
      exists j, (S q), k. split; [lia | split; [walk_eq | walk_side]].
    + (* count used up while aligning *)
      assert (j = S (Z.to_nat (n - 1))) by lia. subst j.
      apply at_copy_pc with (P' := (P + 19 + 16)%nat) in A1; [|lia].
      destruct (at_bind e p (P + 19 + 16) (S (S (S l0))) _ _ _ _ _ _ _
                  (code_at_sub _ _ _ 16%nat [Ibind (S (S (S l0)))] Htl eq_refl) A1)
        as (st2 & S2 & A2).
      exists st2. eexists. split; [exact S2|]. split.
      * eapply copy_done_eq; [eapply at_copy_done; exact A2 | lia |].
        intros x. f_equal. rewrite <- elems_count by lia. lia.
      * exists (S (Z.to_nat (n - 1))), O, O.
        split; [rewrite <- elems_count by lia; lia | split; [walk_eq | walk_side]].
Qed.

(** [copy_memory], forward, with the alignment promise: whole words first,
    then single elements. *)
Lemma copy_memory_fwd_aligned (P l0 : nat) w st :
  code_at p P (emitted (copy_memory true x10 x11 x12 t0 (bytes_of w)) l0) ->
  label_pos p (S l0) = Some (P + 22)%nat ->
  label_pos p (S (S l0)) = Some (P + 31)%nat ->
  label_pos p (S (S (S l0))) = Some (P + 38)%nat ->
  pc st = P -> stat st = Running ->
  getr (regs st) x10 = s -> getr (regs st) x11 = d -> getr (regs st) x12 = n ->
  (forall x, mem st x = m0 x) ->
  s + n * bytes_of w < two64 -> d + n * bytes_of w < two64 ->
  n * bytes_of w < 2 ^ 63 ->
  (d <= s \/ s + n * bytes_of w <= d) ->
  exists (q k : nat),
    n * bytes_of w = 8 * Z.of_nat q + Z.of_nat k * bytes_of w /\
    Z.of_nat k * bytes_of w < 8 /\
    exists st',
      steps e p st st' /\
      copy_done st' (P + 39) (copied m0 s d d (d + n * bytes_of w)) (saved st)
                (fwd_events w m0 (s + 8 * Z.of_nat q) (d + 8 * Z.of_nat q) k
                   (fwd_events W8 m0 s d q (trace st))).
Proof.
  intros Hc L1 L2 L3 Hpc Hst Rs Rd Rn Hm B1 B2 B3 Hsafe.
  pose proof two64_eq as H64. pose proof (bytes_of_cases w) as Hw.
  assert (L1s : label_pos p (S l0) = Some (22 + P)%nat) by (rewrite L1; f_equal; lia).
  assert (L2s : label_pos p (S (S l0)) = Some (31 + P)%nat) by (rewrite L2; f_equal; lia).
  assert (L3s : label_pos p (S (S (S l0))) = Some (38 + P)%nat) by (rewrite L3; f_equal; lia).
  assert (Hshift := shiftl_log2 w n Hn0 ltac:(lia)).
  assert (Htl : code_at p (P + 22) (tail_fwd w (S l0) (S (S l0)) (S (S (S l0))))).
  { destruct w; exact (code_at_sub _ _ _ 22%nat _ Hc eq_refl). }
  assert (Hcd : code_at p (P + 38) [Ibind (S (S (S l0)))]).
  { destruct w; exact (code_at_sub _ _ _ 38%nat _ Hc eq_refl). }
  assert (Hpre : code_at p P
            [Ibranch Ceq x12 zr (TLabel (S (S (S l0))));
             Ialu Sll x15 x12 (OImm (exact_log2 (uabs (bytes_of w))));
             Ialu Add x30 x10 (OImm 0); Ialu Add x31 x11 (OImm 0);
             Ialu Add x5 x15 (OImm (-8)); Ibranch Cge x5 zr (TLabel (S l0));
             Ijump (TLabel (S (S l0)))]).
  { destruct w; exact (code_at_sub0 _ _ _ _ Hc eq_refl). }
  clear Hc.
  assert (L2' : label_pos p (S (S l0)) = Some (P + 22 + 9)%nat) by (rewrite L2; f_equal; lia).
  assert (L3' : label_pos p (S (S (S l0))) = Some (P + 22 + 16)%nat)
    by (rewrite L3; f_equal; lia).
  destruct (Z.eq_dec n 0) as [Hz|Hnz].
  { (* count == 0: straight to done *)
    exists O, O. split; [rewrite Hz; lia|]. split; [lia|].
    eexists. split.
    - hstep Hpre Hpc Hst. rewrite Rn, Hz. change (0 =? 0) with true. cbn iota.
      rewrite L3s. cbn iota.
      eapply steps_step; [cbn [stat]; exact Hst
                         | cbn [pc]; rewrite (Nat.add_comm 38 P);
                           eapply (code_at_nth _ _ _ 0%nat) in Hcd; [|reflexivity];
                           rewrite Nat.add_0_r in Hcd; exact Hcd |].
      apply steps_refl.
    - unfold copy_done. cbn [exec next pc stat mem saved trace fwd_events].
      split; [lia|]. split; [exact Hst|]. split; [|split; reflexivity].
      intros x. rewrite Hm, Hz, Z.mul_0_l, Z.add_0_r.
      symmetry. apply copied_empty. }
  assert (Hn1 : 0 < n) by lia.
  assert (Hrun : exists st1, steps e p st st1 /\
            st1 = (if 8 <=? n * bytes_of w
                   then goto p (TLabel (S l0)) else next)
                    (next (write x5 (wrap (n * bytes_of w + wrap (-8)))
                       (next (write x31 d (next (write x30 s
                          (next (write x15 (n * bytes_of w) (next st)))))))))).
  { eexists. split.
    - hstep Hpre Hpc Hst. rewrite Rn. destruct (Z.eqb_spec n 0); [lia|].
      hstep Hpre Hpc Hst. hstep Hpre Hpc Hst. hstep Hpre Hpc Hst. hstep Hpre Hpc Hst.
      hstep Hpre Hpc Hst.
      rewrite ?Rs, ?Rd, ?Rn, ?Hshift, ?wrap_0, ?Z.add_0_r.
      rewrite bgez_m8 by lia. rewrite (wrap_small s), (wrap_small d) by lia.
      apply steps_refl.
    - destruct (8 <=? n * bytes_of w); reflexivity. }
  destruct Hrun as (st1 & S1 & E1).
  destruct (Z.leb_spec 8 (n * bytes_of w)) as [Hge|Hlt].
  - (* at least one word *)
    cbn [goto] in E1. rewrite L1 in E1. cbn iota in E1.
    destruct (split_count w (n * bytes_of w) n) as (q & k & Hqk & Hk8); [lia | lia |].
    assert (Hk0 : 0 <= Z.of_nat k * bytes_of w) by (apply Z.mul_nonneg_nonneg; lia).
    exists (S q), k. split; [lia|]. split; [lia|].
    apply (chain _ _ _ _ _ S1); clear S1.
    destruct (tail_word_fwd e p m0 s d Hwf Hs0 Hd0 w (S l0) (S (S l0)) (S (S (S l0)))
                (P + 22) (saved st) Htl L1 L2' L3' st1 d (trace st) q k)
      as (st2 & S2 & D2); try lia.
    { subst st1. unfold at_copy. cbn [next write pc stat regs mem saved trace]. regs_simpl.
      split; [lia|]. split; [exact Hst|]. split; [lia|]. split; [lia|].
      split; [lia|]. split; [|split; reflexivity].
      intros x. rewrite Hm. symmetry. apply copied_empty. }
    exists st2. split; [exact S2|].
    eapply copy_done_eq.
    + replace (d - d + s) with s in D2 by lia.
      replace (d + 8 * Z.of_nat (S q) - d + s) with (s + 8 * Z.of_nat (S q)) in D2 by lia.
      exact D2.
    + lia.
    + intros x. f_equal. lia.
  - (* less than a word: single elements *)
    exists O, (S (Z.to_nat (n - 1))).
    rewrite <- elems_count by lia.
    split; [lia|]. split; [lia|].
    apply (chain _ _ _ _ _ S1); clear S1.
    eapply (chain e p).
    { eapply steps_step; [subst st1; cbn [next write stat]; exact Hst
        | subst st1; cbn [next write pc]; rewrite Hpc;
          eapply (code_at_nth_S _ _ _ 6%nat); [exact Hpre | reflexivity] |].
      cbn [exec goto]. rewrite L2'. apply steps_refl. }
    lazymatch goal with
    | |- exists st', steps _ _ ?X st' /\ _ =>
        destruct (tail_small_fwd e p m0 s d Hwf Hs0 Hd0 w (S l0) (S (S l0)) (S (S (S l0)))
                    (P + 22) (saved st) Htl L2' (Z.to_nat (n - 1)) X d (trace st))
          as (st2 & S2 & D2)
    end; try (rewrite <- elems_count by lia; lia); try lia.
    { subst st1. unfold at_copy. cbn [next write pc stat regs mem saved trace]. regs_simpl.
      rewrite <- elems_count by lia.
      split; [lia|]. split; [exact Hst|]. split; [lia|]. split; [lia|].
      split; [lia|]. split; [|split; reflexivity].
      intros x. rewrite Hm. symmetry. apply copied_empty. }
    exists st2. split; [exact S2|].
    rewrite <- elems_count in D2 by lia.
    cbn [fwd_events]. change (Z.of_nat 0) with 0. rewrite Z.mul_0_r, !Z.add_0_r.
    eapply copy_done_eq.
    + replace (d - d + s) with s in D2 by lia. exact D2.
    + lia.
    + reflexivity.
Qed.

Hypothesis Hsd : s <= d.

(** [copy_memory], backward, no alignment promise. *)
Lemma copy_memory_bwd_unaligned (P l0 : nat) w st :
  code_at p P (emitted (copy_memory false x10 x11 x12 t0 (- bytes_of w)) l0) ->
  label_pos p l0 = Some (P + 9)%nat ->
  label_pos p (S l0) = Some (P + 19)%nat ->
  label_pos p (S (S l0)) = Some (P + 28)%nat ->
  label_pos p (S (S (S l0))) = Some (P + 35)%nat ->
  pc st = P -> stat st = Running ->
  getr (regs st) x10 = s -> getr (regs st) x11 = d -> getr (regs st) x12 = n ->
  (forall x, mem st x = m0 x) ->
  d + n * bytes_of w < two64 ->
  n * bytes_of w < 2 ^ 63 ->
  exists st' tr',
    steps e p st st' /\
    copy_done st' (P + 36) (copied m0 s d d (d + n * bytes_of w)) (saved st) tr' /\
    walked (bwd_walk w m0 (s + n * bytes_of w) (d + n * bytes_of w)) w false (n * bytes_of w)
        (trace st) tr'.
Proof.
  intros Hc L0 L1 L2 L3 Hpc Hst Rs Rd Rn Hm B2 B3.
  pose proof two64_eq as H64. pose proof (bytes_of_cases w) as Hw.
  set (len := n * bytes_of w) in *.
  assert (Hlen0 : 0 <= len) by (apply Z.mul_nonneg_nonneg; lia).
  assert (L2s : label_pos p (S (S l0)) = Some (28 + P)%nat) by (rewrite L2; f_equal; lia).
  assert (L3s : label_pos p (S (S (S l0))) = Some (35 + P)%nat) by (rewrite L3; f_equal; lia).
  assert (Hshift := shiftl_log2 w n Hn0 ltac:(lia)). fold len in Hshift.
  assert (Htl : code_at p (P + 19) (tail_bwd w (S l0) (S (S l0)) (S (S (S l0))))).
  { destruct w; exact (code_at_sub _ _ _ 19%nat _ Hc eq_refl). }
  assert (Hca : code_at p (P + 9)
                  ([Ibind l0; Ialu And x5 x30 (OImm 7); Ibranch Ceq x5 zr (TLabel (S l0))]
                     ++ body_bwd w
                     ++ [Ibranch Ceq x15 zr (TLabel (S (S (S l0)))); Ijump (TLabel l0)])).
  { destruct w; exact (code_at_sub _ _ _ 9%nat _ Hc eq_refl). }
  assert (Hcd : code_at p (P + 35) [Ibind (S (S (S l0)))]).
  { destruct w; exact (code_at_sub _ _ _ 35%nat _ Hc eq_refl). }
  assert (Hpre : code_at p P
            [Ibranch Ceq x12 zr (TLabel (S (S (S l0))));
             Ialu Sll x15 x12 (OImm (exact_log2 (uabs (- bytes_of w))));
             Ialu Add x30 x10 (OReg x15); Ialu Add x31 x11 (OReg x15);
             Ialu Add x5 zr (OImm 16); Ibranch Clt x15 x5 (TLabel (S (S l0)));
             Ialu Xor x5 x30 (OReg x31); Ialu And x5 x5 (OImm 7);
             Ibranch Cne x5 zr (TLabel (S (S l0)))]).
  { destruct w; exact (code_at_sub0 _ _ _ _ Hc eq_refl). }
  clear Hc.
  assert (Huabs : exact_log2 (uabs (- bytes_of w)) = exact_log2 (uabs (bytes_of w)))
    by (destruct w; reflexivity).
  assert (L1' : label_pos p (S l0) = Some (P + 19)%nat) by exact L1.
  assert (L2' : label_pos p (S (S l0)) = Some (P + 19 + 9)%nat) by (rewrite L2; f_equal; lia).
  assert (L3' : label_pos p (S (S (S l0))) = Some (P + 19 + 16)%nat)
    by (rewrite L3; f_equal; lia).
  destruct (Z.eq_dec n 0) as [Hz|Hnz].
  { (* count == 0: straight to done *)
    eexists. exists (trace st). split.
    - hstep Hpre Hpc Hst. rewrite Rn, Hz. change (0 =? 0) with true. cbn iota.
      rewrite L3s. cbn iota.
      eapply steps_step; [cbn [stat]; exact Hst
                         | cbn [pc]; rewrite (Nat.add_comm 35 P);
                           eapply (code_at_nth _ _ _ 0%nat) in Hcd; [|reflexivity];
                           rewrite Nat.add_0_r in Hcd; exact Hcd |].
      apply steps_refl.
    - split; [|exists O, O, O; split; [try unfold len; rewrite Hz; lia | split; [reflexivity |
        walk_side]]].
      unfold copy_done. cbn [exec next pc stat mem saved trace].
      split; [lia|]. split; [exact Hst|]. split; [|split; reflexivity].
      intros x. rewrite Hm. unfold len. rewrite Hz, Z.mul_0_l, Z.add_0_r.
      symmetry. apply copied_empty. }
  assert (Hn1 : 0 < n) by lia.
  assert (Hec : Z.of_nat (S (Z.to_nat (n - 1))) * bytes_of w = len)
    by (unfold len; rewrite <- elems_count by lia; reflexivity).
  assert (Hfin : forall st1 tr1,
             (exists st', steps e p st1 st' /\
                copy_done st' (P + 19 + 17) (copied m0 s d d (d + len))
                          (saved st) tr1) ->
             walked (bwd_walk w m0 (s + len) (d + len)) w false len (trace st) tr1 ->
             exists st' tr', steps e p st1 st' /\
               copy_done st' (P + 36) (copied m0 s d d (d + len)) (saved st) tr' /\
               walked (bwd_walk w m0 (s + n * bytes_of w) (d + n * bytes_of w)) w false (n *
                   bytes_of w) (trace st) tr').
  { intros st1 tr1 (st' & S' & D') Hw1. exists st', tr1. split; [exact S'|].
    split; [|exact Hw1].
    eapply copy_done_eq; [exact D' | lia | reflexivity]. }
  (* the element loop over the whole range *)
  assert (Hall : forall st1,
             at_copy st1 (P + 19 + 9) (s + len) (d + len) len m0 (saved st) (trace st) ->
             exists st' tr', steps e p st1 st' /\
               copy_done st' (P + 36) (copied m0 s d d (d + len)) (saved st) tr' /\
               walked (bwd_walk w m0 (s + n * bytes_of w) (d + n * bytes_of w)) w false (n *
                   bytes_of w) (trace st) tr').
  { intros st1 A. eapply Hfin.
    { destruct (tail_small_bwd e p m0 s d Hwf Hs0 w (S l0) (S (S l0)) (S (S (S l0)))
                  (P + 19) (saved st) Htl L2' Hsd (d + len) B2 (Z.to_nat (n - 1)) st1
                  (d + len) (trace st))
        as (st2 & S2 & D2).
      - eapply at_copy_eq; [exact A | lia | lia | lia | lia
                           | intros x; symmetry; apply copied_empty | reflexivity].
      - lia.
      - lia.
      - lia.
      - exists st2. split; [exact S2|].
        eapply copy_done_eq; [exact D2 | lia |].
        intros x. f_equal. lia. }
    exists (S (Z.to_nat (n - 1))), O, O. split; [lia | split; [walk_eq | walk_side]]. }
  eapply (chain2 e p _).
  { hstep Hpre Hpc Hst. rewrite Rn. destruct (Z.eqb_spec n 0); [lia|].
    hstep Hpre Hpc Hst. hstep Hpre Hpc Hst. hstep Hpre Hpc Hst. hstep Hpre Hpc Hst.
    hstep Hpre Hpc Hst.
    rewrite Rn, Huabs, Hshift, wrap_16, Z.add_0_l, wrap_16, signed_16, signed_small by lia.
    apply steps_refl. }
  destruct (Z.ltb_spec len 16) as [Hlt|Hge].
  { (* fewer than 16 bytes: copy_small *)
    rewrite L2s. cbn iota. apply Hall.
    unfold at_copy. cbn [pc stat regs mem saved trace]. regs_simpl.
    rewrite ?Rs, ?Rd, ?Rn, ?Huabs, ?Hshift, ?wrap_small by lia.
    repeat split; auto; lia. }
  eapply (chain2 e p _).
  { hstep Hpre Hpc Hst. hstep Hpre Hpc Hst. hstep Hpre Hpc Hst.
    rewrite ?Rs, ?Rd, ?Rn, ?Huabs, ?Hshift, ?wrap_7, ?wrap_small by lia.
    apply steps_refl. }
  destruct (Z.eqb_spec (Z.land (Z.lxor (s + len) (d + len)) 7) 0) as [Heq|Hne]; cbn [negb].
  2: { (* different residues: copy_small *)
    rewrite L2s. cbn iota. apply Hall.
    unfold at_copy. cbn [pc stat regs mem saved trace]. regs_simpl.
    rewrite ?Rs, ?Rd, ?Rn, ?Huabs, ?Hshift, ?wrap_small by lia.
    repeat split; auto; lia. }
  (* same residue: align with single elements, then words *)
  lazymatch goal with
  | |- exists st' tr', steps _ _ ?X st' /\ _ =>
      destruct (same_aligned_bwd e p m0 s d Hwf Hs0 (P + 9) l0 (S l0) (S (S (S l0)))
                  (P + 19) (P + 35) w (saved st) (d + len) Hca L0 L1 L3 Hsd B2
                  (Z.to_nat (n - 1)) X (d + len) (trace st))
        as (st1 & j & S1 & Hj & A1 & Hal)
  end.
  - unfold at_copy. cbn [next write pc stat regs mem saved trace]. regs_simpl.
    rewrite Hpc, Hec.
    split; [lia|]. split; [exact Hst|]. split; [lia|]. split; [reflexivity|].
    split; [reflexivity|]. split; [|split; reflexivity].
    intros x. rewrite Hm. symmetry. apply copied_empty.
  - lia.
  - lia.
  - lia.
  - apply (chain2 e p _ _ _ _ S1). clear S1.
    rewrite Hec in A1.
    assert (Hj0 : 0 <= Z.of_nat j * bytes_of w) by (apply Z.mul_nonneg_nonneg; lia).
    destruct (Nat.ltb_spec j (S (Z.to_nat (n - 1)))) as [Hlt|Hge'].
    + (* aligned with bytes to spare: whole words *)
      destruct (Hal Hlt) as [Hj8 Hmod].
      destruct (split_count w (len - Z.of_nat j * bytes_of w) (n - Z.of_nat j))
        as (q & k & Hqk & Hk8); [unfold len; lia | lia |].
      assert (Hk0 : 0 <= Z.of_nat k * bytes_of w) by (apply Z.mul_nonneg_nonneg; lia).
      eapply Hfin.
      { destruct (tail_word_bwd e p m0 s d Hwf Hs0 w (S l0) (S (S l0)) (S (S (S l0)))
                    (P + 19) (saved st) Htl L1' L2' L3' Hsd (d + len) B2 st1
                    (d + len - Z.of_nat j * bytes_of w)
                    (bwd_events w m0 (d + len - d + s) (d + len) j (trace st)) q k)
          as (st2 & S2 & D2); try lia.
        { eapply at_copy_eq; [exact A1 | lia | lia | lia | lia | reflexivity | reflexivity]. }
        exists st2. split; [exact S2|].
        eapply copy_done_eq; [exact D2 | lia | intros x; f_equal; lia]. }
      exists j, (S q), k. split; [lia | split; [walk_eq | walk_side]].
    + (* count used up while aligning *)
      assert (j = S (Z.to_nat (n - 1))) by lia. subst j.
      apply at_copy_pc with (P' := (P + 19 + 16)%nat) in A1; [|lia].
      destruct (at_bind e p (P + 19 + 16) (S (S (S l0))) _ _ _ _ _ _ _
                  (code_at_sub _ _ _ 16%nat [Ibind (S (S (S l0)))] Htl eq_refl) A1)
        as (st2 & S2 & A2).
      exists st2. eexists. split; [exact S2|]. split.
      * eapply copy_done_eq; [eapply at_copy_done; exact A2 | lia |].
        intros x. f_equal. lia.
      * exists (S (Z.to_nat (n - 1))), O, O. split; [lia | split; [walk_eq | walk_side]].
Qed.

(** [copy_memory], backward, with the alignment promise. *)
Lemma copy_memory_bwd_aligned (P l0 : nat) w st :
  code_at p P (emitted (copy_memory true x10 x11 x12 t0 (- bytes_of w)) l0) ->
  label_pos p (S l0) = Some (P + 22)%nat ->
  label_pos p (S (S l0)) = Some (P + 31)%nat ->
  label_pos p (S (S (S l0))) = Some (P + 38)%nat ->
  pc st = P -> stat st = Running ->
  getr (regs st) x10 = s -> getr (regs st) x11 = d -> getr (regs st) x12 = n ->
  (forall x, mem st x = m0 x) ->
  d + n * bytes_of w < two64 ->
  n * bytes_of w < 2 ^ 63 ->
  exists st' tr',
    steps e p st st' /\
    copy_done st' (P + 39) (copied m0 s d d (d + n * bytes_of w)) (saved st) tr' /\
    walked (bwd_walk w m0 (s + n * bytes_of w) (d + n * bytes_of w)) w true (n * bytes_of w)
        (trace st) tr'.
Proof.
  intros Hc L1 L2 L3 Hpc Hst Rs Rd Rn Hm B2 B3.
  pose proof two64_eq as H64. pose proof (bytes_of_cases w) as Hw.
  set (len := n * bytes_of w) in *.
  assert (Hlen0 : 0 <= len) by (apply Z.mul_nonneg_nonneg; lia).
  assert (L1s : label_pos p (S l0) = Some (22 + P)%nat) by (rewrite L1; f_equal; lia).
  assert (L2s : label_pos p (S (S l0)) = Some (31 + P)%nat) by (rewrite L2; f_equal; lia).
  assert (L3s : label_pos p (S (S (S l0))) = Some (38 + P)%nat) by (rewrite L3; f_equal; lia).
  assert (Hshift := shiftl_log2 w n Hn0 ltac:(lia)). fold len in Hshift.
  assert (Htl : code_at p (P + 22) (tail_bwd w (S l0) (S (S l0)) (S (S (S l0))))).
  { destruct w; exact (code_at_sub _ _ _ 22%nat _ Hc eq_refl). }
  assert (Hcd : code_at p (P + 38) [Ibind (S (S (S l0)))]).
  { destruct w; exact (code_at_sub _ _ _ 38%nat _ Hc eq_refl). }
  assert (Hpre : code_at p P
            [Ibranch Ceq x12 zr (TLabel (S (S (S l0))));
             Ialu Sll x15 x12 (OImm (exact_log2 (uabs (- bytes_of w))));
             Ialu Add x30 x10 (OReg x15); Ialu Add x31 x11 (OReg x15);
             Ialu Add x5 x15 (OImm (-8)); Ibranch Cge x5 zr (TLabel (S l0));
             Ijump (TLabel (S (S l0)))]).
  { destruct w; exact (code_at_sub0 _ _ _ _ Hc eq_refl). }
  clear Hc.
  assert (Huabs : exact_log2 (uabs (- bytes_of w)) = exact_log2 (uabs (bytes_of w)))
    by (destruct w; reflexivity).
  assert (L2' : label_pos p (S (S l0)) = Some (P + 22 + 9)%nat) by (rewrite L2; f_equal; lia).
  assert (L3' : label_pos p (S (S (S l0))) = Some (P + 22 + 16)%nat)
    by (rewrite L3; f_equal; lia).
  destruct (Z.eq_dec n 0) as [Hz|Hnz].
  { (* count == 0: straight to done *)
    eexists. exists (trace st). split.
    - hstep Hpre Hpc Hst. rewrite Rn, Hz. change (0 =? 0) with true. cbn iota.
      rewrite L3s. cbn iota.
      eapply steps_step; [cbn [stat]; exact Hst
                         | cbn [pc]; rewrite (Nat.add_comm 38 P);
                           eapply (code_at_nth _ _ _ 0%nat) in Hcd; [|reflexivity];
                           rewrite Nat.add_0_r in Hcd; exact Hcd |].
      apply steps_refl.
    - split; [|exists O, O, O; split; [try unfold len; rewrite Hz; lia | split; [reflexivity |
        walk_side]]].
      unfold copy_done. cbn [exec next pc stat mem saved trace].
      split; [lia|]. split; [exact Hst|]. split; [|split; reflexivity].
      intros x. rewrite Hm. unfold len. rewrite Hz, Z.mul_0_l, Z.add_0_r.
      symmetry. apply copied_empty. }
  assert (Hn1 : 0 < n) by lia.
  assert (Hec : Z.of_nat (S (Z.to_nat (n - 1))) * bytes_of w = len)
    by (unfold len; rewrite <- elems_count by lia; reflexivity).
  assert (Hfin : forall st1 tr1,
             (exists st', steps e p st1 st' /\
                copy_done st' (P + 22 + 17) (copied m0 s d d (d + len))
                          (saved st) tr1) ->
             walked (bwd_walk w m0 (s + len) (d + len)) w true len (trace st) tr1 ->
             exists st' tr', steps e p st1 st' /\
               copy_done st' (P + 39) (copied m0 s d d (d + len)) (saved st) tr' /\
               walked (bwd_walk w m0 (s + n * bytes_of w) (d + n * bytes_of w)) w true (n *
                   bytes_of w) (trace st) tr').
  { intros st1 tr1 (st' & S' & D') Hw1. exists st', tr1. split; [exact S'|].
    split; [|exact Hw1].
    eapply copy_done_eq; [exact D' | lia | reflexivity]. }
  assert (Hrun : exists st1, steps e p st st1 /\
            st1 = (if 8 <=? len
                   then goto p (TLabel (S l0)) else next)
                    (next (write x5 (wrap (len + wrap (-8)))
                       (next (write x31 (d + len) (next (write x30 (s + len)
                          (next (write x15 len (next st)))))))))).
  { eexists. split.
    - hstep Hpre Hpc Hst. rewrite Rn. destruct (Z.eqb_spec n 0); [lia|].
      hstep Hpre Hpc Hst. hstep Hpre Hpc Hst. hstep Hpre Hpc Hst. hstep Hpre Hpc Hst.
      hstep Hpre Hpc Hst.
      rewrite ?Rs, ?Rd, ?Rn, ?Huabs, ?Hshift.
      rewrite bgez_m8 by lia. rewrite (wrap_small (s + len)), (wrap_small (d + len)) by lia.
      apply steps_refl.
    - destruct (8 <=? len); reflexivity. }
  destruct Hrun as (st1 & S1 & E1).
  apply (chain2 e p _ _ _ _ S1); clear S1.
  destruct (Z.leb_spec 8 len) as [Hge|Hlt].
  - (* at least one word *)
    cbn [goto] in E1. rewrite L1 in E1. cbn iota in E1.
    destruct (split_count w len n) as (q & k & Hqk & Hk8); [reflexivity | lia |].
    assert (Hk0 : 0 <= Z.of_nat k * bytes_of w) by (apply Z.mul_nonneg_nonneg; lia).
    eapply Hfin.
    { destruct (tail_word_bwd e p m0 s d Hwf Hs0 w (S l0) (S (S l0)) (S (S (S l0)))
                  (P + 22) (saved st) Htl L1 L2' L3' Hsd (d + len) B2 st1 (d + len)
                  (trace st) q k)
        as (st2 & S2 & D2); try lia.
      { subst st1. unfold at_copy. cbn [next write pc stat regs mem saved trace]. regs_simpl.
        split; [lia|]. split; [exact Hst|]. split; [lia|]. split; [lia|].
        split; [lia|]. split; [|split; reflexivity].
        intros x. rewrite Hm. symmetry. apply copied_empty. }
      exists st2. split; [exact S2|].
      eapply copy_done_eq; [exact D2 | lia | intros x; f_equal; lia]. }
    exists O, (S q), k. split; [lia | split; [walk_eq | walk_side]].
  - (* less than a word: single elements *)
    eapply (chain2 e p _).
    { eapply steps_step; [subst st1; cbn [next write stat]; exact Hst
        | subst st1; cbn [next write pc]; rewrite Hpc;
          eapply (code_at_nth_S _ _ _ 6%nat); [exact Hpre | reflexivity] |].
      cbn [exec goto]. rewrite L2'. apply steps_refl. }
    eapply Hfin.
    { lazymatch goal with
      | |- exists st', steps _ _ ?X st' /\ _ =>
          destruct (tail_small_bwd e p m0 s d Hwf Hs0 w (S l0) (S (S l0)) (S (S (S l0)))
                      (P + 22) (saved st) Htl L2' Hsd (d + len) B2 (Z.to_nat (n - 1)) X
                      (d + len) (trace st))
            as (st2 & S2 & D2)
      end; try lia.
      { subst st1. unfold at_copy. cbn [next write pc stat regs mem saved trace]. regs_simpl.
        rewrite Hec.
        split; [lia|]. split; [exact Hst|]. split; [lia|]. split; [lia|].
        split; [lia|]. split; [|split; reflexivity].
        intros x. rewrite Hm. symmetry. apply copied_empty. }
      exists st2. split; [exact S2|].
      eapply copy_done_eq; [exact D2 | lia | intros x; f_equal; lia]. }
    exists O, O, (S (Z.to_nat (n - 1))). split; [lia | split; [walk_eq | walk_side]].
Qed.

End CopyMemory.

Lemma naive_chunk n sa da m0 m x :
  0 <= sa -> sa + Z.of_nat n <= two64 ->
  0 <= da -> da + Z.of_nat n <= two64 ->
  store_bytes n da (load_bytes n sa m0) m x =
  if (da <=? x) && (x <? da + Z.of_nat n) then m0 (sa + (x - da)) mod 256 else m x.
Proof.
  intros Hs1 Hs2 Hd1 Hd2.
  destruct (Z.leb_spec da x); destruct (Z.ltb_spec x (da + Z.of_nat n)); cbn [andb].
  - rewrite store_bytes_in by lia. apply load_bytes_digit; lia.
  - apply store_bytes_out; lia.
  - apply store_bytes_out; lia.
  - apply store_bytes_out; lia.
Qed.

Lemma naive_copy_copied w m0 s d (n : nat) x :
  wf_mem m0 -> 0 <= s -> 0 <= d ->
  s + Z.of_nat n * bytes_of w <= two64 -> d + Z.of_nat n * bytes_of w <= two64 ->
  naive_copy w m0 s d n m0 x = copied m0 s d d (d + Z.of_nat n * bytes_of w) x.
Proof.
  intros Hwf Hs Hd. pose proof (bytes_of_cases w) as Hw. pose proof (nbytes_of w) as Hn.
  revert x. induction n as [|n IH]; intros x B1 B2.
  - cbn [naive_copy]. rewrite Z.mul_0_l, Z.add_0_r. symmetry. apply copied_empty.
  - cbn [naive_copy]. unfold store, load.
    assert (Hk0 : 0 <= Z.of_nat n * bytes_of w) by (apply Z.mul_nonneg_nonneg; lia).
    rewrite naive_chunk by lia. rewrite Hn, IH by lia.
    unfold copied.
    destruct (Z.leb_spec (d + Z.of_nat n * bytes_of w) x);
      destruct (Z.ltb_spec x (d + Z.of_nat n * bytes_of w + bytes_of w));
      destruct (Z.leb_spec d x);
      destruct (Z.ltb_spec x (d + Z.of_nat n * bytes_of w));
      destruct (Z.ltb_spec x (d + Z.of_nat (S n) * bytes_of w));
      cbn [andb]; try lia; try reflexivity.
    rewrite Z.mod_small by apply Hwf. f_equal. lia.
Qed.

Section CopyMemoryAny.

Variables (e : env) (p : program) (m0 : Z -> Z) (s d n : Z).

Hypothesis Hwf : wf_mem m0.

Hypotheses (Hs0 : 0 <= s) (Hd0 : 0 <= d) (Hn0 : 0 <= n).

Lemma copy_memory_fwd aligned (P l0 : nat) w st :
  code_at p P (emitted (copy_memory aligned x10 x11 x12 t0 (bytes_of w)) l0) ->
  label_pos p l0 = Some (P + 9 + al aligned)%nat ->
  label_pos p (S l0) = Some (P + 19 + al aligned)%nat ->
  label_pos p (S (S l0)) = Some (P + 28 + al aligned)%nat ->
  label_pos p (S (S (S l0))) = Some (P + 35 + al aligned)%nat ->
  pc st = P -> stat st = Running ->
  getr (regs st) x10 = s -> getr (regs st) x11 = d -> getr (regs st) x12 = n ->
  (forall x, mem st x = m0 x) ->
  s + n * bytes_of w < two64 -> d + n * bytes_of w < two64 ->
  n * bytes_of w < 2 ^ 63 ->
  (d <= s \/ s + n * bytes_of w <= d) ->
  exists st' tr',
    steps e p st st' /\
    copy_done st' (P + 36 + al aligned) (copied m0 s d d (d + n * bytes_of w))
              (saved st) tr' /\
    walked (fwd_walk w m0 s d) w aligned (n * bytes_of w) (trace st) tr'.
Proof.
  intros Hc L0 L1 L2 L3 Hpc Hst Rs Rd Rn Hm B1 B2 B3 Hsafe.
  destruct aligned; cbn [al] in *.
  - destruct (copy_memory_fwd_aligned e p m0 s d n Hwf Hs0 Hd0 Hn0 P l0 w st Hc)
      as (q & k & Hqk & Hk & st' & S1 & D1); auto.
    + rewrite L1. f_equal. lia.
    + rewrite L2. f_equal. lia.
    + rewrite L3. f_equal. lia.
    + exists st'. eexists. split; [exact S1|]. split.
      * eapply copy_done_eq; [exact D1 | lia | reflexivity].
      * exists O, q, k. split; [lia | split; [walk_eq | walk_side]].
  - rewrite !Nat.add_0_r in *.
    apply (copy_memory_fwd_unaligned e p m0 s d n Hwf Hs0 Hd0 Hn0 P l0 w st); auto.
Qed.

Lemma copy_memory_bwd aligned (P l0 : nat) w st :
  s <= d ->
  code_at p P (emitted (copy_memory aligned x10 x11 x12 t0 (- bytes_of w)) l0) ->
  label_pos p l0 = Some (P + 9 + al aligned)%nat ->
  label_pos p (S l0) = Some (P + 19 + al aligned)%nat ->
  label_pos p (S (S l0)) = Some (P + 28 + al aligned)%nat ->
  label_pos p (S (S (S l0))) = Some (P + 35 + al aligned)%nat ->
  pc st = P -> stat st = Running ->
  getr (regs st) x10 = s -> getr (regs st) x11 = d -> getr (regs st) x12 = n ->
  (forall x, mem st x = m0 x) ->
  d + n * bytes_of w < two64 ->
  n * bytes_of w < 2 ^ 63 ->
  exists st' tr',
    steps e p st st' /\
    copy_done st' (P + 36 + al aligned) (copied m0 s d d (d + n * bytes_of w))
              (saved st) tr' /\
    walked (bwd_walk w m0 (s + n * bytes_of w) (d + n * bytes_of w)) w aligned (n * bytes_of w)
           (trace st) tr'.
Proof.
  intros Hsd Hc L0 L1 L2 L3 Hpc Hst Rs Rd Rn Hm B2 B3.
  destruct aligned; cbn [al] in *.
  - destruct (copy_memory_bwd_aligned e p m0 s d n Hwf Hs0 Hd0 Hn0 Hsd P l0 w st Hc)
      as (st' & tr' & S1 & D1 & W1); auto.
    + rewrite L1. f_equal. lia.
    + rewrite L2. f_equal. lia.
    + rewrite L3. f_equal. lia.
    + exists st', tr'. split; [exact S1|]. split; [|exact W1].
      eapply copy_done_eq; [exact D1 | lia | reflexivity].
  - rewrite !Nat.add_0_r in *.
    apply (copy_memory_bwd_unaligned e p m0 s d n Hwf Hs0 Hd0 Hn0 Hsd P l0 w st); auto.
Qed.

End CopyMemoryAny.

Section StubSteps.

Variables (e : env) (p : program).

Lemma step1 P k frag i st :
  code_at p P frag -> nth_error frag k = Some i ->
  pc st = (P + k)%nat -> stat st = Running ->
  steps e p st (exec e p i st).
Proof.
  intros Hc Hk Hpc Hst.
  eapply steps_step; [exact Hst | rewrite Hpc; apply Hc, Hk | apply steps_refl].
Qed.

Lemma oop_push_steps is_oop P st :
  code_at p P (oop_push is_oop) -> pc st = P -> stat st = Running ->
  exists st',
    steps e p st st' /\ pc st' = (P + oo is_oop)%nat /\ stat st' = Running /\
    regs st' = regs st /\ mem st' = mem st /\ trace st' = trace st /\
    saved st' = (if is_oop then [[(x11, getr (regs st) x11); (x12, getr (regs st) x12)]]
                 else []) ++ saved st.
Proof.
  intros Hc Hpc Hst. destruct is_oop; cbn [oop_push oo] in *.
  - eexists. split.
    + eapply (step1 P 0%nat); [exact Hc | reflexivity | lia | exact Hst].
    + cbn. repeat split; auto. lia.
  - exists st. split; [apply steps_refl|]. repeat split; auto. lia.
Qed.

Lemma oop_pop_steps is_oop P st fr sv :
  code_at p P (oop_pop is_oop) -> pc st = P -> stat st = Running ->
  saved st = (if is_oop then [fr] else []) ++ sv ->
  exists st',
    steps e p st st' /\ pc st' = (P + oo is_oop)%nat /\ stat st' = Running /\
    mem st' = mem st /\ trace st' = trace st /\ saved st' = sv.
Proof.
  intros Hc Hpc Hst Hsv. destruct is_oop; cbn [oop_pop oo app] in *.
  - eexists. split.
    + eapply (step1 P 0%nat); [exact Hc | reflexivity | lia | exact Hst].
    + cbn [exec exec_macro]. unfold restore_regs. rewrite Hsv. cbn.
      repeat split; auto. lia.
  - exists st. split; [apply steps_refl|]. repeat split; auto. lia.
Qed.

Lemma stub_exit_steps decs is_oop P st fr sv :
  code_at p P (stub_exit decs is_oop) -> pc st = P -> stat st = Running ->
  saved st = fr :: sv ->
  exists st' a b,
    steps e p st st' /\ stat st' = Returned /\ getr (regs st') x10 = 0 /\
    mem st' = mem st /\ saved st' = sv /\
    trace st' = EvCall "arraycopy_epilogue" [a; b] :: trace st.
Proof.
  intros Hc Hpc Hst Hsv.
  eexists. exists (getr (regs st) x11), (getr (regs st) x12). split.
  - eapply steps_trans.
    { eapply (step1 P 0%nat); [exact Hc | reflexivity | lia | exact Hst]. }
    cbn [exec exec_macro].
    eapply steps_trans.
    { eapply (step1 P 1%nat); [exact Hc | reflexivity | cbn; lia | exact Hst]. }
    cbn [exec exec_macro]. unfold restore_regs at 1. cbn [saved next log]. rewrite Hsv.
    eapply steps_trans.
    { eapply (step1 P 2%nat); [exact Hc | reflexivity | cbn; lia | exact Hst]. }
    eapply steps_trans.
    { eapply (step1 P 3%nat); [exact Hc | reflexivity | cbn; lia | exact Hst]. }
    apply steps_refl.
  - cbn. repeat split; auto.
Qed.

End StubSteps.

Section StubBody.

Variables (e : env) (p : program) (w : width) (aligned is_oop : bool).

Lemma stub_body (fwd : bool) decs (E l0 : nat) st s d n fr sv :
  stub_body_at p w aligned is_oop fwd decs E l0 ->
  pc st = E -> stat st = Running ->
  getr (regs st) x10 = s -> getr (regs st) x11 = d -> getr (regs st) x12 = n ->
  saved st = fr :: sv ->
  wf_mem (mem st) -> 0 <= s -> 0 <= d -> 0 <= n ->
  s + n * bytes_of w < two64 -> d + n * bytes_of w < two64 ->
  n * bytes_of w < 2 ^ 63 ->
  (if fwd then d <= s \/ s + n * bytes_of w <= d else s <= d) ->
  exists st' tr',
    steps e p st st' /\
    stub_returns st st' (copied (mem st) s d d (d + n * bytes_of w)) sv tr' /\
    walked (if fwd then fwd_walk w (mem st) s d
            else bwd_walk w (mem st) (s + n * bytes_of w) (d + n * bytes_of w))
           w aligned (n * bytes_of w)
           (EvCall "arraycopy_prologue" [s; d; n] :: trace st) tr'.
Proof.
  intros (Hpro & Hpush & Hcm & L0 & L1 & L2 & L3 & Hpop & Hexit)
         Hpc Hst Rs Rd Rn Hsv Hwf Hs0 Hd0 Hn0 B1 B2 B3 Hdir.
  pose (st1 := exec e p (Imacro (Marraycopy_prologue decs is_oop x10 x11 x12)) st).
  assert (S1 : steps e p st st1).
  { eapply (step1 e p E 0%nat); [exact Hpro | reflexivity | lia | exact Hst]. }
  destruct (oop_push_steps e p is_oop (E + 1) st1 Hpush)
    as (st2 & S2 & Hpc2 & Hst2 & Hr2 & Hm2 & Ht2 & Hs2);
    [cbn; lia | exact Hst |].
  cbn [st1 exec exec_macro next log regs mem trace saved] in Hr2, Hm2, Ht2, Hs2.
  rewrite Rs, Rd, Rn in Ht2.
  assert (Hcopy : exists st3 tr3,
             steps e p st2 st3 /\
             copy_done st3 (E + 1 + oo is_oop + 36 + al aligned)
                       (copied (mem st) s d d (d + n * bytes_of w)) (saved st2) tr3 /\
             walked (if fwd then fwd_walk w (mem st) s d
                     else bwd_walk w (mem st) (s + n * bytes_of w) (d + n * bytes_of w))
                    w aligned (n * bytes_of w) (trace st2) tr3).
  { destruct fwd.
    - apply (copy_memory_fwd e p (mem st) s d n Hwf Hs0 Hd0 Hn0 aligned _ l0 w st2);
        auto; try (rewrite Hr2; assumption).
      intros x. rewrite Hm2. reflexivity.
    - apply (copy_memory_bwd e p (mem st) s d n Hwf Hs0 Hd0 Hn0 aligned _ l0 w st2);
        auto; try (rewrite Hr2; assumption).
      intros x. rewrite Hm2. reflexivity. }
  destruct Hcopy as (st3 & tr3 & S3 & (Hpc3 & Hst3 & Hm3 & Hsv3 & Htr3) & W3).
  destruct (oop_pop_steps e p is_oop _ st3
              [(x11, getr (regs st1) x11); (x12, getr (regs st1) x12)] (fr :: sv)
              Hpop Hpc3 Hst3)
    as (st4 & S4 & Hpc4 & Hst4 & Hm4 & Ht4 & Hs4).
  { rewrite Hsv3, Hs2, Hsv. reflexivity. }
  destruct (stub_exit_steps e p decs is_oop _ st4 fr sv Hexit Hpc4 Hst4 Hs4)
    as (st5 & a & b & S5 & Hst5 & Hr5 & Hm5 & Hs5 & Ht5).
  exists st5, tr3.
  split. { repeat (eapply steps_trans; [eassumption|]). apply steps_refl. }
  split.
  { split; [exact Hst5|]. split; [exact Hr5|].
    split. { intros x. rewrite Hm5, Hm4. apply Hm3. }
    split; [exact Hs5|].
    exists a, b. rewrite Ht5, Ht4, Htr3. reflexivity. }
  rewrite Ht2 in W3. exact W3.
Qed.

(** The conjoint stub: forward through the disjoint stub's entry when
    [d - s >= count * size] as unsigned numbers, backward otherwise. *)
Lemma conjoint_run decs_f decs_b (C E lf lb : nat) st s d n :
  code_at p C (conjoint_head w E) ->
  stub_body_at p w aligned is_oop true decs_f E lf ->
  stub_body_at p w aligned is_oop false decs_b (C + 4) lb ->
  pc st = C -> stat st = Running ->
  getr (regs st) x10 = s -> getr (regs st) x11 = d -> getr (regs st) x12 = n ->
  wf_mem (mem st) -> 0 <= s -> 0 <= d -> 0 <= n ->
  s + n * bytes_of w < two64 -> d + n * bytes_of w < two64 ->
  n * bytes_of w < 2 ^ 63 ->
  exists st' tr',
    steps e p st st' /\
    stub_returns st st' (copied (mem st) s d d (d + n * bytes_of w)) (saved st) tr' /\
    if n * bytes_of w <=? wrap (d - s)
    then (exists st1, steps e p st st1 /\ pc st1 = E /\ stat st1 = Running /\
                      steps e p st1 st') /\
         walked (fwd_walk w (mem st) s d) w aligned (n * bytes_of w)
                (EvCall "arraycopy_prologue" [s; d; n] :: trace st) tr'
    else walked (bwd_walk w (mem st) (s + n * bytes_of w) (d + n * bytes_of w))
                w aligned (n * bytes_of w)
                (EvCall "arraycopy_prologue" [s; d; n] :: trace st) tr'.
Proof.
  intros Hhead Hf Hb Hpc Hst Rs Rd Rn Hwf Hs0 Hd0 Hn0 B1 B2 B3.
  pose proof two64_eq as H64.
  assert (Hlen0 : 0 <= n * bytes_of w) by (pose proof (bytes_of_cases w); nia).
  assert (Hshift : wrap (Z.shiftl n (wrap (exact_log2 (bytes_of w)) mod 64))
                   = n * bytes_of w).
  { rewrite <- (shiftl_log2 w n Hn0) by lia. destruct w; reflexivity. }
  pose (st3 := write t1 (n * bytes_of w)
                 (next (write t0 (wrap (d - s)) (next (save_regs [lr; fp] st))))).
  assert (S3 : steps e p st (next st3)).
  { unfold conjoint_head in Hhead.
    hstep Hhead Hpc Hst. hstep Hhead Hpc Hst. hstep Hhead Hpc Hst.
    rewrite Rs, Rd, Rn, Hshift. apply steps_refl. }
  assert (S4 : steps e p st
                 (if n * bytes_of w <=? wrap (d - s)
                  then goto p (TAddr E) (next st3) else next (next st3))).
  { eapply steps_trans; [exact S3|].
    eapply steps_step; [exact Hst | |].
    - cbn [next pc st3 write save_regs]. rewrite Hpc.
      eapply (code_at_nth_S _ _ _ 3%nat); [exact Hhead | reflexivity].
    - cbn [exec]. unfold st3 at 1 2. cbn [next write regs save_regs]. regs_simpl.
      cbn [eval_cmp]. destruct (n * bytes_of w <=? wrap (d - s)); apply steps_refl. }
  assert (Hw : 0 <= wrap (d - s) < two64) by (apply Z.mod_pos_bound; lia).
  destruct (Z.leb_spec (n * bytes_of w) (wrap (d - s))) as [Hge|Hlt].
  - (* no overlap in the way: the disjoint stub from its entry on *)
    assert (Hdir : d <= s \/ s + n * bytes_of w <= d).
    { unfold wrap in Hge. destruct (Z.le_gt_cases s d); [right | left; lia].
      rewrite Z.mod_small in Hge by lia. lia. }
    set (st4 := goto p (TAddr E) (next st3)) in *.
    assert (R4 : getr (regs st4) x10 = s /\ getr (regs st4) x11 = d /\
                 getr (regs st4) x12 = n).
    { cbn [st4 goto next st3 write regs save_regs]. regs_simpl. auto. }
    destruct R4 as (Rs4 & Rd4 & Rn4).
    destruct (stub_body true decs_f E lf st4 s d n
                [(lr, getr (regs st) lr); (fp, getr (regs st) fp)] (saved st) Hf
                eq_refl Hst Rs4 Rd4 Rn4 eq_refl Hwf Hs0 Hd0 Hn0 B1 B2 B3 Hdir)
      as (st' & tr' & S5 & R5 & W5).
    exists st', tr'. split; [eapply steps_trans; eassumption|].
    split; [exact R5|]. split; [|exact W5].
    exists st4.
    split; [exact S4|]. split; [reflexivity|]. split; [exact Hst | exact S5].
  - (* the ranges may overlap with the destination above: backward *)
    assert (Hsd : s <= d).
    { destruct (Z.le_gt_cases s d); [assumption|]. exfalso.
      unfold wrap in Hlt.
      replace (d - s) with (d - s + two64 + (-1) * two64) in Hlt by lia.
      rewrite Z.mod_add, Z.mod_small in Hlt by lia. lia. }
    set (st4 := next (next st3)) in *.
    assert (R4 : getr (regs st4) x10 = s /\ getr (regs st4) x11 = d /\
                 getr (regs st4) x12 = n).
    { cbn [st4 next st3 write regs save_regs]. regs_simpl. auto. }
    destruct R4 as (Rs4 & Rd4 & Rn4).
    assert (Hpc4 : pc st4 = (C + 4)%nat).
    { cbn [st4 next pc st3 write save_regs]. lia. }
    destruct (stub_body false decs_b (C + 4) lb st4 s d n
                [(lr, getr (regs st) lr); (fp, getr (regs st) fp)] (saved st) Hb
                Hpc4 Hst Rs4 Rd4 Rn4 eq_refl Hwf Hs0 Hd0 Hn0 B1 B2 B3 Hsd)
      as (st' & tr' & S5 & R5 & W5).
    exists st', tr'. split; [eapply steps_trans; eassumption|].
    split; [exact R5 | exact W5].
Qed.

End StubBody.

Ltac layout :=
  first [ apply code_at_intro; vm_compute; reflexivity | vm_compute; reflexivity ].

(** Where the pieces of the two stubs sit in the generated code. *)
Lemma copy_stubs_layout flags w aligned is_oop du :
  VerifyOops flags = false ->
  let p := copy_stubs flags w aligned is_oop du in
  let C := conjoint_start flags w aligned is_oop du in
  let E := disjoint_entry flags w aligned is_oop du in
  code_at p C (conjoint_head w E) /\
  stub_body_at p w aligned is_oop true (disjoint_decorators aligned du) E 0 /\
  stub_body_at p w aligned is_oop false (conjoint_decorators aligned du) (C + 4) 4.
Proof.
  intros HV. destruct flags. simpl in HV. subst.
  unfold stub_body_at.
  destruct w, aligned, is_oop; cbv zeta; repeat split; layout.
Qed.

Lemma example_mem_wf : wf_mem example_mem.
Proof.
  intros a. unfold example_mem.
  destruct (Z.leb_spec 16 a); destruct (Z.ltb_spec a 32); cbn [andb]; lia.
Qed.

(** C2: the conjoint stub, called with source [s], destination [d] and [n]
    elements of [bytes_of w] bytes, returns with result 0 and leaves memory
    as the naive element-by-element copy from the pristine source does,
    whatever the overlap.  When [d - s >= n * size] as unsigned numbers it
    runs through the entry of the disjoint stub and walks forward; otherwise
    it walks backward from the high end. *)
Theorem conjoint_copy_matches_oracle e flags w aligned is_oop du st s d (n : nat) :
  VerifyOops flags = false ->
  pc st = conjoint_start flags w aligned is_oop du ->
  stat st = Running ->
  getr (regs st) c_rarg0 = s -> getr (regs st) c_rarg1 = d ->
  getr (regs st) c_rarg2 = Z.of_nat n ->
  wf_mem (mem st) -> 0 <= s -> 0 <= d ->
  s + Z.of_nat n * bytes_of w < two64 -> d + Z.of_nat n * bytes_of w < two64 ->
  Z.of_nat n * bytes_of w < 2 ^ 63 ->
  conjoint_copy_post e flags w aligned is_oop du st s d n.
Proof.
  intros HV Hpc Hst Rs Rd Rn Hwf Hs0 Hd0 B1 B2 B3.
  destruct (copy_stubs_layout flags w aligned is_oop du HV) as (Hh & Hf & Hb).
  destruct (conjoint_run e _ w aligned is_oop _ _ _ _ 0%nat 4%nat st s d (Z.of_nat n)
              Hh Hf Hb Hpc Hst Rs Rd Rn Hwf Hs0 Hd0 ltac:(lia) B1 B2 B3)
    as (st' & tr' & S1 & (R1 & R2 & R3 & _ & R5) & W1).
  exists st', tr'. split; [exact S1|]. split; [exact R1|]. split; [exact R2|].
  split. { intros x. rewrite R3. symmetry. apply naive_copy_copied; auto; lia. }
  split; [exact R5 | exact W1].
Qed.

Lemma conjoint_copy_matches_oracle_witness :
  conjoint_copy_post example_env product_flags W2 false false false
                     (example_call 43 16 18 3) 16 18 3.
Proof.
  apply (conjoint_copy_matches_oracle example_env product_flags W2 false false false
           (example_call 43 16 18 3) 16 18 3);
    try reflexivity; try (vm_compute; reflexivity); try (cbn; lia).
  exact example_mem_wf.
Defined.

Section Disjoint.

Variables (e : env) (p : program) (w : width) (aligned is_oop : bool).

(** The disjoint stub from its start: frame, then the shared body. *)
Lemma disjoint_run decs (D l0 : nat) st s d n :
  code_at p D [Imacro Menter] ->
  stub_body_at p w aligned is_oop true decs (D + 1) l0 ->
  pc st = D -> stat st = Running ->
  getr (regs st) x10 = s -> getr (regs st) x11 = d -> getr (regs st) x12 = n ->
  wf_mem (mem st) -> 0 <= s -> 0 <= d -> 0 <= n ->
  s + n * bytes_of w < two64 -> d + n * bytes_of w < two64 ->
  n * bytes_of w < 2 ^ 63 ->
  (d <= s \/ s + n * bytes_of w <= d) ->
  exists st' tr',
    steps e p st st' /\
    stub_returns st st' (copied (mem st) s d d (d + n * bytes_of w)) (saved st) tr' /\
    walked (fwd_walk w (mem st) s d) w aligned (n * bytes_of w)
           (EvCall "arraycopy_prologue" [s; d; n] :: trace st) tr'.
Proof.
  intros Hent Hb Hpc Hst Rs Rd Rn Hwf Hs0 Hd0 Hn0 B1 B2 B3 Hdir.
  pose (st1 := exec e p (Imacro Menter) st).
  assert (S1 : steps e p st st1).
  { eapply (step1 e p D 0%nat); [exact Hent | reflexivity | lia | exact Hst]. }
  assert (Hpc1 : pc st1 = (D + 1)%nat) by (cbn; lia).
  destruct (stub_body e p w aligned is_oop true decs (D + 1) l0 st1 s d n
              [(lr, getr (regs st) lr); (fp, getr (regs st) fp)] (saved st) Hb
              Hpc1 Hst Rs Rd Rn eq_refl Hwf Hs0 Hd0 Hn0 B1 B2 B3 Hdir)
    as (st' & tr' & S2 & R2 & W2).
  exists st', tr'. split; [eapply steps_trans; eassumption|].
  split; [exact R2 | exact W2].
Qed.

End Disjoint.

Lemma disjoint_stub_layout flags w aligned is_oop du :
  VerifyOops flags = false ->
  let p := copy_stubs flags w aligned is_oop du in
  let D := disjoint_start flags w aligned is_oop du in
  code_at p D [Imacro Menter] /\
  stub_body_at p w aligned is_oop true (disjoint_decorators aligned du) (D + 1) 0.
Proof.
  intros HV. destruct flags. simpl in HV. subst.
  unfold stub_body_at.
  destruct w, aligned, is_oop; cbv zeta; repeat split; layout.
Qed.

Lemma disjoint_loops flags w is_oop du :
  VerifyOops flags = false ->
  let p := copy_stubs flags w true is_oop du in
  words_per_iteration p disjoint_copy8 = 1%nat /\
  loop_body p disjoint_copy_small
  = body_fwd w ++ [Ibranch Cgt x15 zr (TLabel disjoint_copy_small)].
Proof.
  intros HV. destruct flags. simpl in HV. subst.
  destruct w, is_oop; split; vm_compute; reflexivity.
Qed.

(** C7, as the code has it: the aligned path of the disjoint stub moves one
    8-byte word per iteration of its word loop (a single load and a single
    store), as long as 8 bytes or more are left, and then the elements that
    remain, fewer than 8 bytes, one per iteration of the element loop.
    There is no block of eight words and no drain of 4, 2 and 1 words on
    this path. *)
Theorem disjoint_aligned_copy_word_then_elements e flags w is_oop du st s d (n : nat) :
  VerifyOops flags = false ->
  pc st = disjoint_start flags w true is_oop du ->
  stat st = Running ->
  getr (regs st) c_rarg0 = s -> getr (regs st) c_rarg1 = d ->
  getr (regs st) c_rarg2 = Z.of_nat n ->
  wf_mem (mem st) -> 0 <= s -> 0 <= d ->
  s + Z.of_nat n * bytes_of w < two64 -> d + Z.of_nat n * bytes_of w < two64 ->
  Z.of_nat n * bytes_of w < 2 ^ 63 ->
  (d <= s \/ s + Z.of_nat n * bytes_of w <= d) ->
  disjoint_aligned_post e flags w is_oop du st s d n.
Proof.
  intros HV Hpc Hst Rs Rd Rn Hwf Hs0 Hd0 B1 B2 B3 Hdir.
  destruct (disjoint_loops flags w is_oop du HV) as (Hw1 & Hw2).
  destruct (disjoint_stub_layout flags w true is_oop du HV) as (Hent & Hb).
  destruct (disjoint_run e _ w true is_oop _ _ 0%nat st s d (Z.of_nat n)
              Hent Hb Hpc Hst Rs Rd Rn Hwf Hs0 Hd0 ltac:(lia) B1 B2 B3 Hdir)
    as (st' & tr' & S1 & (R1 & R2 & R3 & _ & (a & b & R5)) & (j & q & k & Hlen & Htr & Hal)).
  destruct (Hal eq_refl) as (-> & Hk).
  split; [exact Hw1|]. split; [exact Hw2|].
  exists st', q, k. split; [exact S1|]. split; [exact R1|]. split; [exact R2|].
  split. { intros x. rewrite R3. symmetry. apply naive_copy_copied; auto; lia. }
  split; [lia|]. split; [exact Hk|].
  exists a, b. rewrite R5, Htr. f_equal. walk_eq.
Qed.

Lemma disjoint_aligned_copy_word_then_elements_witness :
  disjoint_aligned_post example_env product_flags W2 false false
                        (example_call 1 16 64 7) 16 64 7.
Proof.
  apply (disjoint_aligned_copy_word_then_elements example_env product_flags W2 false false
           (example_call 1 16 64 7) 16 64 7);
    try reflexivity; try (vm_compute; reflexivity); try (cbn; lia);
    try exact example_mem_wf.
Defined.

(** The block of eight words is the loop of [generate_copy_longs], a routine
    of its own; the copy stubs never leave their own code for it. *)
Lemma copy_longs_block_of_eight flags direction :
  block_of_eight (copy_longs_code flags direction) copy_longs_again.
Proof.
  destruct flags as [pr asr co vo tc pi sb sh ic].
  unfold block_of_eight.
  destruct asr, direction; vm_compute; reflexivity.
Qed.

Lemma copy_stubs_closed flags w aligned is_oop du :
  let p := copy_stubs flags w aligned is_oop du in
  forallb (jumps_inside p) p = true.
Proof.
  destruct flags as [pr asr co vo tc pi sb sh ic].
  destruct vo, w, aligned, is_oop, du; vm_compute; reflexivity.
Qed.

(** C7, as the specification words it, fails: the word loop of the aligned
    disjoint copy holds one word store, not eight, and a call with eight
    words comes by the head of that loop eight times. *)
Lemma bulk_loop_block_of_eight_counterexample :
  let p := copy_stubs product_flags W8 true false false in
  let st := example_call (disjoint_start product_flags W8 true false false) 16 128 8 in
  ~ block_of_eight p disjoint_copy8 /\
  words_per_iteration p disjoint_copy8 = 1%nat /\
  stat (run 100 example_env p st) = Returned /\
  passes 100 example_env p st 25 = 8%nat /\
  nth_error p 25 = Some (Ibind disjoint_copy8).
Proof.
  cbv zeta. split; [|repeat split; vm_compute; reflexivity].
  unfold block_of_eight. vm_compute. discriminate.
Qed.

Lemma run_step n e p st i :
  stat st = Running -> nth_error p (pc st) = Some i ->
  run (S n) e p st = run n e p (exec e p i st).
Proof. intros Hs Hf. cbn [run]. unfold step. rewrite Hs, Hf. reflexivity. Qed.

Lemma checkcast_zero_layout flags lay du :
  let p := checkcast_stub flags lay du in
  checkcast_start flags lay du = 1%nat /\
  nth_error p 1 = Some (Imacro Menter) /\
  nth_error p 2 = Some (Ibranch Ceq c_rarg2 zr (TLabel L_done)) /\
  label_pos p L_done = Some (done_pos flags) /\
  nth_error p (done_pos flags) = Some (Ibind L_done) /\
  nth_error p (S (done_pos flags)) = Some (Ialu Add x10 c_rarg2 (OImm 0)) /\
  nth_error p (S (S (done_pos flags))) = Some (Imacro Mleave) /\
  nth_error p (S (S (S (done_pos flags)))) = Some (Imacro Mret).
Proof.
  destruct flags as [pr asrt ? ? ? ? ? ? ?].
  destruct pr, asrt; cbv zeta; repeat split; vm_compute; reflexivity.
Qed.

Lemma checkcast_zero_count e flags lay du st :
  pc st = checkcast_start flags lay du -> stat st = Running ->
  getr (regs st) c_rarg2 = 0 ->
  let st' := run 6 e (checkcast_stub flags lay du) st in
  stat st' = Returned /\ getr (regs st') x10 = 0 /\
  trace st' = trace st /\ mem st' = mem st /\ saved st' = saved st.
Proof.
  intros Hpc Hst Rn.
  destruct (checkcast_zero_layout flags lay du)
    as (H0 & H1 & H2 & HL & H3 & H4 & H5 & H6).
  rewrite H0 in Hpc. cbv zeta.
  rewrite (run_step _ _ _ _ (Imacro Menter)); [| exact Hst | rewrite Hpc; exact H1].
  rewrite (run_step _ _ _ _ (Ibranch Ceq c_rarg2 zr (TLabel L_done)));
    [| exact Hst | cbn; rewrite Hpc; exact H2].
  cbn [exec exec_macro next save_regs regs eval_cmp]. rewrite Rn.
  change (getr (regs st) zr) with 0. change (0 =? 0) with true. cbn iota.
  cbn [goto]. rewrite HL.
  rewrite (run_step _ _ _ _ (Ibind L_done)); [| exact Hst | exact H3].
  rewrite (run_step _ _ _ _ (Ialu Add x10 c_rarg2 (OImm 0))); [| exact Hst | exact H4].
  rewrite (run_step _ _ _ _ (Imacro Mleave)); [| exact Hst | exact H5].
  rewrite (run_step _ _ _ _ (Imacro Mret)); [| exact Hst | exact H6].
  cbn. cbn in Rn. rewrite Rn. repeat split; reflexivity.
Qed.

Lemma copy_memory_zero_layout aligned w (backwards : bool) :
  let step := if backwards then - bytes_of w else bytes_of w in
  let p := copy_memory_code aligned step in
  nth_error p 0 = Some (Ibranch Ceq c_rarg2 zr (TLabel 3%nat)) /\
  label_pos p 3%nat = Some (length p - 1)%nat /\
  nth_error p (length p - 1) = Some (Ibind 3%nat) /\
  S (length p - 1) = length p.
Proof.
  destruct aligned, w, backwards; cbv zeta; repeat split; vm_compute; reflexivity.
Qed.

Lemma copy_memory_zero_count e aligned w (backwards : bool) st :
  let step := if backwards then - bytes_of w else bytes_of w in
  let p := copy_memory_code aligned step in
  pc st = 0%nat -> stat st = Running ->
  getr (regs st) c_rarg2 = 0 ->
  let st' := run 2 e p st in
  stat st' = Running /\ pc st' = length p /\
  trace st' = trace st /\ mem st' = mem st /\ saved st' = saved st.
Proof.
  intros step p Hpc Hst Rn.
  destruct (copy_memory_zero_layout aligned w backwards) as (H0 & HL & H1 & H2).
  fold step in H0, HL, H1, H2. fold p in H0, HL, H1, H2. cbv zeta.
  rewrite (run_step _ _ _ _ (Ibranch Ceq c_rarg2 zr (TLabel 3%nat)));
    [| exact Hst | rewrite Hpc; exact H0].
  cbn [exec eval_cmp]. rewrite Rn.
  change (getr (regs st) zr) with 0. change (0 =? 0) with true. cbn iota.
  cbn [goto]. rewrite HL.
  rewrite (run_step _ _ _ _ (Ibind 3%nat)); [| exact Hst | exact H1].
  cbn [run exec next pc stat trace mem saved]. rewrite H2. repeat split; auto.
Qed.

(** C10: called with count zero, the checkcast stub returns 0 after six
    instructions, none of them a load, a store or a barrier hook -- memory
    and the log of accesses and calls are what they were; and [copy_memory]
    with count zero is through after two instructions, with no access to
    memory either. *)
Theorem zero_count_copies_nothing e flags lay du aligned w (backwards : bool) st0 st1 :
  pc st0 = checkcast_start flags lay du -> stat st0 = Running ->
  getr (regs st0) c_rarg2 = 0 ->
  pc st1 = 0%nat -> stat st1 = Running ->
  getr (regs st1) c_rarg2 = 0 ->
  zero_count_post e flags lay du aligned
                  (if backwards then - bytes_of w else bytes_of w) st0 st1.
Proof.
  intros Hpc0 Hst0 Rn0 Hpc1 Hst1 Rn1. split.
  - apply checkcast_zero_count; assumption.
  - apply (copy_memory_zero_count e aligned w backwards st1); assumption.
Qed.

Lemma checkcast_code_product flags lay du :
  PRODUCT flags = true -> ASSERT flags = false ->
  checkcast_stub flags lay du
  = checkcast_code (bytes_of (oop_width flags)) (checkcast_decorators du).
Proof.
  intros HP HA. destruct flags as [pr asrt co ? ? ? ? ? ?]. simpl in HP, HA. subst.
  destruct co; reflexivity.
Qed.

Lemma next_next_goto prog st P :
  pc st = P -> next (next st) = goto prog (TAddr (S (S P))) st.
Proof. intros <-. reflexivity. Qed.

Lemma lxor_ones K : 0 <= K < two64 -> Z.lxor K (wrap (-1)) = two64 - 1 - K.
Proof.
  intros HK. change (wrap (-1)) with (Z.ones 64). change two64 with (2 ^ 64) in *.
  assert (Hl : Z.log2 K < 64).
  { destruct (Z.eq_dec K 0) as [->|]; [reflexivity|]. apply Z.log2_lt_pow2; lia. }
  replace (2 ^ 64 - 1 - K) with (Z.ones 64 - K) by (rewrite Z.ones_equiv; lia).
  rewrite Z.sub_nocarry_ldiff by (apply Z.ldiff_ones_r_low; lia).
  apply Z.bits_inj'. intros i Hi. rewrite Z.lxor_spec, Z.ldiff_spec.
  destruct (Z.lt_ge_cases i 64).
  - rewrite Z.ones_spec_low by lia. destruct (Z.testbit K i); reflexivity.
  - rewrite Z.ones_spec_high by lia. rewrite (Z.bits_above_log2 K i) by lia. reflexivity.
Qed.

Ltac cc_simpl :=
  cbn [exec exec_macro next halt goto write log poke addr_of save_regs
       pc regs mem saved trace stat base offset Addr eval_operand eval_alu eval_cmp];
  regs_simpl.

(** One instruction of the stub, fetched by address. *)
Ltac cstep Hpc Hst :=
  eapply steps_step;
  [ cc_simpl; exact Hst
  | cc_simpl; rewrite ?Hpc; reflexivity
  | cc_simpl ].

Section CheckcastLoop.

Variables (e : env) (decs : DecoratorSet) (m0 : Z -> Z) (s d n ckval : Z).

Variable sv : list (list (Register * Z)).

Hypothesis Hwf : wf_mem m0.

Hypotheses (Hs0 : 0 <= s) (Hd0 : 0 <= d).

Local Abbreviation ow := (heap_oop_width e).

Local Abbreviation osz := (bytes_of (heap_oop_width e)).

Local Abbreviation p := (checkcast_code (bytes_of (heap_oop_width e)) decs).

(** From [L_load_element]: load the oop and check its type. *)
Lemma checkcast_load st hi c tr :
  at_cc st 14 (hi - d + s) hi c ckval d n (copied m0 s d d hi) sv tr ->
  d <= hi -> hi - d + s + osz < two64 ->
  (d <= s \/ hi - d + s + osz <= d) ->
  exists st',
    steps e p st st' /\
    at_cc st' (if element_ok e ckval (load ow (hi - d + s) m0) then 9 else 22)%nat
          (hi - d + s + osz) hi c ckval d n (copied m0 s d d hi) sv
          (EvLoad ow (hi - d + s) :: tr) /\
    getr (regs st') x7 = load ow (hi - d + s) m0.
Proof.
  intros (Hpc & Hst & Rs & Rd & Rn & Rk & R18 & R19 & Hm & Hsv & Htr) H1 H2 H3.
  pose proof (bytes_of_cases ow) as Hw. pose proof two64_eq as H64.
  assert (Hv : load ow (wrap (hi - d + s + 0)) (mem st) = load ow (hi - d + s) m0).
  { rewrite Z.add_0_r, wrap_small by lia. rewrite (load_ext _ _ _ _ Hm).
    apply load_copied_outside; lia. }
  assert (Hfin : forall st1 (P : nat),
             pc st1 = P -> stat st1 = Running ->
             regs st1 = setr x10 (hi - d + s + osz)
                          (setr x7 (load ow (hi - d + s) m0) (regs st)) \/
             regs st1 = setr x9 (klass_of e (load ow (hi - d + s) m0))
                          (setr x10 (hi - d + s + osz)
                             (setr x7 (load ow (hi - d + s) m0) (regs st))) ->
             mem st1 = mem st -> saved st1 = saved st ->
             trace st1 = EvLoad ow (hi - d + s) :: trace st ->
             at_cc st1 P (hi - d + s + osz) hi c ckval d n (copied m0 s d d hi) sv
                   (EvLoad ow (hi - d + s) :: tr) /\
             getr (regs st1) x7 = load ow (hi - d + s) m0).
  { intros st1 P E1 E2 E3 E4 E5 E6. unfold at_cc.
    rewrite E1, E2, E4, E5, E6, Hsv, Htr.
    destruct E3 as [-> | ->]; regs_simpl; repeat split; auto. }
  assert (HL1 : label_pos p L_store_element = Some 9%nat) by reflexivity.
  assert (HL5 : label_pos p 5%nat = Some 21%nat) by reflexivity.
  set (v := load ow (hi - d + s) m0) in *.
  set (st4 := next (write x10 (hi - d + s + osz)
                (next (write x7 v (log (EvLoad ow (hi - d + s)) (next st)))))).
  assert (S4 : steps e p st (if v =? 0 then goto p (TAddr 9) st4 else next st4)).
  { cstep Hpc Hst. cstep Hpc Hst. rewrite Rs, Hv.
    rewrite (Z.add_0_r (hi - d + s)), (wrap_small (hi - d + s)) by lia.
    cstep Hpc Hst. rewrite Rs, (wrap_small osz), wrap_small by lia.
    cstep Hpc Hst. rewrite HL1. destruct (v =? 0); apply steps_refl. }
  assert (R7 : getr (regs st4) x7 = v) by (unfold st4; cc_simpl; reflexivity).
  assert (R14 : getr (regs st4) x14 = ckval) by (unfold st4; cc_simpl; exact Rk).
  assert (Hpc4 : pc st4 = 17%nat) by (unfold st4; cc_simpl; rewrite Hpc; reflexivity).
  assert (Hst4 : stat st4 = Running) by exact Hst.
  unfold element_ok. destruct (v =? 0) eqn:Hz; cbn [orb].
  - eexists. split; [exact S4|]. apply Hfin; auto.
  - unfold is_subtype.
    eapply chain; [exact S4|]. clear S4.
    set (st5 := next (write x9 (klass_of e v) (next st4))).
    assert (R9 : getr (regs st5) x9 = klass_of e v) by (unfold st5; cc_simpl; reflexivity).
    assert (R14' : getr (regs st5) x14 = ckval) by (unfold st5; cc_simpl; exact R14).
    assert (Hpc5 : pc st5 = 19%nat) by (unfold st5; cc_simpl; rewrite Hpc4; reflexivity).
    assert (E5 : regs st5 = setr x9 (klass_of e v)
                              (setr x10 (hi - d + s + osz) (setr x7 v (regs st))))
      by reflexivity.
    assert (S5 : steps e p (next st4)
                   (match subtype_fast e (klass_of e v) ckval with
                    | Some true => goto p (TAddr 9) st5
                    | Some false => goto p (TAddr 21) st5
                    | None => if subtype_slow e (klass_of e v) ckval
                              then goto p (TAddr 9) st5 else goto p (TAddr 21) st5
                    end)).
    { eapply steps_step; [exact Hst | cbn [next pc]; rewrite Hpc4; reflexivity |].
      cbn [exec exec_macro].
      change (getr (regs (next st4)) x7) with (getr (regs st4) x7). rewrite R7.
      fold st5.
      eapply steps_step; [exact Hst | rewrite Hpc5; reflexivity |].
      cbn [exec exec_macro]. rewrite R9, R14'.
      cbn [goto]. rewrite HL5, HL1.
      destruct (subtype_fast e (klass_of e v) ckval) as [[|]|];
        [apply steps_refl | apply steps_refl |].
      eapply steps_step; [exact Hst | cbn [next pc]; rewrite Hpc5; reflexivity |].
      cbn [exec exec_macro].
      change (getr (regs (next st5)) x9) with (getr (regs st5) x9).
      change (getr (regs (next st5)) x14) with (getr (regs st5) x14).
      rewrite R9, R14'. cbn [goto]. rewrite HL1.
      destruct (subtype_slow e (klass_of e v) ckval); [apply steps_refl|].
      rewrite (next_next_goto p st5 19 Hpc5). apply steps_refl. }
    eapply chain; [exact S5|]. clear S5.
    assert (Hmiss : exists st',
               steps e p (goto p (TAddr 21) st5) st' /\
               at_cc st' 22 (hi - d + s + osz) hi c ckval d n (copied m0 s d d hi) sv
                     (EvLoad ow (hi - d + s) :: tr) /\
               getr (regs st') x7 = v).
    { eexists. split.
      - eapply steps_step; [exact Hst | reflexivity | apply steps_refl].
      - apply Hfin; auto. }
    assert (Hhit : exists st',
               steps e p (goto p (TAddr 9) st5) st' /\
               at_cc st' 9 (hi - d + s + osz) hi c ckval d n (copied m0 s d d hi) sv
                     (EvLoad ow (hi - d + s) :: tr) /\
               getr (regs st') x7 = v).
    { eexists. split; [apply steps_refl|]. apply Hfin; auto. }
    destruct (subtype_fast e (klass_of e v) ckval) as [[|]|]; auto.
    destruct (subtype_slow e (klass_of e v) ckval); auto.
Qed.

Lemma at_cc_eq st P P' src src' dst dst' cnt cnt' m m' tr tr' :
  at_cc st P src dst cnt ckval d n m sv tr ->
  P = P' -> src = src' -> dst = dst' -> cnt = cnt' ->
  (forall x, m x = m' x) -> tr = tr' ->
  at_cc st P' src' dst' cnt' ckval d n m' sv tr'.
Proof.
  intros (Hpc & Hst & Rs & Rd & Rn & Rk & R18 & R19 & Hm & Hsv & Htr) <- <- <- <- Hmm <-.
  repeat split; auto. intros x. rewrite Hm. apply Hmm.
Qed.

(** From [L_store_element]: store the oop, step to the next element. *)
Lemma checkcast_store st src hi c tr :
  at_cc st 9 src hi c ckval d n (copied m0 s d d hi) sv tr ->
  getr (regs st) x7 = load ow (hi - d + s) m0 ->
  d <= hi -> 0 < c < two64 ->
  hi + osz < two64 -> hi - d + s + osz < two64 ->
  (d <= s \/ hi - d + s + osz <= d) ->
  exists st',
    steps e p st st' /\
    at_cc st' (if c - 1 =? 0 then 25%nat else 14%nat) src (hi + osz) (c - 1) ckval d n
          (copied m0 s d d (hi + osz)) sv
          (EvStore ow hi (load ow (hi - d + s) m0) :: tr).
Proof.
  intros (Hpc & Hst & Rs & Rd & Rn & Rk & R18 & R19 & Hm & Hsv & Htr) R7 H1 H2 H3 H4 H5.
  pose proof (bytes_of_cases ow) as Hw. pose proof two64_eq as H64.
  assert (HL2 : label_pos p L_do_card_marks = Some 25%nat) by reflexivity.
  assert (Hv : load ow (hi - d + s) m0 = load ow (hi - d + s) (mem st)).
  { rewrite (load_ext _ _ _ _ Hm). symmetry. apply load_copied_outside; lia. }
  eexists. split.
  - cstep Hpc Hst. cstep Hpc Hst. rewrite Rd, R7, Z.add_0_r, (wrap_small hi) by lia.
    cstep Hpc Hst. rewrite Rd, (wrap_small osz), wrap_small by lia.
    cstep Hpc Hst. rewrite Rn. change (wrap 1) with 1. rewrite (wrap_small (c - 1)) by lia.
    cstep Hpc Hst. rewrite HL2. apply steps_refl.
  - unfold at_cc. destruct (c - 1 =? 0); cc_simpl;
      rewrite ?Hpc, ?Hst, ?Rs, ?Rk, ?R18, ?R19, ?Hsv, ?Htr.
    all: repeat (split; [reflexivity|]).
    all: split; [|split; reflexivity].
    all: intros x; rewrite Hv; apply (copied_extend_hi m0 (mem st)); auto; lia.
Qed.

(** The loop: [k] elements pass and are stored; then the count is used
    up, or the next element fails its check. *)
Lemma checkcast_loop k : forall st hi c tr,
  at_cc st 14 (hi - d + s) hi c ckval d n (copied m0 s d d hi) sv tr ->
  d <= hi -> Z.of_nat k <= c -> 0 < c < two64 ->
  hi + c * osz < two64 -> hi - d + s + c * osz < two64 ->
  (d <= s \/ hi - d + s + c * osz <= d) ->
  (forall j, (j < k)%nat ->
             element_ok e ckval (load ow (hi - d + s + Z.of_nat j * osz) m0) = true) ->
  (Z.of_nat k < c ->
   element_ok e ckval (load ow (hi - d + s + Z.of_nat k * osz) m0) = false) ->
  exists st' src',
    steps e p st st' /\
    at_cc st' (if Z.of_nat k =? c then 25%nat else 22%nat) src' (hi + Z.of_nat k * osz)
          (c - Z.of_nat k) ckval d n (copied m0 s d d (hi + Z.of_nat k * osz)) sv
          ((if Z.of_nat k =? c then []
            else [EvLoad ow (hi - d + s + Z.of_nat k * osz)])
             ++ fwd_events ow m0 (hi - d + s) hi k tr).
Proof.
  pose proof (bytes_of_cases ow) as Hw. pose proof two64_eq as H64.
  induction k as [|k IH]; intros st hi c tr A H1 Hkc Hc B1 B2 Hsafe Hok Hfail.
  - destruct (Z.eqb_spec (Z.of_nat 0) c) as [Hc0|_]; [lia|].
    destruct (checkcast_load st hi c tr A) as (st1 & S1 & A1 & _); [lia | nia | nia |].
    specialize (Hfail ltac:(lia)). rewrite Z.mul_0_l, Z.add_0_r in Hfail.
    rewrite Hfail in A1.
    exists st1. eexists. split; [exact S1|].
    eapply at_cc_eq; [exact A1 | reflexivity | reflexivity | lia | lia | |].
    + intros x. f_equal. lia.
    + cbn [fwd_events app]. rewrite Z.mul_0_l, Z.add_0_r. reflexivity.
  - assert (Hk0 : 0 <= Z.of_nat k * osz) by (apply Z.mul_nonneg_nonneg; lia).
    destruct (checkcast_load st hi c tr A) as (st1 & S1 & A1 & R7); [lia | nia | nia |].
    pose proof (Hok O ltac:(lia)) as Hok0. rewrite Z.mul_0_l, Z.add_0_r in Hok0.
    rewrite Hok0 in A1.
    destruct (checkcast_store st1 _ hi c _ A1 R7) as (st2 & S2 & A2); [lia | lia | nia | nia |
        nia |].
    destruct (Z.eqb_spec (c - 1) 0) as [Hc1|Hc1].
    + (* the last element *)
      assert (k = O) by lia. subst k.
      destruct (Z.eqb_spec (Z.of_nat 1) c) as [_|]; [|lia].
      exists st2. eexists. split; [eapply steps_trans; eassumption|].
      eapply at_cc_eq; [exact A2 | reflexivity | reflexivity | lia | lia | |].
      * intros x. f_equal. lia.
      * reflexivity.
    + destruct (IH st2 (hi + osz) (c - 1)
                  (EvStore ow hi (load ow (hi - d + s) m0) :: EvLoad ow (hi - d + s) :: tr))
        as (st3 & src3 & S3 & A3); try lia; try nia.
      * eapply at_cc_eq; [exact A2 | reflexivity | lia | reflexivity | reflexivity
                         | reflexivity | reflexivity].
      * intros j Hj. specialize (Hok (S j) ltac:(lia)).
        rewrite <- Hok. f_equal. f_equal. lia.
      * intros Hlt. rewrite <- Hfail by lia. f_equal. f_equal. lia.
      * exists st3, src3.
        split; [eapply steps_trans; [exact S1|]; eapply steps_trans; eassumption|].
        destruct (Z.eqb_spec (Z.of_nat k) (c - 1));
          destruct (Z.eqb_spec (Z.of_nat (S k)) c); try lia.
        all: eapply at_cc_eq; [exact A3 | reflexivity | reflexivity | lia | lia | |].
        all: try (intros x; f_equal; lia).
        all: cbn [fwd_events chunk_events app].
        -- apply fwd_events_eq; [lia | lia | reflexivity].
        -- f_equal; [f_equal; lia | apply fwd_events_eq; [lia | lia | reflexivity]].
Qed.

(** After a failed check: the count of elements copied, complemented. *)
Lemma checkcast_fail st src dst (K : Z) m tr :
  at_cc st 22 src dst (n - K) ckval d n m sv tr ->
  0 <= K < two64 - 1 -> 0 <= n < two64 -> K <= n ->
  exists st',
    steps e p st st' /\
    at_cc st' 25 src dst (two64 - 1 - K) ckval d n m sv tr.
Proof.
  intros (Hpc & Hst & Rs & Rd & Rn & Rk & R18 & R19 & Hm & Hsv & Htr) HK Hn HKn.
  pose proof two64_eq as H64.
  eexists. split.
  - cstep Hpc Hst. rewrite R19, Rn.
    replace (n - (n - K)) with K by lia. rewrite (wrap_small K) by lia.
    cstep Hpc Hst. rewrite lxor_ones by lia.
    cstep Hpc Hst. destruct (Z.eqb_spec (two64 - 1 - K) 0) as [Hz|_]; [lia|].
    apply steps_refl.
  - unfold at_cc. cc_simpl. rewrite Hpc, Hst. repeat split; auto.
Qed.

(** From [L_do_card_marks] to the return. *)
Lemma checkcast_exit st src dst cnt m tr a7 a9 a18 a19 alr afp sv0 :
  at_cc st 25 src dst cnt ckval d n m sv tr ->
  sv = [(x7, a7); (x9, a9); (x18, a18); (x19, a19)] :: [(lr, alr); (fp, afp)] :: sv0 ->
  0 <= cnt < two64 ->
  exists st',
    steps e p st st' /\ stat st' = Returned /\ getr (regs st') x10 = cnt /\
    (forall x, mem st' x = m x) /\ saved st' = sv0 /\
    trace st' = EvCall "arraycopy_epilogue" [d; n] :: tr.
Proof.
  intros (Hpc & Hst & Rs & Rd & Rn & Rk & R18 & R19 & Hm & Hsv & Htr) Esv Hcnt.
  rewrite Esv in Hsv.
  eexists. split.
  - cstep Hpc Hst. cstep Hpc Hst. rewrite R18, R19.
    cstep Hpc Hst. cstep Hpc Hst.
    unfold restore_regs at 1. cbn [saved next log]. rewrite Hsv.
    cbn [fold_right fst snd].
    cstep Hpc Hst. cstep Hpc Hst. rewrite Rn, Z.add_0_r, wrap_small by lia.
    cstep Hpc Hst. unfold restore_regs at 1. cbn [saved next log write].
    cbn [fold_right fst snd].
    cstep Hpc Hst. apply steps_refl.
  - cc_simpl. rewrite Htr. repeat split; auto.
Qed.

End CheckcastLoop.

(** C1: called on [n] elements of which the first [K] pass the type check
    and element [K], if there is one, fails it, the checkcast stub stores
    exactly the elements [0, K) -- memory is what the naive copy of [K]
    elements makes it, the log shows [K] stores and no load beyond element
    [K] -- and returns 0 when [K = n] and [-(K + 1)] otherwise, which is
    [-1] and not 0 when the very first element fails. *)
Theorem checkcast_copy_reports_prefix e flags lay du st s d (n K : nat) ckval :
  PRODUCT flags = true -> ASSERT flags = false ->
  heap_oop_width e = oop_width flags ->
  pc st = checkcast_start flags lay du -> stat st = Running ->
  getr (regs st) c_rarg0 = s -> getr (regs st) c_rarg1 = d ->
  getr (regs st) c_rarg2 = Z.of_nat n -> getr (regs st) c_rarg4 = ckval ->
  wf_mem (mem st) -> 0 <= s -> 0 <= d ->
  s + Z.of_nat n * bytes_of (oop_width flags) < two64 ->
  d + Z.of_nat n * bytes_of (oop_width flags) < two64 ->
  (d <= s \/ s + Z.of_nat n * bytes_of (oop_width flags) <= d) ->
  (K <= n)%nat ->
  (forall i, (i < K)%nat ->
     element_ok e ckval
       (load (oop_width flags) (s + Z.of_nat i * bytes_of (oop_width flags)) (mem st))
     = true) ->
  ((K < n)%nat ->
     element_ok e ckval
       (load (oop_width flags) (s + Z.of_nat K * bytes_of (oop_width flags)) (mem st))
     = false) ->
  checkcast_post e flags lay du st s d n K.
Proof.
  intros HP HA How Hpc Hst Rs Rd Rn Rk Hwf Hs0 Hd0 B1 B2 Hsafe HK Hok Hfail.
  change (getr (regs st) x10 = s) in Rs. change (getr (regs st) x11 = d) in Rd.
  change (getr (regs st) x12 = Z.of_nat n) in Rn.
  change (getr (regs st) x14 = ckval) in Rk.
  pose proof two64_eq as H64.
  pose proof (bytes_of_cases (oop_width flags)) as Hw.
  assert (Hosz : 4 <= bytes_of (oop_width flags))
    by (unfold oop_width; destruct (UseCompressedOops flags); cbn; lia).
  unfold checkcast_post. cbv zeta.
  destruct n as [|n'].
  - (* empty array *)
    assert (K = O) by lia. subst K.
    destruct (checkcast_zero_count e flags lay du st Hpc Hst Rn)
      as (R1 & R2 & R3 & R4 & R5).
    eexists. split; [exists 6%nat; reflexivity|].
    split; [exact R1|]. split; [intros x; rewrite R4; reflexivity|].
    split; [rewrite R2; reflexivity|]. split; [exact R5 | exact R3].
  - set (n := S n') in *.
    rewrite (checkcast_code_product flags lay du HP HA). rewrite <- How in *.
    destruct (checkcast_zero_layout flags lay du) as (H0 & _). rewrite H0 in Hpc.
    set (p := checkcast_code (bytes_of (heap_oop_width e)) (checkcast_decorators du)).
    set (sv := [(x7, getr (regs st) x7); (x9, getr (regs st) x9);
                (x18, getr (regs st) x18); (x19, getr (regs st) x19)]
                 :: [(lr, getr (regs st) lr); (fp, getr (regs st) fp)] :: saved st).
    assert (HL0 : label_pos p L_load_element = Some 14%nat) by reflexivity.
    assert (S7 : exists st7,
               steps e p st st7 /\
               at_cc st7 14 (d - d + s) d (Z.of_nat n) ckval d (Z.of_nat n)
                     (copied (mem st) s d d d) sv
                     (EvCall "arraycopy_prologue" [s; d; Z.of_nat n] :: trace st)).
    { eexists. split.
      - cstep Hpc Hst. cstep Hpc Hst. rewrite Rn.
        destruct (Z.eqb_spec (Z.of_nat n) 0) as [Hz|_]; [lia|].
        cstep Hpc Hst. cstep Hpc Hst. rewrite Rs, Rd, Rn.
        cstep Hpc Hst. rewrite Rn, Z.add_0_r, wrap_small by lia.
        cstep Hpc Hst. rewrite Rd, Z.add_0_r, wrap_small by lia.
        cstep Hpc Hst. rewrite HL0. apply steps_refl.
      - unfold at_cc. cc_simpl. rewrite Hst, Rs, Rd, Rn, Rk.
        split; [reflexivity|]. split; [reflexivity|]. split; [lia|].
        repeat (split; [reflexivity|]).
        split; [|split; reflexivity].
        intros x. symmetry. apply copied_empty. }
    destruct S7 as (st7 & S7 & A7).
    assert (HKz : 0 <= Z.of_nat K * bytes_of (heap_oop_width e))
      by (apply Z.mul_nonneg_nonneg; lia).
    destruct (checkcast_loop e (checkcast_decorators du) (mem st) s d (Z.of_nat n) ckval sv
                Hwf Hs0 Hd0 K st7 d (Z.of_nat n) _ A7)
      as (st8 & src8 & S8 & A8); try lia; try nia.
    { intros j Hj. replace (d - d + s) with s by lia. apply Hok, Hj. }
    { intros Hlt. replace (d - d + s) with s by lia. apply Hfail. lia. }
    fold p in S8.
    assert (Hexit : forall st9 src9 dst9 cnt tr9,
               at_cc st9 25 src9 dst9 cnt ckval d (Z.of_nat n)
                     (copied (mem st) s d d (d + Z.of_nat K * bytes_of (heap_oop_width e)))
                     sv tr9 ->
               0 <= cnt < two64 ->
               exists st',
                 steps e p st9 st' /\ stat st' = Returned /\ getr (regs st') x10 = cnt /\
                 (forall x, mem st' x
                            = naive_copy (heap_oop_width e) (mem st) s d K (mem st) x) /\
                 saved st' = saved st /\
                 trace st' = EvCall "arraycopy_epilogue" [d; Z.of_nat n] :: tr9).
    { intros st9 src9 dst9 cnt tr9 A9 Hcnt.
      destruct (checkcast_exit e (checkcast_decorators du) d (Z.of_nat n) ckval sv
                  st9 src9 dst9 cnt _ tr9 _ _ _ _ _ _ (saved st) A9 eq_refl Hcnt)
        as (st' & S9 & R1 & R2 & R3 & R4 & R5).
      exists st'. split; [exact S9|]. split; [exact R1|]. split; [exact R2|].
      split; [|split; [exact R4 | exact R5]].
      intros x. rewrite R3. symmetry. apply naive_copy_copied; auto; nia. }
    destruct (Nat.eqb_spec K n) as [HKn|HKn].
    + (* every element passed *)
      destruct (Z.eqb_spec (Z.of_nat K) (Z.of_nat n)) as [_|]; [|lia].
      destruct (Hexit st8 _ _ _ _ A8 ltac:(lia))
        as (st' & S9 & R1 & R2 & R3 & R4 & R5).
      exists st'.
      split; [eapply steps_trans; [exact S7|]; eapply steps_trans; eassumption|].
      split; [exact R1|]. split; [exact R3|].
      split; [rewrite R2; replace (Z.of_nat n - Z.of_nat K) with 0 by lia; reflexivity|].
      split; [exact R4|].
      rewrite R5. unfold checkcast_events, n.
      destruct (Nat.eqb_spec K (S n')) as [_|]; [|lia].
      replace (d - d + s) with s by lia. reflexivity.
    + destruct (Z.eqb_spec (Z.of_nat K) (Z.of_nat n)) as [|_]; [lia|].
      destruct (checkcast_fail e (checkcast_decorators du) d (Z.of_nat n) ckval sv
                  st8 _ _ (Z.of_nat K) _ _ A8)
        as (st9 & S9 & A9); try lia.
      fold p in S9.
      destruct (Hexit st9 _ _ _ _ A9 ltac:(lia))
        as (st' & S10 & R1 & R2 & R3 & R4 & R5).
      exists st'.
      split; [eapply steps_trans; [exact S7|]; eapply steps_trans; [exact S8|];
              eapply steps_trans; eassumption|].
      split; [exact R1|]. split; [exact R3|].
      split.
      { rewrite R2. unfold signed.
        destruct (Z.ltb_spec (two64 - 1 - Z.of_nat K) (2 ^ 63)); [nia | lia]. }
      split; [exact R4|].
      rewrite R5. unfold checkcast_events, n.
      destruct (Nat.eqb_spec K (S n')) as [|_]; [lia|].
      replace (d - d + s) with s by lia. reflexivity.
Qed.

Lemma checkcast_copy_reports_prefix_witness :
  checkcast_post checking_env product_flags example_layout false
                 (example_checkcast_call 16 64 3 100000000) 16 64 3 1.
Proof.
  apply (checkcast_copy_reports_prefix checking_env product_flags example_layout false
           (example_checkcast_call 16 64 3 100000000) 16 64 3 1 100000000).
  - reflexivity.
  - reflexivity.
  - reflexivity.
  - reflexivity.
  - reflexivity.
  - reflexivity.
  - reflexivity.
  - reflexivity.
  - reflexivity.
  - exact example_mem_wf.
  - lia.
  - lia.
  - vm_compute. reflexivity.
  - vm_compute. reflexivity.
  - right. cbn. lia.
  - lia.
  - intros i Hi. assert (i = O) by lia. subst i. vm_compute. reflexivity.
  - intros _. vm_compute. reflexivity.
Defined.

Lemma zero_count_copies_nothing_witness :
  zero_count_post example_env product_flags example_layout false true (- bytes_of W4)
                  (example_checkcast_call 16 64 0 7) (example_call 0 16 64 0).
Proof.
  apply (zero_count_copies_nothing example_env product_flags example_layout false true W4 true
           (example_checkcast_call 16 64 0 7) (example_call 0 16 64 0));
    reflexivity.
Defined.

Section Loop.

Variable body : nat -> cc_state -> option cc_state.

Variable I : nat -> cc_state -> Prop.

Variable Q : nat -> VMRegPair -> Prop.

Variable len : nat.

Hypothesis Hbody : forall j st, (j < len)%nat -> I j st ->
  exists st', body j st = Some st' /\ I (S j) st' /\
    (forall k, k <> j -> regs_out st' !! k = regs_out st !! k) /\
    exists p, regs_out st' !! j = Some p /\ Q j p.

Lemma cc_loop_invariant n : forall from st,
  (from + n <= len)%nat -> I from st ->
  exists st',
    cc_loop body n from st = Some st' /\ I (from + n)%nat st' /\
    (forall k, (k < from)%nat -> regs_out st' !! k = regs_out st !! k) /\
    (forall j, (from <= j < from + n)%nat -> exists p, regs_out st' !! j = Some p /\ Q j p).
Proof.
  induction n as [|n IH]; intros from st Hle HI.
  - exists st. cbn [cc_loop]. rewrite Nat.add_0_r.
    repeat split; auto. intros j Hj. lia.
  - destruct (Hbody from st ltac:(lia) HI) as (st1 & E1 & I1 & K1 & p & P1 & Q1).
    destruct (IH (S from) st1 ltac:(lia) I1) as (st2 & E2 & I2 & K2 & Q2).
    exists st2. cbn [cc_loop]. rewrite E1. cbn. rewrite E2.
    split; [reflexivity|]. split; [replace (from + S n)%nat with (S from + n)%nat by lia; exact
        I2|].
    split.
    + intros k Hk. rewrite K2 by lia. apply K1. lia.
    + intros j Hj. destruct (Nat.eq_dec j from) as [->|Hne].
      * exists p. rewrite K2 by lia. auto.
      * apply Q2. lia.
Qed.

End Loop.

Lemma count_fp_snoc sig t : count_fp (sig ++ [t]) = (count_fp sig + (if is_fp_type t then 1 else
    0))%nat.
Proof.
  unfold count_fp. rewrite filter_app, length_app. f_equal.
  destruct t; reflexivity.
Qed.

Lemma count_int_snoc sig t : count_int (sig ++ [t]) = (count_int sig + (if is_int_type t then 1
    else 0))%nat.
Proof.
  unfold count_int. rewrite filter_app, length_app. f_equal.
  destruct t; reflexivity.
Qed.

Lemma fp_before_S sig i t : sig !! i = Some t ->
  fp_before sig (S i) = (fp_before sig i + (if is_fp_type t then 1 else 0))%nat.
Proof. intros H. unfold fp_before. rewrite (take_S_r _ _ _ H). apply count_fp_snoc. Qed.

Lemma int_before_S sig i t : sig !! i = Some t ->
  int_before sig (S i) = (int_before sig i + (if is_int_type t then 1 else 0))%nat.
Proof. intros H. unfold int_before. rewrite (take_S_r _ _ _ H). apply count_int_snoc. Qed.

Lemma c_int_reg k : (k < 8)%nat ->
  exists r, c_INT_ArgReg !! k = Some r /\ is_Register (as_VMReg r) = true.
Proof.
  intros Hk. do 8 (destruct k as [|k]; [eexists; split; reflexivity|]). lia.
Qed.

Lemma java_int_reg k : (k < 8)%nat -> exists r, java_INT_ArgReg !! k = Some r.
Proof.
  intros Hk. do 8 (destruct k as [|k]; [eexists; reflexivity|]). lia.
Qed.

Lemma c_fp_reg k : (k < 8)%nat ->
  exists f, c_FP_ArgReg !! k = Some f /\ is_FloatRegister (fas_VMReg f) = true /\
            is_Register (fas_VMReg f) = false.
Proof.
  intros Hk. do 8 (destruct k as [|k]; [eexists; repeat split; reflexivity|]). lia.
Qed.

Lemma java_fp_reg k : (k < 8)%nat ->
  exists f, java_FP_ArgReg !! k = Some f /\ is_FloatRegister (fas_VMReg f) = true /\
            is_Register (fas_VMReg f) = false.
Proof. apply c_fp_reg. Qed.

Lemma stack_slot k : is_stack (stack2reg (Z.of_nat k)) = true /\
                     is_Register (stack2reg (Z.of_nat k)) = false.
Proof.
  unfold is_stack, is_Register, stack2reg, stack0, max_gpr. split.
  - apply Z.leb_le. lia.
  - apply andb_false_iff. right. apply Z.ltb_ge. lia.
Qed.

Lemma take_int_ok tbl setN j st r :
  tbl !! int_args st = Some r -> (j < length (regs_out st))%nat ->
  exists st',
    take_int tbl setN j st = Some st' /\
    int_args st' = S (int_args st) /\ fp_args st' = fp_args st /\
    length (regs_out st') = length (regs_out st) /\
    (forall k, k <> j -> regs_out st' !! k = regs_out st !! k) /\
    regs_out st' !! j = Some (setN (as_VMReg r)).
Proof.
  intros Hr Hj. unfold take_int. rewrite Hr. cbn. eexists. split; [reflexivity|]. cbn.
  repeat split.
  - apply length_insert.
  - intros k Hk. apply list_lookup_insert_ne. congruence.
  - apply list_lookup_insert_eq. exact Hj.
Qed.

Lemma take_fp_ok tbl setN j st f :
  tbl !! fp_args st = Some f -> (j < length (regs_out st))%nat ->
  exists st',
    take_fp tbl setN j st = Some st' /\
    int_args st' = int_args st /\ fp_args st' = S (fp_args st) /\
    length (regs_out st') = length (regs_out st) /\
    (forall k, k <> j -> regs_out st' !! k = regs_out st !! k) /\
    regs_out st' !! j = Some (setN (fas_VMReg f)).
Proof.
  intros Hr Hj. unfold take_fp. rewrite Hr. cbn. eexists. split; [reflexivity|]. cbn.
  repeat split.
  - apply length_insert.
  - intros k Hk. apply list_lookup_insert_ne. congruence.
  - apply list_lookup_insert_eq. exact Hj.
Qed.

Lemma take_stack_ok setN j st :
  (j < length (regs_out st))%nat ->
  exists st',
    take_stack setN j st = Some st' /\
    int_args st' = int_args st /\ fp_args st' = fp_args st /\
    length (regs_out st') = length (regs_out st) /\
    (forall k, k <> j -> regs_out st' !! k = regs_out st !! k) /\
    regs_out st' !! j = Some (setN (stack2reg (Z.of_nat (stk_args st)))).
Proof.
  intros Hj. unfold take_stack. eexists. split; [reflexivity|]. cbn.
  repeat split.
  - apply length_insert.
  - intros k Hk. apply list_lookup_insert_ne. congruence.
  - apply list_lookup_insert_eq. exact Hj.
Qed.

Lemma take_bad_ok j st :
  (j < length (regs_out st))%nat ->
  exists st',
    take_bad j st = Some st' /\
    int_args st' = int_args st /\ fp_args st' = fp_args st /\
    length (regs_out st') = length (regs_out st) /\
    (forall k, k <> j -> regs_out st' !! k = regs_out st !! k) /\
    regs_out st' !! j = Some set_bad.
Proof.
  intros Hj. unfold take_bad. eexists. split; [reflexivity|]. cbn.
  repeat split.
  - apply length_insert.
  - intros k Hk. apply list_lookup_insert_ne. congruence.
  - apply list_lookup_insert_eq. exact Hj.
Qed.

Ltac use_take H :=
  destruct H as (st' & E' & Ei & Ef & El & Ek & Ej);
  exists st'; split; [exact E'|].

Lemma c_body_step sig j st :
  Forall (fun t => c_type t = true) sig ->
  (j < length sig)%nat -> c_inv sig j st ->
  exists st', c_cc_body sig j st = Some st' /\ c_inv sig (S j) st' /\
    (forall k, k <> j -> regs_out st' !! k = regs_out st !! k) /\
    exists p, regs_out st' !! j = Some p /\ c_fp_at sig j p.
Proof.
  intros Hall Hj (If & Ii & Il).
  destruct (lookup_lt_is_Some_2 sig j Hj) as (t & Ht).
  pose proof (Forall_lookup_1 _ _ _ _ Hall Ht) as Hc. cbn in Hc.
  pose proof (fp_before_S sig j t Ht) as HF. pose proof (int_before_S sig j t Ht) as HI.
  assert (Hjl : (j < length (regs_out st))%nat) by lia.
  unfold c_cc_body. rewrite Ht. cbn [mbind option_bind].
  unfold n_int_register_parameters_c, n_float_register_parameters_c.
  unfold c_inv, c_fp_at.
  destruct t; try discriminate Hc; cbn [is_fp_type is_int_type] in HF, HI.
  all: try (destruct (Nat.ltb_spec (fp_args st) 8) as [Hf8|Hf8]).
  all: try (destruct (Nat.ltb_spec (int_args st) 8) as [Hi8|Hi8]).
  all: try (destruct (c_int_reg (int_args st) Hi8) as (r & Hr & Hreg)).
  all: try (destruct (c_fp_reg (fp_args st) Hf8) as (f & Hfr & Hfreg & Hfnr)).
  all: first
    [ use_take (take_fp_ok c_FP_ArgReg set1 j st f Hfr Hjl)
    | use_take (take_fp_ok c_FP_ArgReg set2 j st f Hfr Hjl)
    | use_take (take_int_ok c_INT_ArgReg set1 j st r Hr Hjl)
    | use_take (take_int_ok c_INT_ArgReg set2 j st r Hr Hjl)
    | use_take (take_stack_ok set1 j st Hjl)
    | use_take (take_stack_ok set2 j st Hjl)
    | use_take (take_bad_ok j st Hjl) ].
  all: (split; [repeat split; lia|]); (split; [exact Ek|]).
  all: eexists; (split; [exact Ej|]).
  all: intros t' Ht' Hfp; rewrite Ht in Ht'; injection Ht' as <-; try discriminate Hfp.
  all: unfold c_fp_place; cbn [first set1 set2].
  all: repeat split; try (intros; lia); try (intros; assumption).
  all: try (intros H8 Hlt; exists r; split;
            [rewrite <- Hr; f_equal; lia | split; [reflexivity | assumption]]).
  all: intros; apply stack_slot.
Qed.

Lemma java_body_step sig j st :
  Forall (fun t => java_type t = true) sig ->
  (j < length sig)%nat -> java_inv sig j st ->
  exists st', java_cc_body sig j st = Some st' /\ java_inv sig (S j) st' /\
    (forall k, k <> j -> regs_out st' !! k = regs_out st !! k) /\
    exists p, regs_out st' !! j = Some p /\ java_fp_at sig j p.
Proof.
  intros Hall Hj (If & Il).
  destruct (lookup_lt_is_Some_2 sig j Hj) as (t & Ht).
  pose proof (Forall_lookup_1 _ _ _ _ Hall Ht) as Hc. cbn in Hc.
  pose proof (fp_before_S sig j t Ht) as HF.
  assert (Hjl : (j < length (regs_out st))%nat) by lia.
  unfold java_cc_body. rewrite Ht. cbn [mbind option_bind].
  unfold n_int_register_parameters_j, n_float_register_parameters_j.
  unfold java_inv, java_fp_at.
  destruct t; try discriminate Hc; cbn [is_fp_type] in HF.
  all: try (destruct (Nat.ltb_spec (fp_args st) 8) as [Hf8|Hf8]).
  all: try (destruct (Nat.ltb_spec (int_args st) 8) as [Hi8|Hi8]).
  all: try (destruct (java_int_reg (int_args st) Hi8) as (r & Hr)).
  all: try (destruct (java_fp_reg (fp_args st) Hf8) as (f & Hfr & Hfreg & Hfnr)).
  all: first
    [ use_take (take_fp_ok java_FP_ArgReg set1 j st f Hfr Hjl)
    | use_take (take_fp_ok java_FP_ArgReg set2 j st f Hfr Hjl)
    | use_take (take_int_ok java_INT_ArgReg set1 j st r Hr Hjl)
    | use_take (take_int_ok java_INT_ArgReg set2 j st r Hr Hjl)
    | use_take (take_stack_ok set1 j st Hjl)
    | use_take (take_stack_ok set2 j st Hjl)
    | use_take (take_bad_ok j st Hjl) ].
  all: (split; [repeat split; lia|]); (split; [exact Ek|]).
  all: eexists; (split; [exact Ej|]).
  all: intros t' Ht' Hfp; rewrite Ht in Ht'; injection Ht' as <-; try discriminate Hfp.
  all: unfold java_fp_place; cbn [first set1 set2].
  all: repeat split; try (intros; lia); try (intros; assumption); try assumption.
  all: try (intros; apply stack_slot); apply stack_slot.
Qed.

Lemma c_convention_fp sig regs i t :
  length regs = length sig -> sig !! i = Some t -> is_fp_type t = true ->
  Forall (fun t => c_type t = true) sig ->
  exists stk out p,
    c_calling_convention sig regs (length sig) = Some (stk, out) /\
    out !! i = Some p /\ c_fp_place (fp_before sig i) (int_before sig i) p.
Proof.
  intros Hlen Ht Hfp Hall.
  assert (Hi : (i < length sig)%nat) by (eapply lookup_lt_Some; exact Ht).
  destruct (cc_loop_invariant (c_cc_body sig) (c_inv sig) (c_fp_at sig) (length sig)
              (fun j st Hj HI => c_body_step sig j st Hall Hj HI)
              (length sig) 0%nat (cc_init regs))
    as (st' & E & _ & _ & HQ).
  - lia.
  - repeat split; cbn; auto.
  - destruct (HQ i ltac:(lia)) as (p & Hp & Hq).
    unfold c_calling_convention. rewrite E. cbn.
    eexists _, _, p. split; [reflexivity|]. split; [exact Hp|].
    apply (Hq t Ht Hfp).
Qed.

Lemma java_convention_fp sig regs i t :
  length regs = length sig -> sig !! i = Some t -> is_fp_type t = true ->
  Forall (fun t => java_type t = true) sig ->
  exists stk out p,
    java_calling_convention sig regs (length sig) = Some (stk, out) /\
    out !! i = Some p /\ java_fp_place (fp_before sig i) p.
Proof.
  intros Hlen Ht Hfp Hall.
  assert (Hi : (i < length sig)%nat) by (eapply lookup_lt_Some; exact Ht).
  destruct (cc_loop_invariant (java_cc_body sig) (java_inv sig) (java_fp_at sig) (length sig)
              (fun j st Hj HI => java_body_step sig j st Hall Hj HI)
              (length sig) 0%nat (cc_init regs))
    as (st' & E & _ & _ & HQ).
  - lia.
  - repeat split; cbn; auto.
  - destruct (HQ i ltac:(lia)) as (p & Hp & Hq).
    unfold java_calling_convention. rewrite E. cbn.
    eexists _, _, p. split; [reflexivity|]. split; [exact Hp|].
    apply (Hq t Ht Hfp).
Qed.

(** C3: a float or double at index [i] of a signature.  The C convention
    gives it the next integer argument register once eight floating
    arguments precede it and integer registers remain (the integer-family
    arguments and the floating arguments beyond the eighth in front of it
    are fewer than eight); the Java convention never gives it an integer
    register: a floating register while fewer than eight floating arguments
    precede it, a stack slot from then on. *)
Theorem fp_argument_registers sig regs i t :
  length regs = length sig -> sig !! i = Some t -> is_fp_type t = true ->
  fp_argument_post sig regs i.
Proof.
  intros Hlen Ht Hfp. split; intros Hall.
  - exact (c_convention_fp sig regs i t Hlen Ht Hfp Hall).
  - exact (java_convention_fp sig regs i t Hlen Ht Hfp Hall).
Qed.

Lemma fp_argument_registers_witness :
  fp_argument_post nine_doubles (replicate 18 set_bad) 16.
Proof.
  apply (fp_argument_registers nine_doubles (replicate 18 set_bad) 16 T_DOUBLE);
    reflexivity.
Defined.

(** Nine doubles: the C convention passes the ninth in [c_rarg0], the Java
    convention in the first stack slot. *)
Example ninth_double_placed :
  (exists stk out,
     c_calling_convention nine_doubles (replicate 18 set_bad) 18 = Some (stk, out) /\
     out !! 16%nat = Some (set2 (as_VMReg c_rarg0))) /\
  (exists stk out,
     java_calling_convention nine_doubles (replicate 18 set_bad) 18 = Some (stk, out) /\
     out !! 16%nat = Some (set2 (stack2reg 0))).
Proof.
  split; eexists _, _; (split; [vm_compute; reflexivity|]); vm_compute; reflexivity.
Qed.

Lemma load_bytes_store_same n : forall a v m,
  0 <= a -> a + Z.of_nat n <= two64 ->
  load_bytes n a (store_bytes n a v m) = v mod 256 ^ Z.of_nat n.
Proof.
  induction n as [|n IH]; intros a v m Ha Hb.
  - cbn. rewrite Z.mod_1_r. reflexivity.
  - cbn [load_bytes store_bytes].
    rewrite store_bytes_out by (rewrite ?wrap_small by lia; lia).
    rewrite IH by lia. rewrite Z.eqb_refl.
    rewrite Nat2Z.inj_succ, Z.pow_succ_r by lia.
    rewrite Z.mod_mod by lia.
    rewrite (Z.rem_mul_r v 256 (256 ^ Z.of_nat n)) by lia. reflexivity.
Qed.

Lemma load_store_same a v m :
  0 <= a -> a + 8 <= two64 -> 0 <= v < two64 ->
  load W8 a (store W8 a v m) = v.
Proof.
  intros Ha Hb Hv. unfold load, store. rewrite load_bytes_store_same by (cbn; lia).
  apply Z.mod_small. exact Hv.
Qed.

Lemma load_bytes_store_other n k : forall a b v m,
  0 <= a -> a + Z.of_nat n <= two64 -> 0 <= b -> b + Z.of_nat k <= two64 ->
  a + Z.of_nat n <= b \/ b + Z.of_nat k <= a ->
  load_bytes n a (store_bytes k b v m) = load_bytes n a m.
Proof.
  induction n as [|n IH]; intros a b v m Ha Hb Hc Hd Hdis; [reflexivity|].
  cbn [load_bytes]. rewrite IH by lia. rewrite wrap_small by lia.
  rewrite store_bytes_out by lia. reflexivity.
Qed.

Lemma load_store_other a b v m :
  0 <= a -> a + 8 <= two64 -> 0 <= b -> b + 8 <= two64 ->
  a + 8 <= b \/ b + 8 <= a ->
  load W8 a (store W8 b v m) = load W8 a m.
Proof.
  intros. unfold load, store. apply load_bytes_store_other; cbn; lia.
Qed.

Lemma wrap_add_wrap a b : wrap (a + wrap b) = wrap (a + b).
Proof. unfold wrap. apply Z.add_mod_idemp_r. unfold two64. lia. Qed.

Ltac ostep Hpc Hst :=
  eapply steps_step;
  [ cc_simpl; exact Hst
  | cc_simpl; rewrite ?Hpc; reflexivity
  | cc_simpl ].

Lemma object_move_code_stack oho fsz src dst is_receiver (rH : Register) :
  is_stack (first src) = true ->
  (if is_stack (first dst) then t1 else as_Register (first dst)) = rH ->
  object_move_code oho fsz src dst is_receiver
  = [Iload W8 false t0 (Addr fp (reg2offset_in (first src)));
     Ialu Add rH fp (OImm (reg2offset_in (first src)));
     Ibranch Cne t0 zr (TLabel 0%nat);
     Ialu Add rH zr (OImm 0);
     Ibind 0%nat]
    ++ (if is_stack (first dst)
        then [Istore W8 rH (Addr sp (reg2offset_out (first dst)))] else []).
Proof.
  intros Hs <-. unfold object_move_code, assembled, assemble, object_move.
  rewrite Hs. destruct (is_stack (first dst)); reflexivity.
Qed.

Lemma object_move_code_reg oho fsz src dst is_receiver (rOop rH : Register) :
  is_stack (first src) = false ->
  as_Register (first src) = rOop ->
  (if is_stack (first dst) then t1 else as_Register (first dst)) = rH ->
  object_move_code oho fsz src dst is_receiver
  = let offset := (oop_slot_of rOop * slots_per_word + oho) * stack_slot_size in
    [Istore W8 rOop (Addr sp offset)]
      ++ (if Nat.eqb rOop rH
          then [Ibranch Ceq rOop zr (TLabel 0%nat); Ialu Add rH sp (OImm offset);
                Ibind 0%nat]
          else [Ialu Add rH sp (OImm offset); Ibranch Cne rOop zr (TLabel 0%nat);
                Ialu Add rH zr (OImm 0); Ibind 0%nat])
      ++ (if is_stack (first dst)
          then [Istore W8 rH (Addr sp (reg2offset_out (first dst)))] else []).
Proof.
  intros Hs <- <-. unfold object_move_code, assembled, assemble, object_move.
  rewrite Hs. unfold oop_slot_of.
  destruct (is_stack (first dst)); cbv zeta.
  - destruct (Nat.eqb (as_Register (first src)) t1); reflexivity.
  - destruct (Nat.eqb (as_Register (first src)) (as_Register (first dst))); reflexivity.
Qed.

(** Reduce the tests on concrete registers. *)
Ltac reg_tests :=
  repeat match goal with
         | H : context [oop_slot_of ?r] |- _ =>
             let v := eval vm_compute in (oop_slot_of r) in
             change (oop_slot_of r) with v in H
         | |- context [oop_slot_of ?r] =>
             let v := eval vm_compute in (oop_slot_of r) in
             change (oop_slot_of r) with v
         | |- context [Nat.eqb ?a ?b] =>
             let v := eval vm_compute in (Nat.eqb a b) in
             change (Nat.eqb a b) with v
         end;
  cbn iota.

Ltac fix_label :=
  match goal with
  | |- context [label_pos ?p ?l] =>
      let v := eval lazy in (label_pos p l) in
      change (label_pos p l) with v; cbn iota
  end.

Section ObjectMove.

Variables (e : env) (oho fsz : Z) (src dst : VMRegPair) (is_receiver : bool).

Variable st : state.

Hypothesis Hpc : pc st = 0%nat.

Hypothesis Hst : stat st = Running.

Local Abbreviation slot := (handle_slot oho src st).

Local Abbreviation oop := (oop_of src st).

Hypothesis Hslot : 0 <= slot /\ slot + 8 <= two64.

Hypothesis Hoop : 0 <= oop < two64.

Hypothesis Hout : is_stack (first dst) = true ->
  let a := getr (regs st) sp + reg2offset_out (first dst) in
  0 <= a /\ a + 8 <= two64 /\ (slot + 8 <= a \/ a + 8 <= slot).

Lemma object_move_stack_stack :
  is_stack (first src) = true -> is_stack (first dst) = true ->
  object_move_post e oho fsz src dst is_receiver st.
Proof.
  intros Hs Hd. pose proof (Hout Hd) as Hout'. cbv zeta in Hout'.
  unfold object_move_post, passed.
  rewrite (object_move_code_stack oho fsz src dst is_receiver t1 Hs)
    by (rewrite Hd; reflexivity).
  unfold oop_of, handle_slot in *. rewrite Hs in *. rewrite Hd. cbv zeta.
  pose proof two64_eq as H64.
  set (a_in := getr (regs st) fp + reg2offset_in (first src)) in *.
  set (a_out := getr (regs st) sp + reg2offset_out (first dst)) in *.
  cbn [app].
  destruct (Z.eqb_spec (load W8 a_in (mem st)) 0) as [Hz|Hz].
  - eexists. split.
    + ostep Hpc Hst. fold a_in. rewrite (wrap_small a_in) by lia.
      ostep Hpc Hst. rewrite wrap_add_wrap. fold a_in. rewrite (wrap_small a_in) by lia.
      ostep Hpc Hst. rewrite Hz. cbn [Z.eqb negb].
      ostep Hpc Hst. ostep Hpc Hst. ostep Hpc Hst.
      fold a_out. rewrite (wrap_small a_out) by lia.
      change (wrap (0 + wrap 0)) with 0.
      apply steps_refl.
    + cc_simpl. rewrite Hpc. split; [reflexivity|]. split; [exact Hst|]. fold a_out.
      split; [apply load_store_same; lia|].
      apply load_store_other; lia.
  - eexists. split.
    + ostep Hpc Hst. fold a_in. rewrite (wrap_small a_in) by lia.
      ostep Hpc Hst. rewrite wrap_add_wrap. fold a_in. rewrite (wrap_small a_in) by lia.
      ostep Hpc Hst. destruct (Z.eqb_spec (load W8 a_in (mem st)) 0) as [|_]; [lia|].
      cbn [negb]. change (label_pos _ 0%nat) with (Some 4%nat). cbn iota.
      ostep Hpc Hst. ostep Hpc Hst.
      fold a_out. rewrite (wrap_small a_out) by lia.
      apply steps_refl.
    + cc_simpl. split; [reflexivity|]. split; [exact Hst|]. fold a_out.
      split; [apply load_store_same; lia|].
      apply load_store_other; lia.
Qed.

Lemma object_move_stack_reg :
  is_stack (first src) = true -> is_stack (first dst) = false -> dst_ok dst ->
  object_move_post e oho fsz src dst is_receiver st.
Proof.
  intros Hs Hd Hdst. unfold dst_ok in Hdst. rewrite Hd in Hdst.
  unfold object_move_post, passed.
  pose proof two64_eq as H64.
  unfold oop_of, handle_slot in *. rewrite Hs in *. rewrite Hd. cbv zeta.
  set (a_in := getr (regs st) fp + reg2offset_in (first src)) in *.
  cbn [c_INT_ArgReg In] in Hdst.
  repeat (destruct Hdst as [Hr|Hdst]); try contradiction.
  all: symmetry in Hr.
  all: rewrite (object_move_code_stack oho fsz src dst is_receiver _ Hs
                  ltac:(rewrite Hd; exact Hr)).
  all: rewrite Hd, Hr; cbn [app].
  all: destruct (Z.eqb_spec (load W8 a_in (mem st)) 0) as [Hz|Hz].
  all: eexists; split;
    [ ostep Hpc Hst; fold a_in; rewrite (wrap_small a_in) by lia;
      ostep Hpc Hst; rewrite wrap_add_wrap; fold a_in; rewrite (wrap_small a_in) by lia;
      ostep Hpc Hst;
      destruct (Z.eqb_spec (load W8 a_in (mem st)) 0) as [Hz'|Hz']; try lia;
      cbn [negb]; try fix_label;
      repeat (ostep Hpc Hst); apply steps_refl
    | cc_simpl; rewrite ?Hpc;
      split; [reflexivity|]; split; [exact Hst|]; split; reflexivity ].
Qed.

Lemma object_move_reg :
  is_stack (first src) = false -> src_ok src -> dst_ok dst ->
  object_move_post e oho fsz src dst is_receiver st.
Proof.
  intros Hs Hsrc Hdst. unfold src_ok in Hsrc. rewrite Hs in Hsrc.
  unfold dst_ok in Hdst.
  unfold object_move_post, passed.
  pose proof two64_eq as H64.
  unfold oop_of, handle_slot in *. rewrite Hs in *. cbv zeta.
  cbn [java_INT_ArgReg In] in Hsrc.
  destruct (is_stack (first dst)) eqn:Hd.
  - (* the handle goes to the outgoing stack area, through t1 *)
    pose proof (Hout eq_refl) as Hout'. cbv zeta in Hout'.
    set (a_out := getr (regs st) sp + reg2offset_out (first dst)) in *.
    repeat (destruct Hsrc as [Hr|Hsrc]); try contradiction.
    all: symmetry in Hr.
    all: rewrite (object_move_code_reg oho fsz src dst is_receiver _ t1 Hs Hr
                    ltac:(rewrite Hd; reflexivity)).
    all: rewrite Hd; rewrite Hr in *; cbv zeta; reg_tests; cbn [app].
    all: match goal with
         | |- context [getr (regs st) sp + ?o * stack_slot_size] =>
             set (a_slot := getr (regs st) sp + o * stack_slot_size) in *
         end.
    all: match goal with
         | H : 0 <= getr (regs st) ?r < two64 |- _ =>
             destruct (Z.eqb_spec (getr (regs st) r) 0) as [Hz|Hz]
         end.
    all: eexists; split;
      [ ostep Hpc Hst; fold a_slot; rewrite (wrap_small a_slot) by lia;
        ostep Hpc Hst; rewrite wrap_add_wrap; fold a_slot;
        rewrite (wrap_small a_slot) by lia;
        ostep Hpc Hst;
        match goal with
        | |- context [negb (?v =? 0)] =>
            destruct (Z.eqb_spec v 0) as [Hz'|Hz']; try lia
        end;
        cbn [negb]; try fix_label;
        repeat (ostep Hpc Hst; fold a_out; rewrite ?(wrap_small a_out) by lia);
        apply steps_refl
      | cc_simpl; rewrite ?Hpc; fold a_out;
        change (wrap (0 + wrap 0)) with 0;
        split; [reflexivity|]; split; [exact Hst|];
        split;
        [ apply load_store_same; lia
        | rewrite load_store_other by lia; apply load_store_same; lia ] ].
  - (* the handle goes to a register *)
    cbn [c_INT_ArgReg In] in Hdst.
    repeat (destruct Hsrc as [Hr|Hsrc]); try contradiction.
    all: symmetry in Hr.
    all: repeat (destruct Hdst as [Hr'|Hdst]); try contradiction.
    all: symmetry in Hr'.
    all: rewrite (object_move_code_reg oho fsz src dst is_receiver _ _ Hs Hr
                    ltac:(rewrite Hd; exact Hr')).
    all: rewrite Hd; rewrite Hr in *; rewrite Hr'; cbv zeta; reg_tests; cbn [app].
    all: match goal with
         | |- context [getr (regs st) sp + ?o * stack_slot_size] =>
             set (a_slot := getr (regs st) sp + o * stack_slot_size) in *
         end.
    all: match goal with
         | H : 0 <= getr (regs st) ?r < two64 |- _ =>
             destruct (Z.eqb_spec (getr (regs st) r) 0) as [Hz|Hz]
         end.
    all: eexists; split;
      [ ostep Hpc Hst; fold a_slot; rewrite (wrap_small a_slot) by lia;
        ostep Hpc Hst; rewrite ?wrap_add_wrap; fold a_slot;
        rewrite ?(wrap_small a_slot) by lia;
        repeat match goal with
               | |- context [?v =? 0] =>
                   destruct (Z.eqb_spec v 0) as [Hz'|Hz']; try lia
               end;
        cbn [negb]; try fix_label;
        repeat (ostep Hpc Hst; rewrite ?wrap_add_wrap; fold a_slot;
                rewrite ?(wrap_small a_slot) by lia;
                repeat match goal with
                       | |- context [?v =? 0] =>
                           destruct (Z.eqb_spec v 0) as [Hz'|Hz']; try lia
                       end;
                cbn [negb]; try fix_label);
        apply steps_refl
      | cc_simpl; rewrite ?Hpc;
        change (wrap (0 + wrap 0)) with 0;
        split; [reflexivity|]; split; [exact Hst|];
        split; [first [reflexivity | symmetry; assumption | assumption]
               | apply load_store_same; lia ] ].
Qed.

End ObjectMove.

(** C4: [object_move] never hands the reference itself to the callee.  The
    reference sits in a stack slot -- the caller's argument slot when it came
    on the stack, the slot of its register in the handle area otherwise --
    and the callee's argument, in its register or its outgoing stack slot,
    is the address of that slot, or null when the reference is null. *)
Theorem object_move_passes_handle e oho fsz src dst is_receiver st :
  src_ok src -> dst_ok dst ->
  pc st = 0%nat -> stat st = Running ->
  0 <= handle_slot oho src st /\ handle_slot oho src st + 8 <= two64 ->
  0 <= oop_of src st < two64 ->
  (is_stack (first dst) = true ->
   let a := getr (regs st) sp + reg2offset_out (first dst) in
   0 <= a /\ a + 8 <= two64 /\
   (handle_slot oho src st + 8 <= a \/ a + 8 <= handle_slot oho src st)) ->
  object_move_post e oho fsz src dst is_receiver st.
Proof.
  intros Hsrc Hdst Hpc Hst Hslot Hoop Hout.
  destruct (Bool.bool_dec (is_stack (first src)) true) as [Hs|Hs].
  - destruct (Bool.bool_dec (is_stack (first dst)) true) as [Hd|Hd].
    + exact (object_move_stack_stack e oho fsz src dst is_receiver st
               Hpc Hst Hslot Hoop Hout Hs Hd).
    + apply not_true_is_false in Hd.
      exact (object_move_stack_reg e oho fsz src dst is_receiver st
               Hpc Hst Hslot Hoop Hout Hs Hd Hdst).
  - apply not_true_is_false in Hs.
    exact (object_move_reg e oho fsz src dst is_receiver st
             Hpc Hst Hslot Hoop Hout Hs Hsrc Hdst).
Qed.

Lemma object_move_passes_handle_witness :
  object_move_post example_env 4 16 (set2 (as_VMReg j_rarg1)) (set2 (stack2reg 2)) false
                   example_move_call.
Proof.
  apply (object_move_passes_handle example_env 4 16 (set2 (as_VMReg j_rarg1))
           (set2 (stack2reg 2)) false example_move_call).
  - vm_compute. right. left. reflexivity.
  - exact I.
  - reflexivity.
  - reflexivity.
  - vm_compute. split; discriminate.
  - vm_compute. split; [discriminate | reflexivity].
  - intros _. vm_compute. repeat split; try discriminate. right. discriminate.
Defined.

Lemma stack_overflow_check_code_eq flags lay :
  stack_overflow_check_code flags lay
  = [Ialu Add t0 zr (OImm (so_threshold lay));
     Ibranch Cleu x13 t0 (TLabel 0%nat);
     Ialu Add x10 zr (OImm (so_overhead_size lay));
     Ialu Sll t0 x13 (OImm logStackElementSize);
     Ialu Add x10 x10 (OReg t0);
     Iload W8 false t0 (Addr xthread (stack_overflow_limit_offset lay))]
    ++ (if ASSERT flags
        then [Ibranch Cne t0 zr (TLabel 1%nat);
              Imacro (Mstop "stack overflow limit is zero"); Ibind 1%nat]
        else [])
    ++ [Ialu Add x10 x10 (OReg t0);
        Ibranch Cgtu sp x10 (TLabel 0%nat);
        Ialu And sp x30 (OImm (-16));
        Imacro (Mfar_jump "StubRoutines::throw_StackOverflowError_entry");
        Ibind 0%nat].
Proof.
  destruct flags as [? asrt ? ? ? ? ? ? ?]. destruct asrt; reflexivity.
Qed.

Lemma so_needed_eq o n l :
  wrap (wrap (wrap (0 + wrap o) + wrap (Z.shiftl n (wrap logStackElementSize mod 64))) + l)
  = wrap (o + n * 8 + l).
Proof.
  change (wrap logStackElementSize mod 64) with 3.
  rewrite Z.shiftl_mul_pow2 by lia. change (2 ^ 3) with 8.
  unfold wrap. rewrite Z.add_0_l. rewrite two64_eq.
  Z.div_mod_to_equations. lia.
Qed.

Lemma wrap_wrap x : wrap (wrap x) = wrap x.
Proof. unfold wrap. apply Z.mod_mod. rewrite two64_eq. lia. Qed.

(** C6: the check compares the additional locals in [x13] with the
    threshold worked out from the page size; within it, the code is through
    without a look at the thread's stack-overflow limit.  Beyond it, the
    limit is loaded; if the stack pointer is above overhead, locals and limit
    the code is through as well, and otherwise it puts the sender's stack
    pointer back and leaves for the StackOverflowError stub, for good. *)
Theorem stack_overflow_check_probes_beyond_a_page e flags lay st :
  pc st = 0%nat -> stat st = Running ->
  (ASSERT flags = true -> so_limit lay st <> 0) ->
  stack_overflow_check_post e flags lay st.
Proof.
  intros Hpc Hst Hlim. unfold stack_overflow_check_post. cbv zeta.
  rewrite stack_overflow_check_code_eq.
  unfold so_needed, so_limit, so_limit_addr in *.
  set (la := wrap (getr (regs st) xthread + stack_overflow_limit_offset lay)) in *.
  set (n := getr (regs st) x13).
  set (lim := load W8 la (mem st)) in *.
  assert (Hn : wrap (wrap (wrap (0 + wrap (so_overhead_size lay))
                           + wrap (Z.shiftl n (wrap logStackElementSize mod 64))) + lim)
               = wrap (so_overhead_size lay + n * 8 + lim)) by apply so_needed_eq.
  set (needed := wrap (so_overhead_size lay + n * 8 + lim)) in *.
  destruct (ASSERT flags) eqn:HA; cbn [app].
  all: destruct (Z.leb_spec n (wrap (so_threshold lay))) as [Hle|Hgt].
  all: try (destruct (Z.ltb_spec needed (getr (regs st) sp)) as [Hok|Hover]).
  all: try specialize (Hlim eq_refl).
  all: eexists; split; [|split];
    [ ostep Hpc Hst; ostep Hpc Hst; rewrite Z.add_0_l, wrap_wrap; fold n;
      destruct (Z.leb_spec n (wrap (so_threshold lay))); try lia;
      try fix_label;
      repeat (ostep Hpc Hst; fold n; fold la; fold lim; rewrite ?Hn;
              try (destruct (Z.eqb_spec lim 0); [contradiction|]; cbn [negb]);
              try (destruct (Z.ltb_spec needed (getr (regs st) sp)); try lia);
              try fix_label);
      apply steps_refl
    | reflexivity
    | cc_simpl; rewrite ?Hpc; fold la; repeat split; auto ].
Qed.

Lemma stack_overflow_check_probes_beyond_a_page_witness :
  stack_overflow_check_post example_env product_flags example_layout example_entry_call.
Proof.
  apply (stack_overflow_check_probes_beyond_a_page example_env product_flags example_layout
           example_entry_call).
  - reflexivity.
  - reflexivity.
  - intros H. discriminate H.
Defined.

Lemma g1_post_code_eq lay sa nv th tmp tmp2 :
  firstn 8 (g1_post_code lay sa nv th tmp tmp2)
  = [Ialu Xor tmp sa (OReg nv);
     Ialu Srl tmp tmp (OImm (LogOfHRGrainBytes lay));
     Ibranch Ceq tmp zr (TLabel 0%nat);
     Ibranch Ceq nv zr (TLabel 0%nat);
     Ialu Srl tmp sa (OImm (card_shift lay));
     Imacro (Mload_byte_map_base tmp2);
     Ialu Add tmp tmp (OReg tmp2);
     Iload W1 false tmp2 (Addr tmp 0)] /\
  label_pos (g1_post_code lay sa nv th tmp tmp2) 0%nat = Some 26%nat /\
  nth_error (g1_post_code lay sa nv th tmp tmp2) 26 = Some (Ibind 0%nat) /\
  length (g1_post_code lay sa nv th tmp tmp2) = 27%nat.
Proof. repeat split; reflexivity. Qed.

Lemma nth_error_firstn_lt {A} (l : list A) n k x :
  nth_error (firstn n l) k = Some x -> nth_error l k = Some x.
Proof.
  intros H. assert (k < n)%nat.
  { destruct (Nat.lt_ge_cases k n); [assumption|].
    rewrite nth_error_firstn in H. destruct (Nat.ltb_spec k n); [lia | discriminate]. }
  rewrite nth_error_firstn in H. destruct (Nat.ltb_spec k n); [exact H | lia].
Qed.

(** Once a run stands at the end of the code without having read, written
    or logged anything, it never will. *)
Lemma run_quiet e p st (j : nat) :
  (forall i, (i <= j)%nat ->
             trace (run i e p st) = trace st /\ mem (run i e p st) = mem st) ->
  stat (run j e p st) = Running -> pc (run j e p st) = length p ->
  forall k, trace (run k e p st) = trace st /\ mem (run k e p st) = mem st.
Proof.
  intros H Hs Hp k. destruct (le_lt_dec k j) as [Hk|Hk]; [apply H, Hk|].
  replace k with (j + (1 + (k - j - 1)))%nat by lia.
  assert (Hn : nth_error p (pc (run j e p st)) = None)
    by (apply nth_error_None; lia).
  rewrite run_add. set (sj := run j e p st) in *. cbn [run Nat.add].
  assert (E : step e p sj = halt Fault sj) by (unfold step; rewrite Hs, Hn; reflexivity).
  rewrite E. rewrite run_halted by (cbn; discriminate). cbn [halt trace mem].
  apply (H j). lia.
Qed.

(** C8: the post-write barrier takes the XOR of the address stored to and
    the value stored, shifted right by the log of the region size; when that
    is zero (same region), or when the value is null, the code runs through
    to its end and no run of it ever reads or writes memory or logs a call:
    no card-table access, no card mark, no queue entry.  Any other store
    goes on to read its card. *)
Theorem g1_post_barrier_filters e lay sa nv th tmp tmp2 st :
  NoDup [sa; nv; th; tmp; tmp2; t0] -> tmp <> zr -> tmp2 <> zr ->
  pc st = 0%nat -> stat st = Running ->
  g1_post_barrier_post e lay sa nv th tmp tmp2 st.
Proof.
  intros Hnd Htmp Htmp2 Hpc Hst.
  destruct (g1_post_code_eq lay sa nv th tmp tmp2) as (Hcode & HL & Hend & Hlen).
  unfold g1_post_barrier_post. cbv zeta.
  set (p := g1_post_code lay sa nv th tmp tmp2) in *.
  set (a := getr (regs st) sa). set (v := getr (regs st) nv).
  assert (Hf : forall k i, nth_error (firstn 8 p) k = Some i -> nth_error p k = Some i)
    by (intros k i; apply nth_error_firstn_lt).
  rewrite Hcode in Hf.
  (* the registers are different *)
  assert (N1 : Nat.eqb nv tmp = false /\ Nat.eqb sa tmp = false /\
               Nat.eqb tmp tmp2 = false /\ Nat.eqb tmp 0 = false /\
               Nat.eqb tmp2 0 = false).
  { repeat split; apply Nat.eqb_neq; try assumption; intros ->.
    all: repeat match goal with
                | H : NoDup (_ :: _) |- _ => apply NoDup_cons in H; destruct H
                end.
    all: repeat match goal with
                | H : _ ∉ _ :: _ |- _ => apply not_elem_of_cons in H; destruct H
                end.
    all: congruence. }
  destruct N1 as (Nnv & Nsa & Ntt & Nt0 & Nt20).
  set (x := Z.shiftr (Z.lxor a v) (wrap (LogOfHRGrainBytes lay) mod 64)).
  set (s2 := next (write tmp x (next (write tmp (Z.lxor a v) st)))).
  assert (E2 : run 2 e p st = s2).
  { rewrite (run_step _ _ _ _ (Ialu Xor tmp sa (OReg nv)));
      [| exact Hst | rewrite Hpc; apply Hf; reflexivity].
    rewrite (run_step _ _ _ _ (Ialu Srl tmp tmp (OImm (LogOfHRGrainBytes lay))));
      [| exact Hst | cbn [exec next write pc]; rewrite Hpc; apply Hf; reflexivity].
    cbn [run exec eval_alu eval_operand next write regs].
    rewrite getr_setr_eq by exact Nt0. reflexivity. }
  assert (R2 : getr (regs s2) tmp = x /\ getr (regs s2) nv = v /\ getr (regs s2) sa = a /\
               pc s2 = 2%nat /\ stat s2 = Running /\ trace s2 = trace st /\
               mem s2 = mem st).
  { unfold s2. cbn [next write regs pc stat trace mem]. rewrite Hpc.
    rewrite getr_setr_eq by exact Nt0.
    rewrite !(getr_setr_ne tmp nv) by exact Nnv.
    rewrite !(getr_setr_ne tmp sa) by exact Nsa.
    repeat split; auto. }
  destruct R2 as (Rt & Rv & Ra & Hpc2 & Hst2 & Htr2 & Hm2).
  assert (E0 : run 0 e p st = st) by reflexivity.
  assert (E1 : trace (run 1 e p st) = trace st /\ mem (run 1 e p st) = mem st).
  { rewrite (run_step _ _ _ _ (Ialu Xor tmp sa (OReg nv)));
      [| exact Hst | rewrite Hpc; apply Hf; reflexivity].
    split; reflexivity. }
  assert (E3 : run 3 e p st = if x =? 0 then goto p (TAddr 26) s2 else next s2).
  { replace 3%nat with (2 + 1)%nat by reflexivity. rewrite run_add, E2.
    rewrite (run_step _ _ _ _ (Ibranch Ceq tmp zr (TLabel 0%nat)));
      [| exact Hst2 | rewrite Hpc2; apply Hf; reflexivity].
    cbn [run exec eval_cmp]. rewrite Rt. change (getr (regs s2) zr) with 0.
    cbn [goto]. rewrite HL. reflexivity. }
  assert (E4 : (x =? 0) = false ->
               run 4 e p st = if v =? 0 then goto p (TAddr 26) s2 else next (next s2)).
  { intros Hx. replace 4%nat with (3 + 1)%nat by reflexivity. rewrite run_add, E3, Hx.
    rewrite (run_step _ _ _ _ (Ibranch Ceq nv zr (TLabel 0%nat)));
      [| exact Hst2 | cbn [next pc]; rewrite Hpc2; apply Hf; reflexivity].
    cbn [run exec eval_cmp]. cbn [next regs]. rewrite Rv.
    change (getr (regs s2) zr) with 0.
    cbn [goto]. rewrite HL. destruct (v =? 0); reflexivity. }
  unfold same_region. fold x.
  destruct (x =? 0) eqn:Hx; cbn [orb].
  - (* same region *)
    split.
    + exists 4%nat. replace 4%nat with (3 + 1)%nat by reflexivity.
      rewrite run_add, E3.
      rewrite (run_step _ _ _ _ (Ibind 0%nat)); [| exact Hst2 | exact Hend].
      cbn [run exec next goto pc stat]. rewrite Hlen. split; [reflexivity | exact Hst2].
    + apply (run_quiet e p st 4).
      * intros i Hi.
        assert (Hi' : i = 0%nat \/ i = 1%nat \/ i = 2%nat \/ i = 3%nat \/ i = 4%nat) by lia.
        destruct Hi' as [->|[->|[->|[->| ->]]]].
        -- split; reflexivity.
        -- exact E1.
        -- rewrite E2. auto.
        -- rewrite E3. cbn [goto trace mem]. auto.
        -- replace 4%nat with (3 + 1)%nat by reflexivity. rewrite run_add, E3.
           rewrite (run_step _ _ _ _ (Ibind 0%nat)); [| exact Hst2 | exact Hend].
           cbn [run exec next goto trace mem]. auto.
      * replace 4%nat with (3 + 1)%nat by reflexivity. rewrite run_add, E3.
        rewrite (run_step _ _ _ _ (Ibind 0%nat)); [| exact Hst2 | exact Hend].
        exact Hst2.
      * replace 4%nat with (3 + 1)%nat by reflexivity. rewrite run_add, E3.
        rewrite (run_step _ _ _ _ (Ibind 0%nat)); [| exact Hst2 | exact Hend].
        cbn [run exec next goto pc]. rewrite Hlen. reflexivity.
  - specialize (E4 eq_refl).
    destruct (v =? 0) eqn:Hv.
    + (* another region, but null *)
      split.
      * exists 5%nat. replace 5%nat with (4 + 1)%nat by reflexivity.
        rewrite run_add, E4.
        rewrite (run_step _ _ _ _ (Ibind 0%nat)); [| exact Hst2 | exact Hend].
        cbn [run exec next goto pc stat]. rewrite Hlen. split; [reflexivity | exact Hst2].
      * apply (run_quiet e p st 5).
        -- intros i Hi.
           assert (Hi' : i = 0%nat \/ i = 1%nat \/ i = 2%nat \/ i = 3%nat \/ i = 4%nat
                         \/ i = 5%nat) by lia.
           destruct Hi' as [->|[->|[->|[->|[->| ->]]]]].
           ++ split; reflexivity.
           ++ exact E1.
           ++ rewrite E2. auto.
           ++ rewrite E3. cbn [next trace mem]. auto.
           ++ rewrite E4. cbn [goto trace mem]. auto.
           ++ replace 5%nat with (4 + 1)%nat by reflexivity. rewrite run_add, E4.
              rewrite (run_step _ _ _ _ (Ibind 0%nat)); [| exact Hst2 | exact Hend].
              cbn [run exec next goto trace mem]. auto.
        -- replace 5%nat with (4 + 1)%nat by reflexivity. rewrite run_add, E4.
           rewrite (run_step _ _ _ _ (Ibind 0%nat)); [| exact Hst2 | exact Hend].
           exact Hst2.
        -- replace 5%nat with (4 + 1)%nat by reflexivity. rewrite run_add, E4.
           rewrite (run_step _ _ _ _ (Ibind 0%nat)); [| exact Hst2 | exact Hend].
           cbn [run exec next goto pc]. rewrite Hlen. reflexivity.
    + (* another region and not null: the card is read *)
      replace 8%nat with (4 + 4)%nat by reflexivity. rewrite run_add, E4.
      set (s4 := next (next s2)).
      assert (Hpc4 : pc s4 = 4%nat) by (unfold s4; cbn [next pc]; rewrite Hpc2; reflexivity).
      rewrite (run_step _ _ _ _ (Ialu Srl tmp sa (OImm (card_shift lay))));
        [| exact Hst2 | rewrite Hpc4; apply Hf; reflexivity].
      rewrite (run_step _ _ _ _ (Imacro (Mload_byte_map_base tmp2)));
        [| exact Hst2 | cbn [exec next write pc]; rewrite Hpc4; apply Hf; reflexivity].
      rewrite (run_step _ _ _ _ (Ialu Add tmp tmp (OReg tmp2)));
        [| exact Hst2
         | cbn [exec exec_macro next write pc]; rewrite Hpc4; apply Hf; reflexivity].
      rewrite (run_step _ _ _ _ (Iload W1 false tmp2 (Addr tmp 0)));
        [| exact Hst2
         | cbn [exec exec_macro next write pc]; rewrite Hpc4; apply Hf; reflexivity].
      cbn [run exec exec_macro next write log trace regs addr_of base offset Addr
           eval_alu eval_operand].
      unfold s4. cbn [next regs]. rewrite ?Htr2.
      rewrite !getr_setr_eq by assumption.
      rewrite (getr_setr_ne tmp2 tmp) by exact Ntt.
      rewrite !getr_setr_eq by assumption. rewrite Ra.
      f_equal. f_equal. unfold card_of. rewrite Z.add_0_r, wrap_wrap. reflexivity.
Qed.

Lemma g1_post_barrier_filters_witness :
  g1_post_barrier_post example_env example_layout x13 x10 xthread t1 x7 example_store.
Proof.
  apply (g1_post_barrier_filters example_env example_layout x13 x10 xthread t1 x7
           example_store).
  - repeat (apply NoDup_cons_2;
            [repeat (apply not_elem_of_cons; split; [discriminate|]); apply not_elem_of_nil|]).
    apply NoDup_nil_2.
  - discriminate.
  - discriminate.
  - reflexivity.
  - reflexivity.
Defined.

Lemma check_from_nth f : forall c q k i,
  check_from f q c = true -> nth_error c k = Some i -> f (q + k)%nat i = true.
Proof.
  induction c as [|x c IH]; intros q k i H Hk; [destruct k; discriminate|].
  cbn [check_from] in H. apply andb_true_iff in H. destruct H as [H1 H2].
  destruct k as [|k].
  - injection Hk as <-. rewrite Nat.add_0_r. exact H1.
  - replace (q + S k)%nat with (S q + k)%nat by lia. eapply IH; eassumption.
Qed.

Lemma label_pos_plain B l : forallb plain B = true -> label_pos B l = None.
Proof.
  induction B as [|i B IH]; intros H; [reflexivity|].
  cbn [forallb] in H. apply andb_true_iff in H. destruct H as [H1 H2].
  destruct i; try discriminate H1; cbn [label_pos]; rewrite IH by assumption; reflexivity.
Qed.

Lemma label_pos_app P Q l :
  label_pos (P ++ Q) l
  = match label_pos P l with
    | Some t => Some t
    | None => option_map (fun t => (length P + t)%nat) (label_pos Q l)
    end.
Proof.
  induction P as [|i P IH]; cbn [app length label_pos].
  - destruct (label_pos Q l); reflexivity.
  - assert (E : option_map S (label_pos (P ++ Q) l)
                = match option_map S (label_pos P l) with
                  | Some t => Some t
                  | None => option_map (fun t => (S (length P) + t)%nat) (label_pos Q l)
                  end).
    { rewrite IH. destruct (label_pos P l); [reflexivity|].
      destruct (label_pos Q l); reflexivity. }
    destruct i; try exact E.
    destruct (Nat.eqb l0 l); [reflexivity | exact E].
Qed.

Lemma bang_code_plain lay n : forall pg, forallb plain (bang_code lay n pg) = true.
Proof. induction n as [|n IH]; intros pg; [reflexivity|]. cbn. apply IH. Qed.

Lemma bang_pages_run lay n : forall pg s,
  bang_pages lay n pg s = Some (tt, mkAsm (code s ++ bang_code lay n pg) (labels s)).
Proof.
  induction n as [|n IH]; intros pg s.
  - cbn. rewrite app_nil_r. destruct s; reflexivity.
  - cbn [bang_pages]. unfold sub_imm, sd. unfold mbind, gen_bind, emit.
    rewrite IH. cbn [code labels bang_code]. rewrite <- !app_assoc. reflexivity.
Qed.

Lemma called_cons name ev tr :
  called name (ev :: tr)
  = (match ev with EvCall n _ => String.eqb name n | _ => false end) || called name tr.
Proof. reflexivity. Qed.

Lemma havoc_trace (f : Register -> state -> state) :
  (forall r s, trace (f r s) = trace s /\ pc (f r s) = pc s /\ stat (f r s) = stat s) ->
  forall defs s,
    trace (fold_right f s defs) = trace s /\ pc (fold_right f s defs) = pc s /\
    stat (fold_right f s defs) = stat s.
Proof.
  intros Hf defs s. induction defs as [|r defs IH]; [auto|].
  cbn [fold_right]. destruct (Hf r (fold_right f s defs)) as (-> & -> & ->). exact IH.
Qed.

Lemma other_state e name defs st :
  let st' := fold_right (fun r s => write r (havoc e name r (getr (regs st) r)) s)
                        (log (EvCall name []) st) defs in
  trace st' = EvCall name [] :: trace st /\ pc st' = pc st /\ stat st' = stat st.
Proof.
  cbv zeta.
  match goal with
  | |- context [fold_right ?f ?s0 defs] =>
      destruct (havoc_trace f (fun r1 s1 => conj eq_refl (conj eq_refl eq_refl)) defs s0)
        as (-> & -> & ->)
  end.
  repeat split.
Qed.

Lemma goto_trace p t st : trace (goto p t st) = trace st.
Proof. destruct t; cbn; [destruct (label_pos p l)|..]; reflexivity. Qed.

(** An instruction that does not log [name] leaves [called name] as it is. *)
Lemma exec_called e p name i st :
  logs name i = false -> called name (trace (exec e p i st)) = called name (trace st).
Proof.
  intros H. destruct i as [l|op rd rs o|c r1 r2 t|t|w sg rd a|w rs a|m];
    cbn [exec]; try reflexivity.
  - destruct (eval_cmp c _ _); [apply f_equal, goto_trace | reflexivity].
  - apply f_equal, goto_trace.
  - destruct m; cbn [exec_macro logs] in *; try reflexivity;
      try (cbn [next log trace]; rewrite called_cons, H; reflexivity).
    + unfold restore_regs. destruct (saved st); reflexivity.
    + unfold restore_regs. destruct (saved st); reflexivity.
    + destruct (subtype_fast e _ _) as [[|]|]; try reflexivity; apply f_equal, goto_trace.
    + destruct (subtype_slow e _ _); [apply f_equal, goto_trace | reflexivity].
    + match goal with
      | |- context [fold_right _ (log (EvCall ?nm []) ?s0) ?ds] =>
          destruct (other_state e nm ds s0) as (Ht & _ & _)
      end.
      match goal with
      | |- context [mbind ?f ?o] => destruct (mbind f o)
      end;
        [rewrite goto_trace
        | match goal with |- context [if ?b then _ else _] => destruct b end;
          cbn [next halt trace]];
        rewrite Ht, called_cons, H; reflexivity.
Qed.

Section EntrySafe.

Variables (e : env) (P1 B P2 : program) (c d : nat).

Hypothesis HB : forallb plain B = true.

Hypothesis Hck : entry_check P1 P2 c d = true.

Local Abbreviation p := (P1 ++ B ++ P2).

Local Abbreviation N := (length P1 + length B)%nat.

Lemma entry_check_parts :
  forallb (fun i => negb (logs "lock_object" i)) P1 = true /\
  (forall q i, nth_error P2 q = Some i ->
     if Nat.eqb q c then exists r, i = Imacro (Mlock_object r)
     else logs "lock_object" i = false) /\
  (c < d)%nat /\ (d < length P2)%nat /\
  (forall q i, nth_error P2 q = Some i -> (c < q <= d)%nat ->
               stays P1 P2 c d q i = true /\ overflows i = false).
Proof.
  pose proof Hck as Hck'. unfold entry_check in Hck'.
  apply andb_true_iff in Hck'. destruct Hck' as [Hck' K5].
  apply andb_true_iff in Hck'. destruct Hck' as [Hck' K4].
  apply andb_true_iff in Hck'. destruct Hck' as [Hck' K3].
  apply andb_true_iff in Hck'. destruct Hck' as [K1 K2].
  split; [assumption|]. split; [|split; [|split]].
  - intros q i Hq.
    pose proof (check_from_nth _ _ 0%nat q i K2 Hq) as Hf. cbn in Hf.
    revert Hf. destruct (Nat.eqb q c); intros Hf.
    + destruct i as [| | | | | |m]; try discriminate Hf.
      destruct m; try discriminate Hf. eauto.
    + apply negb_true_iff. exact Hf.
  - apply Nat.ltb_lt. assumption.
  - apply Nat.ltb_lt. assumption.
  - intros q i Hq Hr.
    pose proof (check_from_nth _ _ 0%nat q i K5 Hq) as Hf. cbn [Nat.add] in Hf.
    revert Hf. destruct (Nat.leb_spec q c); [lia|]. destruct (Nat.ltb_spec d q); [lia|].
    intros Hf. cbn [orb] in Hf. apply andb_true_iff in Hf. destruct Hf as [Hf1 Hf2].
    split; [exact Hf1 | apply negb_true_iff; exact Hf2].
Qed.

Lemma fetch_parts q i :
  nth_error p q = Some i ->
  ((q < N)%nat /\ logs "lock_object" i = false /\ overflows i = overflows i) \/
  ((N <= q)%nat /\ nth_error P2 (q - N) = Some i).
Proof.
  destruct entry_check_parts as (H1 & _).
  intros Hq. destruct (Nat.lt_ge_cases q (length P1)) as [Hlt|Hge].
  - left. rewrite nth_error_app1 in Hq by assumption.
    split; [lia|]. split; [|reflexivity].
    rewrite forallb_forall in H1. apply negb_true_iff, H1.
    eapply nth_error_In; eassumption.
  - rewrite nth_error_app2 in Hq by assumption.
    destruct (Nat.lt_ge_cases (q - length P1) (length B)) as [Hlt|Hge'].
    + left. rewrite nth_error_app1 in Hq by assumption.
      split; [lia|]. split; [|reflexivity].
      rewrite forallb_forall in HB. apply nth_error_In in Hq. apply HB in Hq.
      destruct i; try discriminate Hq; reflexivity.
    + right. rewrite nth_error_app2 in Hq by assumption.
      split; [lia|]. rewrite <- Hq. f_equal. lia.
Qed.

Lemma label_in_range l :
  in_range P1 P2 c d l = true ->
  label_pos p l = None \/ exists t, label_pos p l = Some (N + t)%nat /\ (c < t <= d)%nat.
Proof.
  unfold in_range. intros H.
  rewrite label_pos_app. destruct (label_pos P1 l); [discriminate|].
  rewrite label_pos_app, (label_pos_plain B l HB).
  destruct (label_pos P2 l) as [t|]; [|left; reflexivity].
  right. exists t. cbn. split; [f_equal; lia|].
  apply andb_true_iff in H. destruct H as [Ha Hb].
  apply Nat.ltb_lt in Ha. apply Nat.leb_le in Hb. lia.
Qed.

Lemma goto_in_region l st :
  in_range P1 P2 c d l = true ->
  stat (goto p (TLabel l) st) <> Running \/
  in_region (N + c) (N + d) (goto p (TLabel l) st).
Proof.
  intros H. cbn [goto]. destruct (label_in_range l H) as [->|(t & -> & Ht)].
  - left. cbn. discriminate.
  - right. unfold in_region. cbn. lia.
Qed.

(** The code after the lock keeps control to itself. *)
Lemma region_closed st :
  stat st = Running -> in_region (N + c) (N + d) st ->
  stat (step e p st) <> Running \/ in_region (N + c) (N + d) (step e p st).
Proof.
  intros Hst Hr. unfold step. rewrite Hst.
  destruct (nth_error p (pc st)) as [i|] eqn:Hf; [|left; cbn; discriminate].
  destruct entry_check_parts as (_ & _ & Hcd & Hd & Hreg).
  unfold in_region in *.
  destruct (fetch_parts _ _ Hf) as [(Hlt & _)|(Hge & Hq)]; [lia|].
  destruct (Hreg _ _ Hq ltac:(lia)) as (Hs & _).
  assert (Hnext : forall st', pc st' = pc st ->
                    (pc st - N <? d)%nat = true ->
                    (N + c < pc (next st') <= N + d)%nat).
  { intros st' E Hlt. apply Nat.ltb_lt in Hlt. cbn. lia. }
  destruct i as [l|op rd rs o|cm r1 r2 t|t|w sg rd a|w rs a|m];
    cbn [stays] in Hs; cbn [exec].
  - right. apply Hnext; auto.
  - right. apply Hnext; auto.
  - destruct t as [l| |]; try discriminate Hs.
    apply andb_true_iff in Hs. destruct Hs as [Hs1 Hs2].
    destruct (eval_cmp cm _ _); [apply goto_in_region; exact Hs1|].
    right. apply Hnext; auto.
  - destruct t as [l| |]; try discriminate Hs. apply goto_in_region; exact Hs.
  - right. apply Hnext; auto.
  - right. apply Hnext; auto.
  - destruct m; try discriminate Hs; cbn [exec_macro].
    + left. cbn. discriminate.
    + apply andb_true_iff in Hs. destruct Hs as [Hs1 Hs2].
      match goal with
      | |- context [fold_right _ (log (EvCall ?nm []) ?s0) ?ds] =>
          destruct (other_state e nm ds s0) as (_ & Hp & Hs')
      end.
      match goal with
      | |- context [mbind ?f ?o] => destruct (mbind f o) as [l|] eqn:Hch
      end.
      * apply goto_in_region.
        match type of Hch with
        | mbind _ ?o = _ => destruct o as [k|]; [|discriminate Hch]
        end.
        cbn in Hch. rewrite forallb_forall in Hs1. apply Hs1.
        eapply list_elem_of_In, list_elem_of_lookup_2. exact Hch.
      * match goal with |- context [if ?b then _ else _] => destruct b end;
          cbn [negb orb] in Hs2.
        -- right. apply Hnext; auto.
        -- left. cbn. discriminate.
Qed.

Lemma entry_inv_step st :
  entry_inv (N + c) (N + d) st -> entry_inv (N + c) (N + d) (step e p st).
Proof.
  intros HI Hrun.
  assert (Hst : stat st = Running).
  { destruct (stat st) eqn:E; try reflexivity;
      unfold step in Hrun; rewrite E in Hrun; rewrite E in Hrun; discriminate. }
  destruct (HI Hst) as [Hr|Hl].
  - destruct (region_closed st Hst Hr) as [Hh|Hr']; [contradiction | left; exact Hr'].
  - unfold step in *. rewrite Hst in *.
    destruct (nth_error p (pc st)) as [i|] eqn:Hf; [|discriminate Hrun].
    destruct entry_check_parts as (_ & Hlock & Hcd & Hd & _).
    destruct (fetch_parts _ _ Hf) as [(Hlt & Hn & _)|(Hge & Hq)].
    + right. unfold locked in *. rewrite exec_called by exact Hn. exact Hl.
    + specialize (Hlock _ _ Hq). destruct (Nat.eqb_spec (pc st - N) c) as [Hc|Hc].
      * destruct Hlock as (r & ->). left. unfold in_region. cbn. lia.
      * right. unfold locked in *. rewrite exec_called by exact Hlock. exact Hl.
Qed.

Lemma entry_inv_run k : forall st,
  entry_inv (N + c) (N + d) st -> entry_inv (N + c) (N + d) (run k e p st).
Proof.
  induction k as [|k IH]; intros st HI; [exact HI|].
  cbn [run]. apply IH, entry_inv_step, HI.
Qed.

(** Whenever a run is about to take an overflow exit, the method is not
    locked. *)
Lemma overflow_before_lock st k i :
  locked (trace st) = false ->
  stat (run k e p st) = Running ->
  nth_error p (pc (run k e p st)) = Some i -> overflows i = true ->
  locked (trace (run k e p st)) = false.
Proof.
  intros Hl Hrun Hf Ho.
  destruct (entry_inv_run k st (fun _ => or_intror Hl) Hrun) as [Hr|Hl']; [|exact Hl'].
  exfalso. destruct entry_check_parts as (_ & _ & _ & _ & Hreg).
  unfold in_region in Hr.
  destruct (fetch_parts _ _ Hf) as [(Hlt & _)|(Hge & Hq)]; [lia|].
  destruct (Hreg _ _ Hq ltac:(lia)) as (_ & Hno). congruence.
Qed.

(** The lock is at [N + c] and nowhere else. *)
Lemma lock_site_parts : lock_site p (N + c).
Proof.
  destruct entry_check_parts as (_ & Hlock & Hcd & Hd & _).
  split.
  - destruct (nth_error P2 c) as [i|] eqn:Hc.
    + pose proof (Hlock _ _ Hc) as Hi. rewrite Nat.eqb_refl in Hi.
      destruct Hi as (r & ->). exists r.
      rewrite nth_error_app2 by lia. rewrite nth_error_app2 by lia.
      rewrite <- Hc. f_equal. lia.
    + apply nth_error_None in Hc. lia.
  - intros q i Hq Hi.
    destruct (fetch_parts _ _ Hq) as [(_ & Hn & _)|(Hge & Hq')]; [congruence|].
    specialize (Hlock _ _ Hq'). destruct (Nat.eqb_spec (q - N) c) as [Hc|Hc].
    + lia.
    + congruence.
Qed.

Variables (ov : Label) (hc : bool).

Hypothesis Hcb : checks_before P1 P2 c ov hc = true.

Lemma checks_before_parts :
  forallb (fun i => negb (is_overflow_check ov i)) P2 = true /\
  existsb is_stack_overflow_exit P1 = true /\
  (hc = true ->
   existsb (goes_to ov) P1 = true /\
   exists o i, label_pos P1 ov = None /\ label_pos P2 ov = Some o /\ (c < o)%nat /\
               nth_error P2 (S (S o)) = Some i /\ is_counter_overflow_call i = true).
Proof.
  pose proof Hcb as H. unfold checks_before in H.
  apply andb_true_iff in H. destruct H as [H K3].
  apply andb_true_iff in H. destruct H as [K1 K2].
  split; [exact K1|]. split; [exact K2|].
  intros ->. cbn [negb orb] in K3.
  apply andb_true_iff in K3. destruct K3 as [K3 K4]. split; [exact K3|].
  destruct (label_pos P1 ov); [discriminate|].
  destruct (label_pos P2 ov) as [o|]; [|discriminate].
  apply andb_true_iff in K4. destruct K4 as [K4 K5]. apply Nat.ltb_lt in K4.
  destruct (nth_error P2 (S (S o))) as [i|] eqn:Hi; [|discriminate].
  exists o, i. auto.
Qed.

(** Every overflow check is in [P1]. *)
Lemma overflow_check_in_front q i :
  nth_error p q = Some i -> is_overflow_check ov i = true -> (q < N + c)%nat.
Proof.
  destruct checks_before_parts as (K1 & _).
  intros Hq Hi. destruct (Nat.lt_ge_cases q (length P1)) as [Hlt|Hge]; [lia|].
  exfalso. rewrite nth_error_app2 in Hq by assumption.
  destruct (Nat.lt_ge_cases (q - length P1) (length B)) as [Hlt|Hge'].
  - rewrite nth_error_app1 in Hq by assumption.
    rewrite forallb_forall in HB. apply nth_error_In in Hq. apply HB in Hq.
    destruct i; try discriminate Hq; discriminate Hi.
  - rewrite nth_error_app2 in Hq by assumption.
    rewrite forallb_forall in K1. apply nth_error_In in Hq. apply K1 in Hq.
    rewrite Hi in Hq. discriminate Hq.
Qed.

Lemma in_front (f : instr -> bool) :
  existsb f P1 = true -> exists q i, nth_error p q = Some i /\ f i = true.
Proof.
  intros H. apply existsb_exists in H. destruct H as (i & Hin & Hi).
  apply In_nth_error in Hin. destruct Hin as (q & Hq).
  exists q, i. split; [|exact Hi].
  rewrite nth_error_app1; [exact Hq|]. apply nth_error_Some. congruence.
Qed.

Lemma stack_check_before_lock : emitted_before p is_stack_overflow_exit (N + c).
Proof.
  destruct checks_before_parts as (_ & K2 & _). split; [apply in_front, K2|].
  intros q i Hq Hi. apply (overflow_check_in_front q i Hq).
  unfold is_overflow_check. rewrite Hi. reflexivity.
Qed.

Lemma counter_check_before_lock :
  hc = true ->
  exists o, counter_overflow_handler p ov o /\ (N + c < o)%nat /\
            emitted_before p (goes_to ov) (N + c).
Proof.
  intros Hhc. destruct checks_before_parts as (_ & _ & K3).
  destruct (K3 Hhc) as (Hg & o & i & L1 & L2 & Hco & Hi & Hcall).
  exists (N + o)%nat. split; [|split; [lia|]].
  - split.
    + rewrite label_pos_app, L1, label_pos_app, (label_pos_plain B ov HB), L2.
      cbn. f_equal. lia.
    + exists i. split; [|exact Hcall].
      rewrite nth_error_app2 by lia. rewrite nth_error_app2 by lia.
      rewrite <- Hi. f_equal. lia.
  - split; [apply in_front, Hg|].
    intros q j Hq Hj. apply (overflow_check_in_front q j Hq).
    unfold is_overflow_check. rewrite Hj. apply orb_true_r.
Qed.

End EntrySafe.

(** Left-nested emission is concatenation. *)
Lemma emitted_after (P B l : program) :
  fold_left (fun acc i => acc ++ [i]) l (P ++ B) = P ++ B ++ l.
Proof.
  revert B. induction l as [|i l IH]; intros B; cbn [fold_left].
  - rewrite app_nil_r. reflexivity.
  - rewrite <- app_assoc, IH, <- app_assoc. reflexivity.
Qed.

(** Reading the parts off the emitted code: what follows the banging of
    the shadow pages, or, without banging, what starts at the lock. *)
Ltac peel t acc k :=
  lazymatch t with
  | ?a ++ [?i] => peel a constr:(i :: acc) k
  | ?a ++ _ => k a acc
  end.

Ltac peel_to t acc k :=
  lazymatch t with
  | ?a ++ [Imacro (Mlock_object ?r)] => k a constr:(Imacro (Mlock_object r) :: acc)
  | ?a ++ [?i] => peel_to a constr:(i :: acc) k
  end.

Ltac entry_parts sel :=
  match goal with
  | |- exists _ _ _ _ _, ?L = _ /\ _ =>
      sel L constr:(@nil instr) ltac:(fun a P2 =>
        let P1 := eval cbv [app] in a in
        let c := eval vm_compute in (find_pos (logs "lock_object") P2) in
        let d := eval vm_compute in (find_pos (logs "dispatch_next") P2) in
        let ov := eval vm_compute in (handler_label P2) in
        exists P1, P2, c, d, ov)
  end.

Ltac entry_checked B :=
  (split; [|split]);
  [ match goal with |- _ = ?P ++ _ ++ ?l => exact (emitted_after P B l) end
  | vm_compute; reflexivity
  | vm_compute; reflexivity ].

(** The entry of a synchronized method, whatever the flags and the layout:
    code up to the banging of the shadow pages, the banging, and code that
    passes the checks. *)
Lemma normal_entry_parts flags lay :
  exists P1 P2 c d ov,
    normal_entry_code flags lay true = P1 ++ bang_code lay (bang_count flags lay) 1 ++ P2 /\
    entry_check P1 P2 c d = true /\
    checks_before P1 P2 c ov (inc_counter flags) = true.
Proof.
  destruct flags as [pr asr co vo tc pi sb sh ic].
  unfold bang_count. cbn [UseStackBanging inc_counter].
  unfold normal_entry_code, assembled, assemble, generate_normal_entry.
  unfold bang_stack_shadow_pages. cbn [UseStackBanging].
  remember (n_shadow_pages lay) as ns eqn:Ens.
  destruct sb.
  - remember (bang_code lay ns 1) as B eqn:EB.
    replace (S ns - 1)%nat with ns by lia.
    change (Z.of_nat 1) with 1.
    destruct asr, tc, pi, sh, ic;
      (lazy -[bang_pages app Nat.sub Z.add Z.mul Z.sub Z.opp Z.quot wordSize];
       rewrite bang_pages_run; rewrite <- EB;
       lazy -[app Nat.sub Z.add Z.mul Z.sub Z.opp Z.quot wordSize];
       entry_parts peel; entry_checked B).
  - destruct asr, tc, pi, sh, ic;
      (lazy -[app Nat.sub Z.add Z.mul Z.sub Z.opp Z.quot wordSize];
       entry_parts peel_to; entry_checked (@nil instr)).
Qed.

(** C5. In the entry generated for a synchronized method the call of
    [lock_object] is emitted once, after the exit of the stack-overflow
    check and, when invocations are counted, after every jump to the
    handler of an overflown counter; and on every run of the entry that has
    not locked before, the method is not locked whenever the run is about to
    leave for the StackOverflowError stub or to report an overflown
    counter. *)
Theorem lock_after_overflow_checks (e : env) (flags : vm_flags) (lay : vm_layout)
    (st : state) :
  locked (trace st) = false -> lock_after_checks_post e flags lay st.
Proof.
  intros Hl. unfold lock_after_checks_post. cbv zeta.
  destruct (normal_entry_parts flags lay) as (P1 & P2 & c & d & ov & E & Hck & Hcb).
  rewrite E. set (B := bang_code lay (bang_count flags lay) 1).
  assert (HB : forallb plain B = true) by apply bang_code_plain.
  exists (length P1 + length B + c)%nat.
  split; [exact (lock_site_parts P1 B P2 c d HB Hck)|].
  split; [exact (stack_check_before_lock P1 B P2 c HB ov (inc_counter flags) Hcb)|].
  split.
  - intros Hic.
    destruct (counter_check_before_lock P1 B P2 c HB ov (inc_counter flags) Hcb Hic)
      as (o & Hh & Hco & Hb).
    exists ov, o. auto.
  - intros k i. apply (overflow_before_lock e P1 B P2 c d HB Hck st k i Hl).
Qed.

(** The example call locks the method and goes on to the first bytecode. *)
Example example_call_locks :
  let s := run 80 example_env (normal_entry_code product_flags example_layout true)
               example_method_call in
  stat s = Exited "dispatch_next" /\ locked (trace s) = true.
Proof. vm_compute. split; reflexivity. Qed.

(** With an overflown counter the runtime is called before the lock, and
    the method is locked afterwards. *)
Example example_call_overflows_first :
  let p := normal_entry_code product_flags example_layout true in
  let s := run 55 overflowing_env p example_method_call in
  let s' := run 90 overflowing_env p example_method_call in
  stat s = Running /\
  nth_error p (pc s)
  = Some (Imacro (Mcall_VM "InterpreterRuntime::frequency_counter_overflow" [c_rarg1])) /\
  locked (trace s) = false /\
  stat s' = Exited "dispatch_next" /\ locked (trace s') = true.
Proof. vm_compute. repeat split; reflexivity. Qed.

Lemma lock_after_overflow_checks_witness :
  lock_after_checks_post example_env product_flags example_layout example_method_call.
Proof.
  apply (lock_after_overflow_checks example_env product_flags example_layout
           example_method_call).
  reflexivity.
Defined.

(** Two places of a list without duplicates hold different things. *)
Lemma NoDup_neq {A} (l : list A) (i j : nat) (x y : A) :
  NoDup l -> l !! i = Some x -> l !! j = Some y -> i <> j -> x <> y.
Proof.
  intros H Hi Hj Hne ->. apply Hne. exact (proj1 (NoDup_alt l) H i j y Hi Hj).
Qed.

(** All the facts [x <> y] of a hypothesis [H : NoDup [..]] of up to seven
    registers. *)
Ltac neq_pair H i j :=
  try (let F := fresh "N" in
       assert (F := NoDup_neq _ i j _ _ H eq_refl eq_refl ltac:(discriminate))).

Ltac neq_row H i :=
  neq_pair H i 0%nat; neq_pair H i 1%nat; neq_pair H i 2%nat; neq_pair H i 3%nat;
  neq_pair H i 4%nat; neq_pair H i 5%nat; neq_pair H i 6%nat.

Ltac neq_facts H :=
  neq_row H 0%nat; neq_row H 1%nat; neq_row H 2%nat; neq_row H 3%nat;
  neq_row H 4%nat; neq_row H 5%nat; neq_row H 6%nat.

(** Register reads through writes, for registers known by name or known
    to differ. *)
Ltac reg_names :=
  cbv [zr lr sp t0 t1 t2 fp esp xdispatch xbcp xthread xlocals xcpool xheapbase xmethod
       c_rarg0 c_rarg1 c_rarg2 c_rarg3 c_rarg4 c_rarg5 c_rarg6 c_rarg7
       j_rarg0 j_rarg1 j_rarg2 j_rarg3 j_rarg4 j_rarg5 j_rarg6 j_rarg7
       x0 x1 x2 x3 x4 x5 x6 x7 x8 x9 x10 x11 x12 x13 x14 x15 x16 x17 x18 x19 x20
       x21 x22 x23 x24 x25 x26 x27 x28 x29 x30 x31].

Ltac neq_solve :=
  first [ reflexivity | assumption | apply Nat.eqb_neq; reg_names; congruence ].

Ltac xregs :=
  repeat first
    [ rewrite getr_zr
    | rewrite getr_setr_eq by neq_solve
    | rewrite getr_setr_ne by neq_solve ].

Ltac xsimpl :=
  cbn [exec exec_macro next halt write log poke addr_of save_regs
       pc regs mem saved trace stat base offset Addr eval_operand eval_alu eval_cmp];
  xregs.

Ltac xlabel :=
  cbn [goto];
  repeat match goal with
         | |- context [label_pos ?p ?l] =>
             let v := eval lazy in (label_pos p l) in
             change (label_pos p l) with v; cbn iota
         end.

(** One instruction, fetched by address from a program that computes. *)
Ltac xstep Hpc Hst :=
  eapply steps_step;
  [ xsimpl; exact Hst
  | xsimpl; rewrite ?Hpc; reflexivity
  | xsimpl ].

Lemma getr_setr_same r v rf : getr rf r = v -> getr (setr r v rf) r = v.
Proof.
  unfold getr, setr. destruct (Nat.eqb r 0) eqn:E; [auto|].
  rewrite Nat.eqb_refl. reflexivity.
Qed.

Lemma getr_write_other r r' v rf : r' <> r -> getr (setr r v rf) r' = getr rf r'.
Proof. intros H. apply getr_setr_ne, Nat.eqb_neq, H. Qed.

Lemma no_exit (o : option nat) : o ≫= (fun i : nat => (@nil Label) !! i) = None.
Proof. destruct o; reflexivity. Qed.

Lemma other_falls e p name r st :
  exec e p (Imacro (Mother name [r] [] true)) st
  = next (write r (havoc e name r (getr (regs st) r)) (log (EvCall name []) st)).
Proof. cbn [exec exec_macro]. rewrite no_exit. reflexivity. Qed.

Lemma wrap_add_0 x : wrap (wrap x + 0) = wrap x.
Proof. rewrite Z.add_0_r. apply wrap_wrap. Qed.

Lemma wrap_bound x : 0 <= wrap x < two64.
Proof. unfold wrap. apply Z.mod_pos_bound. rewrite two64_eq. lia. Qed.

Lemma getr_bound_wrap rf r : (forall q, 0 <= rf q < two64) -> wrap (getr rf r) = getr rf r.
Proof.
  intros H. unfold getr. destruct (Nat.eqb r 0); [reflexivity|]. apply wrap_small, H.
Qed.

(** Straight on, through the labels, up to the next test that is open. *)
Ltac xrun Hpc Hst := repeat first [ xstep Hpc Hst | progress xlabel ].

Ltac facts :=
  repeat match goal with
         | |- _ /\ _ => split
         end;
  try reflexivity; try assumption.

(** One opaque macro that sets one register and falls through. *)
Ltac mstep Hpc Hst :=
  eapply steps_step;
  [ xsimpl; exact Hst
  | xsimpl; rewrite ?Hpc; reflexivity
  | rewrite other_falls; xsimpl ].












(** X3 (g1_write_barrier_post): past the filter the barrier reads the card
    of the address; a young or a dirty card ends it with memory as it was; a
    clean card is set to dirty (0), and its address is stored into the
    dirty-card buffer at the index, lowered by a word and written back, or,
    with index 0, passed to [write_ref_field_post_entry] under
    saved registers. *)
Theorem g1_post_barrier_marks e lay sa nv th tmp tmp2 st :
  NoDup [sa; nv; th; tmp; tmp2; t0] -> tmp <> zr -> tmp2 <> zr ->
  pc st = 0%nat -> stat st = Running ->
  same_region lay (getr (regs st) sa) (getr (regs st) nv) = false ->
  getr (regs st) nv <> 0 ->
  g1_post_marking_post e lay sa nv th tmp tmp2 st.
Proof.
  intros Hnd Htmp Htmp2 Hpc Hst Hreg Hnv.
  neq_facts Hnd. cbv [zr t0 x0 x5] in *.
  unfold g1_post_marking_post. cbv zeta.
  set (p := g1_post_code lay sa nv th tmp tmp2).
  set (a := getr (regs st) sa). set (v := getr (regs st) nv).
  set (t := getr (regs st) th).
  set (card := card_of e lay a).
  assert (Hcard : wrap (card + 0) = card)
    by (unfold card, card_of; apply wrap_add_0).
  unfold same_region in Hreg. fold a v in Hreg.
  assert (Hv0 : (v =? 0) = false) by (apply Z.eqb_neq; exact Hnv).
  (* up to the first look at the card *)
  assert (S9 : exists s9,
    steps e p st s9 /\ pc s9 = 9%nat /\ stat s9 = Running /\ saved s9 = saved st /\
    mem s9 = mem st /\ trace s9 = EvLoad W1 card :: trace st /\
    getr (regs s9) sa = a /\ getr (regs s9) nv = v /\ getr (regs s9) th = t /\
    getr (regs s9) tmp = card /\ getr (regs s9) tmp2 = load W1 card (mem st) /\
    getr (regs s9) t0 = wrap (g1_young_card_val lay)).
  { eexists. split.
    - xstep Hpc Hst. xstep Hpc Hst. xstep Hpc Hst.
      fold a v. rewrite Hreg.
      xstep Hpc Hst. fold v. rewrite Hv0.
      xstep Hpc Hst. xstep Hpc Hst. xstep Hpc Hst. xstep Hpc Hst. xstep Hpc Hst.
      apply steps_refl.
    - xsimpl. rewrite Hpc. fold a v t. fold (card_of e lay a). fold card.
      rewrite Hcard, Z.add_0_l, wrap_wrap. repeat split; try reflexivity; assumption. }
  destruct S9 as (s9 & S9 & Hpc9 & Hst9 & Hsv9 & Hm9 & Htr9 & Ra & Rv & Rt & Rc & Rb & R0).
  set (c := load W1 card (mem st)) in *.
  destruct (c =? wrap (g1_young_card_val lay)) eqn:Hy.
  { (* a young card *)
    eexists. split.
    - eapply steps_trans; [exact S9|].
      xstep Hpc9 Hst9. rewrite Rb, R0, Hy. xlabel.
      xstep Hpc9 Hst9. apply steps_refl.
    - xsimpl. repeat split; try reflexivity; assumption. }
  assert (S12 : exists s12,
    steps e p st s12 /\ pc s12 = 12%nat /\ stat s12 = Running /\ saved s12 = saved st /\
    mem s12 = mem st /\
    trace s12 = EvLoad W1 card :: EvCall "StoreLoad" [] :: EvLoad W1 card :: trace st /\
    getr (regs s12) sa = a /\ getr (regs s12) nv = v /\ getr (regs s12) th = t /\
    getr (regs s12) tmp = card /\ getr (regs s12) tmp2 = c).
  { eexists. split.
    - eapply steps_trans; [exact S9|].
      xstep Hpc9 Hst9. rewrite Rb, R0, Hy.
      xstep Hpc9 Hst9. xstep Hpc9 Hst9. apply steps_refl.
    - xsimpl. rewrite Hpc9, Hsv9, Hm9, Htr9, Rc, Hcard.
      repeat split; try reflexivity; assumption. }
  clear S9 Hpc9 Hst9 Hsv9 Hm9 Htr9 Ra Rv Rt Rc Rb R0 s9.
  destruct S12 as (s & S12 & Hpcs & Hsts & Hsvs & Hms & Htrs & Ra & Rv & Rt & Rc & Rb).
  destruct (c =? 0) eqn:Hd.
  { (* a dirty card *)
    eexists. split.
    - eapply steps_trans; [exact S12|].
      xstep Hpcs Hsts. rewrite Rb, Hd. xlabel.
      xstep Hpcs Hsts. apply steps_refl.
    - xsimpl. repeat split; try reflexivity; assumption. }
  set (m1 := store W1 card 0 (mem st)).
  set (qi := wrap (t + dirty_card_queue_index_offset lay)).
  set (qb := wrap (t + dirty_card_queue_buffer_offset lay)).
  set (idx := load W8 qi m1).
  assert (S15 : exists s15,
    steps e p st s15 /\ pc s15 = 15%nat /\ stat s15 = Running /\ saved s15 = saved st /\
    mem s15 = m1 /\
    trace s15 = EvLoad W8 qi :: EvStore W1 card 0 :: EvLoad W1 card
                  :: EvCall "StoreLoad" [] :: EvLoad W1 card :: trace st /\
    getr (regs s15) sa = a /\ getr (regs s15) nv = v /\ getr (regs s15) th = t /\
    getr (regs s15) tmp = card /\ getr (regs s15) t0 = idx).
  { eexists. split.
    - eapply steps_trans; [exact S12|].
      xstep Hpcs Hsts. rewrite Rb, Hd.
      xstep Hpcs Hsts. xstep Hpcs Hsts. apply steps_refl.
    - xsimpl. rewrite Hpcs, Hsvs, Hms, Htrs, Rc, Rt, Hcard.
      repeat split; try reflexivity; assumption. }
  clear S12 Hpcs Hsts Hsvs Hms Htrs Ra Rv Rt Rc Rb s.
  destruct S15 as (s & S15 & Hpcs & Hsts & Hsvs & Hms & Htrs & Ra & Rv & Rt & Rc & Ri).
  destruct (idx =? 0) eqn:Hi.
  { (* the queue is full: to the runtime *)
    eexists. split.
    - eapply steps_trans; [exact S15|].
      xstep Hpcs Hsts. rewrite Ri, Hi. xlabel.
      xstep Hpcs Hsts. xstep Hpcs Hsts. xstep Hpcs Hsts. xstep Hpcs Hsts.
      xstep Hpcs Hsts. apply steps_refl.
    - unfold restore_regs. xsimpl. cbn [fold_right fst snd map]. xsimpl.
      rewrite ?Hpcs, Hsvs, Hms, Htrs, Rc, Rt.
      split; [reflexivity|]. split; [exact Hsts|]. split; [reflexivity|].
      split; [|split; [|split; reflexivity]].
      + rewrite <- Ra. apply getr_setr_same. apply getr_setr_ne. neq_solve.
      + rewrite <- Rv. rewrite getr_setr_ne by neq_solve. apply getr_setr_same. reflexivity. }
  (* room in the queue *)
  eexists. split.
  - eapply steps_trans; [exact S15|].
    xstep Hpcs Hsts. rewrite Ri, Hi.
    xstep Hpcs Hsts. xstep Hpcs Hsts. xstep Hpcs Hsts. xstep Hpcs Hsts.
    xstep Hpcs Hsts. xstep Hpcs Hsts. xlabel.
    xstep Hpcs Hsts. apply steps_refl.
  - xsimpl. rewrite ?Hpcs, Hsvs, Hms, Htrs, Rc, Rt, Ri.
    fold qi qb. rewrite wrap_add_0.
    split; [reflexivity|]. split; [exact Hsts|]. split; [reflexivity|].
    split; [exact Ra|]. split; [exact Rv|]. split; reflexivity.
Qed.

Lemma g1_post_barrier_marks_witness :
  g1_post_marking_post example_env example_layout x13 x10 xthread t1 x7
                       (example_card_store 16).
Proof.
  apply (g1_post_barrier_marks example_env example_layout x13 x10 xthread t1 x7
           (example_card_store 16)).
  - repeat (apply NoDup_cons_2;
            [repeat (apply not_elem_of_cons; split; [discriminate|]); apply not_elem_of_nil|]).
    apply NoDup_nil_2.
  - discriminate.
  - discriminate.
  - reflexivity.
  - reflexivity.
  - reflexivity.
  - discriminate.
Defined.

(** The example store finds its card clean and room in the queue: the card
    is dirtied and its address 9 put at buffer + 8, the index goes from 16
    to 8. *)
Example example_card_store_enqueued :
  let p := g1_post_code example_layout x13 x10 xthread t1 x7 in
  let s := run 30 example_env p (example_card_store 16) in
  pc s = length p /\ mem s 9 = 0 /\ load W8 4016 (mem s) = 8 /\ load W8 40 (mem s) = 9.
Proof. vm_compute. repeat split; reflexivity. Qed.



(** With marking active the example store records the old value 77 of the
    field at buffer + 8; with marking off it leaves memory alone. *)
Example example_field_store_recorded :
  let p := g1_pre_code example_satb (Some x13) x7 xthread t1 true false in
  let s := run 30 example_env p (example_field_store 1 16) in
  let s' := run 30 example_env p (example_field_store 0 16) in
  pc s = length p /\ load W8 4104 (mem s) = 8 /\ load W8 40 (mem s) = 77 /\
  pc s' = length p /\ load W8 4104 (mem s') = 16 /\ load W8 40 (mem s') = 0.
Proof. vm_compute. repeat split; reflexivity. Qed.

Lemma load_bytes_agree n : forall a m m',
  0 <= a -> a + Z.of_nat n <= two64 ->
  (forall x, a <= x < a + Z.of_nat n -> m x = m' x) ->
  load_bytes n a m = load_bytes n a m'.
Proof.
  induction n as [|n IH]; intros a m m' Ha Hb H; [reflexivity|].
  rewrite Nat2Z.inj_succ in Hb, H.
  cbn [load_bytes]. rewrite wrap_small by lia.
  rewrite (H a) by lia. rewrite (IH (a + 1) m m'); [reflexivity | lia | lia |].
  intros x Hx. apply H. lia.
Qed.

Lemma load_agree w a m m' :
  0 <= a -> a + bytes_of w <= two64 ->
  (forall x, a <= x < a + bytes_of w -> m x = m' x) ->
  load w a m = load w a m'.
Proof.
  intros Ha Hb H. unfold load. apply load_bytes_agree; rewrite ?nbytes_of; assumption.
Qed.


Lemma store_out w a v m x :
  0 <= a -> a + bytes_of w <= two64 -> x < a \/ a + bytes_of w <= x ->
  store w a v m x = m x.
Proof.
  intros Ha Hb Hx. unfold store. apply store_bytes_out; rewrite ?nbytes_of; assumption.
Qed.


Section Bang.

Variables (e : env) (p : program) (lay : vm_layout).

Hypothesis Hps : 8 <= page_size lay.


End Bang.





(** X6 (lock_method): the monitor of a synchronized method holds the class
    mirror for a static method and the receiver otherwise; under ASSERT the
    method has to be flagged synchronized and the mirror not to be null, or
    the code stops. *)
Theorem lock_method_locks e flags lay st :
  pc st = 0%nat -> stat st = Running ->
  (ASSERT flags = true ->
   Z.land (method_flags lay st) (wrap (JVM_ACC_SYNCHRONIZED lay)) <> 0 /\
   (is_static_method lay st = true -> mirror_of e (getr (regs st) xmethod) <> 0)) ->
  lock_method_post e flags lay st.
Proof.
  intros Hpc Hst Has.
  cbv delta [lock_method_post lock_method_code synchronization_object is_static_method
             method_flags] beta.
  destruct flags as [pr asr co vo tc pi sb sh ic]. cbn [ASSERT] in Has.
  intros p obj entry_size esp' top slot.
  unfold is_static_method, method_flags in Has.
  destruct (Z.land (load W4 (wrap (getr (regs st) xmethod + access_flags_offset lay))
                      (mem st)) (wrap (JVM_ACC_STATIC lay)) =? 0) eqn:Hstat;
    cbn [negb] in obj, Has; destruct asr.
  - destruct (Has eq_refl) as (Hsy & _). apply Z.eqb_neq in Hsy.
    subst obj entry_size esp' top slot. eexists. eexists [_; _; _].
    split; [xrun Hpc Hst; rewrite Hsy; cbn [negb]; xrun Hpc Hst; rewrite Hstat;
            xrun Hpc Hst; apply steps_refl|].
    xsimpl. rewrite ?Hpc, ?wrap_add_0. facts.
  - subst obj entry_size esp' top slot. eexists. eexists [_; _].
    split; [xrun Hpc Hst; rewrite Hstat; xrun Hpc Hst; apply steps_refl|].
    xsimpl. rewrite ?Hpc, ?wrap_add_0. facts.
  - destruct (Has eq_refl) as (Hsy & Hmi). apply Z.eqb_neq in Hsy.
    specialize (Hmi eq_refl). apply Z.eqb_neq in Hmi.
    subst obj entry_size esp' top slot. eexists. eexists [_; _; _].
    split; [xrun Hpc Hst; rewrite Hsy; cbn [negb]; xrun Hpc Hst; rewrite Hstat;
            xrun Hpc Hst; rewrite Hmi; cbn [negb]; xrun Hpc Hst; apply steps_refl|].
    xsimpl. rewrite ?Hpc, ?wrap_add_0. facts.
  - subst obj entry_size esp' top slot. eexists. eexists [_; _].
    split; [xrun Hpc Hst; rewrite Hstat; xrun Hpc Hst; apply steps_refl|].
    xsimpl. rewrite ?Hpc, ?wrap_add_0. facts.
Qed.

Lemma lock_method_locks_witness :
  lock_method_post example_env (mkFlags false true true false true true true false true)
                   example_layout (example_lock_call 40).
Proof.
  apply (lock_method_locks example_env (mkFlags false true true false true true true false true)
           example_layout (example_lock_call 40)).
  - reflexivity.
  - reflexivity.
  - intros _. split; [vm_compute; discriminate | intros _; vm_compute; discriminate].
Defined.

Lemma table_hit {A} (tbl : list A) k : (k < length tbl)%nat -> exists x, tbl !! k = Some x.
Proof. intros H. apply lookup_lt_is_Some_2 in H. destruct H as (x & Hx). eauto. Qed.

Lemma table_miss {A} (tbl : list A) k : (length tbl <= k)%nat -> tbl !! k = None.
Proof. apply lookup_ge_None_2. Qed.

Ltac cc_cases st :=
  destruct (Nat.ltb_spec (int_args st) 8) as [Hi8|Hi8];
  destruct (Nat.ltb_spec (fp_args st) 8) as [Hf8|Hf8].

Lemma java_body_places sig j st :
  Forall (fun t => java_type t = true) sig ->
  (j < length sig)%nat -> java_inv' sig j st ->
  exists st', java_cc_body sig j st = Some st' /\ java_inv' sig (S j) st' /\
    (forall k, k <> j -> regs_out st' !! k = regs_out st !! k) /\
    exists p, regs_out st' !! j = Some p /\ placed (java_place sig) sig j p.
Proof.
  intros Hall Hj (Ii & If & Is & Il).
  destruct (lookup_lt_is_Some_2 sig j Hj) as (t & Ht).
  pose proof (Forall_lookup_1 _ _ _ _ Hall Ht) as Hc. cbn in Hc.
  pose proof (fp_before_S sig j t Ht) as HF. pose proof (int_before_S sig j t Ht) as HI.
  assert (Hjl : (j < length (regs_out st))%nat) by lia.
  unfold java_cc_body. rewrite Ht. cbn [mbind option_bind].
  unfold n_int_register_parameters_j, n_float_register_parameters_j.
  unfold java_inv', placed, java_stack_before in *.
  cc_cases st.
  all: destruct t; try discriminate Hc; cbn [is_fp_type is_int_type] in HF, HI.
  all: destruct (Nat.ltb_spec (int_before sig j) 8) as [Hci|Hci];
    destruct (Nat.ltb_spec (fp_before sig j) 8) as [Hcf|Hcf]; try lia.
  all: try (destruct (table_hit java_INT_ArgReg (int_before sig j) Hci) as (r & Hr));
    try (destruct (table_hit java_FP_ArgReg (fp_before sig j) Hcf) as (f & Hfr)).
  all: try (pose proof (table_miss java_INT_ArgReg (int_before sig j) Hci) as Hr);
    try (pose proof (table_miss java_FP_ArgReg (fp_before sig j) Hcf) as Hfr).
  all: first [rewrite Nat.min_r in Ii by lia | rewrite Nat.min_l in Ii by lia];
    first [rewrite Nat.min_r in If by lia | rewrite Nat.min_l in If by lia].
  all: unfold take_int, take_fp, take_stack, take_bad;
    rewrite ?Ii, ?If; rewrite ?Hr, ?Hfr; cbn [mbind option_bind];
    (eexists; split; [reflexivity|]); cbn [int_args fp_args stk_args regs_out].
  all: (split; [rewrite length_insert; repeat split; lia|]).
  all: (split; [intros k Hk; apply list_lookup_insert_ne; congruence|]).
  all: eexists; (split; [apply list_lookup_insert_eq; exact Hjl|]).
  all: intros t' Ht'; rewrite Ht in Ht'; injection Ht' as <-.
  all: unfold java_place, pair_for, java_stack_before;
    cbn [is_int_type is_fp_type two_halves]; rewrite ?Hr, ?Hfr, ?Is; reflexivity.
Qed.

Lemma c_body_places sig j st :
  Forall (fun t => c_type t = true) sig ->
  (j < length sig)%nat -> c_inv' sig j st ->
  exists st', c_cc_body sig j st = Some st' /\ c_inv' sig (S j) st' /\
    (forall k, k <> j -> regs_out st' !! k = regs_out st !! k) /\
    exists p, regs_out st' !! j = Some p /\ placed (c_place sig) sig j p.
Proof.
  intros Hall Hj (Ii & If & Is & Il).
  destruct (lookup_lt_is_Some_2 sig j Hj) as (t & Ht).
  pose proof (Forall_lookup_1 _ _ _ _ Hall Ht) as Hc. cbn in Hc.
  pose proof (fp_before_S sig j t Ht) as HF. pose proof (int_before_S sig j t Ht) as HI.
  assert (Hjl : (j < length (regs_out st))%nat) by lia.
  unfold c_cc_body. rewrite Ht. cbn [mbind option_bind].
  unfold n_int_register_parameters_c, n_float_register_parameters_c.
  unfold c_inv', placed, c_stack_before, c_rank in *.
  cc_cases st.
  all: destruct t; try discriminate Hc; cbn [is_fp_type is_int_type] in HF, HI.
  all: destruct (Nat.ltb_spec (int_before sig j + (fp_before sig j - 8)) 8) as [Hci|Hci];
    destruct (Nat.ltb_spec (fp_before sig j) 8) as [Hcf|Hcf]; try lia.
  all: try (destruct (table_hit c_INT_ArgReg _ Hci) as (r & Hr));
    try (destruct (table_hit c_FP_ArgReg (fp_before sig j) Hcf) as (f & Hfr)).
  all: try (pose proof (table_miss c_INT_ArgReg _ Hci) as Hr);
    try (pose proof (table_miss c_FP_ArgReg (fp_before sig j) Hcf) as Hfr).
  all: first [rewrite Nat.min_r in Ii by lia | rewrite Nat.min_l in Ii by lia];
    first [rewrite Nat.min_r in If by lia | rewrite Nat.min_l in If by lia].
  all: unfold take_int, take_fp, take_stack, take_bad;
    rewrite ?Ii, ?If; rewrite ?Hr, ?Hfr; cbn [mbind option_bind];
    (eexists; split; [reflexivity|]); cbn [int_args fp_args stk_args regs_out].
  all: (split; [rewrite length_insert; repeat split; lia|]).
  all: (split; [intros k Hk; apply list_lookup_insert_ne; congruence|]).
  all: eexists; (split; [apply list_lookup_insert_eq; exact Hjl|]).
  all: intros t' Ht'; rewrite Ht in Ht'; injection Ht' as <-.
  all: unfold c_place, pair_for, c_stack_before, c_rank;
    cbn [is_int_type is_fp_type two_halves]; rewrite ?Hr, ?Hfr, ?Is; reflexivity.
Qed.

Lemma align_up_even k : align_up (2 * k) 2 = (2 * k)%nat.
Proof.
  unfold align_up. replace (2 * k + 2 - 1)%nat with (1 + k * 2)%nat by lia.
  rewrite Nat.div_add by lia. cbn [Nat.div Nat.divmod fst]. lia.
Qed.

Lemma java_convention_places sig regs :
  length regs = length sig -> Forall (fun t => java_type t = true) sig ->
  convention_result (java_calling_convention sig regs (length sig)) sig
                    (java_stack_before sig (length sig)) (java_place sig).
Proof.
  intros Hlen Hall.
  destruct (cc_loop_invariant (java_cc_body sig) (java_inv' sig) (placed (java_place sig) sig)
              (length sig) (fun j st Hj HI => java_body_places sig j st Hall Hj HI)
              (length sig) 0%nat (cc_init regs))
    as (st' & E & (_ & _ & Is & Il) & _ & HQ).
  - lia.
  - repeat split; cbn; auto.
  - exists (regs_out st'). unfold java_calling_convention. rewrite E. cbn [mbind option_bind].
    cbn [Nat.add] in Is. rewrite Is. unfold java_stack_before at 1. rewrite align_up_even.
    split; [reflexivity|]. split; [exact Il|].
    intros j t Ht. assert (Hj : (j < length sig)%nat) by (eapply lookup_lt_Some; exact Ht).
    destruct (HQ j ltac:(lia)) as (p & Hp & Hq). rewrite Hp, (Hq t Ht). reflexivity.
Qed.

Lemma c_convention_places sig regs :
  length regs = length sig -> Forall (fun t => c_type t = true) sig ->
  convention_result (c_calling_convention sig regs (length sig)) sig
                    (c_stack_before sig (length sig)) (c_place sig).
Proof.
  intros Hlen Hall.
  destruct (cc_loop_invariant (c_cc_body sig) (c_inv' sig) (placed (c_place sig) sig)
              (length sig) (fun j st Hj HI => c_body_places sig j st Hall Hj HI)
              (length sig) 0%nat (cc_init regs))
    as (st' & E & (_ & _ & Is & Il) & _ & HQ).
  - lia.
  - repeat split; cbn; auto.
  - exists (regs_out st'). unfold c_calling_convention. rewrite E. cbn [mbind option_bind].
    cbn [Nat.add] in Is. rewrite Is.
    split; [reflexivity|]. split; [exact Il|].
    intros j t Ht. assert (Hj : (j < length sig)%nat) by (eapply lookup_lt_Some; exact Ht).
    destruct (HQ j ltac:(lia)) as (p & Hp & Hq). rewrite Hp, (Hq t Ht). reflexivity.
Qed.

(** X7 (SharedRuntime::java_calling_convention): for a signature of the
    types it has a case for, argument [j] is in the integer register of its
    rank among the integer-family arguments, or in the floating register of
    its rank among the floating ones, while that rank is below eight;
    otherwise in the stack slot numbered twice the count of arguments that
    overflowed in front of it; the size returned is twice the count of all
    that overflowed. *)
Theorem java_convention_closed_form sig regs :
  length regs = length sig -> Forall (fun t => java_type t = true) sig ->
  convention_result (java_calling_convention sig regs (length sig)) sig
                    (java_stack_before sig (length sig)) (java_place sig).
Proof. exact (java_convention_places sig regs). Qed.

Lemma java_convention_closed_form_witness :
  convention_result
    (java_calling_convention example_signature (replicate 35 set_bad) 35) example_signature
    (java_stack_before example_signature 35) (java_place example_signature).
Proof.
  apply (java_convention_closed_form example_signature (replicate 35 set_bad)).
  - reflexivity.
  - repeat constructor.
Defined.

(** X8 (SharedRuntime::c_calling_convention): for a signature of the types
    it has a case for, a floating argument with fewer than eight floating
    ones in front is in the floating register of that rank; every other
    argument is ranked among the integer-family arguments and the floating
    ones past the eighth, and is in the integer register of that rank below
    eight, in stack slot twice (rank - 8) from there; the size returned is
    twice the count of those past the eighth. *)
Theorem c_convention_closed_form sig regs :
  length regs = length sig -> Forall (fun t => c_type t = true) sig ->
  convention_result (c_calling_convention sig regs (length sig)) sig
                    (c_stack_before sig (length sig)) (c_place sig).
Proof. exact (c_convention_places sig regs). Qed.

Lemma c_convention_closed_form_witness :
  convention_result
    (c_calling_convention example_signature (replicate 35 set_bad) 35) example_signature
    (c_stack_before example_signature 35) (c_place example_signature).
Proof.
  apply (c_convention_closed_form example_signature (replicate 35 set_bad)).
  - reflexivity.
  - repeat constructor.
Defined.

Lemma int_before_mono sig i j :
  (i <= j)%nat -> (j <= length sig)%nat -> (int_before sig i <= int_before sig j)%nat.
Proof.
  induction 1 as [|j Hij IH]; intros Hj; [lia|].
  destruct (lookup_lt_is_Some_2 sig j ltac:(lia)) as (t & Ht).
  rewrite (int_before_S sig j t Ht). specialize (IH ltac:(lia)). lia.
Qed.

Lemma fp_before_mono sig i j :
  (i <= j)%nat -> (j <= length sig)%nat -> (fp_before sig i <= fp_before sig j)%nat.
Proof.
  induction 1 as [|j Hij IH]; intros Hj; [lia|].
  destruct (lookup_lt_is_Some_2 sig j ltac:(lia)) as (t & Ht).
  rewrite (fp_before_S sig j t Ht). specialize (IH ltac:(lia)). lia.
Qed.

Lemma first_pair_for t v : first (pair_for t v) = v.
Proof. unfold pair_for. destruct (two_halves t); reflexivity. Qed.

Lemma java_int_table a r :
  java_INT_ArgReg !! a = Some r -> 0 <= as_VMReg r < 64.
Proof.
  do 8 (destruct a as [|a]; [intros [= <-]; vm_compute; split; congruence|]).
  discriminate.
Qed.

Lemma c_int_table a r :
  c_INT_ArgReg !! a = Some r -> 0 <= as_VMReg r < 64.
Proof.
  do 8 (destruct a as [|a]; [intros [= <-]; vm_compute; split; congruence|]).
  discriminate.
Qed.

Lemma fp_table a f :
  c_FP_ArgReg !! a = Some f -> 64 <= fas_VMReg f < 128.
Proof.
  do 8 (destruct a as [|a]; [intros [= <-]; vm_compute; split; congruence|]).
  discriminate.
Qed.

Lemma table_apart (tbl : list nat) a b r r' :
  NoDup tbl -> tbl !! a = Some r -> tbl !! b = Some r' -> a <> b -> r <> r'.
Proof.
  intros H Ha Hb Hne ->. apply Hne. exact (proj1 (NoDup_alt tbl) H a b r' Ha Hb).
Qed.

Lemma java_int_nodup : NoDup java_INT_ArgReg.
Proof. apply (bool_decide_unpack (NoDup java_INT_ArgReg)). vm_compute. exact I. Qed.

Lemma c_int_nodup : NoDup c_INT_ArgReg.
Proof. apply (bool_decide_unpack (NoDup c_INT_ArgReg)). vm_compute. exact I. Qed.

Lemma fp_nodup : NoDup c_FP_ArgReg.
Proof. apply (bool_decide_unpack (NoDup c_FP_ArgReg)). vm_compute. exact I. Qed.

Lemma as_VMReg_inj r r' : as_VMReg r = as_VMReg r' -> r = r'.
Proof. unfold as_VMReg. rewrite !Z.shiftl_mul_pow2 by lia. lia. Qed.

Lemma fas_VMReg_inj f f' : fas_VMReg f = fas_VMReg f' -> f = f'.
Proof. unfold fas_VMReg. rewrite !Z.shiftl_mul_pow2 by lia. lia. Qed.

Lemma stack2reg_range k : 128 <= stack2reg (Z.of_nat k).
Proof. unfold stack2reg, stack0. lia. Qed.

Lemma handled_not_void t :
  c_type t = true -> t <> T_VOID -> is_int_type t || is_fp_type t = true.
Proof. destruct t; cbn; intros; congruence. Qed.

Lemma java_type_c_type t : java_type t = true -> c_type t = true.
Proof. unfold java_type. intros H. apply andb_true_iff in H. tauto. Qed.

(** The lookups of a place, each resolved with the bound it stands for. *)
Ltac place_cases :=
  repeat match goal with
         | |- context [?tbl !! ?k] =>
             let E := fresh "E" in
             let r := fresh "r" in
             destruct (tbl !! k) as [r|] eqn:E;
             [ pose proof (lookup_lt_Some _ _ _ E) | pose proof (lookup_ge_None_1 _ _ E) ]
         end;
  rewrite ?first_pair_for;
  repeat match goal with
         | H : java_INT_ArgReg !! _ = Some _ |- _ => pose proof (java_int_table _ _ H); revert H
         | H : c_INT_ArgReg !! _ = Some _ |- _ => pose proof (c_int_table _ _ H); revert H
         | H : c_FP_ArgReg !! _ = Some _ |- _ => pose proof (fp_table _ _ H); revert H
         | H : java_FP_ArgReg !! _ = Some _ |- _ => pose proof (fp_table _ _ H); revert H
         end;
  intros.

Lemma java_places_ordered sig i j ti tj :
  (i < j)%nat -> sig !! i = Some ti -> sig !! j = Some tj ->
  is_int_type ti || is_fp_type ti = true -> is_int_type tj || is_fp_type tj = true ->
  first (java_place sig i ti) <> first (java_place sig j tj).
Proof.
  intros Hij Hi Hj Hti Htj.
  assert (Hl : (j < length sig)%nat) by (eapply lookup_lt_Some; exact Hj).
  pose proof (int_before_mono sig (S i) j ltac:(lia) ltac:(lia)) as Mi.
  pose proof (fp_before_mono sig (S i) j ltac:(lia) ltac:(lia)) as Mf.
  rewrite (int_before_S sig i ti Hi) in Mi. rewrite (fp_before_S sig i ti Hi) in Mf.
  unfold java_place, java_stack_before.
  destruct (is_int_type ti) eqn:Ai, (is_fp_type ti) eqn:Af; try discriminate Hti;
    destruct (is_int_type tj) eqn:Bi, (is_fp_type tj) eqn:Bf; try discriminate Htj.
  all: place_cases.
  all: cbn [length java_INT_ArgReg java_FP_ArgReg] in *.
  all: try (pose proof (stack2reg_range
                          (2 * (int_before sig i - 8 + (fp_before sig i - 8)))));
    try (pose proof (stack2reg_range
                       (2 * (int_before sig j - 8 + (fp_before sig j - 8))))).
  all: try lia.
  all: try (intros Heq; apply as_VMReg_inj in Heq; revert Heq;
            eapply (table_apart java_INT_ArgReg); [apply java_int_nodup|eassumption..|lia]).
  all: try (intros Heq; apply fas_VMReg_inj in Heq; revert Heq;
            eapply (table_apart java_FP_ArgReg); [apply fp_nodup|eassumption..|lia]).
  all: unfold stack2reg; lia.
Qed.

Lemma c_places_ordered sig i j ti tj :
  (i < j)%nat -> sig !! i = Some ti -> sig !! j = Some tj ->
  is_int_type ti || is_fp_type ti = true -> is_int_type tj || is_fp_type tj = true ->
  first (c_place sig i ti) <> first (c_place sig j tj).
Proof.
  intros Hij Hi Hj Hti Htj.
  assert (Hl : (j < length sig)%nat) by (eapply lookup_lt_Some; exact Hj).
  pose proof (int_before_mono sig (S i) j ltac:(lia) ltac:(lia)) as Mi.
  pose proof (fp_before_mono sig (S i) j ltac:(lia) ltac:(lia)) as Mf.
  rewrite (int_before_S sig i ti Hi) in Mi. rewrite (fp_before_S sig i ti Hi) in Mf.
  unfold c_place, c_stack_before, c_rank.
  destruct (is_int_type ti) eqn:Ai, (is_fp_type ti) eqn:Af; try discriminate Hti;
    destruct (is_int_type tj) eqn:Bi, (is_fp_type tj) eqn:Bf; try discriminate Htj.
  all: place_cases.
  all: cbn [length c_INT_ArgReg c_FP_ArgReg] in *.
  all: try (pose proof (stack2reg_range
                          (2 * (int_before sig i + (fp_before sig i - 8) - 8))));
    try (pose proof (stack2reg_range
                       (2 * (int_before sig j + (fp_before sig j - 8) - 8)))).
  all: try lia.
  all: try (intros Heq; apply as_VMReg_inj in Heq; revert Heq;
            eapply (table_apart c_INT_ArgReg); [apply c_int_nodup|eassumption..|lia]).
  all: try (intros Heq; apply fas_VMReg_inj in Heq; revert Heq;
            eapply (table_apart c_FP_ArgReg); [apply fp_nodup|eassumption..|lia]).
  all: unfold stack2reg; lia.
Qed.

Lemma java_place_below sig j t :
  sig !! j = Some t -> is_stack (first (java_place sig j t)) = true ->
  0 <= reg2stack (first (java_place sig j t)) /\
  reg2stack (first (java_place sig j t)) + 2 <= Z.of_nat (java_stack_before sig (length sig)).
Proof.
  intros Hj.
  assert (Hl : (j < length sig)%nat) by (eapply lookup_lt_Some; exact Hj).
  pose proof (int_before_mono sig (S j) (length sig) ltac:(lia) ltac:(lia)) as Mi.
  pose proof (fp_before_mono sig (S j) (length sig) ltac:(lia) ltac:(lia)) as Mf.
  rewrite (int_before_S sig j t Hj) in Mi. rewrite (fp_before_S sig j t Hj) in Mf.
  unfold java_place, java_stack_before, is_stack, reg2stack.
  destruct (is_int_type t) eqn:Ai, (is_fp_type t) eqn:Af.
  all: place_cases.
  all: cbn [length java_INT_ArgReg java_FP_ArgReg first set_bad] in *.
  all: unfold stack2reg, stack0, VMReg_Bad in *.
  all: match goal with
       | Hs : (_ <=? _) = true |- _ => apply Z.leb_le in Hs
       end; lia.
Qed.

Lemma c_place_below sig j t :
  sig !! j = Some t -> is_stack (first (c_place sig j t)) = true ->
  0 <= reg2stack (first (c_place sig j t)) /\
  reg2stack (first (c_place sig j t)) + 2 <= Z.of_nat (c_stack_before sig (length sig)).
Proof.
  intros Hj.
  assert (Hl : (j < length sig)%nat) by (eapply lookup_lt_Some; exact Hj).
  pose proof (int_before_mono sig (S j) (length sig) ltac:(lia) ltac:(lia)) as Mi.
  pose proof (fp_before_mono sig (S j) (length sig) ltac:(lia) ltac:(lia)) as Mf.
  rewrite (int_before_S sig j t Hj) in Mi. rewrite (fp_before_S sig j t Hj) in Mf.
  unfold c_place, c_stack_before, c_rank, is_stack, reg2stack.
  destruct (is_int_type t) eqn:Ai, (is_fp_type t) eqn:Af.
  all: place_cases.
  all: cbn [length c_INT_ArgReg c_FP_ArgReg first set_bad] in *.
  all: unfold stack2reg, stack0, VMReg_Bad in *.
  all: match goal with
       | Hs : (_ <=? _) = true |- _ => apply Z.leb_le in Hs
       end; lia.
Qed.

Lemma result_apart r sig stack place :
  convention_result r sig stack place ->
  Forall (fun t => c_type t = true) sig ->
  (forall i j ti tj, (i < j)%nat -> sig !! i = Some ti -> sig !! j = Some tj ->
     is_int_type ti || is_fp_type ti = true -> is_int_type tj || is_fp_type tj = true ->
     first (place i ti) <> first (place j tj)) ->
  (forall j t, sig !! j = Some t -> is_stack (first (place j t)) = true ->
     0 <= reg2stack (first (place j t)) /\
     reg2stack (first (place j t)) + 2 <= Z.of_nat stack) ->
  places_apart r sig.
Proof.
  intros (out & E & _ & Hout) Hall Hord Hbelow. exists stack, out.
  split; [exact E|]. split.
  - intros i j ti tj p q Hne Hi Hj Vi Vj Hp Hq.
    rewrite (Hout i ti Hi) in Hp. rewrite (Hout j tj Hj) in Hq.
    injection Hp as <-. injection Hq as <-.
    pose proof (handled_not_void ti (Forall_lookup_1 _ _ _ _ Hall Hi) Vi) as Ti.
    pose proof (handled_not_void tj (Forall_lookup_1 _ _ _ _ Hall Hj) Vj) as Tj.
    destruct (Nat.lt_total i j) as [Hlt|[Heq|Hgt]]; [|contradiction|].
    + exact (Hord i j ti tj Hlt Hi Hj Ti Tj).
    + intros Heq. exact (Hord j i tj ti Hgt Hj Hi Tj Ti (eq_sym Heq)).
  - intros j t p Hj Hp. rewrite (Hout j t Hj) in Hp. injection Hp as <-.
    exact (Hbelow j t Hj).
Qed.

(** X9 (SharedRuntime::java_calling_convention,
    SharedRuntime::c_calling_convention): no two arguments share a place:
    the arguments that are not [T_VOID] halves get pairwise different
    registers or stack slots, and each one on the stack has both its slots
    below the stack size the convention returns. *)
Theorem arguments_never_share_a_place sig regs :
  length regs = length sig -> conventions_apart sig regs.
Proof.
  intros Hlen. split; intros Hall.
  - apply (result_apart _ sig _ _ (java_convention_places sig regs Hlen Hall)).
    + eapply Forall_impl; [exact Hall|]. intros t. apply java_type_c_type.
    + apply java_places_ordered.
    + apply java_place_below.
  - apply (result_apart _ sig _ _ (c_convention_places sig regs Hlen Hall)).
    + exact Hall.
    + apply c_places_ordered.
    + apply c_place_below.
Qed.

Lemma arguments_never_share_a_place_witness :
  conventions_apart example_signature (replicate 35 set_bad).
Proof.
  apply (arguments_never_share_a_place example_signature (replicate 35 set_bad)).
  reflexivity.
Defined.






Lemma load_bytes_prefix n k : forall a m,
  load_bytes (n + k) a m mod 256 ^ Z.of_nat n = load_bytes n a m.
Proof.
  induction n as [|n IH]; intros a m.
  - cbn [load_bytes Z.of_nat]. rewrite Z.pow_0_r. apply Z.mod_1_r.
  - cbn [load_bytes Nat.add]. rewrite Nat2Z.inj_succ, Z.pow_succ_r by lia.
    rewrite Z.rem_mul_r by lia.
    rewrite (Z.mul_comm 256 (load_bytes (n + k) (a + 1) m)), Z.mod_add by lia.
    rewrite Z.mod_mod by lia. rewrite Z.div_add by lia.
    rewrite (Z.div_small (m (wrap a) mod 256) 256) by (apply Z.mod_pos_bound; lia).
    rewrite Z.add_0_l, IH. reflexivity.
Qed.

Lemma load_bytes_store_prefix n k a v m :
  0 <= a -> a + Z.of_nat (n + k) <= two64 ->
  load_bytes n a (store_bytes (n + k) a v m) = v mod 256 ^ Z.of_nat n.
Proof.
  intros Ha Hb. rewrite <- (load_bytes_prefix n k).
  rewrite load_bytes_store_same by assumption.
  apply Z.mod_mod_divide.
  exists (256 ^ Z.of_nat k). rewrite Nat2Z.inj_add, Z.pow_add_r by lia. lia.
Qed.

Lemma load4_store8 a v m :
  0 <= a -> a + 8 <= two64 -> load W4 a (store W8 a v m) = v mod 256 ^ 4.
Proof.
  intros Ha Hb. unfold load, store. cbn [nbytes].
  apply (load_bytes_store_prefix 4 4 a v m Ha). cbn. lia.
Qed.

Lemma load8_store8 a v m :
  0 <= a -> a + 8 <= two64 -> load W8 a (store W8 a v m) = v mod 256 ^ 8.
Proof.
  intros Ha Hb. unfold load, store. cbn [nbytes].
  apply (load_bytes_store_prefix 8 0 a v m Ha). cbn. lia.
Qed.

Lemma load8_low4 a m : load W8 a m mod 256 ^ 4 = load W4 a m.
Proof. exact (load_bytes_prefix 4 4 a m). Qed.

Lemma load_mod w a m : load w a m mod 256 ^ bytes_of w = load w a m.
Proof.
  unfold load. pose proof (load_bytes_bound (nbytes w) a m) as H.
  rewrite nbytes_of in H. apply Z.mod_small. exact H.
Qed.

Lemma sext_W4 v : 0 <= v < 2 ^ 32 -> sext W4 v = sext32 v.
Proof. intros H. unfold sext, sext32. rewrite Z.mod_small by exact H. reflexivity. Qed.

Lemma sext32_mod v : sext32 (v mod 256 ^ 4) = sext32 v.
Proof. unfold sext32. change (256 ^ 4) with (2 ^ 32). rewrite Z.mod_mod by lia. reflexivity. Qed.

Lemma sext32_low v : sext32 v mod 256 ^ 4 = v mod 256 ^ 4.
Proof.
  unfold sext32. change (256 ^ 4) with (2 ^ 32). cbv zeta.
  pose proof (Z.mod_pos_bound v (2 ^ 32) ltac:(lia)) as H.
  destruct (Z.ltb_spec (v mod 2 ^ 32) (2 ^ 31)).
  - apply Z.mod_mod. lia.
  - unfold wrap. rewrite two64_eq.
    replace ((v mod 2 ^ 32 - 2 ^ 32) mod 18446744073709551616)
      with (v mod 2 ^ 32 - 2 ^ 32 + 18446744073709551616).
    + replace (v mod 2 ^ 32 - 2 ^ 32 + 18446744073709551616)
        with (v mod 2 ^ 32 + 4294967295 * 2 ^ 32) by lia.
      rewrite Z.mod_add by lia. apply Z.mod_mod. lia.
    + apply Z.mod_unique with (q := -1); lia.
Qed.

Lemma neq_eqb (r r' : Register) : r <> r' -> Nat.eqb r r' = false.
Proof. apply Nat.eqb_neq. Qed.

Section Moves.

Variables (e : env) (src dst : VMRegPair) (st : state).

Hypotheses (Hpc : pc st = 0%nat) (Hst : stat st = Running).

Hypothesis Hok : move_ok src dst st.

Lemma move32_64_stack_stack :
  is_stack (first src) = true -> is_stack (first dst) = true ->
  move_post e (move32_64_code src dst) W4 src dst st.
Proof.
  intros Hs Hd. destruct Hok as (Ha & Hb). rewrite Hd in Hb. specialize (Ha Hs).
  cbv zeta in Ha, Hb.
  assert (Hp : move32_64_code src dst
               = [Iload W8 false t0 (Addr fp (reg2offset_in (first src)));
                  Istore W8 t0 (Addr sp (reg2offset_out (first dst)))])
    by (unfold move32_64_code, move32_64; rewrite Hs, Hd; reflexivity).
  rewrite Hp. unfold move_post, arg_in, arg_out, move_frame. rewrite Hs, Hd.
  eexists. split.
  { xstep Hpc Hst. xstep Hpc Hst. apply steps_refl. }
  xsimpl. rewrite !wrap_small by (rewrite two64_eq in *; lia).
  split; [rewrite Hpc; reflexivity|]. split; [exact Hst|].
  split; [rewrite load4_store8 by lia; apply load8_low4|].
  split; [discriminate|]. split; [|split; [|reflexivity]].
  - intros r Hr _. apply getr_write_other. exact Hr.
  - intros x Hx. specialize (Hx eq_refl). apply store_out; cbn [bytes_of]; lia.
Qed.

Lemma move32_64_stack_reg :
  is_stack (first src) = true -> is_stack (first dst) = false ->
  move_post e (move32_64_code src dst) W4 src dst st.
Proof.
  intros Hs Hd. destruct Hok as (Ha & Hb). rewrite Hd in Hb. specialize (Ha Hs).
  cbv zeta in Ha. apply neq_eqb in Hb.
  assert (Hp : move32_64_code src dst
               = [Iload W4 true (as_Register (first dst))
                    (Addr fp (reg2offset_in (first src)))])
    by (unfold move32_64_code, move32_64; rewrite Hs, Hd; reflexivity).
  rewrite Hp. unfold move_post, arg_in, arg_out, move_frame. rewrite Hs, Hd.
  eexists. split.
  { xstep Hpc Hst. apply steps_refl. }
  xsimpl. rewrite !wrap_small by (rewrite two64_eq in *; lia).
  rewrite sext_W4 by (apply (load_bytes_bound 4)).
  split; [rewrite Hpc; reflexivity|]. split; [exact Hst|].
  split; [rewrite sext32_low; apply (load_mod W4)|].
  split; [reflexivity|]. split; [|split; reflexivity].
  intros r _ Hr. apply getr_write_other. exact (Hr eq_refl).
Qed.

Lemma move32_64_reg_stack :
  is_stack (first src) = false -> is_stack (first dst) = true ->
  move_post e (move32_64_code src dst) W4 src dst st.
Proof.
  intros Hs Hd. destruct Hok as (_ & Hb). rewrite Hd in Hb. cbv zeta in Hb.
  assert (Hp : move32_64_code src dst
               = [Istore W8 (as_Register (first src))
                    (Addr sp (reg2offset_out (first dst)))])
    by (unfold move32_64_code, move32_64; rewrite Hs, Hd; reflexivity).
  rewrite Hp. unfold move_post, arg_in, arg_out, move_frame. rewrite Hs, Hd.
  eexists. split.
  { xstep Hpc Hst. apply steps_refl. }
  xsimpl. rewrite !wrap_small by (rewrite two64_eq in *; lia).
  split; [rewrite Hpc; reflexivity|]. split; [exact Hst|].
  split; [apply load4_store8; lia|].
  split; [discriminate|]. split; [|split; [|reflexivity]].
  - intros r _ _. reflexivity.
  - intros x Hx. specialize (Hx eq_refl). apply store_out; cbn [bytes_of]; lia.
Qed.

Lemma move32_64_reg_reg :
  is_stack (first src) = false -> is_stack (first dst) = false ->
  move_post e (move32_64_code src dst) W4 src dst st.
Proof.
  intros Hs Hd. destruct Hok as (_ & Hb). rewrite Hd in Hb. apply neq_eqb in Hb.
  unfold move_post, arg_in, arg_out, move_frame. rewrite Hs, Hd.
  destruct (Z.eqb_spec (first dst) (first src)) as [E|E].
  - assert (Hp : move32_64_code src dst = [])
      by (unfold move32_64_code, move32_64; rewrite Hs, Hd;
          rewrite (proj2 (Z.eqb_eq _ _) E); reflexivity).
    rewrite Hp. exists st. split; [apply steps_refl|].
    split; [exact Hpc|]. split; [exact Hst|]. rewrite E.
    split; [reflexivity|]. split; [intros _ H; contradiction|].
    repeat split; reflexivity.
  - assert (Hp : move32_64_code src dst
                 = [Ialu Addw (as_Register (first dst)) (as_Register (first src))
                      (OReg zr)])
      by (unfold move32_64_code, move32_64; rewrite Hs, Hd;
          rewrite (proj2 (Z.eqb_neq _ _) E); reflexivity).
    rewrite Hp. eexists. split.
    { xstep Hpc Hst. apply steps_refl. }
    xsimpl. rewrite Z.add_0_r.
    split; [rewrite Hpc; reflexivity|]. split; [exact Hst|].
    split; [apply sext32_low|].
    split; [intros _ _; symmetry; apply sext32_mod|]. split; [|split; reflexivity].
    intros r _ Hr. apply getr_write_other. exact (Hr eq_refl).
Qed.

Lemma long_move_stack_stack :
  is_stack (first src) = true -> is_stack (first dst) = true ->
  move_post e (long_move_code src dst) W8 src dst st.
Proof.
  intros Hs Hd. destruct Hok as (Ha & Hb). rewrite Hd in Hb. specialize (Ha Hs).
  cbv zeta in Ha, Hb.
  assert (Hp : long_move_code src dst
               = [Iload W8 false t0 (Addr fp (reg2offset_in (first src)));
                  Istore W8 t0 (Addr sp (reg2offset_out (first dst)))])
    by (unfold long_move_code, long_move; rewrite Hs, Hd; reflexivity).
  rewrite Hp. unfold move_post, arg_in, arg_out, move_frame. rewrite Hs, Hd.
  eexists. split.
  { xstep Hpc Hst. xstep Hpc Hst. apply steps_refl. }
  xsimpl. rewrite !wrap_small by (rewrite two64_eq in *; lia).
  split; [rewrite Hpc; reflexivity|]. split; [exact Hst|].
  split; [rewrite load8_store8 by lia; apply (load_mod W8)|].
  split; [discriminate|]. split; [|split; [|reflexivity]].
  - intros r Hr _. apply getr_write_other. exact Hr.
  - intros x Hx. specialize (Hx eq_refl). apply store_out; cbn [bytes_of]; lia.
Qed.

Lemma long_move_stack_reg :
  is_stack (first src) = true -> is_stack (first dst) = false ->
  move_post e (long_move_code src dst) W8 src dst st.
Proof.
  intros Hs Hd. destruct Hok as (Ha & Hb). rewrite Hd in Hb. specialize (Ha Hs).
  cbv zeta in Ha. apply neq_eqb in Hb.
  assert (Hp : long_move_code src dst
               = [Iload W8 false (as_Register (first dst))
                    (Addr fp (reg2offset_in (first src)))])
    by (unfold long_move_code, long_move; rewrite Hs, Hd; reflexivity).
  rewrite Hp. unfold move_post, arg_in, arg_out, move_frame. rewrite Hs, Hd.
  eexists. split.
  { xstep Hpc Hst. apply steps_refl. }
  xsimpl. rewrite !wrap_small by (rewrite two64_eq in *; lia).
  split; [rewrite Hpc; reflexivity|]. split; [exact Hst|].
  split; [apply (load_mod W8)|].
  split; [reflexivity|]. split; [|split; reflexivity].
  intros r _ Hr. apply getr_write_other. exact (Hr eq_refl).
Qed.

Lemma long_move_reg_stack :
  is_stack (first src) = false -> is_stack (first dst) = true ->
  move_post e (long_move_code src dst) W8 src dst st.
Proof.
  intros Hs Hd. destruct Hok as (_ & Hb). rewrite Hd in Hb. cbv zeta in Hb.
  assert (Hp : long_move_code src dst
               = [Istore W8 (as_Register (first src))
                    (Addr sp (reg2offset_out (first dst)))])
    by (unfold long_move_code, long_move; rewrite Hs, Hd; reflexivity).
  rewrite Hp. unfold move_post, arg_in, arg_out, move_frame. rewrite Hs, Hd.
  eexists. split.
  { xstep Hpc Hst. apply steps_refl. }
  xsimpl. rewrite !wrap_small by (rewrite two64_eq in *; lia).
  split; [rewrite Hpc; reflexivity|]. split; [exact Hst|].
  split; [apply load8_store8; lia|].
  split; [discriminate|]. split; [|split; [|reflexivity]].
  - intros r _ _. reflexivity.
  - intros x Hx. specialize (Hx eq_refl). apply store_out; cbn [bytes_of]; lia.
Qed.

Lemma long_move_reg_reg :
  is_stack (first src) = false -> is_stack (first dst) = false ->
  move_post e (long_move_code src dst) W8 src dst st.
Proof.
  intros Hs Hd. destruct Hok as (_ & Hb). rewrite Hd in Hb. apply neq_eqb in Hb.
  unfold move_post, arg_in, arg_out, move_frame. rewrite Hs, Hd.
  destruct (Z.eqb_spec (first dst) (first src)) as [E|E].
  - assert (Hp : long_move_code src dst = [])
      by (unfold long_move_code, long_move; rewrite Hs, Hd;
          rewrite (proj2 (Z.eqb_eq _ _) E); reflexivity).
    rewrite Hp. exists st. split; [apply steps_refl|].
    split; [exact Hpc|]. split; [exact Hst|]. rewrite E.
    split; [reflexivity|]. split; [intros _ H; contradiction|].
    repeat split; reflexivity.
  - assert (Hp : long_move_code src dst
                 = [Ialu Add (as_Register (first dst)) (as_Register (first src))
                      (OImm 0)])
      by (unfold long_move_code, long_move; rewrite Hs, Hd;
          rewrite (proj2 (Z.eqb_neq _ _) E); reflexivity).
    rewrite Hp. eexists. split.
    { xstep Hpc Hst. apply steps_refl. }
    xsimpl. change (wrap 0) with 0. rewrite Z.add_0_r.
    split; [rewrite Hpc; reflexivity|]. split; [exact Hst|].
    split; [apply Z.mod_mod; discriminate|].
    split; [reflexivity|]. split; [|split; reflexivity].
    intros r _ Hr. apply getr_write_other. exact (Hr eq_refl).
Qed.

End Moves.

(** X11 (move32_64): an int argument arrives with its low 32 bits intact
    whichever of the four ways it goes -- stack to stack, stack to register,
    register to stack, register to register -- and a register it is moved
    into from another place holds its sign extension; only [t0], the
    destination register and the eight bytes of the destination slot
    change. *)
Theorem int_move_keeps_low_word e src dst st :
  pc st = 0%nat -> stat st = Running -> move_ok src dst st ->
  move_post e (move32_64_code src dst) W4 src dst st.
Proof.
  intros Hpc Hst Hok.
  destruct (is_stack (first src)) eqn:Hs, (is_stack (first dst)) eqn:Hd.
  - exact (move32_64_stack_stack e src dst st Hpc Hst Hok Hs Hd).
  - exact (move32_64_stack_reg e src dst st Hpc Hst Hok Hs Hd).
  - exact (move32_64_reg_stack e src dst st Hpc Hst Hok Hs Hd).
  - exact (move32_64_reg_reg e src dst st Hpc Hst Hok Hs Hd).
Qed.

Lemma int_move_keeps_low_word_witness :
  move_post example_env (move32_64_code (set1 (stack2reg 0)) (set1 (as_VMReg c_rarg3)))
            W4 (set1 (stack2reg 0)) (set1 (as_VMReg c_rarg3)) example_arg_call.
Proof.
  apply (int_move_keeps_low_word example_env (set1 (stack2reg 0)) (set1 (as_VMReg c_rarg3))
           example_arg_call).
  - reflexivity.
  - reflexivity.
  - split.
    + intros _. vm_compute. split; [discriminate | discriminate].
    + vm_compute. discriminate.
Defined.

(** The example: the int -1 comes from the stack sign-extended. *)
Example example_int_move_sign_extends :
  exists st',
    steps example_env (move32_64_code (set1 (stack2reg 0)) (set1 (as_VMReg c_rarg3)))
          example_arg_call st' /\
    pc st' = 1%nat /\ getr (regs st') c_rarg3 = two64 - 1.
Proof.
  exists (run 1 example_env (move32_64_code (set1 (stack2reg 0)) (set1 (as_VMReg c_rarg3)))
              example_arg_call).
  split; [exists 1%nat; reflexivity|]. split; vm_compute; reflexivity.
Qed.

(** X12 (long_move): a long argument arrives with all its 64 bits whichever
    of the four ways it goes; only [t0], the destination register and the
    eight bytes of the destination slot change. *)
Theorem long_move_keeps_value e src dst st :
  pc st = 0%nat -> stat st = Running -> move_ok src dst st ->
  move_post e (long_move_code src dst) W8 src dst st.
Proof.
  intros Hpc Hst Hok.
  destruct (is_stack (first src)) eqn:Hs, (is_stack (first dst)) eqn:Hd.
  - exact (long_move_stack_stack e src dst st Hpc Hst Hok Hs Hd).
  - exact (long_move_stack_reg e src dst st Hpc Hst Hok Hs Hd).
  - exact (long_move_reg_stack e src dst st Hpc Hst Hok Hs Hd).
  - exact (long_move_reg_reg e src dst st Hpc Hst Hok Hs Hd).
Qed.

Lemma long_move_keeps_value_witness :
  move_post example_env (long_move_code (set2 (as_VMReg j_rarg1)) (set2 (stack2reg 2)))
            W8 (set2 (as_VMReg j_rarg1)) (set2 (stack2reg 2)) example_arg_call.
Proof.
  apply (long_move_keeps_value example_env (set2 (as_VMReg j_rarg1)) (set2 (stack2reg 2))
           example_arg_call).
  - reflexivity.
  - reflexivity.
  - split.
    + intros H. vm_compute in H. discriminate H.
    + vm_compute. split; [discriminate | discriminate].
Defined.

(** X13 (SharedRuntime::save_native_result,
    SharedRuntime::restore_native_result): for every result type kept in
    [x10] (all but [T_FLOAT], [T_DOUBLE] and [T_VOID]) a save followed,
    after anything that leaves [fp] and the word below it alone, by a
    restore brings the low 64 bits of [x10] back, whatever [x10] held in
    between; for [T_VOID] neither emits anything.  The save changes no
    register, the restore no register but [x10] and no memory. *)
Theorem native_result_round_trip e ret_type frame_slots st :
  pc st = 0%nat -> stat st = Running ->
  is_fp_type ret_type = false ->
  8 <= getr (regs st) fp <= two64 ->
  native_result_post e ret_type frame_slots st.
Proof.
  intros Hpc Hst Hty Hfp. unfold native_result_post. cbv zeta.
  assert (Hc : ret_type = T_VOID \/
               (assembled (save_native_result ret_type frame_slots)
                = [Istore W8 x10 (Addr fp (- wordSize))] /\
                assembled (restore_native_result ret_type frame_slots)
                = [Iload W8 false x10 (Addr fp (- wordSize))] /\
                ret_type <> T_VOID)).
  { destruct ret_type; try discriminate Hty; first [left; reflexivity | right];
      repeat split; discriminate. }
  destruct Hc as [->|(Hs & Hr & Hv)].
  - exists st. split; [apply steps_refl|]. split; [exact Hpc|]. split; [exact Hst|].
    split; [reflexivity|]. intros st2 Hpc2 Hst2 _ _. exists st2.
    split; [apply steps_refl|]. repeat split; auto.
  - rewrite Hs, Hr. eexists. split.
    { xstep Hpc Hst. apply steps_refl. }
    xsimpl. change (- wordSize) with (-8).
    rewrite (wrap_small (getr (regs st) fp + -8)) by (rewrite two64_eq in *; lia).
    split; [rewrite Hpc; reflexivity|]. split; [exact Hst|]. split; [reflexivity|].
    intros st2 Hpc2 Hst2 Hfp2 Hm. eexists. split.
    { xstep Hpc2 Hst2. apply steps_refl. }
    xsimpl. rewrite Hfp2.
    rewrite (wrap_small (getr (regs st) fp + -8)) by (rewrite two64_eq in *; lia).
    split; [rewrite Hpc2; reflexivity|]. split; [exact Hst2|].
    split; [|split; [|reflexivity]].
    + rewrite (load_agree W8 _ (mem st2)
                 (store W8 (getr (regs st) fp + -8) (getr (regs st) x10) (mem st)))
        by (cbn [bytes_of]; try lia; intros x Hx; apply Hm; lia).
      rewrite load8_store8 by lia.
      destruct ret_type; try contradiction; reflexivity.
    + intros r Hr10. apply getr_write_other. exact Hr10.
Qed.

Lemma native_result_round_trip_witness :
  native_result_post example_env T_OBJECT 16 example_result_call.
Proof.
  apply (native_result_round_trip example_env T_OBJECT 16 example_result_call).
  - reflexivity.
  - reflexivity.
  - reflexivity.
  - vm_compute. split; discriminate.
Defined.








(** Sixteen bytes from 16 to 24 go by longs, twelve by ints. *)
Example example_unsafe_copy_by_ints :
  let p := unsafe_copy_stub product_flags 0 "jbyte_arraycopy" "jshort_arraycopy"
             "jint_arraycopy" "jlong_arraycopy" in
  let st' := run 20 example_env p (example_call 1 16 24 12) in
  stat st' = Exited "jint_arraycopy" /\ getr (regs st') c_rarg2 = 3.
Proof. vm_compute. split; reflexivity. Qed.

Lemma in_bounds_spec pos len alen :
  0 <= alen < 2 ^ 32 ->
  (alen <? sext32 (len + pos)) = negb (in_bounds pos len alen).
Proof.
  intros Ha. unfold sext32, in_bounds. cbv zeta.
  pose proof (Z.mod_pos_bound (len + pos) (2 ^ 32) ltac:(lia)) as Hy.
  set (y := (len + pos) mod 2 ^ 32) in *.
  destruct (Z.ltb_spec y (2 ^ 31)); cbn [andb negb].
  - destruct (Z.ltb_spec alen y); destruct (Z.leb_spec y alen); try lia; reflexivity.
  - apply Z.ltb_lt. unfold wrap. rewrite two64_eq.
    replace ((y - 2 ^ 32) mod 18446744073709551616)
      with (y - 2 ^ 32 + 18446744073709551616); [lia|].
    apply Z.mod_unique with (q := -1); lia.
Qed.

Section RangeChecks.

Variables (e : env) (p : program) (P F : nat) (off : Z).

Variables (src src_pos dst dst_pos length temp : Register) (L_failed : Label).

Variable st : state.

Hypothesis Hc : code_at p P
                  (range_checks_code off src src_pos dst dst_pos length temp L_failed).

Hypothesis HL : label_pos p L_failed = Some F.

Hypothesis Hnd : NoDup [src; src_pos; dst; dst_pos; length; temp; t0].

Hypothesis Htemp : temp <> zr.

Hypotheses (Hpc : pc st = P) (Hst : stat st = Running).

Hypothesis Hsrc : 0 <= getr (regs st) src + off /\ getr (regs st) src + off + 4 <= two64.

Hypothesis Hdst : 0 <= getr (regs st) dst + off /\ getr (regs st) dst + off + 4 <= two64.

Ltac fetch k :=
  match goal with
  | |- nth_error p ?n = _ => replace n with (P + k)%nat by (clear; lia)
  end;
  apply Hc; reflexivity.

Ltac rstep k :=
  eapply steps_step;
  [ xsimpl; exact Hst
  | xsimpl; rewrite ?Hpc; fetch k
  | xsimpl ].

Lemma range_checks_run :
  range_checks_post e p P F off src src_pos dst dst_pos length temp st.
Proof.
  neq_facts Hnd.
  assert (Ht0 : Nat.eqb t0 0 = false) by reflexivity.
  assert (Htmp : Nat.eqb temp 0 = false) by (apply Nat.eqb_neq; exact Htemp).
  unfold range_checks_post. cbv zeta.
  set (a1 := load W4 (getr (regs st) src + off) (mem st)).
  set (a2 := load W4 (getr (regs st) dst + off) (mem st)).
  assert (B1 : 0 <= a1 < 2 ^ 32) by apply (load_bytes_bound 4).
  assert (B2 : 0 <= a2 < 2 ^ 32) by apply (load_bytes_bound 4).
  pose proof (in_bounds_spec (getr (regs st) src_pos) (getr (regs st) length) a1 B1) as C1.
  pose proof (in_bounds_spec (getr (regs st) dst_pos) (getr (regs st) length) a2 B2) as C2.
  cbv [zr t0 x0 x5] in *.
  destruct (in_bounds (getr (regs st) src_pos) (getr (regs st) length) a1) eqn:E1;
    [destruct (in_bounds (getr (regs st) dst_pos) (getr (regs st) length) a2) eqn:E2|];
    cbn [andb negb] in *.
  - eexists. split.
    { rstep 0%nat. rstep 1%nat. rstep 2%nat.
      rewrite (wrap_small (getr (regs st) src + off)) by (clear - Hsrc Hdst; rewrite two64_eq in
          *; lia).
      fold a1. rewrite C1.
      rstep 3%nat. rstep 4%nat. rstep 5%nat.
      rewrite (wrap_small (getr (regs st) dst + off)) by (clear - Hsrc Hdst; rewrite two64_eq in
          *; lia).
      fold a2. rewrite C2.
      eapply steps_step; [xsimpl; exact Hst | xsimpl; rewrite ?Hpc; fetch 6%nat |].
      rewrite other_falls.
      eapply steps_step; [xsimpl; exact Hst | xsimpl; rewrite ?Hpc; fetch 7%nat |].
      rewrite other_falls.
      apply steps_refl. }
    xsimpl. split; [exact Hst|]. split; [rewrite Hpc; clear; lia|].
    split; [reflexivity|]. split; [reflexivity|]. split; [|discriminate].
    intros r Hr. cbn [In] in Hr.
    rewrite !getr_write_other
      by (intros ->; apply Hr; repeat first [left; reflexivity | right]). reflexivity.
  - eexists. split.
    { rstep 0%nat. rstep 1%nat. rstep 2%nat.
      rewrite (wrap_small (getr (regs st) src + off)) by (clear - Hsrc Hdst; rewrite two64_eq in
          *; lia).
      fold a1. rewrite C1.
      rstep 3%nat. rstep 4%nat. rstep 5%nat.
      rewrite (wrap_small (getr (regs st) dst + off)) by (clear - Hsrc Hdst; rewrite two64_eq in
          *; lia).
      fold a2. rewrite C2. cbn [goto]. rewrite HL.
      apply steps_refl. }
    xsimpl. split; [exact Hst|]. split; [reflexivity|].
    split; [reflexivity|]. split; [reflexivity|]. split.
    + intros r Hr. cbn [In] in Hr.
      rewrite !getr_write_other
      by (intros ->; apply Hr; repeat first [left; reflexivity | right]). reflexivity.
    + intros _. split; reflexivity.
  - eexists. split.
    { rstep 0%nat. rstep 1%nat. rstep 2%nat.
      rewrite (wrap_small (getr (regs st) src + off)) by (clear - Hsrc Hdst; rewrite two64_eq in
          *; lia).
      fold a1. rewrite C1. cbn [goto]. rewrite HL.
      apply steps_refl. }
    xsimpl. split; [exact Hst|]. split; [reflexivity|].
    split; [reflexivity|]. split; [reflexivity|]. split.
    + intros r Hr. cbn [In] in Hr.
      rewrite !getr_write_other
      by (intros ->; apply Hr; repeat first [left; reflexivity | right]). reflexivity.
    + intros _. split; reflexivity.
Qed.

End RangeChecks.

(** X15 (arraycopy_range_checks): placed anywhere in a program, the checks
    fall through exactly when, for the source and for the destination, the
    32-bit sum of position and length is not negative and not beyond the
    length word of the array, and go to [L_failed] otherwise -- also when
    the sum overflows into the sign bit; they store nothing, change no
    register but [t0], [temp] and the two positions, and leave the
    positions alone on the way to [L_failed]. *)
Theorem range_checks_reject_out_of_bounds e p P F off
    src src_pos dst dst_pos length temp L_failed st :
  code_at p P (range_checks_code off src src_pos dst dst_pos length temp L_failed) ->
  label_pos p L_failed = Some F ->
  NoDup [src; src_pos; dst; dst_pos; length; temp; t0] -> temp <> zr ->
  pc st = P -> stat st = Running ->
  0 <= getr (regs st) src + off /\ getr (regs st) src + off + 4 <= two64 ->
  0 <= getr (regs st) dst + off /\ getr (regs st) dst + off + 4 <= two64 ->
  range_checks_post e p P F off src src_pos dst dst_pos length temp st.
Proof. apply range_checks_run. Qed.

Lemma range_checks_reject_out_of_bounds_witness :
  range_checks_post example_env example_checks 0%nat 9%nat 12
                    c_rarg0 c_rarg1 c_rarg2 c_rarg3 x28 t1 example_checks_call.
Proof.
  apply (range_checks_reject_out_of_bounds example_env example_checks 0%nat 9%nat 12
           c_rarg0 c_rarg1 c_rarg2 c_rarg3 x28 t1 0%nat example_checks_call).
  - apply code_at_intro. reflexivity.
  - reflexivity.
  - repeat (apply NoDup_cons_2;
            [repeat (apply not_elem_of_cons; split; [discriminate|]); apply not_elem_of_nil|]).
    apply NoDup_nil_2.
  - discriminate.
  - reflexivity.
  - reflexivity.
  - vm_compute. split; discriminate.
  - vm_compute. split; discriminate.
Defined.

(** The example call fails at the second check. *)
Example example_checks_fail_on_overflow :
  let s := run 6 example_env example_checks example_checks_call in
  pc s = 9%nat /\ stat s = Running /\ getr (regs s) t1 = two64 - 2147483647.
Proof. vm_compute. repeat split; reflexivity. Qed.









(** Address in [c_rarg1], count in [c_rarg0]: the runtime gets (16, 3), and
    the three registers are as before. *)
Example example_backwards_range :
  let p := array_pre_barrier_code product_flags [IN_HEAP; IS_ARRAY] c_rarg1 c_rarg0
             [c_rarg0; c_rarg1; c_rarg2] in
  let s := run 6 example_env p (example_call 0 3 16 18) in
  trace s = [EvCall "G1BarrierSetRuntime::write_ref_array_pre_narrow_oop_entry" [16; 3]] /\
  getr (regs s) c_rarg0 = 3 /\ getr (regs s) c_rarg1 = 16.
Proof. vm_compute. repeat split; reflexivity. Qed.

Lemma wrap_sub x k : 0 <= x - k -> x - k < two64 -> wrap (x + wrap (- k)) = x - k.
Proof.
  intros H1 H2. rewrite wrap_add_wrap. apply wrap_small. lia.
Qed.

Lemma land_align x : Z.land x (wrap (-16)) mod 16 = 0.
Proof.
  replace (Z.land x (wrap (-16)) mod 16) with (Z.land (Z.land x (wrap (-16))) (Z.ones 4))
    by (apply Z.land_ones; lia).
  rewrite <- Z.land_assoc. change (Z.land (wrap (-16)) (Z.ones 4)) with 0.
  apply Z.land_0_r.
Qed.

Lemma fixed_frame_code_eq flags lay native_call :
  fixed_frame_code flags lay native_call
  = (if native_call
     then [Ialu Add esp sp (OImm (- 14 * wordSize)); Ialu Add xbcp zr (OImm 0);
           Ialu Add sp sp (OImm (- 14 * wordSize));
           Istore W8 zr (Addr sp (13 * wordSize)); Istore W8 zr (Addr sp (12 * wordSize))]
     else [Ialu Add esp sp (OImm (- 12 * wordSize));
           Iload W8 false t0 (Addr xmethod (const_offset lay));
           Ialu Add xbcp t0 (OImm (codes_offset lay));
           Ialu Add sp sp (OImm (- 12 * wordSize))])
    ++ [Istore W8 xbcp (Addr sp wordSize); Istore W8 esp (Addr sp 0)]
    ++ (if ProfileInterpreter flags
        then [Iload W8 false t0 (Addr xmethod (method_data_offset lay));
              Ibranch Ceq t0 zr (TLabel 0%nat);
              Ialu Add t0 t0 (OImm (data_offset lay)); Ibind 0%nat]
        else [])
    ++ [Istore W8 xmethod (Addr sp (7 * wordSize));
        Istore W8 (if ProfileInterpreter flags then t0 else zr) (Addr sp (6 * wordSize));
        Imacro (Mload_mirror (if UseShenandoahGC flags then x28 else t0) xmethod);
        Istore W8 (if UseShenandoahGC flags then x28 else t0) (Addr sp (4 * wordSize));
        Istore W8 zr (Addr sp (5 * wordSize));
        Imacro (Mother "load_constant_pool_cache" [xcpool] [] true);
        Istore W8 xcpool (Addr sp (3 * wordSize));
        Istore W8 xlocals (Addr sp (2 * wordSize));
        Istore W8 lr (Addr sp (11 * wordSize));
        Istore W8 fp (Addr sp (10 * wordSize));
        Ialu Add fp sp (OImm (10 * wordSize));
        Istore W8 x30 (Addr sp (9 * wordSize));
        Istore W8 zr (Addr sp (8 * wordSize))]
    ++ (if native_call then []
        else [Imacro (Mother "load_max_stack" [t0] [] true);
              Ialu Add t0 t0 (OImm (interpreter_frame_monitor_size lay + 2));
              Ialu Sll t0 t0 (OImm 3); Ialu Sub t0 sp (OReg t0);
              Ialu And sp t0 (OImm (-16))]).
Proof.
  unfold fixed_frame_code, assembled, assemble, generate_fixed_frame.
  destruct native_call, (ProfileInterpreter flags), (UseShenandoahGC flags); reflexivity.
Qed.

Ltac frun Hpc Hst := repeat first [mstep Hpc Hst | xstep Hpc Hst].

(** A word read back through the stores of the frame. *)
Ltac rd :=
  repeat match goal with
         | |- context [load W8 ?a (store W8 ?b ?v ?m)] =>
             first [ rewrite (load_store_other a b v m) by lia
                   | replace b with a by lia; rewrite (load8_store8 a v m) by lia ]
         end.

Ltac word_value :=
  change (256 ^ 8) with two64;
  try match goal with
      | H : ?x = 0 |- ?x mod _ = _ => rewrite H
      end;
  first [ reflexivity
        | apply Z.mod_small; lia
        | match goal with |- ?x mod two64 = _ => fold (wrap x) end;
          rewrite ?wrap_wrap, ?wrap_add_wrap; reflexivity ].

Ltac words :=
  unfold words_at; cbn [map seq Z.of_nat Pos.of_succ_nat Pos.succ];
  repeat (apply f_equal2; [rd; word_value|]); try reflexivity.

Section Frame.

Variables (e : env) (flags : vm_flags) (lay : vm_layout) (st : state).

Hypotheses (Hpc : pc st = 0%nat) (Hst : stat st = Running).

Ltac frame_done Eb :=
  xsimpl; rewrite ?Eb;
  repeat match goal with
         | |- context [wrap (?b + ?k)] => rewrite (wrap_small (b + k)) by lia
         end;
  (split; [rewrite ?Hpc; reflexivity|]); (split; [exact Hst|]);
  (split; [words|]);
  (split; [first [discriminate | intros _; words]|]);
  (split; [rewrite ?wrap_add_wrap; first [reflexivity | apply wrap_small; lia]|]);
  (split; [first [reflexivity | lia]|]);
  (split; [rewrite ?wrap_add_wrap; reflexivity|]);
  (split; [first [apply land_align | reflexivity | lia]|]);
  (split; [|reflexivity]);
  intros x Hx; rewrite !store_out by (cbn [bytes_of]; lia); reflexivity.

Lemma fixed_frame_java :
  fixed_frame_ok flags lay false st -> fixed_frame_post e flags lay false st.
Proof.
  intros (Hb & Hs & Hconst & Hmd). specialize (Hconst eq_refl).
  unfold fixed_frame_post, frame_mdp, frame_bcp. rewrite fixed_frame_code_eq.
  unfold fixed_frame_words, wordSize in *. cbv zeta in *.
  pose proof two64_eq as T64.
  set (s := getr (regs st) sp) in *.
  set (method := getr (regs st) xmethod) in *.
  assert (Eb : wrap (s + wrap (-12 * 8)) = s - 96) by (apply (wrap_sub s 96); lia).
  set (md := load W8 (method + method_data_offset lay) (mem st)).
  replace (s - 12 * 8) with (s - 96) in * by lia.
  destruct (ProfileInterpreter flags) eqn:HP, (UseShenandoahGC flags) eqn:HS; cbn [app].
  1, 2: specialize (Hmd eq_refl); destruct (md =? 0) eqn:Emd.
  1, 2, 3, 4: eexists; (split;
    [ frun Hpc Hst; fold s method; rewrite !Eb;
      rewrite !(wrap_small (method + _)) by lia;
      rewrite !(wrap_small (s - 96 + _)) by lia;
      rewrite !load_store_other by lia;
      fold md; rewrite Emd; xlabel;
      frun Hpc Hst; apply steps_refl |]).
  5, 6: eexists; (split; [frun Hpc Hst; apply steps_refl|]).
  all: try apply Z.eqb_eq in Emd.
  all: fold s method; rewrite ?(wrap_small (method + _)) by lia.
  all: frame_done Eb.
Qed.

Lemma fixed_frame_native :
  fixed_frame_ok flags lay true st -> fixed_frame_post e flags lay true st.
Proof.
  intros (Hb & Hs & _ & Hmd).
  unfold fixed_frame_post, frame_mdp, frame_bcp. rewrite fixed_frame_code_eq.
  unfold fixed_frame_words, wordSize in *. cbv zeta in *.
  pose proof two64_eq as T64.
  set (s := getr (regs st) sp) in *.
  set (method := getr (regs st) xmethod) in *.
  assert (Eb : wrap (s + wrap (-14 * 8)) = s - 112) by (apply (wrap_sub s 112); lia).
  set (md := load W8 (method + method_data_offset lay) (mem st)).
  replace (s - 14 * 8) with (s - 112) in * by lia.
  destruct (ProfileInterpreter flags) eqn:HP, (UseShenandoahGC flags) eqn:HS; cbn [app].
  1, 2: specialize (Hmd eq_refl); destruct (md =? 0) eqn:Emd.
  1, 2, 3, 4: eexists; (split;
    [ frun Hpc Hst; fold s method; rewrite !Eb;
      rewrite !(wrap_small (method + _)) by lia;
      rewrite !(wrap_small (s - 112 + _)) by lia;
      rewrite !load_store_other by lia;
      fold md; rewrite Emd; xlabel;
      frun Hpc Hst; apply steps_refl |]).
  5, 6: eexists; (split; [frun Hpc Hst; apply steps_refl|]).
  all: try apply Z.eqb_eq in Emd.
  all: fold s method; rewrite ?(wrap_small (method + _)) by lia.
  all: frame_done Eb.
Qed.

End Frame.

(** X18 (TemplateInterpreterGenerator::generate_fixed_frame): entered with
    stack pointer [s], the code builds the fixed frame in the 12 words (14
    for a native method) below [s] and nowhere else: from the bottom the
    expression stack pointer, bytecode pointer, locals, constant pool cache,
    mirror, a zero, method data pointer, method, a zero last sp, sender sp,
    saved [fp] and return address, with two zero words on top for a native
    method; [fp] is left pointing at the saved [fp], [esp] at the bottom
    word, and for a Java method [sp] ends 16-byte aligned. *)
Theorem fixed_frame_layout e flags lay native_call st :
  pc st = 0%nat -> stat st = Running ->
  fixed_frame_ok flags lay native_call st ->
  fixed_frame_post e flags lay native_call st.
Proof.
  intros Hpc Hst Hok. destruct native_call.
  - exact (fixed_frame_native e flags lay st Hpc Hst Hok).
  - exact (fixed_frame_java e flags lay st Hpc Hst Hok).
Qed.

Lemma fixed_frame_layout_witness :
  fixed_frame_post example_env product_flags example_layout false example_frame_call.
Proof.
  apply (fixed_frame_layout example_env product_flags example_layout false
           example_frame_call).
  - reflexivity.
  - reflexivity.
  - unfold fixed_frame_ok. cbv zeta. split; [vm_compute; discriminate|].
    split; [vm_compute; reflexivity|]. split.
    + intros _. vm_compute. split; discriminate.
    + intros _. split; [vm_compute; discriminate|]. split; [vm_compute; discriminate|].
      left. vm_compute. discriminate.
Defined.

Lemma zero_block_run n : forall s,
  zero_block n x28 s = Some (tt, mkAsm (code s ++ zero_block_code n) (labels s)).
Proof.
  induction n as [|n IH]; intros s.
  - cbn. rewrite app_nil_r. destruct s; reflexivity.
  - cbn [zero_block]. unfold add_imm, sd. unfold mbind, gen_bind, emit.
    rewrite IH. cbn [code labels zero_block_code]. rewrite <- !app_assoc. reflexivity.
Qed.

Lemma zero_block_code_length n : length (zero_block_code n) = (2 * n)%nat.
Proof. induction n as [|n IH]; cbn [zero_block_code length]; [|rewrite IH]; lia. Qed.

Lemma zero_block_code_plain n : forallb plain (zero_block_code n) = true.
Proof. induction n as [|n IH]; [reflexivity|]. cbn. exact IH. Qed.

Lemma zero_blocks_code bs :
  zero_blocks_stub bs
  = [Imacro Malign; Ialu Sub x29 x29 (OImm (Z.of_nat bs)); Ibranch Clt x29 zr (TLabel 2%nat);
     Ibind 4%nat]
    ++ zero_block_code bs
    ++ [Ialu Sub x29 x29 (OImm (Z.of_nat bs)); Ibranch Cge x29 zr (TLabel 4%nat);
        Ibind 2%nat; Ialu Add x29 x29 (OImm (Z.of_nat bs)); Imacro Mret].
Proof.
  unfold zero_blocks_stub, assembled, assemble, generate_zero_blocks.
  unfold mbind, gen_bind, new_label, align, cur_pc, sub_imm, bltz, bind, bgez, add_imm, ret,
    emit, mret, gen_ret.
  cbn [code labels app length]. rewrite zero_block_run. cbn [code labels app].
  rewrite <- !app_assoc. reflexivity.
Qed.

Lemma signed_wrap x : - 2 ^ 63 <= x < 2 ^ 63 -> signed (wrap x) = x.
Proof.
  intros H. unfold signed, wrap. rewrite two64_eq.
  destruct (Z_lt_le_dec x 0) as [Hn|Hp].
  - replace (x mod 18446744073709551616) with (x + 18446744073709551616)
      by (apply Z.mod_unique with (q := -1); lia).
    destruct (Z.ltb_spec (x + 18446744073709551616) (2 ^ 63)); lia.
  - rewrite Z.mod_small by lia. destruct (Z.ltb_spec x (2 ^ 63)); lia.
Qed.

Lemma store_zero_in a m x :
  0 <= a -> a + 8 <= two64 -> a <= x < a + 8 -> store W8 a 0 m x = 0.
Proof.
  intros Ha Hb Hx. unfold store. rewrite store_bytes_in by (cbn; lia).
  rewrite Z.div_0_l by (apply Z.pow_nonzero; lia). reflexivity.
Qed.

Section ZeroBlocks.

Variables (e : env) (p : program).

(** [n] words from [B] on. *)
Lemma block_run n : forall (P : nat) st B,
  code_at p P (zero_block_code n) ->
  pc st = P -> stat st = Running ->
  getr (regs st) x28 = B -> 0 <= B -> B + 8 * Z.of_nat n < two64 ->
  exists st',
    steps e p st st' /\ pc st' = (P + 2 * n)%nat /\ stat st' = Running /\
    getr (regs st') x28 = B + 8 * Z.of_nat n /\
    (forall r, r <> x28 -> getr (regs st') r = getr (regs st) r) /\
    (forall x, B <= x < B + 8 * Z.of_nat n -> mem st' x = 0) /\
    (forall x, x < B \/ B + 8 * Z.of_nat n <= x -> mem st' x = mem st x) /\
    saved st' = saved st.
Proof.
  induction n as [|n IH]; intros P st B Hc Hpc Hst HB H0 H1.
  - exists st. split; [apply steps_refl|]. split; [lia|].
    split; [exact Hst|]. split; [lia|]. repeat split; auto. intros x Hx. lia.
  - cbn [zero_block_code] in Hc. rewrite Nat2Z.inj_succ in *.
    set (st2 := next (write x28 (B + 8) (next (poke W8 B 0 st)))).
    assert (S2 : steps e p st st2).
    { eapply steps_step; [exact Hst | |].
      { rewrite Hpc, <- (Nat.add_0_r P). apply Hc. reflexivity. }
      eapply steps_step; [exact Hst | |].
      { cbn [exec next poke pc]. rewrite Hpc, <- Nat.add_1_r. apply Hc. reflexivity. }
      xsimpl. rewrite HB. rewrite Z.add_0_r, (wrap_small B) by lia.
      change (wrap 8) with 8. rewrite (wrap_small (B + 8)) by lia.
      apply steps_refl. }
    assert (Hc2 : code_at p (P + 2) (zero_block_code n))
      by (apply (code_at_app_r p P [_; _] _ Hc)).
    destruct (IH (P + 2)%nat st2 (B + 8) Hc2)
      as (st' & S3 & R1 & R2 & R3 & R4 & R5 & R6 & R7).
    { unfold st2. cbn [pc next poke write]. rewrite Hpc. lia. }
    { exact Hst. }
    { reflexivity. }
    { lia. }
    { lia. }
    exists st'. split; [eapply steps_trans; eassumption|].
    split; [lia|]. split; [exact R2|]. split; [lia|].
    split; [|split; [|split]].
    + intros r Hr. rewrite R4 by exact Hr. unfold st2. cbn [regs next poke write].
      apply getr_write_other. exact Hr.
    + intros x Hx. destruct (Z_lt_le_dec x (B + 8)) as [Hl|Hg].
      * rewrite R6 by lia. unfold st2. cbn [mem next poke write].
        apply store_zero_in; lia.
      * apply R5. lia.
    + intros x Hx. rewrite R6 by lia. unfold st2. cbn [mem next poke write].
      apply store_out; cbn [bytes_of]; lia.
    + exact R7.
Qed.

End ZeroBlocks.

Section ZeroLoop.

Variables (e : env) (bs : nat).

Hypothesis Hbs : (1 <= bs)%nat.

Local Abbreviation p := (zero_blocks_stub bs).

Local Abbreviation w := (Z.of_nat bs).

Lemma zero_loop_label : label_pos p 4%nat = Some 3%nat.
Proof. rewrite zero_blocks_code. reflexivity. Qed.

Lemma zero_done_label : label_pos p 2%nat = Some (6 + 2 * bs)%nat.
Proof.
  rewrite zero_blocks_code.
  rewrite label_pos_app. cbn [label_pos Nat.eqb option_map].
  rewrite label_pos_app, (label_pos_plain _ _ (zero_block_code_plain bs)).
  cbn [label_pos Nat.eqb option_map length]. rewrite zero_block_code_length.
  f_equal. lia.
Qed.

Lemma zero_code_block : code_at p 4 (zero_block_code bs).
Proof.
  rewrite zero_blocks_code. intros k i Hk.
  rewrite nth_error_app2 by (cbn [length]; lia).
  replace (4 + k - length [Imacro Malign; Ialu Sub x29 x29 (OImm w);
                           Ibranch Clt x29 zr (TLabel 2%nat); Ibind 4%nat])%nat
    with k by (cbn [length]; lia).
  rewrite nth_error_app1; [exact Hk|]. apply nth_error_Some. congruence.
Qed.

Lemma zero_code_post :
  code_at p (4 + 2 * bs)
    [Ialu Sub x29 x29 (OImm w); Ibranch Cge x29 zr (TLabel 4%nat);
     Ibind 2%nat; Ialu Add x29 x29 (OImm w); Imacro Mret].
Proof.
  rewrite zero_blocks_code. intros k i Hk.
  rewrite nth_error_app2 by (cbn [length]; lia).
  rewrite nth_error_app2 by (cbn [length]; rewrite zero_block_code_length; lia).
  rewrite zero_block_code_length.
  replace (4 + 2 * bs + k - length [Imacro Malign; Ialu Sub x29 x29 (OImm w);
                                    Ibranch Clt x29 zr (TLabel 2%nat); Ibind 4%nat]
           - 2 * bs)%nat
    with k by (cbn [length]; lia).
  exact Hk.
Qed.

Lemma zero_code_pre k i :
  nth_error [Imacro Malign; Ialu Sub x29 x29 (OImm w); Ibranch Clt x29 zr (TLabel 2%nat);
             Ibind 4%nat] k = Some i ->
  nth_error p k = Some i.
Proof.
  intros Hk. rewrite zero_blocks_code. rewrite nth_error_app1; [exact Hk|].
  apply nth_error_Some. congruence.
Qed.

(** From [done]: the count is put back, and the stub returns. *)
Lemma zero_exit st rem :
  pc st = (6 + 2 * bs)%nat -> stat st = Running ->
  getr (regs st) x29 = wrap (rem - w) -> 0 <= rem < w -> w < 2 ^ 62 ->
  exists st',
    steps e p st st' /\ stat st' = Returned /\ getr (regs st') x29 = rem /\
    (forall r, r <> x29 -> getr (regs st') r = getr (regs st) r) /\
    mem st' = mem st /\ saved st' = saved st.
Proof.
  intros Hpc Hst H29 Hrem Hw. pose proof two64_eq as T64.
  eexists. split.
  { eapply steps_step; [exact Hst | |].
    { rewrite Hpc. replace (6 + 2 * bs)%nat with (4 + 2 * bs + 2)%nat by lia.
      apply zero_code_post. reflexivity. }
    eapply steps_step; [exact Hst | |].
    { cbn [exec next pc]. rewrite Hpc.
      replace (S (6 + 2 * bs))%nat with (4 + 2 * bs + 3)%nat by lia.
      apply zero_code_post. reflexivity. }
    eapply steps_step; [exact Hst | |].
    { xsimpl. rewrite Hpc.
      replace (S (S (6 + 2 * bs)))%nat with (4 + 2 * bs + 4)%nat by lia.
      apply zero_code_post. reflexivity. }
    xsimpl. apply steps_refl. }
  xsimpl. split; [reflexivity|]. split.
  { rewrite H29, (wrap_small w) by lia. rewrite Z.add_comm, wrap_add_wrap.
    rewrite wrap_small by lia. lia. }
  split; [|split; reflexivity].
  intros r Hr. apply getr_write_other. exact Hr.
Qed.

(** From [loop]: [k + 1] blocks to go. *)
Lemma zero_loop k : forall st B rem,
  pc st = 3%nat -> stat st = Running ->
  getr (regs st) x28 = B -> getr (regs st) x29 = Z.of_nat k * w + rem ->
  0 <= rem < w -> 0 <= B ->
  B + 8 * (w * (Z.of_nat k + 1)) < two64 ->
  (Z.of_nat k + 1) * w + rem < 2 ^ 62 ->
  exists st',
    steps e p st st' /\ stat st' = Returned /\
    getr (regs st') x28 = B + 8 * (w * (Z.of_nat k + 1)) /\
    getr (regs st') x29 = rem /\
    (forall x, B <= x < B + 8 * (w * (Z.of_nat k + 1)) -> mem st' x = 0) /\
    (forall x, x < B \/ B + 8 * (w * (Z.of_nat k + 1)) <= x -> mem st' x = mem st x) /\
    saved st' = saved st /\
    (forall r, r <> x28 -> r <> x29 -> getr (regs st') r = getr (regs st) r).
Proof.
  pose proof two64_eq as T64.
  induction k as [|k IH]; intros st B rem Hpc Hst H28 H29 Hrem HB Hend Hcnt.
  all: assert (S1 : steps e p st (next st) -> True) by auto; clear S1.
  all: destruct (block_run e p bs 4%nat (next st) B zero_code_block)
         as (st1 & S1 & P1 & T1 & R28 & Ro & Z1 & M1 & V1);
    [ cbn [pc next]; rewrite Hpc; reflexivity | exact Hst | exact H28 | exact HB
    | nia | ].
  all: assert (S0 : steps e p st st1)
    by (eapply steps_step;
        [exact Hst | rewrite Hpc; apply zero_code_pre; reflexivity | exact S1]).
  all: assert (E29 : getr (regs st1) x29 = getr (regs st) x29)
    by (rewrite Ro by discriminate; reflexivity).
  - (* the last block *)
    set (st2 := next (next (write x29 (wrap (rem - w)) st1))).
    assert (S2 : steps e p st1 st2).
    { eapply steps_step; [exact T1 | |].
      { rewrite P1, <- (Nat.add_0_r (4 + 2 * bs)). apply zero_code_post. reflexivity. }
      eapply steps_step; [exact T1 | |].
      { cbn [exec next write pc]. rewrite P1, <- Nat.add_1_r.
        apply zero_code_post. reflexivity. }
      xsimpl. rewrite E29, H29. rewrite (wrap_small w) by lia.
      change (Z.of_nat 0 * w + rem - w) with (rem - w).
      rewrite signed_wrap by lia. change (signed 0) with 0.
      destruct (Z.leb_spec 0 (rem - w)); [lia|]. apply steps_refl. }
    destruct (zero_exit st2 rem) as (st3 & S3 & T3 & R3 & O3 & M3 & V3).
    { unfold st2. cbn [pc next write]. rewrite P1. lia. }
    { exact T1. }
    { unfold st2. xsimpl. reflexivity. }
    { exact Hrem. }
    { lia. }
    exists st3. split; [eapply steps_trans; [exact S0|eapply steps_trans; eassumption]|].
    split; [exact T3|].
    split; [rewrite O3 by discriminate; unfold st2; xsimpl; rewrite R28; lia|].
    split; [exact R3|].
    split; [intros x Hx; rewrite M3; unfold st2; xsimpl; apply Z1; lia|].
    split; [intros x Hx; rewrite M3; unfold st2; xsimpl; rewrite M1 by lia; reflexivity|].
    split; [rewrite V3; unfold st2; xsimpl; exact V1|].
    intros r H1 H2. rewrite O3 by exact H2. unfold st2. xsimpl.
    rewrite getr_write_other by exact H2. rewrite Ro by exact H1. reflexivity.
  - (* one block, and round the loop *)
    rewrite Nat2Z.inj_succ in *.
    set (st2 := mkState 3 (regs (write x29 (Z.of_nat k * w + rem) st1)) (mem st1)
                        (saved st1) (trace st1) (stat st1)).
    assert (S2 : steps e p st1 st2).
    { eapply steps_step; [exact T1 | |].
      { rewrite P1, <- (Nat.add_0_r (4 + 2 * bs)). apply zero_code_post. reflexivity. }
      eapply steps_step; [exact T1 | |].
      { cbn [exec next write pc]. rewrite P1, <- Nat.add_1_r.
        apply zero_code_post. reflexivity. }
      xsimpl. rewrite E29, H29. rewrite (wrap_small w) by lia.
      replace (Z.succ (Z.of_nat k) * w + rem - w) with (Z.of_nat k * w + rem) by lia.
      rewrite (wrap_small (Z.of_nat k * w + rem)) by nia.
      change (signed 0) with 0. rewrite signed_small by nia.
      destruct (Z.leb_spec 0 (Z.of_nat k * w + rem)); [|nia].
      cbn [goto]. rewrite zero_loop_label. apply steps_refl. }
    destruct (IH st2 (B + 8 * w) rem) as (st3 & S3 & T3 & R3 & C3 & Z3 & M3 & V3 & O3).
    { reflexivity. }
    { exact T1. }
    { unfold st2. xsimpl. exact R28. }
    { unfold st2. xsimpl. reflexivity. }
    { exact Hrem. }
    { nia. }
    { nia. }
    { nia. }
    exists st3. split; [eapply steps_trans; [exact S0|eapply steps_trans; eassumption]|].
    split; [exact T3|].
    split; [rewrite R3; lia|].
    split; [exact C3|].
    split; [|split; [|split]].
    + intros x Hx. destruct (Z_lt_le_dec x (B + 8 * w)) as [Hl|Hg].
      * rewrite M3 by lia. unfold st2. cbn [mem]. apply Z1. lia.
      * apply Z3. lia.
    + intros x Hx. rewrite M3 by nia. unfold st2. cbn [mem]. rewrite M1 by nia.
      reflexivity.
    + rewrite V3. exact V1.
    + intros r H1 H2. rewrite O3 by assumption. unfold st2. xsimpl.
      rewrite getr_write_other by exact H2. rewrite Ro by exact H1. reflexivity.
Qed.

End ZeroLoop.

(** X19 (generate_zero_blocks): called with a base address in [x28] and a
    count of words in [x29], the stub zeroes the whole blocks of
    [zero_words_block_size] words that fit into the count and not a byte
    more, and returns the address behind them in [x28] and the count of
    the words left over, fewer than a block, in [x29]; with a count below
    one block it writes nothing. *)
Theorem zero_blocks_clears_whole_blocks e bs st b c :
  (1 <= bs)%nat -> Z.of_nat bs < 2 ^ 62 ->
  pc st = 1%nat -> stat st = Running ->
  getr (regs st) x28 = b -> getr (regs st) x29 = c ->
  0 <= b -> 0 <= c < 2 ^ 62 -> b + 8 * c < two64 ->
  zero_blocks_post e bs st b c.
Proof.
  intros Hbs Hw Hpc Hst H28 H29 Hb Hc Hend. pose proof two64_eq as T64.
  unfold zero_blocks_post. cbv zeta.
  set (w := Z.of_nat bs) in *.
  pose proof (Z.div_mod c w ltac:(lia)) as Hdm.
  pose proof (Z.mod_pos_bound c w ltac:(lia)) as Hrem.
  assert (Hq : 0 <= c / w) by (apply Z.div_pos; lia).
  set (q := c / w) in *. set (rem := c mod w) in *.
  set (st1 := next (write x29 (wrap (c - w)) st)).
  assert (F1 : nth_error (zero_blocks_stub bs) 1 = Some (Ialu Sub x29 x29 (OImm w)))
    by (apply zero_code_pre; reflexivity).
  assert (F2 : nth_error (zero_blocks_stub bs) 2 = Some (Ibranch Clt x29 zr (TLabel 2%nat)))
    by (apply zero_code_pre; reflexivity).
  destruct (Z.eq_dec q 0) as [Hq0|Hq0].
  - (* less than a block *)
    assert (Hcr : c = rem) by nia.
    set (st2 := mkState (6 + 2 * bs) (regs st1) (mem st1) (saved st1) (trace st1) (stat st1)).
    assert (S2 : steps e (zero_blocks_stub bs) st st2).
    { eapply steps_step; [exact Hst | rewrite Hpc; exact F1 |].
      eapply steps_step; [exact Hst | cbn [exec next write pc]; rewrite Hpc; exact F2 |].
      xsimpl. rewrite H29, (wrap_small w) by lia.
      change (signed 0) with 0. rewrite signed_wrap by lia.
      destruct (Z.ltb_spec (c - w) 0); [|lia].
      cbn [goto]. rewrite zero_done_label by exact Hbs. apply steps_refl. }
    destruct (zero_exit e bs Hbs st2 rem) as (st3 & S3 & T3 & R3 & O3 & M3 & V3).
    { reflexivity. }
    { exact Hst. }
    { unfold st2, st1. xsimpl. rewrite <- Hcr. reflexivity. }
    { exact Hrem. }
    { exact Hw. }
    exists st3. split; [eapply steps_trans; eassumption|].
    split; [exact T3|]. rewrite Hq0, Z.mul_0_r, Z.mul_0_r, Z.add_0_r.
    split; [rewrite O3 by discriminate; unfold st2, st1; xsimpl; exact H28|].
    split; [exact R3|].
    split; [intros x Hx; lia|].
    split; [intros x _; rewrite M3; reflexivity|].
    split; [rewrite V3; reflexivity|].
    intros r H1 H2. rewrite O3 by exact H2. unfold st2, st1. xsimpl.
    apply getr_write_other. exact H2.
  - (* at least one block *)
    assert (S1 : steps e (zero_blocks_stub bs) st (next st1)).
    { eapply steps_step; [exact Hst | rewrite Hpc; exact F1 |].
      eapply steps_step; [exact Hst | cbn [exec next write pc]; rewrite Hpc; exact F2 |].
      xsimpl. rewrite H29, (wrap_small w) by lia.
      change (signed 0) with 0. rewrite signed_wrap by nia.
      destruct (Z.ltb_spec (c - w) 0); [nia|]. apply steps_refl. }
    destruct (zero_loop e bs Hbs (Z.to_nat (q - 1)) (next st1) b rem)
      as (st3 & S3 & T3 & R3 & C3 & Z3 & M3 & V3 & O3).
    { unfold st1. cbn [pc next write]. rewrite Hpc. reflexivity. }
    { exact Hst. }
    { unfold st1. xsimpl. exact H28. }
    { unfold st1. xsimpl. rewrite wrap_small by nia. rewrite Z2Nat.id by lia. nia. }
    { exact Hrem. }
    { exact Hb. }
    { rewrite Z2Nat.id by lia. nia. }
    { rewrite Z2Nat.id by lia. nia. }
    rewrite Z2Nat.id in * by lia.
    replace (q - 1 + 1) with q in * by lia.
    exists st3. split; [eapply steps_trans; eassumption|].
    split; [exact T3|]. split; [exact R3|]. split; [exact C3|].
    split; [exact Z3|]. split; [exact M3|]. split; [exact V3|].
    intros r H1 H2. rewrite O3 by assumption. unfold st1. xsimpl.
    apply getr_write_other. exact H2.
Qed.

Lemma zero_blocks_clears_whole_blocks_witness :
  zero_blocks_post example_env 8 example_zero_call 16 19.
Proof.
  apply (zero_blocks_clears_whole_blocks example_env 8 example_zero_call 16 19).
  - lia.
  - reflexivity.
  - reflexivity.
  - reflexivity.
  - reflexivity.
  - reflexivity.
  - lia.
  - lia.
  - vm_compute. reflexivity.
Defined.

(** The example: two blocks are cleared, three words are left at 144. *)
Example example_zero_two_blocks :
  let s := run 60 example_env (zero_blocks_stub 8) example_zero_call in
  stat s = Returned /\ getr (regs s) x28 = 144 /\ getr (regs s) x29 = 3 /\
  mem s 16 = 0 /\ mem s 31 = 0.
Proof. vm_compute. repeat split; reflexivity. Qed.
